(* ===== verification/_CoqProject ===== *)
-Q . S2P
Prelude.v
RustStr.v
FlatBuffers.v
EntitySchema.v
EventSchema.v
MetadataSchema.v
FlatBuffersProps.v
Json.v
NanoTdf.v
Services.v
SimWorld.v
SessionManager.v
SessionCodec.v
MediaMetrics.v
SessionLimit.v
SessionProps.v
Crypto.v
Chain.v
CryptoSample.v
ChainProps.v
MediaApi.v
MediaSample.v
MediaApiProps.v
HttpRewrap.v
HttpRewrapProps.v
NtdfToken.v
MediaPolicy.v
C2paPolicy.v
ContentRating.v
Contracts.v
CborProtocol.v
WebSocket.v
WebSocketSample.v
WebSocketProps.v
WebSocketEvents.v
SchemaEvents.v
ServerConfig.v
RtmpRelay.v
RtmpMedia.v
RtmpSample.v
RtmpRelayProps.v
RtmpSession.v
RtmpProps.v
RtmpLive.v
Listeners.v
HttpHeaders.v
PlatformProxy.v
SecureKeys.v
FairPlay.v
FpsTypes.v
FpsSpc.v
FpsSpcProps.v
FpsRequest.v
FpsCkc.v
FpsCkcProps.v
FpsLicense.v
FpsCerts.v
FpsSdk.v
FpsSdkProps.v
FpsWrapper.v
FpsSample.v
H3.v
H3Props.v
C2paSigning.v
C2paSigningProps.v
AuthzenSubject.v
AuthzenTranslate.v
AuthzenVerify.v
AuthzenKeys.v
AuthzenFacade.v
AuthzenSubjectProps.v
AuthzenVerifyProps.v
AuthzenKeysProps.v
AuthzenBatchProps.v
AuthzenFacadeProps.v
AuthzenSample.v
Routing.v
Startup.v
StartupProps.v
StartupSample.v
