(* ===== verification/Prelude.v ===== *)
(** * Verification of the Arkavo backend (arks)

    A model of the key access server under src/src, of the FairPlay wrapper under src/crates,
    of the FairPlay SDK under src/vendor/fpssdk and of the policy contracts, with the theorems
    that make them correct.

    ** The program

    The server releases content keys.  [main] (bin/main.rs) reads the settings and keys, merges
    the routers and listens over TLS and, if asked to, over HTTP/3 (modules/h3.rs).  A client
    opens a playback session, which Redis keeps alive by heartbeats (session_manager.rs), and
    asks for keys over HTTP (modules/media_api.rs, modules/http_rewrap.rs) or on a WebSocket
    (bin/main.rs, with the CBOR messages of modules/cbor_protocol.rs and the FlatBuffers of
    bin/schemas).  A key request is checked against the session, then, where a chain validator
    is configured, against a session grant on a blockchain (chain/validator.rs, with the
    node's client in chain/client.rs and the caches of grants and nonces in chain/cache.rs);
    then the NanoTDF header of the request is parsed (lib.rs) and its key rewrapped for the
    client, or a FairPlay key context is made: modules/fairplay.rs calls fairplay-wrapper,
    which passes the request as JSON to the vendored SDK.  The SDK decrypts the license
    request (SPC) of the player, checks it against business rules, has a precompiled library
    wrap the content key, and writes the license response (CKC).
    Latencies and events go to media_metrics.rs.  Tokens are parsed and validated by
    modules/ntdf_token.rs, signatures by modules/crypto.rs.  Smart contracts (bin/contracts
    and etc/contracts) decide access by policy.  Beside this the server relays live streams
    (modules/rtmp), signs media manifests (modules/c2pa_signing.rs), decides authorization
    requests with an upstream point (modules/authzen), and forwards other requests to a
    platform (modules/platform_proxy.rs).

    ** The files

    Foundations.
    - [Prelude]: Rust's [Result] and panics, machine integers, bytes, UTF-8, decimal text,
      the tactics and the hint database [backend].  [RustStr]: the methods of [str].  [Json]:
      JSON and CBOR values.  [HttpHeaders]: header maps.
    - [Services]: programs over the external services.  An asynchronous function is a [prog],
      a tree of [event]s: Redis commands, the clocks, the cache, the chain node, the shared
      cells, randomness, NATS, the latency window, the FairPlay SDK.  [World] is the
      interface of the services and [WorldLaws] their documented behaviour.  A program is
      run alone ([run], with a program logic [hoare]), in any interleaving ([steps], with
      [steps_ensures]), or described by its traces ([path], [ensures], [all_events]).
    - [SimWorld], [SessionCodec], [CryptoSample], [MediaSample], [WebSocketSample],
      [RtmpSample], [AuthzenSample], [StartupSample], [FpsSample]: concrete instances of the services and
      crates, which satisfy the laws; they run the models on concrete inputs.

    Keys and sessions.
    - [NanoTdf] (lib.rs): [BinaryParser] as a state monad with errors and panics; one
      definition per reading method.
    - [SessionManager] (session_manager.rs): every method; [SessionLimit] and [SessionProps]
      its theorems.
    - [Crypto] (modules/crypto.rs): the signature formats, and the class [Primitives] of what
      the cryptographic crates provide.  [SecureKeys] (modules/secure_keys.rs): the wrappers
      of the private keys.
    - [Chain] (chain/): error.rs, types.rs, cache.rs, client.rs and validator.rs;
      [ChainProps] its theorems.
    - [MediaMetrics] (media_metrics.rs): events, latency window, percentiles.
    - [MediaApi] (modules/media_api.rs): every handler, and the PEM helpers of crypto.rs;
      [MediaApiProps] its theorems, proved against the interface of the chain validator
      ([Validates], [QuietValidator]) that [ChainProps] discharges.
    - [FairPlay] (fairplay-wrapper and modules/fairplay.rs): the SDK's calls as events.
    - The FairPlay SDK (vendor/fpssdk/src): [FpsTypes] constants, structures and byte
      utilities; [FpsSpc] license requests (base_spc_parse.rs, parse_spc_TLLVs); [FpsCkc]
      business rules and license responses (business_rules.rs, base_ckc_parse.rs,
      base_ckc_generate.rs, construct_ckc_TLLVs), with random bytes, files and the key library
      as events; [FpsCerts] the certificates (parse_certificates.rs); [FpsSdk] operations in
      JSON and the C interface (parse_json, serialize.rs, lib.rs).  [FpsSpcProps],
      [FpsRequest], [FpsCkcProps], [FpsLicense] and [FpsSdkProps] are their theorems, and
      [FpsWrapper] puts the wrapper and the SDK together.
    - [HttpRewrap] (modules/http_rewrap.rs) and [HttpRewrapProps].
    - [NtdfToken] (modules/ntdf_token.rs): the payload parser and token validation.
    - [MediaPolicy], [C2paPolicy], [ContentRating], [Contracts]: the contracts of
      bin/contracts and etc/contracts.

    Transports.
    - [CborProtocol] (modules/cbor_protocol.rs), [WebSocket] (the connection and its handlers
      in bin/main.rs), [WebSocketProps] and [WebSocketEvents] their theorems.
    - [FlatBuffers], [EntitySchema], [EventSchema], [MetadataSchema] (bin/schemas): what
      generated code does, and the data of each generated file; [FlatBuffersProps] their
      theorems; [SchemaEvents] the accessors the WebSocket server calls.
    - [ServerConfig], [Routing] and [Startup] (bin/main.rs): the settings, the route table,
      and [main] up to its accept loops; [StartupProps] their theorems.  [Listeners]: the
      NATS task, the TCP listener and the RTMP listener as state machines.
    - [H3] (modules/h3.rs, and the TLS configuration of bin/main.rs): the bridge of one
      request and the connections as a state machine; [H3Props] its theorems.

    Other services.
    - [RtmpRelay], [RtmpMedia] and [RtmpSession] (modules/rtmp): the registry and its
      broadcast channels, what a connection uses, and connections as threads over the shared
      relay; [RtmpRelayProps], [RtmpProps] and [RtmpLive] their theorems.
    - [PlatformProxy] (modules/platform_proxy.rs), model and theorems.
    - [C2paSigning] (modules/c2pa_signing.rs) and [C2paSigningProps].
    - [AuthzenSubject], [AuthzenTranslate], [AuthzenVerify], [AuthzenKeys] and
      [AuthzenFacade] (modules/authzen): claims, translation, token verification, the key
      cache and the endpoints; [AuthzenSubjectProps], [AuthzenVerifyProps],
      [AuthzenKeysProps], [AuthzenBatchProps] and [AuthzenFacadeProps] their theorems.

    ** What the theorems show

    - Parsers are sound and complete for a wire format given as a relation, and the inputs
      on which they report errors or panic are characterised ([parse_header_correct],
      [parse_header_panics], [from_bytes_wire_format], [parse_ecdsa_signature_formats]).
    - Chain validation: on every trace a validated request has an unexpired, unrevoked,
      in-scope grant of its session, a signature and a fresh nonce ([validate_sound]); a
      request that has these is validated ([validate_complete]); in any interleaving of
      programs that leave its record alone a nonce is used once while the record lasts
      ([nonce_single_use]), and the cache stays keyed by session
      ([validated_grant_is_requested]).
    - Sessions: each method's effect on Redis; the concurrency limit as an invariant of any
      sequence of calls, and of any sequence of HTTP requests of users whose ids have no colon
      (a session id joins its user with one), with failing commands and passing time
      ([concurrency_limit_invariant], [api_concurrency_limit]).
    - Key delivery: what must have happened on any trace that ends with a released key
      ([tdf3_key_release], [fairplay_key_release], [ws_rewrap_exact],
      [ws_chain_rewrap_release], [rewrap_handler_answers]), that a connection's secret is
      agreed on once ([ws_session_secret]) and when a handler panics.
    - FairPlay SDK: the parser of requests, which works on offsets, equals a fold over the list
      of items that the data encodes ([spc_data_equivalence]); an accepted request is
      complete and without duplicates, every field is read from its place, and version 3 data
      carries its integrity tag ([accepted_request]); a license presupposes such a request,
      the business rules and one call of the key library whose arguments are all determined
      ([license_checked]) and opens to exactly the key and terms of the operation
      ([license_roundtrip]); the buffers handed to the key library have their declared lengths
      ([library_buffers]); every call returns, save a first one that panics on a
      certificate of a bundle that cannot be encoded again ([sdk_answers]); and the request the wrapper writes is always refused
      ([wrapper_never_licenses]).
    - Contracts: the exact condition of each grant, and which error names which violation.
    - Live streams: the registry refines the history of its streams
      ([relay_refines_history]); in every interleaving of the connections a subscriber that
      does not lag receives the frames in order ([frames_received_in_order]), and every
      undisturbed run of one delivers all that is pending and ends once no sender is left
      ([subscriber_catches_up]).
    - AuthZEN: each status of an answer has its cause: a token verified with a recently served
      key, or the reason why there was none; a permit is the upstream decision for just that
      evaluation, for any number of concurrent requests ([facade_responses],
      [permits_come_from_upstream], [accepted_token]).
    - C2PA: what is signed is what was asked for by an allowed creator, and it is read back
      ([signed_manifests], [signed_manifest_read_back]).
    - HTTP/3: a request reaches the router once and whole ([h3_request_served]); permits bound
      the connections, and the configuration of the QUIC transport the requests of each
      ([h3_connections_bounded]).  The proxy changes only what it must
      ([proxy_transparent]).
    - Start-up: what a started server runs with, down to the list of its routes
      ([server_started]), and how starting can panic ([start_panics_only]).
    - Listeners: the NATS client is set once, requests come from established connections, and
      the RTMP server with a shutdown signal refines the one without ([nats_client_stable],
      [tcp_requests_established], [shutdown_refines]).
    - FlatBuffers: what is written is read ([written_events_read]), and the safety comments of
      the accessors hold in a verified buffer ([verified_buffers_safe]), with one exception,
      the untyped accessor of a union whose tag is unknown ([unknown_variant_unverified]).
    - Behaviour one may not expect is exhibited: races of check-then-act sequences, replay of
      a nonce after its record expires, an unnoticed regression of the chain, a refused
      request that extends a session, a FairPlay key outside the chain session's scope,
      HTTP/3 requests that outlive their permit, a manifest without a hash that validates.

    ** Bounds

    Recursion is structural, on lists or on the input, with three exceptions.
    [retry_redis_operation] has its three attempts [REDIS_MAX_RETRIES] as fuel
    ([retry_redis_operation_spec] proves that it always ends).  The verifier of FlatBuffers
    descends at most 64 tables, the default of the crate, and refuses a deeper buffer as the
    crate does.  The loops of the SDK over a buffer have the length of the buffer as fuel;
    each round consumes at least one byte, and the safety lemmas of [FpsSpcProps] prove that
    the fuel lasts.  Loops without an end (connections, accept loops) are step relations.
    Integers are [Z] with the wrap-around written out where the code can overflow; release
    builds are modelled, and a panicking operation is [Panic].  The percentile indices are
    computed with the binary floating-point numbers of the Standard Library.  The limits of
    HTTP/3 (2 MiB of body, 1024 connections, 32 streams each) are those of the code.

    ** What is not modelled

    Cryptographic primitives, codecs (base64, PEM, SCALE, JSON, CBOR), the transport crates
    and the node's SDK are class parameters or events, with laws where a theorem relies on
    them; so are X.509, RSA and AES and the precompiled key library of the FairPlay SDK.
    Logging, the logging middleware, zeroing of memory and timing are left out: no result
    depends on them, apart from log lines that slice text and can panic: the one of
    rtmp/session.rs is modelled, and the two of chain/validator.rs are applied to hexadecimal
    text only.  Of bin/main.rs, the handler that serves the association file is left
    out, and of the generated code the size-prefixed and unchecked roots, which the server
    never calls.  Of the FairPlay SDK, the demonstration programs (bin), the build script, the
    hooks of extension.rs that do nothing and the release of returned memory are left out.
    Tests (modules/authzen/contract.rs and the test modules) are not modelled. *)
From Stdlib Require Export ZArith Lia Strings.Byte Strings.String Strings.Ascii.
From Stdlib Require Import DecimalString DecimalPos DecimalZ.
From stdpp Require Export base option list gmap strings pretty numbers.

(** ** Results and panics

    [result A E] is Rust's [Result<A, E>].  A Rust function whose body can hit a
    panicking operation (an index out of range, [unwrap] on an [Err]) returns an
    [outcome]: either a value or [Panic]. *)
Inductive result (A E : Type) : Type :=
| Ok (a : A)
| Err (e : E).
Arguments Ok {A E} a.
Arguments Err {A E} e.

Inductive outcome (A : Type) : Type :=
| Done (a : A)
| Panic.
Arguments Done {A} a.
Arguments Panic {A}.

Declare Scope rust_scope.
Delimit Scope rust_scope with rust.

Definition rbind {A B E} (r : result A E) (k : A -> result B E) : result B E :=
  match r with
  | Ok a => k a
  | Err e => Err e
  end.

Definition obind {A B} (o : outcome A) (k : A -> outcome B) : outcome B :=
  match o with
  | Done a => k a
  | Panic => Panic
  end.

Definition map_err {A E F} (f : E -> F) (r : result A E) : result A F :=
  match r with
  | Ok a => Ok a
  | Err e => Err (f e)
  end.

Definition ok_or {A E} (e : E) (o : option A) : result A E :=
  match o with
  | Some a => Ok a
  | None => Err e
  end.

Definition ok {A E} (r : result A E) : option A :=
  match r with
  | Ok a => Some a
  | Err _ => None
  end.

Definition is_ok {A E} (r : result A E) : bool :=
  match r with
  | Ok _ => true
  | Err _ => false
  end.

(** The [?] operator on a [Result]. *)
Notation "'let?' x := e 'in' k" := (rbind e (fun x => k))
  (at level 10, x name, e at level 100, k at level 200) : rust_scope.
Notation "'check' e ;; k" := (rbind e (fun _ : unit => k))
  (at level 10, e at level 99, k at level 200) : rust_scope.
(** Sequencing of computations that may panic. *)
Notation "'let!' x := e 'in' k" := (obind e (fun x => k))
  (at level 10, x name, e at level 100, k at level 200) : rust_scope.
Open Scope rust_scope.

(** ** Proof automation *)

(** Split a hypothesis about a chain of [?] operators into its steps. *)
Lemma rbind_Ok {A B E} (r : result A E) (k : A -> result B E) b :
  rbind r k = Ok b <-> exists a, r = Ok a /\ k a = Ok b.
Proof. destruct r; simpl; split; [eauto|by intros (? & [= ->] & ?)|done|by intros (? & [=] & ?)]. Qed.

Lemma rbind_Err {A B E} (r : result A E) (k : A -> result B E) e :
  rbind r k = Err e <-> r = Err e \/ exists a, r = Ok a /\ k a = Err e.
Proof.
  destruct r; simpl; split; [eauto| |intros [= ->]; eauto|].
  - by intros [[=]|(? & [= ->] & ?)].
  - by intros [[= ->]|(? & [=] & ?)].
Qed.

Lemma map_err_Ok {A E F} (f : E -> F) (r : result A E) a :
  map_err f r = Ok a <-> r = Ok a.
Proof. destruct r; simpl; split; congruence. Qed.

Lemma ok_or_Ok {A E} (e : E) (o : option A) a :
  ok_or e o = Ok a <-> o = Some a.
Proof. destruct o; simpl; split; congruence. Qed.

Lemma is_ok_true {A E} (r : result A E) :
  is_ok r = true <-> exists a, r = Ok a.
Proof. destruct r; simpl; split; [eauto|done|done|by intros [? [=]]]. Qed.

Ltac inv_result :=
  repeat match goal with
  | H : rbind _ _ = Ok _ |- _ => apply rbind_Ok in H as (? & ? & H)
  | H : map_err _ _ = Ok _ |- _ => apply map_err_Ok in H
  | H : ok_or _ _ = Ok _ |- _ => apply ok_or_Ok in H
  | H : Ok _ = Err _ |- _ => discriminate H
  | H : Err _ = Ok _ |- _ => discriminate H
  | H : Done _ = Panic |- _ => discriminate H
  | H : Panic = Done _ |- _ => discriminate H
  | H : Ok _ = Ok _ |- _ => injection H as H; subst
  | H : Err _ = Err _ |- _ => injection H as H; subst
  | H : Done _ = Done _ |- _ => injection H as H; subst
  end.

(** Case analysis on the guard of the outermost [if] or [match] of a
    hypothesis or of the goal, keeping its equation. *)
Ltac split_if :=
  match goal with
  | H : context [if ?b then _ else _] |- _ => destruct b eqn:?
  | |- context [if ?b then _ else _] => destruct b eqn:?
  end.

Ltac reflect_bools :=
  repeat match goal with
  | H : (_ && _)%bool = true |- _ => apply andb_true_iff in H as [? ?]
  | H : (_ || _)%bool = false |- _ => apply orb_false_iff in H as [? ?]
  | H : negb _ = true |- _ => apply negb_true_iff in H
  | H : negb _ = false |- _ => apply negb_false_iff in H
  | H : (_ <? _)%Z = true |- _ => apply Z.ltb_lt in H
  | H : (_ <? _)%Z = false |- _ => apply Z.ltb_ge in H
  | H : (_ <=? _)%Z = true |- _ => apply Z.leb_le in H
  | H : (_ <=? _)%Z = false |- _ => apply Z.leb_gt in H
  | H : (_ =? _)%Z = true |- _ => apply Z.eqb_eq in H
  | H : (_ =? _)%Z = false |- _ => apply Z.eqb_neq in H
  | H : (_ <? _) = true |- _ => apply Nat.ltb_lt in H
  | H : (_ <? _) = false |- _ => apply Nat.ltb_ge in H
  | H : (_ <=? _) = true |- _ => apply Nat.leb_le in H
  | H : (_ <=? _) = false |- _ => apply Nat.leb_gt in H
  | H : (_ =? _) = true |- _ => apply Nat.eqb_eq in H
  | H : (_ =? _) = false |- _ => apply Nat.eqb_neq in H
  | H : bool_decide _ = true |- _ => apply bool_decide_eq_true in H
  | H : bool_decide _ = false |- _ => apply bool_decide_eq_false in H
  end.

Create HintDb backend.
Create Rewrite HintDb backend.

(** ** Bytes and fixed-width integers *)

Abbreviation byte := Byte.byte.
Abbreviation bytes := (list Byte.byte).

#[export] Instance byte_eq_dec : EqDecision byte := Byte.byte_eq_dec.

Definition b2z (b : byte) : Z := Z.of_N (Byte.to_N b).

Definition z2b (z : Z) : byte :=
  default x00 (Byte.of_N (Z.to_N (z mod 256))).

Lemma b2z_range b : (0 <= b2z b < 256)%Z.
Proof. unfold b2z. pose proof (Byte.to_N_bounded b). lia. Qed.

Lemma z2b_b2z b : z2b (b2z b) = b.
Proof.
  unfold z2b. rewrite Z.mod_small by apply b2z_range.
  unfold b2z. rewrite N2Z.id, Byte.of_to_N. done.
Qed.

Lemma b2z_z2b z : b2z (z2b z) = (z mod 256)%Z.
Proof.
  unfold z2b, b2z. pose proof (Z.mod_pos_bound z 256 ltac:(lia)).
  destruct (Byte.of_N _) as [b|] eqn:E; simpl.
  - apply Byte.to_of_N in E. rewrite E. lia.
  - apply Byte.of_N_None_iff in E. lia.
Qed.

Lemma b2z_inj b c : b2z b = b2z c -> b = c.
Proof. intros H. rewrite <-(z2b_b2z b), H. apply z2b_b2z. Qed.

(** Little-endian integers: [uN::from_le_bytes] and [uN::to_le_bytes]. *)
Fixpoint le_to_Z (l : bytes) : Z :=
  match l with
  | [] => 0
  | b :: l => b2z b + 256 * le_to_Z l
  end%Z.

Fixpoint le_bytes (n : nat) (z : Z) : bytes :=
  match n with
  | O => []
  | S n => z2b z :: le_bytes n (z / 256)
  end.

(** Big-endian integers: [uN::from_be_bytes] and [uN::to_be_bytes]. *)
Definition be_to_Z (l : bytes) : Z := le_to_Z (reverse l).
Definition be_bytes (n : nat) (z : Z) : bytes := reverse (le_bytes n z).

Lemma length_le_bytes n z : length (le_bytes n z) = n.
Proof. revert z; induction n; simpl; auto. Qed.

Lemma length_be_bytes n z : length (be_bytes n z) = n.
Proof. unfold be_bytes. by rewrite length_reverse, length_le_bytes. Qed.

Lemma le_to_Z_range l : (0 <= le_to_Z l < 256 ^ Z.of_nat (length l))%Z.
Proof.
  induction l as [|b l IH]; simpl length; [simpl; lia|].
  rewrite Nat2Z.inj_succ, Z.pow_succ_r by lia.
  cbn [le_to_Z]. pose proof (b2z_range b). nia.
Qed.

Lemma le_to_Z_bytes n z : le_to_Z (le_bytes n z) = (z mod 256 ^ Z.of_nat n)%Z.
Proof.
  revert z; induction n as [|n IH]; intros z; cbn [le_bytes le_to_Z].
  - by rewrite Z.mod_1_r.
  - rewrite IH, b2z_z2b, Nat2Z.inj_succ, Z.pow_succ_r by lia.
    rewrite Z.rem_mul_r by lia. lia.
Qed.

Lemma le_bytes_to_Z l : le_bytes (length l) (le_to_Z l) = l.
Proof.
  induction l as [|b l IH]; cbn [le_bytes le_to_Z length]; [done|].
  pose proof (b2z_range b). f_equal.
  - apply b2z_inj. rewrite b2z_z2b.
    rewrite Z.mul_comm, Z.mod_add by lia. apply Z.mod_small. lia.
  - rewrite Z.mul_comm, Z.div_add, Z.div_small, Z.add_0_l by lia. done.
Qed.

Lemma le_to_Z_bytes_small n z :
  (0 <= z < 256 ^ Z.of_nat n)%Z -> le_to_Z (le_bytes n z) = z.
Proof. intros. rewrite le_to_Z_bytes. by apply Z.mod_small. Qed.

Lemma le_bytes_inj n x y :
  (0 <= x < 256 ^ Z.of_nat n)%Z -> (0 <= y < 256 ^ Z.of_nat n)%Z ->
  le_bytes n x = le_bytes n y -> x = y.
Proof.
  intros Hx Hy H. apply (f_equal le_to_Z) in H.
  by rewrite !le_to_Z_bytes_small in H.
Qed.

Lemma be_to_Z_bytes_small n z :
  (0 <= z < 256 ^ Z.of_nat n)%Z -> be_to_Z (be_bytes n z) = z.
Proof.
  intros. unfold be_to_Z, be_bytes. rewrite reverse_involutive.
  by apply le_to_Z_bytes_small.
Qed.

Lemma be_to_Z_zero l : be_to_Z (x00 :: l) = be_to_Z l.
Proof.
  unfold be_to_Z. rewrite reverse_cons. induction (reverse l) as [|b r IH]; [done|].
  cbn [app le_to_Z]. by rewrite IH.
Qed.

Lemma le_bytes_app n m z :
  le_bytes (n + m) z = le_bytes n z ++ le_bytes m (z / 256 ^ Z.of_nat n).
Proof.
  revert z. induction n as [|n IH]; intros z; cbn [le_bytes Nat.add app].
  - by rewrite Z.div_1_r.
  - rewrite IH, Z.div_div, Nat2Z.inj_succ, Z.pow_succ_r by lia. done.
Qed.

Lemma le_bytes_zero n : le_bytes n 0 = replicate n x00.
Proof.
  induction n as [|n IH]; cbn [le_bytes replicate]; [done|].
  change (0 / 256)%Z with 0%Z. by rewrite IH.
Qed.

(** Leading zeros of a big-endian integer. *)
Lemma be_bytes_pad k n z :
  (0 <= z < 256 ^ Z.of_nat n)%Z -> be_bytes (n + k) z = replicate k x00 ++ be_bytes n z.
Proof.
  intros Hz. unfold be_bytes. rewrite le_bytes_app, reverse_app, Z.div_small by done.
  by rewrite le_bytes_zero, reverse_replicate.
Qed.

#[global] Arguments b2z : simpl never.
#[global] Arguments z2b : simpl never.
#[global] Arguments le_bytes : simpl never.
#[global] Arguments be_bytes : simpl never.
#[global] Arguments be_to_Z : simpl never.

#[export] Hint Rewrite length_le_bytes length_be_bytes : backend.

(** Bytes put together with shifts. *)
Lemma lor_shiftl x n c :
  (0 <= n)%Z -> (0 <= c < 2 ^ n)%Z -> Z.lor (Z.shiftl x n) c = (x * 2 ^ n + c)%Z.
Proof.
  intros Hn Hc. rewrite <-Z.shiftl_mul_pow2 by done. symmetry. apply Z.add_nocarry_lor.
  apply Z.bits_inj'. intros i Hi. rewrite Z.land_spec, Z.shiftl_spec, Z.bits_0 by done.
  destruct (Z.ltb_spec i n) as [Hl|Hl].
  - by rewrite Z.testbit_neg_r by lia.
  - rewrite <-(Z.mod_small c (2 ^ n)), Z.mod_pow2_bits_high by lia. apply andb_false_r.
Qed.

Lemma be_to_Z_3 a b c :
  Z.lor (Z.lor (Z.shiftl (b2z a) 16) (Z.shiftl (b2z b) 8)) (b2z c) = be_to_Z [a; b; c].
Proof.
  pose proof (b2z_range a). pose proof (b2z_range b). pose proof (b2z_range c).
  rewrite (Z.shiftl_mul_pow2 (b2z b)), lor_shiftl by lia.
  replace (b2z a * 2 ^ 16 + b2z b * 2 ^ 8)%Z with (Z.shiftl (b2z a * 256 + b2z b) 8)
    by (rewrite Z.shiftl_mul_pow2 by lia; lia).
  rewrite lor_shiftl by lia. unfold be_to_Z. cbn [reverse rev_append le_to_Z]. simpl. lia.
Qed.

Lemma be_bytes_to_Z l : be_bytes (length l) (be_to_Z l) = l.
Proof.
  unfold be_bytes, be_to_Z. rewrite <-(length_reverse l), le_bytes_to_Z. apply reverse_involutive.
Qed.

(** Two's complement [iN]: the value a wrapping operation leaves. *)
Definition wrap_signed (w : Z) (z : Z) : Z :=
  ((z + 2 ^ (w - 1)) mod 2 ^ w - 2 ^ (w - 1))%Z.
Definition i64_wrap (z : Z) : Z := wrap_signed 64 z.
Definition i64_of_u64 (z : Z) : Z := wrap_signed 64 z.
Definition in_i64 (z : Z) : Prop := (- 2 ^ 63 <= z < 2 ^ 63)%Z.
Definition in_u64 (z : Z) : Prop := (0 <= z < 2 ^ 64)%Z.
Definition in_u32 (z : Z) : Prop := (0 <= z < 2 ^ 32)%Z.

Lemma i64_wrap_id z : in_i64 z -> i64_wrap z = z.
Proof.
  unfold in_i64, i64_wrap, wrap_signed. intros H.
  rewrite Z.mod_small; lia.
Qed.

Lemma i64_wrap_range z : in_i64 (i64_wrap z).
Proof.
  unfold in_i64, i64_wrap, wrap_signed.
  pose proof (Z.mod_pos_bound (z + 2 ^ (64 - 1)) (2 ^ 64) ltac:(lia)). lia.
Qed.

(** ** Slices

    Indexing and slicing panic when out of range. *)
Definition index (l : bytes) (i : nat) : outcome byte :=
  match l !! i with
  | Some b => Done b
  | None => Panic
  end.

Definition slice (l : bytes) (i j : nat) : outcome bytes :=
  if (i <=? j) && (j <=? length l) then Done (take (j - i) (drop i l)) else Panic.

Lemma slice_Done l i j s :
  slice l i j = Done s <-> i <= j <= length l /\ s = take (j - i) (drop i l).
Proof.
  unfold slice. destruct ((i <=? j) && (j <=? length l)) eqn:E.
  - apply andb_true_iff in E as [?%Nat.leb_le ?%Nat.leb_le].
    split; [intros [= <-]; auto|by intros [_ ->]].
  - split; [done|]. intros [[? ?] _]. apply andb_false_iff in E as [E|E];
    apply Nat.leb_gt in E; lia.
Qed.

Lemma slice_in_range l i j :
  i <= j <= length l -> slice l i j = Done (take (j - i) (drop i l)).
Proof. intros. by apply slice_Done. Qed.

Lemma slice_app l1 l2 l3 i j :
  i = length l1 -> j = length l1 + length l2 ->
  slice (l1 ++ l2 ++ l3) i j = Done l2.
Proof.
  intros -> ->. apply slice_Done. rewrite !length_app. split; [lia|].
  rewrite drop_app_length. replace (_ - _) with (length l2) by lia.
  by rewrite take_app_length.
Qed.

Lemma index_app l1 b l2 i : i = length l1 -> index (l1 ++ b :: l2) i = Done b.
Proof. intros ->. unfold index. by rewrite list_lookup_middle. Qed.

Lemma index_panics l i : length l <= i -> index l i = Panic.
Proof. intros H. unfold index. by rewrite lookup_ge_None_2. Qed.

Lemma slice_panics l i j : length l < j -> slice l i j = Panic.
Proof.
  intros H. unfold slice. by rewrite (proj2 (Nat.leb_gt _ _) H), andb_false_r.
Qed.

Lemma slice_length l i j s : slice l i j = Done s -> length s = j - i.
Proof.
  intros [? ->]%slice_Done. rewrite length_take, length_drop. lia.
Qed.

(** ** Strings

    A Rust [String] is a sequence of bytes that is valid UTF-8. *)
Definition cont (b : byte) : bool := (128 <=? b2z b)%Z && (b2z b <=? 191)%Z.
Definition within (lo hi : Z) (b : byte) : bool := (lo <=? b2z b)%Z && (b2z b <=? hi)%Z.

(** The well-formed byte sequences of the Unicode standard (table 3-7), as
    [String::from_utf8] accepts them. *)
Fixpoint utf8_valid (l : bytes) : bool :=
  match l with
  | [] => true
  | b :: r =>
    if within 0 127 b then utf8_valid r else
    match r with
    | [] => false
    | c :: r =>
      if within 194 223 b then cont c && utf8_valid r else
      match r with
      | [] => false
      | d :: r =>
        if within 224 239 b then
          within (if Byte.eqb b xe0 then 160 else 128) (if Byte.eqb b xed then 159 else 191) c
          && cont d && utf8_valid r
        else
        match r with
        | [] => false
        | e :: r =>
          within 240 244 b &&
          within (if Byte.eqb b xf0 then 144 else 128) (if Byte.eqb b xf4 then 143 else 191) c
          && cont d && cont e && utf8_valid r
        end
      end
    end
  end%Z.

Lemma utf8_valid_app l r : utf8_valid l = true -> utf8_valid (l ++ r) = utf8_valid r.
Proof.
  induction l as [l IH] using (induction_ltof1 _ length). unfold ltof in IH.
  destruct l as [|a l]; [done|]. cbn [utf8_valid app].
  destruct (within 0 127 a); [apply IH; cbn; lia|].
  destruct l as [|b l]; [done|]. cbn [app].
  destruct (within 194 223 a).
  { intros [-> H]%andb_true_iff. rewrite andb_true_l. apply IH; [cbn; lia|done]. }
  destruct l as [|c l]; [done|]. cbn [app].
  destruct (within 224 239 a).
  { intros [-> H]%andb_true_iff. rewrite andb_true_l. apply IH; [cbn; lia|done]. }
  destruct l as [|d l]; [done|]. cbn [app].
  intros [-> H]%andb_true_iff. rewrite andb_true_l. apply IH; [cbn; lia|done].
Qed.

Definition from_utf8 (l : bytes) : option string :=
  if utf8_valid l then Some (string_of_list_byte l) else None.

Definition as_bytes (s : string) : bytes := list_byte_of_string s.

Lemma from_utf8_as_bytes l s : from_utf8 l = Some s -> as_bytes s = l.
Proof.
  unfold from_utf8, as_bytes. case_match; [|done]. intros [= <-].
  apply list_byte_of_string_of_list_byte.
Qed.

Lemma as_bytes_from_utf8 s :
  utf8_valid (as_bytes s) = true -> from_utf8 (as_bytes s) = Some s.
Proof.
  unfold from_utf8, as_bytes. intros ->. by rewrite string_of_list_byte_of_string.
Qed.

Lemma as_bytes_inj s t : as_bytes s = as_bytes t -> s = t.
Proof.
  intros H%(f_equal string_of_list_byte). unfold as_bytes in H.
  by rewrite !string_of_list_byte_of_string in H.
Qed.

(** [Display] of an integer, and [str::parse]: an optional sign and decimal digits. *)
Definition display_Z (z : Z) : string := NilZero.string_of_int (Z.to_int z).

Definition parse_Z (s : string) : option Z :=
  match s with
  | String "+" r => Z.of_uint <$> NilZero.uint_of_string r
  | _ => Z.of_int <$> NilZero.int_of_string s
  end.

Definition parse_i64 (s : string) : option Z :=
  match parse_Z s with
  | Some z => if (- 2 ^ 63 <=? z)%Z && (z <? 2 ^ 63)%Z then Some z else None
  | None => None
  end.

Lemma display_Z_no_plus z r : display_Z z <> String "+" r.
Proof.
  unfold display_Z. by destruct (Z.to_int z) as [d|d]; destruct d.
Qed.

Lemma parse_display_Z z : parse_Z (display_Z z) = Some z.
Proof.
  assert (parse_Z (display_Z z) = Z.of_int <$> NilZero.int_of_string (display_Z z)) as ->.
  { pose proof (display_Z_no_plus z) as H. unfold parse_Z.
    destruct (display_Z z) as [|[[] [] [] [] [] [] [] []] r]; try done. by destruct (H r). }
  unfold display_Z. rewrite NilZero.isi; simpl.
  - by rewrite DecimalZ.of_to.
  - destruct z; simpl; try done. intros [= H]. by apply DecimalPos.Unsigned.to_uint_nonnil in H.
  - destruct z; simpl; try done. intros [= H]. by apply DecimalPos.Unsigned.to_uint_nonnil in H.
Qed.

#[export] Instance display_Z_inj : Inj (=) (=) display_Z.
Proof.
  intros x y H%(f_equal parse_Z). rewrite !parse_display_Z in H. congruence.
Qed.

Lemma parse_display_i64 z : in_i64 z -> parse_i64 (display_Z z) = Some z.
Proof.
  intros [H1 H2]. unfold parse_i64. rewrite parse_display_Z.
  by rewrite (proj2 (Z.leb_le _ _)), (proj2 (Z.ltb_lt _ _)).
Qed.

(** ** String concatenation *)

Lemma append_length (a b : string) :
  String.length (a +:+ b) = String.length a + String.length b.
Proof. induction a; simpl; auto. Qed.

Lemma append_inj_r (a b c : string) : a +:+ c = b +:+ c -> a = b.
Proof.
  revert b. induction a as [|x a IH]; intros [|y b]; simpl; intros H.
  - done.
  - apply (f_equal String.length) in H. simpl in H. rewrite !append_length in H. simpl in H. lia.
  - apply (f_equal String.length) in H. simpl in H. rewrite !append_length in H. simpl in H. lia.
  - injection H as -> H. f_equal. auto.
Qed.

Lemma append_inj_len (a b c d : string) :
  String.length a = String.length b -> a +:+ c = b +:+ d -> a = b /\ c = d.
Proof.
  revert b. induction a as [|x a IH]; intros [|y b]; simpl; intros L H; try done.
  injection H as -> H. destruct (IH b) as [-> ->]; auto.
Qed.
