(* ===== verification/RustStr.v ===== *)
(** * The string methods of Rust's standard library

    A [str] is the string of its UTF-8 bytes.  The methods here search and replace ASCII
    characters, whose bytes never occur inside another character, so they work byte by byte;
    [trim] knows the encodings of the Unicode white space. *)
From Stdlib Require Import DecimalString.
From S2P Require Import Prelude.

#[local] Open Scope Z_scope.

(** [String::from_utf8_unchecked] *)
Definition of_bytes (l : bytes) : string := string_of_list_byte l.

Lemma as_bytes_of_bytes l : as_bytes (of_bytes l) = l.
Proof. apply list_byte_of_string_of_list_byte. Qed.
Lemma of_bytes_as_bytes s : of_bytes (as_bytes s) = s.
Proof. apply string_of_list_byte_of_string. Qed.
Lemma as_bytes_app s t : as_bytes (s +:+ t) = as_bytes s ++ as_bytes t.
Proof.
  unfold as_bytes, list_byte_of_string. induction s as [|a s IH]; simpl; [done|]. by rewrite IH.
Qed.
#[export] Hint Rewrite as_bytes_of_bytes of_bytes_as_bytes as_bytes_app : backend.

(** [u8::is_ascii_alphanumeric], [u8::to_ascii_lowercase] *)
Definition is_ascii_alphanumeric (b : byte) : bool :=
  within 48 57 b || within 65 90 b || within 97 122 b.

Definition byte_to_ascii_lowercase (b : byte) : byte :=
  if within 65 90 b then z2b (b2z b + 32) else b.

Definition to_ascii_lowercase (s : string) : string :=
  of_bytes (byte_to_ascii_lowercase <$> as_bytes s).

Definition eq_ignore_ascii_case (s t : string) : bool :=
  bool_decide (to_ascii_lowercase s = to_ascii_lowercase t).

Definition is_empty (s : string) : bool := bool_decide (s = "")%string.

(** [str::strip_prefix], on strings and on slices *)
Fixpoint strip_prefix (p s : string) : option string :=
  match p, s with
  | EmptyString, _ => Some s
  | String a p, String b s => if Ascii.eqb a b then strip_prefix p s else None
  | _, _ => None
  end.

Fixpoint slice_strip_prefix (p l : bytes) : option bytes :=
  match p, l with
  | [], _ => Some l
  | a :: p, b :: l => if Byte.eqb a b then slice_strip_prefix p l else None
  | _, _ => None
  end.

Lemma strip_prefix_Some p s t : strip_prefix p s = Some t <-> s = p +:+ t.
Proof.
  revert s. induction p as [|a p IH]; intros s; simpl; [by split; [intros [= ->]|intros ->]|].
  destruct s as [|b s]; [done|]. destruct (Ascii.eqb_spec a b) as [->|Hab].
  - rewrite IH. split; [by intros ->|by intros [= ->]].
  - split; [done|by intros [= -> _]].
Qed.

Lemma byte_eqb_spec a b : reflect (a = b) (Byte.eqb a b).
Proof.
  destruct (Byte.eqb a b) eqn:E; constructor.
  - by apply Byte.byte_dec_bl.
  - intros Hab. by rewrite (Byte.byte_dec_lb Hab) in E.
Qed.

Lemma slice_strip_prefix_Some p l t : slice_strip_prefix p l = Some t <-> l = p ++ t.
Proof.
  revert l. induction p as [|a p IH]; intros l; simpl; [by split; [intros [= ->]|intros ->]|].
  destruct l as [|b l]; [done|]. destruct (byte_eqb_spec a b) as [->|Hab].
  - rewrite IH. split; [by intros ->|by intros [= ->]].
  - split; [done|by intros [= -> _]].
Qed.

(** ** [str::trim]

    The characters with the property White_Space by the length of their encoding: U+0009 to
    U+000D and U+0020; U+0085 and U+00A0; U+1680, U+2000 to U+200A, U+2028, U+2029, U+202F,
    U+205F and U+3000. *)
Definition white1 (a : byte) : bool := within 9 13 a || within 32 32 a.
Definition white2 (a b : byte) : bool := within 194 194 a && (within 133 133 b || within 160 160 b).
Definition white3 (a b c : byte) : bool :=
  within 225 225 a && within 154 154 b && within 128 128 c ||
  within 226 226 a && within 128 128 b &&
    (within 128 138 c || within 168 169 c || within 175 175 c) ||
  within 226 226 a && within 129 129 b && within 159 159 c ||
  within 227 227 a && within 128 128 b && within 128 128 c.

Fixpoint trim_with (w2 : byte -> byte -> bool) (w3 : byte -> byte -> byte -> bool) (l : bytes) :
    bytes :=
  match l with
  | [] => []
  | a :: r =>
    if white1 a then trim_with w2 w3 r else
    match r with
    | [] => l
    | b :: r' =>
      if w2 a b then trim_with w2 w3 r' else
      match r' with
      | [] => l
      | c :: r'' => if w3 a b c then trim_with w2 w3 r'' else l
      end
    end
  end.

Definition trim_bytes (l : bytes) : bytes :=
  let l := trim_with white2 white3 l in
  reverse (trim_with (fun b a => white2 a b) (fun c b a => white3 a b c) (reverse l)).

Definition trim (s : string) : string := of_bytes (trim_bytes (as_bytes s)).

(** [str::trim_end_matches], [str::trim_matches] of an ASCII character *)
Fixpoint drop_byte (x : byte) (l : bytes) : bytes :=
  match l with
  | b :: r => if Byte.eqb b x then drop_byte x r else l
  | [] => []
  end.

Definition trim_end_bytes (x : byte) (l : bytes) : bytes := reverse (drop_byte x (reverse l)).
Definition trim_end_matches (x : byte) (s : string) : string :=
  of_bytes (trim_end_bytes x (as_bytes s)).
Definition trim_matches (x : byte) (s : string) : string :=
  of_bytes (trim_end_bytes x (drop_byte x (as_bytes s))).

(** [s.replace([..], "_")] of ASCII characters by another one *)
Definition replace_bytes (xs : bytes) (y : byte) (s : string) : string :=
  of_bytes ((fun b => if bool_decide (b ∈ xs) then y else b) <$> as_bytes s).

(** [s.split(x)] *)
Fixpoint split_bytes (x : byte) (l : bytes) : list bytes :=
  match l with
  | [] => [[]]
  | b :: r =>
    if Byte.eqb b x then [] :: split_bytes x r
    else match split_bytes x r with
         | p :: ps => (b :: p) :: ps
         | [] => [[b]]
         end
  end.
Definition str_split (x : byte) (s : string) : list string := of_bytes <$> split_bytes x (as_bytes s).

(** ** Integers

    [str::parse] of an unsigned integer of at most [max]: an optional plus sign and digits;
    of an [i32], which may have a minus sign too; and [{:0wX}] of an integer below [16 ^ w]. *)
Definition parse_unsigned (max : Z) (s : string) : option Z :=
  z ← match s with
      | String "+" r => Z.of_uint <$> NilZero.uint_of_string r
      | _ => Z.of_uint <$> NilZero.uint_of_string s
      end;
  if (z <=? max)%Z then Some z else None.
Definition parse_u16 : string -> option Z := parse_unsigned (2 ^ 16 - 1).
Definition parse_u32 : string -> option Z := parse_unsigned (2 ^ 32 - 1).
Definition parse_u64 : string -> option Z := parse_unsigned (2 ^ 64 - 1).
Definition parse_i32 (s : string) : option Z :=
  z ← parse_Z s; if (- 2 ^ 31 <=? z)%Z && (z <? 2 ^ 31)%Z then Some z else None.

Definition upper_hex_digit (z : Z) : byte := z2b (if (z <? 10)%Z then 48 + z else 55 + z).
Fixpoint hex_digits (w : nat) (z : Z) : bytes :=
  match w with
  | O => []
  | S w => hex_digits w (z / 16) ++ [upper_hex_digit (z mod 16)]
  end.
Definition format_hex (w : nat) (z : Z) : string := of_bytes (hex_digits w z).

Lemma parse_unsigned_range max s z : parse_unsigned max s = Some z -> (0 <= z <= max)%Z.
Proof.
  unfold parse_unsigned. intros (y & Hy & H)%bind_Some.
  destruct (Z.leb_spec y max); simplify_eq. split; [|done].
  assert (exists d, z = Z.of_uint d) as [d ->].
  { repeat case_match; apply fmap_Some in Hy as (d & _ & ->); eauto. }
  unfold Z.of_uint. lia.
Qed.

(** ** What trimming removes

    Bytes that are not ASCII letters, digits or punctuation. *)
Definition blank (b : byte) : bool := within 9 13 b || within 32 32 b || within 128 255 b.

Ltac blank_cases :=
  unfold white1, white2, white3, blank, within in *;
  repeat match goal with
  | H : (_ || _)%bool = true |- _ => apply orb_true_iff in H as [H|H]
  | H : (_ && _)%bool = true |- _ => apply andb_true_iff in H as [? H]
  end; reflect_bools.

Lemma white1_blank a : white1 a = true -> blank a = true.
Proof. unfold white1, blank. intros ->. done. Qed.

Lemma white2_blank a b : white2 a b = true -> blank a = true /\ blank b = true.
Proof.
  intros H. assert (128 <= b2z a /\ 128 <= b2z b) as [? ?] by (blank_cases; lia).
  pose proof (b2z_range a). pose proof (b2z_range b).
  unfold blank, within. split; apply orb_true_iff; right; apply andb_true_iff; lia.
Qed.

Lemma white3_blank a b c :
  white3 a b c = true -> blank a = true /\ blank b = true /\ blank c = true.
Proof.
  intros H. assert (128 <= b2z a /\ 128 <= b2z b /\ 128 <= b2z c) as (? & ? & ?)
    by (blank_cases; lia).
  pose proof (b2z_range a). pose proof (b2z_range b). pose proof (b2z_range c).
  unfold blank, within. split_and!; apply orb_true_iff; right; apply andb_true_iff; lia.
Qed.

Lemma trim_with_blank w2 w3 l :
  (forall a b, w2 a b = true -> blank a = true /\ blank b = true) ->
  (forall a b c, w3 a b c = true -> blank a = true /\ blank b = true /\ blank c = true) ->
  exists p, l = p ++ trim_with w2 w3 l /\ Forall (fun b => blank b = true) p.
Proof.
  intros H2 H3. induction l as [l IH] using (induction_ltof1 _ (@length byte)).
  unfold ltof in IH.
  assert (forall p r, l = p ++ r -> p <> [] -> Forall (fun b => blank b = true) p ->
    exists q, l = q ++ trim_with w2 w3 r /\ Forall (fun b => blank b = true) q) as Hstep.
  { intros p r -> Hp Hb. destruct (IH r) as (q & Hq & Hbq).
    { rewrite length_app. destruct p; [done|simpl; lia]. }
    exists (p ++ q). rewrite <- app_assoc, <- Hq. split; [done|by apply Forall_app]. }
  destruct l as [|a r]; simpl; [by exists []|].
  destruct (white1 a) eqn:E1.
  { apply (Hstep [a]); [done|done|]. constructor; [by apply white1_blank|done]. }
  destruct r as [|b r]; [by exists []|].
  destruct (w2 a b) eqn:E2.
  { apply H2 in E2 as [??]. apply (Hstep [a; b]); [done|done|]. by repeat constructor. }
  destruct r as [|c r]; [by exists []|].
  destruct (w3 a b c) eqn:E3; [|by exists []].
  apply H3 in E3 as (?&?&?). apply (Hstep [a; b; c]); [done|done|]. by repeat constructor.
Qed.

Lemma trim_bytes_blank l :
  exists p q, l = p ++ trim_bytes l ++ q /\
    Forall (fun b => blank b = true) p /\ Forall (fun b => blank b = true) q.
Proof.
  unfold trim_bytes.
  destruct (trim_with_blank white2 white3 l white2_blank white3_blank) as (p & Hp & Hbp).
  set (m := trim_with white2 white3 l) in *.
  destruct (trim_with_blank (fun b a => white2 a b) (fun c b a => white3 a b c) (reverse m))
    as (q & Hq & Hbq).
  { intros a b H%white2_blank. naive_solver. }
  { intros a b c H%white3_blank. naive_solver. }
  exists p, (reverse q). split_and!; [|done|by apply Forall_reverse].
  rewrite <- reverse_app, <- Hq, reverse_involutive. done.
Qed.
