(* ===== verification/FlatBuffers.v ===== *)
(** * Generated FlatBuffers code

    The code that the FlatBuffers compiler generates, as functions of data: an enumeration
    is an [FbEnum], a table the data of its accessors, its constructor and its verifier
    ([TableImpl]) and of its arguments and builder ([BuilderImpl]).  The functions below are
    what the generated methods do with them; the flatbuffers crate is the class
    [FlatBuffers], with its documented behaviour as [FlatBuffersLaws]. *)
From S2P Require Import Prelude.
From stdpp Require Import list.

#[local] Open Scope string_scope.
#[local] Open Scope Z_scope.
#[local] Open Scope list_scope.

(** ** Types and values *)

Inductive FbType : Set :=
| TI8 | TU8 | TBool | TU32 | TI64 | TU64 | TF32
| TEnum (e : string)
| TStr | TVecU8 | TVecU32
| TVecEnum (e : string)
| TTable (name : string)
| TAnyTable.

#[export] Instance fb_type_eq_dec : EqDecision FbType.
Proof. solve_decision. Defined.

Definition is_scalar (ty : FbType) : bool :=
  match ty with TI8 | TU8 | TBool | TU32 | TI64 | TU64 | TF32 | TEnum _ => true | _ => false end.

(** Scalars are integers, a binary32 number its bits. *)
Inductive FbVal (Table : Type) :=
| Scal (z : Z)
| Text (s : string)
| Nums (l : list Z)
| Tab (t : Table).
Arguments Scal {Table} z.
Arguments Text {Table} s.
Arguments Nums {Table} l.
Arguments Tab {Table} t.

Definition has_type {T} (ty : FbType) (v : FbVal T) : Prop :=
  match v with
  | Scal _ => is_scalar ty = true
  | Text _ => ty = TStr
  | Nums _ => match ty with TVecU8 | TVecU32 | TVecEnum _ => True | _ => False end
  | Tab _ => match ty with TTable _ | TAnyTable => True | _ => False end
  end.

#[export] Instance has_type_dec {T} ty (v : FbVal T) : Decision (has_type ty v).
Proof. destruct v; simpl; [apply _|apply _|destruct ty; apply _..]. Defined.

(** [==] of scalars: of the numbers that binary32 bits stand for, 0 equals -0 and no
    not-a-number equals itself. *)
Definition f32_eqb (a b : Z) : bool :=
  (a mod 2 ^ 31 =? 0) && (b mod 2 ^ 31 =? 0) ||
  (a =? b) && (a mod 2 ^ 31 <=? 0x7f800000).
Definition scalar_eqb (ty : FbType) (a b : Z) : bool :=
  match ty with TF32 => f32_eqb a b | _ => a =? b end.

(** ** Enumerations *)

(** [e_consts] are the associated constants, [e_values] is [ENUM_VALUES], [e_names] the
    arms of [variant_name]. *)
Record FbEnum := {
  e_name : string;
  e_repr : FbType;
  e_consts : list (string * Z);
  e_min : Z;
  e_max : Z;
  e_values : list string;
  e_names : list (string * string);
}.

Fixpoint find_key {A} (k : string) (l : list (string * A)) : option A :=
  match l with
  | [] => None
  | (k', a) :: l => if bool_decide (k = k') then Some a else find_key k l
  end.

Fixpoint first_name (e : FbEnum) (z : Z) (arms : list (string * string)) : option string :=
  match arms with
  | [] => None
  | (c, n) :: arms => if bool_decide (find_key c (e_consts e) = Some z) then Some n else first_name e z arms
  end.

Definition variant_name (e : FbEnum) (z : Z) : option string := first_name e z (e_names e).

Definition enum_debug (e : FbEnum) (z : Z) : string :=
  match variant_name e z with
  | Some name => name
  | None => "<UNKNOWN " +:+ display_Z z +:+ ">"
  end.

(** [Push] and [Follow], one byte. *)
Definition enum_push (z : Z) : byte := z2b z.
Definition enum_follow (e : FbEnum) (b : byte) : Z :=
  match e_repr e with
  | TI8 => if b2z b <? 2 ^ 7 then b2z b else b2z b - 2 ^ 8
  | _ => b2z b
  end.

(** ** Tables *)

(** [get::<T>(slot, default)], where a default is followed by [unwrap]. *)
Record Getter := Get { g_name : string; g_slot : Z; g_type : FbType; g_default : option Z }.

#[export] Instance getter_eq_dec : EqDecision Getter.
Proof. solve_decision. Defined.

(** [x_as_y]: the table in a union, if the tag is right. *)
Record VariantGetter := Variant {
  v_name : string;
  v_tag_getter : string;
  v_tag : Z;
  v_data_getter : string;
  v_table : string;
}.

(** The chain of calls of [run_verifier]. *)
Inductive Visit : Set :=
| VisitField (name : string) (slot : Z) (ty : FbType) (required : bool)
| VisitUnion (enum tag_name : string) (tag_slot : Z) (name : string) (slot : Z) (required : bool)
    (arms : list (Z * string)).

(** [creates] are the calls of [create] in order, [true] where an option is tested. *)
Record TableImpl := {
  t_name : string;
  vt : list (string * Z);
  creates : list (string * bool);
  getters : list Getter;
  variants : list VariantGetter;
  visits : list Visit;
}.

Inductive AddMethod : Set :=
| AddSlot (name : string) (slot : Z) (ty : FbType) (dflt : Z)
| AddAlways (name : string) (slot : Z).

#[export] Instance add_eq_dec : EqDecision AddMethod.
Proof. solve_decision. Defined.
#[export] Instance visit_eq_dec : EqDecision Visit.
Proof. solve_decision. Defined.

Definition add_name (a : AddMethod) : string := match a with AddSlot n _ _ _ | AddAlways n _ => n end.
Definition add_slot (a : AddMethod) : Z := match a with AddSlot _ s _ _ | AddAlways _ s => s end.

Record BuilderImpl := {
  args_default : list (string * option Z);
  adds : list AddMethod;
  debug : list string;
}.

(** ** The crate *)

Class FlatBuffers := {
  Table : Type;
  TableBuilder : Type;
  start_table : TableBuilder;
  push_slot : FbType -> Z -> Z -> Z -> TableBuilder -> TableBuilder;
  push_slot_always : Z -> FbVal Table -> TableBuilder -> TableBuilder;
  end_table : TableBuilder -> Table;
  (** The field of a slot, if the table has it. *)
  fb_get : FbType -> Z -> Table -> option (FbVal Table);
  (** The verifier's visits, with the verification of the tables they lead to.  For the tag of
      a union the generated closure either verifies the offset of a table and the table, or
      answers [Ok(())] without looking ([None]). *)
  visit_field : FbType -> Z -> bool -> (Table -> bool) -> Table -> bool;
  visit_union : string -> Z -> Z -> bool -> (Z -> option (Table -> bool)) -> Table -> bool;
  (** [root]: a verified table at the root of a buffer. *)
  fb_root : (Table -> bool) -> bytes -> result Table string;
  (** What the unsafe reads rely on: the slot is empty or holds a value of the type. *)
  valid_slot : FbType -> Z -> Table -> Prop;
}.

Class FlatBuffersLaws `{!FlatBuffers} := {
  get_start ty s : fb_get ty s (end_table start_table) = None;
  get_always ty s s' v b : (s = s' -> has_type ty v) ->
    fb_get ty s (end_table (push_slot_always s' v b)) =
    if decide (s = s') then Some v else fb_get ty s (end_table b);
  get_slot ty ty' s s' z d b : (s = s' -> ty = ty') ->
    fb_get ty s (end_table (push_slot ty' s' z d b)) =
    if decide (s = s' /\ scalar_eqb ty' z d = false) then Some (Scal z) else fb_get ty s (end_table b);
  visited_field ty s req nested t : visit_field ty s req nested t = true ->
    valid_slot ty s t /\ forall t', fb_get ty s t = Some (Tab t') -> nested t' = true;
  visited_union e tag s req arms t : visit_union e tag s req arms t = true ->
    valid_slot (TEnum e) tag t /\
    forall z nested, fb_get (TEnum e) tag t = Some (Scal z) -> arms z = Some nested ->
      valid_slot TAnyTable s t /\
      forall t', fb_get TAnyTable s t = Some (Tab t') -> nested t' = true;
  valid_slot_typed ty s t v : valid_slot ty s t -> fb_get ty s t = Some v -> has_type ty v;
  root_verified verify buf t : fb_root verify buf = Ok t -> verify t = true;
}.

(** ** The generated methods *)

Section Methods.
Context {crate : FlatBuffers}.

(** An accessor. *)
Definition get_field (g : Getter) (t : Table) : option (FbVal Table) :=
  match fb_get (g_type g) (g_slot g) t with
  | Some v => Some v
  | None => Scal <$> g_default g
  end.

Fixpoint getter_named (n : string) (l : list Getter) : option Getter :=
  match l with
  | [] => None
  | g :: l => if bool_decide (n = g_name g) then Some g else getter_named n l
  end.

Definition access (i : TableImpl) (n : string) (t : Table) : option (FbVal Table) :=
  g ← getter_named n (getters i); get_field g t.

(** The accessor of a variant of a union. *)
Definition variant_access (i : TableImpl) (v : VariantGetter) (t : Table) : option Table :=
  match access i (v_tag_getter v) t with
  | Some (Scal z) =>
    if z =? v_tag v then
      match access i (v_data_getter v) t with Some (Tab t') => Some t' | _ => None end
    else None
  | _ => None
  end.

(** The arguments of [create]: a scalar always has a value. *)
Definition Args : Type := string -> option (FbVal Table).

Definition default_args (b : BuilderImpl) : Args :=
  fun n => d ← find_key n (args_default b); Scal <$> d.

Definition find_add (n : string) (l : list AddMethod) : option AddMethod :=
  snd <$> list_find (fun a => add_name a = n) l.

Definition add_field (b : BuilderImpl) (args : Args) (tb : TableBuilder) (c : string * bool) :
    TableBuilder :=
  match find_add c.1 (adds b), args c.1 with
  | Some (AddSlot _ slot ty d), Some (Scal z) => push_slot ty slot z d tb
  | Some (AddAlways _ slot), Some v => push_slot_always slot v tb
  | _, _ => tb
  end.

Definition create (i : TableImpl) (b : BuilderImpl) (args : Args) : Table :=
  end_table (foldl (add_field b args) start_table (creates i)).

(** [run_verifier], with the depth that the options of the verifier allow. *)
Fixpoint find_table (n : string) (schema : list TableImpl) : option TableImpl :=
  match schema with
  | [] => None
  | i :: schema => if bool_decide (n = t_name i) then Some i else find_table n schema
  end.

Fixpoint run_verifier (schema : list TableImpl) (depth : nat) (name : string) (t : Table) : bool :=
  match depth, find_table name schema with
  | S depth, Some i =>
    forallb (fun v => match v with
      | VisitField _ slot ty req =>
        visit_field ty slot req (fun t' => match ty with
          | TTable n => run_verifier schema depth n t'
          | _ => true
          end) t
      | VisitUnion e _ tag _ slot req arms =>
        visit_union e tag slot req (fun z =>
          match list_find (fun a => a.1 = z) arms with
          | Some (_, (_, n)) => Some (run_verifier schema depth n)
          | None => None
          end) t
      end) (visits i)
  | _, _ => false
  end.

(** [root_as_x], with the default depth of 64. *)
Definition root_as (schema : list TableImpl) (name : string) (buf : bytes) : result Table string :=
  fb_root (run_verifier schema 64 name) buf.

(** What [Debug] prints for a field: a value, or for a union the table of its variant, a note
    that there is none, or nothing for an unknown tag. *)
Inductive DebugVal :=
| DebugField (v : option (FbVal Table))
| DebugVariant (t : Table)
| DebugInvalid
| DebugNone.

Definition has_tag (i : TableImpl) (v : VariantGetter) (t : Table) : bool :=
  match access i (v_tag_getter v) t with Some (Scal z) => z =? v_tag v | _ => false end.

Definition debug_field (i : TableImpl) (t : Table) (n : string) : DebugVal :=
  match filter (fun v => v_data_getter v = n) (variants i) with
  | [] => DebugField (access i n t)
  | vs =>
    match filter (fun v => has_tag i v t = true) vs with
    | v :: _ => match variant_access i v t with Some t' => DebugVariant t' | None => DebugInvalid end
    | [] => DebugNone
    end
  end.

Definition table_debug (i : TableImpl) (b : BuilderImpl) (t : Table) : list (string * DebugVal) :=
  (fun n => (n, debug_field i t n)) <$> debug b.
End Methods.
