(* ===== verification/EntitySchema.v ===== *)
(** * The schema of entities (src/src/bin/schemas/entity_generated.rs)

    The enumerations and tables of the generated code, as data of [FlatBuffers]. *)
From S2P Require Import Prelude FlatBuffers.
From stdpp Require Import list.

#[local] Open Scope string_scope.
#[local] Open Scope Z_scope.
#[local] Open Scope list_scope.

(** ** Enumerations *)

Definition ActivityLevel : FbEnum :=
  {| e_name := "ActivityLevel"; e_repr := TI8;
     e_consts := [("unused", 0); ("low", 1); ("medium", 2); ("high", 3)];
     e_min := 0; e_max := 3;
     e_values := ["unused"; "low"; "medium"; "high"];
     e_names := [("unused", "unused"); ("low", "low"); ("medium", "medium");
       ("high", "high")] |}.

Definition MediaType : FbEnum :=
  {| e_name := "MediaType"; e_repr := TI8;
     e_consts := [("unused", 0); ("text", 1); ("image", 2); ("video", 3); ("audio", 4)];
     e_min := 0; e_max := 4;
     e_values := ["unused"; "text"; "image"; "video"; "audio"];
     e_names := [("unused", "unused"); ("text", "text"); ("image", "image");
       ("video", "video"); ("audio", "audio")] |}.

Definition LocationLevel : FbEnum :=
  {| e_name := "LocationLevel"; e_repr := TI8;
     e_consts := [("unused", 0); ("wide", 1); ("approximate", 2); ("precise", 3)];
     e_min := 0; e_max := 3;
     e_values := ["unused"; "wide"; "approximate"; "precise"];
     e_names := [("unused", "unused"); ("wide", "wide"); ("approximate", "approximate");
       ("precise", "precise")] |}.

Definition IdentityAssuranceLevel : FbEnum :=
  {| e_name := "IdentityAssuranceLevel"; e_repr := TI8;
     e_consts := [("unused", 0); ("ial0", 1); ("ial1", 2); ("ial2", 3); ("ial25", 4);
       ("ial3", 5)];
     e_min := 0; e_max := 5;
     e_values := ["unused"; "ial0"; "ial1"; "ial2"; "ial25"; "ial3"];
     e_names := [("unused", "unused"); ("ial0", "ial0"); ("ial1", "ial1"); ("ial2", "ial2");
       ("ial25", "ial25"); ("ial3", "ial3")] |}.

Definition EncryptionLevel : FbEnum :=
  {| e_name := "EncryptionLevel"; e_repr := TI8;
     e_consts := [("unused", 0); ("el0", 1); ("el1", 2); ("el2", 3)];
     e_min := 0; e_max := 3;
     e_values := ["unused"; "el0"; "el1"; "el2"];
     e_names := [("unused", "unused"); ("el0", "el0"); ("el1", "el1"); ("el2", "el2")] |}.

Definition StreamLevel : FbEnum :=
  {| e_name := "StreamLevel"; e_repr := TI8;
     e_consts := [("unused", 0); ("sl0", 1); ("sl1", 2); ("sl2", 3)];
     e_min := 0; e_max := 3;
     e_values := ["unused"; "sl0"; "sl1"; "sl2"];
     e_names := [("unused", "unused"); ("sl0", "sl0"); ("sl1", "sl1"); ("sl2", "sl2")] |}.

Definition ExpertLevel : FbEnum :=
  {| e_name := "ExpertLevel"; e_repr := TI8;
     e_consts := [("unused", 0); ("novice", 1); ("intermediate", 2); ("expert", 3);
       ("master", 4)];
     e_min := 0; e_max := 4;
     e_values := ["unused"; "novice"; "intermediate"; "expert"; "master"];
     e_names := [("unused", "unused"); ("novice", "novice");
       ("intermediate", "intermediate"); ("expert", "expert"); ("master", "master")] |}.

Definition TrustLevel : FbEnum :=
  {| e_name := "TrustLevel"; e_repr := TI8;
     e_consts := [("unused", 0); ("untrusted", 1); ("low", 2); ("medium", 3); ("high", 4);
       ("verified", 5)];
     e_min := 0; e_max := 5;
     e_values := ["unused"; "untrusted"; "low"; "medium"; "high"; "verified"];
     e_names := [("unused", "unused"); ("untrusted", "untrusted"); ("low", "low");
       ("medium", "medium"); ("high", "high"); ("verified", "verified")] |}.

Definition Entity : FbEnum :=
  {| e_name := "Entity"; e_repr := TU8;
     e_consts := [("NONE", 0); ("Account", 1); ("Stream", 2); ("Thought", 3)];
     e_min := 0; e_max := 3;
     e_values := ["NONE"; "Account"; "Stream"; "Thought"];
     e_names := [("NONE", "NONE"); ("Account", "Account"); ("Stream", "Stream");
       ("Thought", "Thought")] |}.

(** ** Tables *)

Definition PublicId_table : TableImpl :=
  {| t_name := "PublicId";
     vt := [("ID", 4)];
     creates := [("id", true)];
     getters :=
      [Get "id" 4 TVecU8 None];
     variants := [];
     visits :=
      [VisitField "id" 4 TVecU8 false] |}.

Definition PublicId_builder : BuilderImpl :=
  {| args_default := [("id", None)];
     adds :=
      [AddAlways "id" 4];
     debug := ["id"] |}.

Definition Account_table : TableImpl :=
  {| t_name := "Account";
     vt := [("PUBLIC_ID", 4); ("PROFILE", 6); ("ACTIVITY", 8)];
     creates := [("activity", true); ("profile", true); ("public_id", true)];
     getters :=
      [Get "public_id" 4 (TTable "PublicId") None;
       Get "profile" 6 (TTable "Profile") None;
       Get "activity" 8 (TTable "Activity") None];
     variants := [];
     visits :=
      [VisitField "public_id" 4 (TTable "PublicId") false;
       VisitField "profile" 6 (TTable "Profile") false;
       VisitField "activity" 8 (TTable "Activity") false] |}.

Definition Account_builder : BuilderImpl :=
  {| args_default := [("public_id", None); ("profile", None); ("activity", None)];
     adds :=
      [AddAlways "public_id" 4;
       AddAlways "profile" 6;
       AddAlways "activity" 8];
     debug := ["public_id"; "profile"; "activity"] |}.

Definition Stream_table : TableImpl :=
  {| t_name := "Stream";
     vt := [("PUBLIC_ID", 4); ("PROFILE", 6); ("ACTIVITY", 8);
       ("CREATOR_PUBLIC_ID", 10); ("MEMBERS_PUBLIC_ID", 12); ("STREAM_LEVEL", 14)];
     creates := [("members_public_id", true); ("creator_public_id", true);
       ("activity", true); ("profile", true); ("public_id", true);
       ("stream_level", false)];
     getters :=
      [Get "public_id" 4 (TTable "PublicId") None;
       Get "profile" 6 (TTable "Profile") None;
       Get "activity" 8 (TTable "Activity") None;
       Get "creator_public_id" 10 (TTable "PublicId") None;
       Get "stream_level" 14 (TEnum "StreamLevel") (Some 0)];
     variants := [];
     visits :=
      [VisitField "public_id" 4 (TTable "PublicId") false;
       VisitField "profile" 6 (TTable "Profile") false;
       VisitField "activity" 8 (TTable "Activity") false;
       VisitField "creator_public_id" 10 (TTable "PublicId") false;
       VisitField "members_public_id" 12 (TTable "flatbuffers::Vector<'_, flatbuffers::ForwardsUOffset<PublicId>>,") false;
       VisitField "stream_level" 14 (TEnum "StreamLevel") false] |}.

Definition Stream_builder : BuilderImpl :=
  {| args_default := [("public_id", None); ("profile", None); ("activity", None);
       ("creator_public_id", None); ("members_public_id", None);
       ("stream_level", Some 0)];
     adds :=
      [AddAlways "public_id" 4;
       AddAlways "profile" 6;
       AddAlways "activity" 8;
       AddAlways "creator_public_id" 10;
       AddAlways "members_public_id" 12;
       AddSlot "stream_level" 14 (TEnum "StreamLevel") 0];
     debug := ["public_id"; "profile"; "activity"; "creator_public_id";
       "members_public_id"; "stream_level"] |}.

Definition Thought_table : TableImpl :=
  {| t_name := "Thought";
     vt := [("PUBLIC_ID", 4); ("CREATOR_PUBLIC_ID", 6); ("STREAM_PUBLIC_ID", 8);
       ("CONTENT", 10); ("MEDIA_TYPE", 12)];
     creates := [("content", true); ("stream_public_id", true); ("creator_public_id", true);
       ("public_id", true); ("media_type", false)];
     getters :=
      [Get "public_id" 4 (TTable "PublicId") None;
       Get "creator_public_id" 6 (TTable "PublicId") None;
       Get "stream_public_id" 8 (TTable "PublicId") None;
       Get "content" 10 TVecU8 None;
       Get "media_type" 12 (TEnum "MediaType") (Some 0)];
     variants := [];
     visits :=
      [VisitField "public_id" 4 (TTable "PublicId") false;
       VisitField "creator_public_id" 6 (TTable "PublicId") false;
       VisitField "stream_public_id" 8 (TTable "PublicId") false;
       VisitField "content" 10 TVecU8 false;
       VisitField "media_type" 12 (TEnum "MediaType") false] |}.

Definition Thought_builder : BuilderImpl :=
  {| args_default := [("public_id", None); ("creator_public_id", None);
       ("stream_public_id", None); ("content", None); ("media_type", Some 0)];
     adds :=
      [AddAlways "public_id" 4;
       AddAlways "creator_public_id" 6;
       AddAlways "stream_public_id" 8;
       AddAlways "content" 10;
       AddSlot "media_type" 12 (TEnum "MediaType") 0];
     debug := ["public_id"; "creator_public_id"; "stream_public_id"; "content";
       "media_type"] |}.

Definition Profile_table : TableImpl :=
  {| t_name := "Profile";
     vt := [("NAME", 4); ("BLURB", 6); ("INTERESTS", 8); ("LOCATION", 10);
       ("LOCATION_LEVEL", 12); ("IDENTITY_ASSURANCE_LEVEL", 14);
       ("ENCRYPTION_LEVEL", 16)];
     creates := [("location", true); ("interests", true); ("blurb", true); ("name", true);
       ("encryption_level", false); ("identity_assurance_level", false);
       ("location_level", false)];
     getters :=
      [Get "name" 4 TStr None;
       Get "blurb" 6 TStr None;
       Get "interests" 8 TStr None;
       Get "location" 10 TStr None;
       Get "location_level" 12 (TEnum "LocationLevel") (Some 0);
       Get "identity_assurance_level" 14 (TEnum "IdentityAssuranceLevel") (Some 0);
       Get "encryption_level" 16 (TEnum "EncryptionLevel") (Some 0)];
     variants := [];
     visits :=
      [VisitField "name" 4 TStr false;
       VisitField "blurb" 6 TStr false;
       VisitField "interests" 8 TStr false;
       VisitField "location" 10 TStr false;
       VisitField "location_level" 12 (TEnum "LocationLevel") false;
       VisitField "identity_assurance_level" 14 (TEnum "IdentityAssuranceLevel") false;
       VisitField "encryption_level" 16 (TEnum "EncryptionLevel") false] |}.

Definition Profile_builder : BuilderImpl :=
  {| args_default := [("name", None); ("blurb", None); ("interests", None); ("location", None);
       ("location_level", Some 0); ("identity_assurance_level", Some 0);
       ("encryption_level", Some 0)];
     adds :=
      [AddAlways "name" 4;
       AddAlways "blurb" 6;
       AddAlways "interests" 8;
       AddAlways "location" 10;
       AddSlot "location_level" 12 (TEnum "LocationLevel") 0;
       AddSlot "identity_assurance_level" 14 (TEnum "IdentityAssuranceLevel") 0;
       AddSlot "encryption_level" 16 (TEnum "EncryptionLevel") 0];
     debug := ["name"; "blurb"; "interests"; "location"; "location_level";
       "identity_assurance_level"; "encryption_level"] |}.

Definition Activity_table : TableImpl :=
  {| t_name := "Activity";
     vt := [("DATE_CREATED", 4); ("EXPERT_LEVEL", 6); ("ACTIVITY_LEVEL", 8);
       ("TRUST_LEVEL", 10)];
     creates := [("date_created", false); ("trust_level", false); ("activity_level", false);
       ("expert_level", false)];
     getters :=
      [Get "date_created" 4 TI64 (Some 0);
       Get "expert_level" 6 (TEnum "ExpertLevel") (Some 0);
       Get "activity_level" 8 (TEnum "ActivityLevel") (Some 0);
       Get "trust_level" 10 (TEnum "TrustLevel") (Some 0)];
     variants := [];
     visits :=
      [VisitField "date_created" 4 TI64 false;
       VisitField "expert_level" 6 (TEnum "ExpertLevel") false;
       VisitField "activity_level" 8 (TEnum "ActivityLevel") false;
       VisitField "trust_level" 10 (TEnum "TrustLevel") false] |}.

Definition Activity_builder : BuilderImpl :=
  {| args_default := [("date_created", Some 0); ("expert_level", Some 0);
       ("activity_level", Some 0); ("trust_level", Some 0)];
     adds :=
      [AddSlot "date_created" 4 TI64 0;
       AddSlot "expert_level" 6 (TEnum "ExpertLevel") 0;
       AddSlot "activity_level" 8 (TEnum "ActivityLevel") 0;
       AddSlot "trust_level" 10 (TEnum "TrustLevel") 0];
     debug := ["date_created"; "expert_level"; "activity_level"; "trust_level"] |}.

Definition EntityRoot_table : TableImpl :=
  {| t_name := "EntityRoot";
     vt := [("ENTITY_TYPE", 4); ("ENTITY", 6)];
     creates := [("entity", true); ("entity_type", false)];
     getters :=
      [Get "entity_type" 4 (TEnum "Entity") (Some 0);
       Get "entity" 6 TAnyTable None];
     variants := [Variant "entity_as_account" "entity_type" 1 "entity" "Account";
       Variant "entity_as_stream" "entity_type" 2 "entity" "Stream";
       Variant "entity_as_thought" "entity_type" 3 "entity" "Thought"];
     visits :=
      [VisitUnion "Entity" "entity_type" 4 "entity" 6 false
        [(1, "Account"); (2, "Stream"); (3, "Thought")]] |}.

Definition EntityRoot_builder : BuilderImpl :=
  {| args_default := [("entity_type", Some 0); ("entity", None)];
     adds :=
      [AddSlot "entity_type" 4 (TEnum "Entity") 0;
       AddAlways "entity" 6];
     debug := ["entity_type"; "entity"] |}.

(** ** The schema *)

Definition entity_enums : list FbEnum := [ActivityLevel; MediaType; LocationLevel; IdentityAssuranceLevel; EncryptionLevel; StreamLevel; ExpertLevel; TrustLevel; Entity].

Definition entity_tables : list (TableImpl * BuilderImpl) :=
  [(PublicId_table, PublicId_builder);
   (Account_table, Account_builder);
   (Stream_table, Stream_builder);
   (Thought_table, Thought_builder);
   (Profile_table, Profile_builder);
   (Activity_table, Activity_builder);
   (EntityRoot_table, EntityRoot_builder)].

Definition root_as_entity_root `{!FlatBuffers} (buf : bytes) : result Table string :=
  root_as (entity_tables.*1) "EntityRoot" buf.
