(* ===== verification/EventSchema.v ===== *)
(** * The schema of events (src/src/bin/schemas/event_generated.rs)

    The enumerations and tables of the generated code, as data of [FlatBuffers]. *)
From S2P Require Import Prelude FlatBuffers.
From stdpp Require Import list.

#[local] Open Scope string_scope.
#[local] Open Scope Z_scope.
#[local] Open Scope list_scope.

(** ** Enumerations *)

Definition Action : FbEnum :=
  {| e_name := "Action"; e_repr := TI8;
     e_consts := [("unused", 0); ("join", 1); ("apply", 2); ("approve", 3); ("leave", 4);
       ("cache", 5); ("store", 6); ("share", 7); ("invite", 8)];
     e_min := 0; e_max := 8;
     e_values := ["unused"; "join"; "apply"; "approve"; "leave"; "cache"; "store"; "share";
       "invite"];
     e_names := [("unused", "unused"); ("join", "join"); ("apply", "apply");
       ("approve", "approve"); ("leave", "leave"); ("cache", "cache");
       ("store", "store"); ("share", "share"); ("invite", "invite")] |}.

Definition ActionStatus : FbEnum :=
  {| e_name := "ActionStatus"; e_repr := TI8;
     e_consts := [("unused", 0); ("preparing", 1); ("fulfilling", 2); ("fulfilled", 3);
       ("failed", 4)];
     e_min := 0; e_max := 4;
     e_values := ["unused"; "preparing"; "fulfilling"; "fulfilled"; "failed"];
     e_names := [("unused", "unused"); ("preparing", "preparing");
       ("fulfilling", "fulfilling"); ("fulfilled", "fulfilled");
       ("failed", "failed")] |}.

Definition EntityType : FbEnum :=
  {| e_name := "EntityType"; e_repr := TI8;
     e_consts := [("unused", 0); ("stream_profile", 1); ("account_profile", 2); ("server", 3)];
     e_min := 0; e_max := 3;
     e_values := ["unused"; "stream_profile"; "account_profile"; "server"];
     e_names := [("unused", "unused"); ("stream_profile", "stream_profile");
       ("account_profile", "account_profile"); ("server", "server")] |}.

Definition AttributeType : FbEnum :=
  {| e_name := "AttributeType"; e_repr := TI8;
     e_consts := [("unused", 0); ("time", 1); ("location", 2)];
     e_min := 0; e_max := 2;
     e_values := ["unused"; "time"; "location"];
     e_names := [("unused", "unused"); ("time", "time"); ("location", "location")] |}.

Definition EventData : FbEnum :=
  {| e_name := "EventData"; e_repr := TU8;
     e_consts := [("NONE", 0); ("UserEvent", 1); ("CacheEvent", 2); ("RouteEvent", 3)];
     e_min := 0; e_max := 3;
     e_values := ["NONE"; "UserEvent"; "CacheEvent"; "RouteEvent"];
     e_names := [("NONE", "NONE"); ("UserEvent", "UserEvent"); ("CacheEvent", "CacheEvent");
       ("RouteEvent", "RouteEvent")] |}.

(** ** Tables *)

Definition UserEvent_table : TableImpl :=
  {| t_name := "UserEvent";
     vt := [("SOURCE_TYPE", 4); ("TARGET_TYPE", 6); ("SOURCE_ID", 8); ("TARGET_ID", 10);
       ("ATTRIBUTE_TYPE", 12); ("ENTITY_TYPE", 14)];
     creates := [("attribute_type", true); ("target_id", true); ("source_id", true);
       ("entity_type", false); ("target_type", false); ("source_type", false)];
     getters :=
      [Get "source_type" 4 (TEnum "EntityType") (Some 0);
       Get "target_type" 6 (TEnum "EntityType") (Some 0);
       Get "source_id" 8 TVecU8 None;
       Get "target_id" 10 TVecU8 None;
       Get "attribute_type" 12 (TVecEnum "AttributeType") None;
       Get "entity_type" 14 (TEnum "EntityType") (Some 0)];
     variants := [];
     visits :=
      [VisitField "source_type" 4 (TEnum "EntityType") false;
       VisitField "target_type" 6 (TEnum "EntityType") false;
       VisitField "source_id" 8 TVecU8 false;
       VisitField "target_id" 10 TVecU8 false;
       VisitField "attribute_type" 12 (TVecEnum "AttributeType") false;
       VisitField "entity_type" 14 (TEnum "EntityType") false] |}.

Definition UserEvent_builder : BuilderImpl :=
  {| args_default := [("source_type", Some 0); ("target_type", Some 0); ("source_id", None);
       ("target_id", None); ("attribute_type", None); ("entity_type", Some 0)];
     adds :=
      [AddSlot "source_type" 4 (TEnum "EntityType") 0;
       AddSlot "target_type" 6 (TEnum "EntityType") 0;
       AddAlways "source_id" 8;
       AddAlways "target_id" 10;
       AddAlways "attribute_type" 12;
       AddSlot "entity_type" 14 (TEnum "EntityType") 0];
     debug := ["source_type"; "target_type"; "source_id"; "target_id"; "attribute_type";
       "entity_type"] |}.

Definition CacheEvent_table : TableImpl :=
  {| t_name := "CacheEvent";
     vt := [("TARGET_ID", 4); ("TARGET_PAYLOAD", 6); ("TTL", 8);
       ("ONE_TIME_ACCESS", 10)];
     creates := [("ttl", false); ("target_payload", true); ("target_id", true);
       ("one_time_access", false)];
     getters :=
      [Get "target_id" 4 TVecU8 None;
       Get "target_payload" 6 TVecU8 None;
       Get "ttl" 8 TU32 (Some 0);
       Get "one_time_access" 10 TBool (Some 0)];
     variants := [];
     visits :=
      [VisitField "target_id" 4 TVecU8 false;
       VisitField "target_payload" 6 TVecU8 false;
       VisitField "ttl" 8 TU32 false;
       VisitField "one_time_access" 10 TBool false] |}.

Definition CacheEvent_builder : BuilderImpl :=
  {| args_default := [("target_id", None); ("target_payload", None); ("ttl", Some 0);
       ("one_time_access", Some 0)];
     adds :=
      [AddAlways "target_id" 4;
       AddAlways "target_payload" 6;
       AddSlot "ttl" 8 TU32 0;
       AddSlot "one_time_access" 10 TBool 0];
     debug := ["target_id"; "target_payload"; "ttl"; "one_time_access"] |}.

Definition RouteEvent_table : TableImpl :=
  {| t_name := "RouteEvent";
     vt := [("TARGET_TYPE", 4); ("TARGET_ID", 6); ("SOURCE_TYPE", 8); ("SOURCE_ID", 10);
       ("ATTRIBUTE_TYPE", 12); ("ENTITY_TYPE", 14); ("PAYLOAD", 16)];
     creates := [("payload", true); ("source_id", true); ("target_id", true);
       ("entity_type", false); ("attribute_type", false); ("source_type", false);
       ("target_type", false)];
     getters :=
      [Get "target_type" 4 (TEnum "EntityType") (Some 0);
       Get "target_id" 6 TVecU8 None;
       Get "source_type" 8 (TEnum "EntityType") (Some 0);
       Get "source_id" 10 TVecU8 None;
       Get "attribute_type" 12 (TEnum "AttributeType") (Some 0);
       Get "entity_type" 14 (TEnum "EntityType") (Some 0);
       Get "payload" 16 TVecU8 None];
     variants := [];
     visits :=
      [VisitField "target_type" 4 (TEnum "EntityType") false;
       VisitField "target_id" 6 TVecU8 false;
       VisitField "source_type" 8 (TEnum "EntityType") false;
       VisitField "source_id" 10 TVecU8 false;
       VisitField "attribute_type" 12 (TEnum "AttributeType") false;
       VisitField "entity_type" 14 (TEnum "EntityType") false;
       VisitField "payload" 16 TVecU8 false] |}.

Definition RouteEvent_builder : BuilderImpl :=
  {| args_default := [("target_type", Some 0); ("target_id", None); ("source_type", Some 0);
       ("source_id", None); ("attribute_type", Some 0); ("entity_type", Some 0);
       ("payload", None)];
     adds :=
      [AddSlot "target_type" 4 (TEnum "EntityType") 0;
       AddAlways "target_id" 6;
       AddSlot "source_type" 8 (TEnum "EntityType") 0;
       AddAlways "source_id" 10;
       AddSlot "attribute_type" 12 (TEnum "AttributeType") 0;
       AddSlot "entity_type" 14 (TEnum "EntityType") 0;
       AddAlways "payload" 16];
     debug := ["target_type"; "target_id"; "source_type"; "source_id"; "attribute_type";
       "entity_type"; "payload"] |}.

Definition Event_table : TableImpl :=
  {| t_name := "Event";
     vt := [("ACTION", 4); ("TIMESTAMP", 6); ("STATUS", 8); ("DATA_TYPE", 10);
       ("DATA", 12)];
     creates := [("timestamp", false); ("data", true); ("data_type", false);
       ("status", false); ("action", false)];
     getters :=
      [Get "action" 4 (TEnum "Action") (Some 0);
       Get "timestamp" 6 TU64 (Some 0);
       Get "status" 8 (TEnum "ActionStatus") (Some 0);
       Get "data_type" 10 (TEnum "EventData") (Some 0);
       Get "data" 12 TAnyTable None];
     variants := [Variant "data_as_user_event" "data_type" 1 "data" "UserEvent";
       Variant "data_as_cache_event" "data_type" 2 "data" "CacheEvent";
       Variant "data_as_route_event" "data_type" 3 "data" "RouteEvent"];
     visits :=
      [VisitField "action" 4 (TEnum "Action") false;
       VisitField "timestamp" 6 TU64 false;
       VisitField "status" 8 (TEnum "ActionStatus") false;
       VisitUnion "EventData" "data_type" 10 "data" 12 false
        [(1, "UserEvent"); (2, "CacheEvent"); (3, "RouteEvent")]] |}.

Definition Event_builder : BuilderImpl :=
  {| args_default := [("action", Some 0); ("timestamp", Some 0); ("status", Some 0);
       ("data_type", Some 0); ("data", None)];
     adds :=
      [AddSlot "action" 4 (TEnum "Action") 0;
       AddSlot "timestamp" 6 TU64 0;
       AddSlot "status" 8 (TEnum "ActionStatus") 0;
       AddSlot "data_type" 10 (TEnum "EventData") 0;
       AddAlways "data" 12];
     debug := ["action"; "timestamp"; "status"; "data_type"; "data"] |}.

(** ** The schema *)

Definition event_enums : list FbEnum := [Action; ActionStatus; EntityType; AttributeType; EventData].

Definition event_tables : list (TableImpl * BuilderImpl) :=
  [(UserEvent_table, UserEvent_builder);
   (CacheEvent_table, CacheEvent_builder);
   (RouteEvent_table, RouteEvent_builder);
   (Event_table, Event_builder)].

Definition root_as_event `{!FlatBuffers} (buf : bytes) : result Table string :=
  root_as (event_tables.*1) "Event" buf.
