(* ===== verification/MetadataSchema.v ===== *)
(** * The schema of metadata (src/src/bin/schemas/metadata_generated.rs)

    The enumerations and tables of the generated code, as data of [FlatBuffers]. *)
From S2P Require Import Prelude FlatBuffers.
From stdpp Require Import list.

#[local] Open Scope string_scope.
#[local] Open Scope Z_scope.
#[local] Open Scope list_scope.

(** ** Enumerations *)

Definition RatingLevel : FbEnum :=
  {| e_name := "RatingLevel"; e_repr := TI8;
     e_consts := [("unused", 0); ("none", 1); ("mild", 2); ("moderate", 3); ("severe", 4)];
     e_min := 0; e_max := 4;
     e_values := ["unused"; "none"; "mild"; "moderate"; "severe"];
     e_names := [("unused", "unused"); ("none", "none"); ("mild", "mild");
       ("moderate", "moderate"); ("severe", "severe")] |}.

Definition FormatType : FbEnum :=
  {| e_name := "FormatType"; e_repr := TI8;
     e_consts := [("plain", 0); ("html", 1); ("csv", 2); ("xml", 3); ("json", 4);
       ("jpeg", 10); ("png", 11); ("svg", 12); ("gif", 13); ("pdf", 30)];
     e_min := 0; e_max := 30;
     e_values := ["plain"; "html"; "csv"; "xml"; "json"; "jpeg"; "png"; "svg"; "gif"; "pdf"];
     e_names := [("plain", "plain"); ("html", "html"); ("csv", "csv"); ("xml", "xml");
       ("json", "json"); ("jpeg", "jpeg"); ("png", "png"); ("svg", "svg");
       ("gif", "gif"); ("pdf", "pdf")] |}.

Definition DataEncoding : FbEnum :=
  {| e_name := "DataEncoding"; e_repr := TI8;
     e_consts := [("binary", 0); ("utf8", 1); ("utf16", 2); ("ascii", 3); ("base64", 4);
       ("quoted_printable", 5)];
     e_min := 0; e_max := 5;
     e_values := ["binary"; "utf8"; "utf16"; "ascii"; "base64"; "quoted_printable"];
     e_names := [("binary", "binary"); ("utf8", "utf8"); ("utf16", "utf16");
       ("ascii", "ascii"); ("base64", "base64");
       ("quoted_printable", "quoted_printable")] |}.

Definition ArchiveType : FbEnum :=
  {| e_name := "ArchiveType"; e_repr := TI8;
     e_consts := [("none", 0); ("zip", 1); ("tar", 2); ("gzip", 3); ("bzip2", 4); ("xz", 5);
       ("zstd", 6); ("lz4", 7)];
     e_min := 0; e_max := 7;
     e_values := ["none"; "zip"; "tar"; "gzip"; "bzip2"; "xz"; "zstd"; "lz4"];
     e_names := [("none", "none"); ("zip", "zip"); ("tar", "tar"); ("gzip", "gzip");
       ("bzip2", "bzip2"); ("xz", "xz"); ("zstd", "zstd"); ("lz4", "lz4")] |}.

(** ** Tables *)

Definition Rating_table : TableImpl :=
  {| t_name := "Rating";
     vt := [("VIOLENT", 4); ("SEXUAL", 6); ("PROFANE", 8); ("SUBSTANCE", 10);
       ("HATE", 12); ("HARM", 14); ("MATURE", 16); ("BULLY", 18)];
     creates := [("bully", false); ("mature", false); ("harm", false); ("hate", false);
       ("substance", false); ("profane", false); ("sexual", false);
       ("violent", false)];
     getters :=
      [Get "violent" 4 (TEnum "RatingLevel") (Some 0);
       Get "sexual" 6 (TEnum "RatingLevel") (Some 0);
       Get "profane" 8 (TEnum "RatingLevel") (Some 0);
       Get "substance" 10 (TEnum "RatingLevel") (Some 0);
       Get "hate" 12 (TEnum "RatingLevel") (Some 0);
       Get "harm" 14 (TEnum "RatingLevel") (Some 0);
       Get "mature" 16 (TEnum "RatingLevel") (Some 0);
       Get "bully" 18 (TEnum "RatingLevel") (Some 0)];
     variants := [];
     visits :=
      [VisitField "violent" 4 (TEnum "RatingLevel") false;
       VisitField "sexual" 6 (TEnum "RatingLevel") false;
       VisitField "profane" 8 (TEnum "RatingLevel") false;
       VisitField "substance" 10 (TEnum "RatingLevel") false;
       VisitField "hate" 12 (TEnum "RatingLevel") false;
       VisitField "harm" 14 (TEnum "RatingLevel") false;
       VisitField "mature" 16 (TEnum "RatingLevel") false;
       VisitField "bully" 18 (TEnum "RatingLevel") false] |}.

Definition Rating_builder : BuilderImpl :=
  {| args_default := [("violent", Some 0); ("sexual", Some 0); ("profane", Some 0);
       ("substance", Some 0); ("hate", Some 0); ("harm", Some 0);
       ("mature", Some 0); ("bully", Some 0)];
     adds :=
      [AddSlot "violent" 4 (TEnum "RatingLevel") 0;
       AddSlot "sexual" 6 (TEnum "RatingLevel") 0;
       AddSlot "profane" 8 (TEnum "RatingLevel") 0;
       AddSlot "substance" 10 (TEnum "RatingLevel") 0;
       AddSlot "hate" 12 (TEnum "RatingLevel") 0;
       AddSlot "harm" 14 (TEnum "RatingLevel") 0;
       AddSlot "mature" 16 (TEnum "RatingLevel") 0;
       AddSlot "bully" 18 (TEnum "RatingLevel") 0];
     debug := ["violent"; "sexual"; "profane"; "substance"; "hate"; "harm"; "mature";
       "bully"] |}.

Definition Purpose_table : TableImpl :=
  {| t_name := "Purpose";
     vt := [("EDUCATIONAL", 4); ("ENTERTAINMENT", 6); ("NEWS", 8); ("PROMOTIONAL", 10);
       ("PERSONAL", 12); ("OPINION", 14); ("TRANSACTIONAL", 16); ("HARMFUL", 18);
       ("CONFIDENCE", 20)];
     creates := [("confidence", false); ("harmful", false); ("transactional", false);
       ("opinion", false); ("personal", false); ("promotional", false);
       ("news", false); ("entertainment", false); ("educational", false)];
     getters :=
      [Get "educational" 4 TF32 (Some 0);
       Get "entertainment" 6 TF32 (Some 0);
       Get "news" 8 TF32 (Some 0);
       Get "promotional" 10 TF32 (Some 0);
       Get "personal" 12 TF32 (Some 0);
       Get "opinion" 14 TF32 (Some 0);
       Get "transactional" 16 TF32 (Some 0);
       Get "harmful" 18 TF32 (Some 0);
       Get "confidence" 20 TF32 (Some 0)];
     variants := [];
     visits :=
      [VisitField "educational" 4 TF32 false;
       VisitField "entertainment" 6 TF32 false;
       VisitField "news" 8 TF32 false;
       VisitField "promotional" 10 TF32 false;
       VisitField "personal" 12 TF32 false;
       VisitField "opinion" 14 TF32 false;
       VisitField "transactional" 16 TF32 false;
       VisitField "harmful" 18 TF32 false;
       VisitField "confidence" 20 TF32 false] |}.

Definition Purpose_builder : BuilderImpl :=
  {| args_default := [("educational", Some 0); ("entertainment", Some 0); ("news", Some 0);
       ("promotional", Some 0); ("personal", Some 0); ("opinion", Some 0);
       ("transactional", Some 0); ("harmful", Some 0); ("confidence", Some 0)];
     adds :=
      [AddSlot "educational" 4 TF32 0;
       AddSlot "entertainment" 6 TF32 0;
       AddSlot "news" 8 TF32 0;
       AddSlot "promotional" 10 TF32 0;
       AddSlot "personal" 12 TF32 0;
       AddSlot "opinion" 14 TF32 0;
       AddSlot "transactional" 16 TF32 0;
       AddSlot "harmful" 18 TF32 0;
       AddSlot "confidence" 20 TF32 0];
     debug := ["educational"; "entertainment"; "news"; "promotional"; "personal";
       "opinion"; "transactional"; "harmful"; "confidence"] |}.

Definition FormatInfo_table : TableImpl :=
  {| t_name := "FormatInfo";
     vt := [("TYPE_", 4); ("VERSION", 6); ("PROFILE", 8)];
     creates := [("profile", true); ("version", true); ("type_", false)];
     getters :=
      [Get "type_" 4 (TEnum "FormatType") (Some 0);
       Get "version" 6 TStr None;
       Get "profile" 8 TStr None];
     variants := [];
     visits :=
      [VisitField "type_" 4 (TEnum "FormatType") false;
       VisitField "version" 6 TStr false;
       VisitField "profile" 8 TStr false] |}.

Definition FormatInfo_builder : BuilderImpl :=
  {| args_default := [("type_", Some 0); ("version", None); ("profile", None)];
     adds :=
      [AddSlot "type_" 4 (TEnum "FormatType") 0;
       AddAlways "version" 6;
       AddAlways "profile" 8];
     debug := ["type_"; "version"; "profile"] |}.

Definition ArchiveInfo_table : TableImpl :=
  {| t_name := "ArchiveInfo";
     vt := [("TYPE_", 4); ("VERSION", 6); ("PROFILE", 8)];
     creates := [("profile", true); ("version", true); ("type_", false)];
     getters :=
      [Get "type_" 4 (TEnum "ArchiveType") (Some 0);
       Get "version" 6 TStr None;
       Get "profile" 8 TStr None];
     variants := [];
     visits :=
      [VisitField "type_" 4 (TEnum "ArchiveType") false;
       VisitField "version" 6 TStr false;
       VisitField "profile" 8 TStr false] |}.

Definition ArchiveInfo_builder : BuilderImpl :=
  {| args_default := [("type_", Some 0); ("version", None); ("profile", None)];
     adds :=
      [AddSlot "type_" 4 (TEnum "ArchiveType") 0;
       AddAlways "version" 6;
       AddAlways "profile" 8];
     debug := ["type_"; "version"; "profile"] |}.

Definition ContentFormat_table : TableImpl :=
  {| t_name := "ContentFormat";
     vt := [("MEDIA_TYPE", 4); ("DATA_ENCODING", 6); ("FORMAT", 8)];
     creates := [("format", true); ("data_encoding", false); ("media_type", false)];
     getters :=
      [Get "media_type" 4 (TEnum "MediaType") (Some 0);
       Get "data_encoding" 6 (TEnum "DataEncoding") (Some 0);
       Get "format" 8 (TTable "FormatInfo") None];
     variants := [];
     visits :=
      [VisitField "media_type" 4 (TEnum "MediaType") false;
       VisitField "data_encoding" 6 (TEnum "DataEncoding") false;
       VisitField "format" 8 (TTable "FormatInfo") false] |}.

Definition ContentFormat_builder : BuilderImpl :=
  {| args_default := [("media_type", Some 0); ("data_encoding", Some 0); ("format", None)];
     adds :=
      [AddSlot "media_type" 4 (TEnum "MediaType") 0;
       AddSlot "data_encoding" 6 (TEnum "DataEncoding") 0;
       AddAlways "format" 8];
     debug := ["media_type"; "data_encoding"; "format"] |}.

Definition Metadata_table : TableImpl :=
  {| t_name := "Metadata";
     vt := [("CREATED", 4); ("ID", 6); ("RELATED", 8); ("CREATOR", 10); ("RATING", 12);
       ("PURPOSE", 14); ("TOPICS", 16); ("ARCHIVE", 18); ("CONTENT", 20)];
     creates := [("created", false); ("content", true); ("archive", true); ("topics", true);
       ("purpose", true); ("rating", true); ("creator", true); ("related", true);
       ("id", true)];
     getters :=
      [Get "created" 4 TI64 (Some 0);
       Get "id" 6 TVecU8 None;
       Get "related" 8 TVecU8 None;
       Get "creator" 10 TVecU8 None;
       Get "rating" 12 (TTable "Rating") None;
       Get "purpose" 14 (TTable "Purpose") None;
       Get "topics" 16 TVecU32 None;
       Get "archive" 18 (TTable "ArchiveInfo") None;
       Get "content" 20 (TTable "ContentFormat") None];
     variants := [];
     visits :=
      [VisitField "created" 4 TI64 false;
       VisitField "id" 6 TVecU8 false;
       VisitField "related" 8 TVecU8 false;
       VisitField "creator" 10 TVecU8 false;
       VisitField "rating" 12 (TTable "Rating") false;
       VisitField "purpose" 14 (TTable "Purpose") false;
       VisitField "topics" 16 TVecU32 false;
       VisitField "archive" 18 (TTable "ArchiveInfo") false;
       VisitField "content" 20 (TTable "ContentFormat") false] |}.

Definition Metadata_builder : BuilderImpl :=
  {| args_default := [("created", Some 0); ("id", None); ("related", None); ("creator", None);
       ("rating", None); ("purpose", None); ("topics", None); ("archive", None);
       ("content", None)];
     adds :=
      [AddSlot "created" 4 TI64 0;
       AddAlways "id" 6;
       AddAlways "related" 8;
       AddAlways "creator" 10;
       AddAlways "rating" 12;
       AddAlways "purpose" 14;
       AddAlways "topics" 16;
       AddAlways "archive" 18;
       AddAlways "content" 20];
     debug := ["created"; "id"; "related"; "creator"; "rating"; "purpose"; "topics";
       "archive"; "content"] |}.

(** ** The schema *)

Definition metadata_enums : list FbEnum := [RatingLevel; FormatType; DataEncoding; ArchiveType].

Definition metadata_tables : list (TableImpl * BuilderImpl) :=
  [(Rating_table, Rating_builder);
   (Purpose_table, Purpose_builder);
   (FormatInfo_table, FormatInfo_builder);
   (ArchiveInfo_table, ArchiveInfo_builder);
   (ContentFormat_table, ContentFormat_builder);
   (Metadata_table, Metadata_builder)].

Definition root_as_metadata `{!FlatBuffers} (buf : bytes) : result Table string :=
  root_as (metadata_tables.*1) "Metadata" buf.
