(* ===== verification/FlatBuffersProps.v ===== *)
(** * Correctness of the generated FlatBuffers code

    [agrees] and [enum_agrees] check that the parts of the generated code fit together; they
    are evaluated on the three schemas.  From them follow, for every table, that what was
    built is read back, and that the safety comments of the accessors hold for a buffer that
    was verified. *)
From S2P Require Import Prelude FlatBuffers EntitySchema EventSchema MetadataSchema.
From stdpp Require Import list.

#[local] Open Scope string_scope.
#[local] Open Scope Z_scope.
#[local] Open Scope list_scope.

(** ** Agreement of the parts *)

(** The visit that verifies what a getter reads. *)
Definition covers (g : Getter) (v : Visit) : bool :=
  match v with
  | VisitField n slot ty _ => bool_decide (n = g_name g /\ slot = g_slot g /\ ty = g_type g)
  | VisitUnion e tn tag n slot _ _ =>
    bool_decide (tn = g_name g /\ tag = g_slot g /\ g_type g = TEnum e) ||
    bool_decide (n = g_name g /\ slot = g_slot g /\ g_type g = TAnyTable)
  end.

(** The [add] method that a getter reads back, with the same default. *)
Definition add_of (g : Getter) : AddMethod :=
  match g_default g with
  | Some d => AddSlot (g_name g) (g_slot g) (g_type g) d
  | None => AddAlways (g_name g) (g_slot g)
  end.

Definition getter_agrees (i : TableImpl) (b : BuilderImpl) (g : Getter) : bool :=
  existsb (covers g) (visits i) &&
  bool_decide (find_add (g_name g) (adds b) = Some (add_of g)) &&
  bool_decide (find_key (g_name g) (args_default b) = Some (g_default g)) &&
  bool_decide ((g_name g, negb (is_scalar (g_type g))) ∈ creates i) &&
  bool_decide (g_slot g ∈ (vt i).*2) && bool_decide (g_name g ∈ debug b) &&
  Bool.eqb (is_scalar (g_type g)) (bool_decide (is_Some (g_default g))).

(** A variant reads the tag and the table of one union, whose verifier has its arm. *)
Definition variant_agrees (i : TableImpl) (v : VariantGetter) : bool :=
  existsb (fun w => match w with
    | VisitUnion e tn tag n slot _ arms =>
      bool_decide (tn = v_tag_getter v /\ n = v_data_getter v /\
        getter_named tn (getters i) = Some (Get tn tag (TEnum e) (Some 0)) /\
        getter_named n (getters i) = Some (Get n slot TAnyTable None) /\
        snd <$> list_find (fun a => a.1 = v_tag v) arms = Some (v_tag v, v_table v)) &&
      negb (v_tag v =? 0)
    | _ => false
    end) (visits i).

Definition agrees (ib : TableImpl * BuilderImpl) : bool :=
  let '(i, b) := ib in
  forallb (getter_agrees i b) (getters i) && forallb (variant_agrees i) (variants i) &&
  bool_decide (NoDup (add_slot <$> adds b)) && bool_decide (NoDup (g_name <$> getters i)).

(** The arms of [variant_name] name the constants, which are distinct and lie between the
    least and the greatest, and the list of values is that of the constants. *)
Definition enum_agrees (e : FbEnum) : bool :=
  bool_decide (e_names e = (fun c => (c.1, c.1)) <$> e_consts e) &&
  bool_decide (e_values e = (e_consts e).*1) && bool_decide (NoDup (e_consts e).*1) &&
  bool_decide (NoDup (e_consts e).*2) &&
  forallb (fun z => (e_min e <=? z) && (z <=? e_max e)) (e_consts e).*2 &&
  bool_decide (e_min e ∈ (e_consts e).*2) && bool_decide (e_max e ∈ (e_consts e).*2) &&
  match e_repr e with
  | TI8 => (- 2 ^ 7 <=? e_min e) && (e_max e <? 2 ^ 7)
  | TU8 => (0 <=? e_min e) && (e_max e <? 2 ^ 8)
  | _ => false
  end.

Definition all_tables : list (TableImpl * BuilderImpl) :=
  entity_tables ++ event_tables ++ metadata_tables.
Definition all_enums : list FbEnum := entity_enums ++ event_enums ++ metadata_enums.

Lemma tables_agree ib : ib ∈ all_tables -> agrees ib = true.
Proof.
  assert (forallb agrees all_tables = true) as H by reflexivity.
  intros Hin. apply (proj1 (forallb_forall _ _) H), list_elem_of_In, Hin.
Qed.

Lemma enums_agree e : e ∈ all_enums -> enum_agrees e = true.
Proof.
  assert (forallb enum_agrees all_enums = true) as H by reflexivity.
  intros Hin. apply (proj1 (forallb_forall _ _) H), list_elem_of_In, Hin.
Qed.

(** ** Enumerations *)

Lemma find_key_NoDup {A} k (a : A) l : NoDup l.*1 -> find_key k l = Some a <-> (k, a) ∈ l.
Proof.
  induction l as [|[k' a'] l IH]; cbn; [intros _; split; [done|by intros ?%not_elem_of_nil]|].
  intros [Hn Hd]%NoDup_cons. rewrite elem_of_cons. case_bool_decide as Hk.
  - subst k'. split; [intros [= <-]; by left|]. intros [[= <-]|Hin]; [done|]. exfalso. apply Hn.
    apply list_elem_of_fmap. by exists (k, a).
  - rewrite IH by done. naive_solver.
Qed.

Lemma NoDup_fmap_snd_eq {A B} (l : list (A * B)) a a' b :
  NoDup l.*2 -> (a, b) ∈ l -> (a', b) ∈ l -> a = a'.
Proof.
  induction l as [|[c d] l IH]; cbn; [by intros _ ?%not_elem_of_nil|].
  intros [Hn Hd]%NoDup_cons Ha Ha'.
  assert (forall x, (x, d) ∉ l) as Hno.
  { intros x Hx. apply Hn, list_elem_of_fmap. by exists (x, d). }
  apply elem_of_cons in Ha as [[= -> ->]|Ha], Ha' as [[= ->]|Ha']; try done.
  - by apply Hno in Ha'.
  - subst. by apply Hno in Ha.
  - by apply IH.
Qed.

Lemma first_name_Some e z arms n :
  NoDup (e_consts e).*1 -> NoDup (e_consts e).*2 -> (forall a, a ∈ arms -> a.1 = a.2) ->
  first_name e z arms = Some n <-> (n, n) ∈ arms /\ (n, z) ∈ e_consts e.
Proof.
  intros H1 H2. induction arms as [|[c m] arms IH]; cbn; intros Ha.
  { split; [done|]. by intros [?%not_elem_of_nil _]. }
  pose proof (Ha (c, m) (list_elem_of_here _ _)) as Hcm. cbn in Hcm. subst m.
  rewrite elem_of_cons. case_bool_decide as Hf.
  - apply find_key_NoDup in Hf; [|done]. split; [intros [= <-]; split; [by left|done]|].
    intros [_ Hn]. f_equal. eapply (NoDup_fmap_snd_eq (e_consts e)); eauto.
  - rewrite IH by (intros a ?; apply Ha; by right). split; [naive_solver|].
    intros [[[= <-]|?] Hn]; [|done]. by apply find_key_NoDup in Hn.
Qed.

(** The range of the representation. *)
Definition in_repr (e : FbEnum) (z : Z) : Prop :=
  match e_repr e with TI8 => - 2 ^ 7 <= z < 2 ^ 7 | _ => 0 <= z < 2 ^ 8 end.

Lemma enum_push_follow e z : in_repr e z -> enum_follow e (enum_push z) = z.
Proof.
  unfold in_repr, enum_follow, enum_push. intros Hz. rewrite b2z_z2b.
  destruct (e_repr e); try (by apply Z.mod_small).
  destruct (decide (0 <= z)) as [H0|H0].
  - rewrite Z.mod_small by lia. by rewrite (proj2 (Z.ltb_lt _ _)) by lia.
  - rewrite <- (Z_mod_plus_full z 1), Z.mod_small by lia.
    rewrite (proj2 (Z.ltb_ge _ _)) by lia. lia.
Qed.

(** The generated enumerations.  In all three schemas, the name of a value is that of its
    constant and every constant has its name, a named value is in the bounds of the
    enumeration, which are attained and fit the representation, the list of values is that of
    the constants, and a value in the range of the representation is read back from its
    byte. *)
Theorem enumerations_consistent e :
  e ∈ all_enums ->
  (forall z n, variant_name e z = Some n <-> (n, z) ∈ e_consts e) /\
  (forall z, is_Some (variant_name e z) -> e_min e <= z <= e_max e) /\
  is_Some (variant_name e (e_min e)) /\ is_Some (variant_name e (e_max e)) /\
  in_repr e (e_min e) /\ in_repr e (e_max e) /\ e_values e = (e_consts e).*1 /\
  (forall z, in_repr e z -> enum_follow e (enum_push z) = z).
Proof.
  intros He%enums_agree. unfold enum_agrees in He.
  repeat (apply andb_true_iff in He as [He ?]).
  repeat match goal with H : bool_decide _ = true |- _ => apply bool_decide_eq_true in H end.
  match goal with H : forallb _ _ = true |- _ => pose proof (proj1 (forallb_forall _ _) H) as Hb end.
  assert (forall z n, variant_name e z = Some n <-> (n, z) ∈ e_consts e) as Hn.
  { intros z n. unfold variant_name. rewrite He, first_name_Some; [|done..|].
    - split; [by intros [_ ?]|]. intros Hin. split; [|done]. apply list_elem_of_fmap. by exists (n, z).
    - intros a ([c d] & -> & _)%list_elem_of_fmap. done. }
  assert (forall z, is_Some (variant_name e z) <-> z ∈ (e_consts e).*2) as Hs.
  { intros z. rewrite list_elem_of_fmap. split.
    - intros [n Hz%Hn]. by exists (n, z).
    - intros ([n w] & -> & Hz). exists n. by apply Hn. }
  assert (forall z, z ∈ (e_consts e).*2 -> e_min e <= z <= e_max e) as Hr.
  { intros z Hz%list_elem_of_In%Hb. lia. }
  split_and!; try done.
  - intros z Hz%Hs. by apply Hr.
  - by apply Hs.
  - by apply Hs.
  - unfold in_repr. specialize (Hr (e_max e) ltac:(done)). destruct (e_repr e); try done; lia.
  - unfold in_repr. specialize (Hr (e_min e) ltac:(done)). destruct (e_repr e); try done; lia.
  - intros z. apply enum_push_follow.
Qed.

(** ** Tables *)

Record getter_fits (i : TableImpl) (b : BuilderImpl) (g : Getter) : Prop := {
  fits_visit : exists v, v ∈ visits i /\ covers g v = true;
  fits_add : find_add (g_name g) (adds b) = Some (add_of g);
  fits_args : find_key (g_name g) (args_default b) = Some (g_default g);
  fits_create : g_name g ∈ (creates i).*1;
  fits_scalar : is_scalar (g_type g) = true <-> is_Some (g_default g);
}.

Lemma agrees_fits i b :
  (i, b) ∈ all_tables ->
  (forall g, g ∈ getters i -> getter_fits i b g) /\ NoDup (add_slot <$> adds b) /\
  NoDup (g_name <$> getters i) /\ forall v, v ∈ variants i -> variant_agrees i v = true.
Proof.
  intros H%tables_agree. unfold agrees in H.
  apply andb_true_iff in H as [H Hn%bool_decide_eq_true].
  apply andb_true_iff in H as [H Hs%bool_decide_eq_true]. apply andb_true_iff in H as [Hg Hv].
  pose proof (proj1 (forallb_forall _ _) Hg) as Hg'. pose proof (proj1 (forallb_forall _ _) Hv) as Hv'.
  split_and!; [|done|done|intros v Hin%list_elem_of_In; by apply Hv'].
  intros g Hin%list_elem_of_In%Hg'. unfold getter_agrees in Hin.
  repeat (apply andb_true_iff in Hin as [Hin ?]).
  repeat match goal with H : bool_decide _ = true |- _ => apply bool_decide_eq_true in H end.
  apply existsb_exists in Hin as (v & ?%list_elem_of_In & ?).
  split; try done; [by exists v| |].
  - apply list_elem_of_fmap. eexists (_, _). split; [|eassumption]. done.
  - match goal with H : Bool.eqb _ _ = true |- _ => apply Bool.eqb_prop in H as -> end.
    by rewrite bool_decide_eq_true.
Qed.

Lemma getter_named_in n l g : getter_named n l = Some g -> g ∈ l /\ g_name g = n.
Proof.
  induction l as [|g' l IH]; cbn; [done|]. case_bool_decide.
  - intros [= <-]. split; [left|done].
  - intros [??]%IH. split; [by right|done].
Qed.

Lemma getter_named_NoDup l g : NoDup (g_name <$> l) -> g ∈ l -> getter_named (g_name g) l = Some g.
Proof.
  induction l as [|g' l IH]; cbn; [by intros _ ?%not_elem_of_nil|].
  intros [Hn Hd]%NoDup_cons Hg. apply elem_of_cons in Hg as [->|Hg]; [by rewrite bool_decide_eq_true_2|].
  rewrite bool_decide_eq_false_2; [by apply IH|]. intros He. apply Hn. rewrite <- He.
  apply list_elem_of_fmap. by exists g.
Qed.

Lemma find_add_in n l a : find_add n l = Some a -> a ∈ l /\ add_name a = n.
Proof.
  unfold find_add. intros ((k & a') & (Hk & Hn & _)%list_find_Some & ->)%fmap_Some.
  split; [by eapply list_elem_of_lookup_2|done].
Qed.

Lemma slot_unique l a a' : NoDup (add_slot <$> l) -> a ∈ l -> a' ∈ l -> add_slot a = add_slot a' -> a = a'.
Proof.
  induction l as [|x l IH]; cbn; [by intros _ ?%not_elem_of_nil|]. intros [Hn Hd]%NoDup_cons Ha Ha' He.
  assert (forall y, y ∈ l -> add_slot y <> add_slot x) as Hno.
  { intros y Hy Hs. apply Hn. rewrite <- Hs. apply list_elem_of_fmap. by exists y. }
  apply elem_of_cons in Ha as [->|Ha], Ha' as [->|Ha']; [done| | |by apply IH].
  - by destruct (Hno a').
  - by destruct (Hno a).
Qed.

Section Tables.
Context {crate : FlatBuffers} {laws : FlatBuffersLaws}.

(** Arguments that Rust's types admit: a scalar field has one, other fields may. *)
Definition args_ok (i : TableImpl) (args : Args) : Prop :=
  forall g, g ∈ getters i -> match g_default g with
    | Some _ => exists z, args (g_name g) = Some (Scal z)
    | None => forall v, args (g_name g) = Some v -> has_type (g_type g) v
    end.

(** What a field holds after [create]: a scalar equal to the default is not stored. *)
Definition stored (g : Getter) (args : Args) : option (FbVal Table) :=
  match g_default g, args (g_name g) with
  | Some d, Some (Scal z) => if scalar_eqb (g_type g) z d then None else Some (Scal z)
  | _, v => v
  end.

Lemma created_field i b args g cs :
  (forall g, g ∈ getters i -> getter_fits i b g) -> NoDup (add_slot <$> adds b) -> args_ok i args ->
  g ∈ getters i ->
  fb_get (g_type g) (g_slot g) (end_table (foldl (add_field b args) start_table cs)) =
  if decide (g_name g ∈ cs.*1) then stored g args else None.
Proof.
  intros Hfits Hslots Hargs Hg. pose proof (fits_add _ _ _ (Hfits g Hg)) as Hadd.
  pose proof (Hargs g Hg) as Harg.
  induction cs as [|[n opt] cs IH] using rev_ind.
  { cbn. by rewrite get_start, decide_False by apply not_elem_of_nil. }
  rewrite foldl_app, fmap_app. cbn [foldl fmap list_fmap fst].
  set (tb := foldl (add_field b args) start_table cs) in *. unfold add_field at 1. cbn [fst].
  destruct (decide (n = g_name g)) as [->|Hne].
  - rewrite Hadd, (decide_True _ _ (proj2 (elem_of_app _ _ _) (or_intror (list_elem_of_here _ _)))).
    unfold add_of, stored in *. destruct (g_default g) as [d|] eqn:Hd.
    + destruct Harg as [z Hz]. rewrite Hz in *. rewrite get_slot by done.
      destruct (scalar_eqb (g_type g) z d).
      * rewrite decide_False by naive_solver. rewrite IH. by case_decide.
      * by rewrite decide_True.
    + destruct (args (g_name g)) as [v|] eqn:Hv.
      * rewrite get_always by (intros _; by apply Harg). by rewrite decide_True.
      * rewrite IH. by case_decide.
  - assert (fb_get (g_type g) (g_slot g) (end_table tb) =
      if decide (g_name g ∈ cs.*1 ++ [n]) then stored g args else None) as IH'.
    { rewrite IH. destruct (decide (g_name g ∈ cs.*1)) as [Hin|Hin].
      - rewrite decide_True; [done|]. apply elem_of_app. by left.
      - rewrite decide_False; [done|]. rewrite elem_of_app, list_elem_of_singleton. naive_solver. }
    destruct (find_add n (adds b)) as [a|] eqn:Ha; [|done].
    assert (g_slot g <> add_slot a) as Hs.
    { intros Hs. apply find_add_in in Ha as [Ha <-], Hadd as [Hadd Hname]. apply Hne. rewrite <- Hname.
      f_equal. eapply slot_unique; [done..|]. rewrite <- Hs. unfold add_of. by destruct (g_default g). }
    destruct a as [n' s ty d|n' s]; cbn in Hs; destruct (args n) as [v|]; try done.
    + destruct v; try done. by rewrite get_slot, decide_False by naive_solver.
    + by rewrite get_always, decide_False by naive_solver.
Qed.

Lemma created_access i b args g :
  (i, b) ∈ all_tables -> args_ok i args -> g ∈ getters i ->
  access i (g_name g) (create i b args) =
  match g_default g, args (g_name g) with
  | Some d, Some (Scal z) => Some (Scal (if scalar_eqb (g_type g) z d then d else z))
  | _, v => v
  end.
Proof.
  intros (Hfits & Hslots & Hnames & _)%agrees_fits Hargs Hg.
  unfold access. rewrite getter_named_NoDup by done. cbn. unfold get_field, create.
  rewrite (created_field i b), decide_True by (done || by apply (fits_create _ _ _ (Hfits g Hg))).
  unfold stored. specialize (Hargs g Hg). destruct (g_default g) as [d|].
  - destruct Hargs as [z ->]. by destruct (scalar_eqb (g_type g) z d).
  - by destruct (args (g_name g)).
Qed.

(** What was built is read back.  For every table of the three schemas and arguments of
    its types, each accessor of a created table answers the argument of its name; a scalar
    that equals the default is answered as the default, which is the same value unless it is
    a negative zero of binary32. *)
Theorem created_tables_read_back i b args g :
  (i, b) ∈ all_tables -> args_ok i args -> g ∈ getters i ->
  access i (g_name g) (create i b args) =
  match g_default g, args (g_name g) with
  | Some d, Some (Scal z) => Some (Scal (if scalar_eqb (g_type g) z d then d else z))
  | _, v => v
  end.
Proof. apply created_access. Qed.

(** ** Verified buffers *)

Definition schemas : list (list TableImpl) := [entity_tables.*1; event_tables.*1; metadata_tables.*1].

Lemma find_table_fits schema n i :
  schema ∈ schemas -> find_table n schema = Some i -> exists b, (i, b) ∈ all_tables.
Proof.
  intros Hs Hf. assert (i ∈ schema) as Hi.
  { clear Hs. induction schema as [|j schema IH]; cbn in Hf; [done|]. case_bool_decide.
    - injection Hf as <-. left.
    - right. by apply IH. }
  unfold all_tables. unfold schemas in Hs.
  repeat (apply elem_of_cons in Hs as [->|Hs]); [..|by apply not_elem_of_nil in Hs];
    apply list_elem_of_fmap in Hi as ([j b] & -> & Hi); exists b; rewrite !elem_of_app; tauto.
Qed.

(** The tables that the accessors of a table lead to, with their types. *)
Inductive leads (schema : list TableImpl) : string * Table -> string * Table -> Prop :=
| leads_field n t i g n' t' :
    find_table n schema = Some i -> g ∈ getters i -> g_type g = TTable n' ->
    get_field g t = Some (Tab t') -> leads schema (n, t) (n', t')
| leads_variant n t i v t' :
    find_table n schema = Some i -> v ∈ variants i -> variant_access i v t = Some t' ->
    leads schema (n, t) (v_table v, t').

Lemma run_verifier_inv schema depth n t :
  run_verifier schema depth n t = true ->
  exists d i, depth = S d /\ find_table n schema = Some i /\ forall v, v ∈ visits i ->
    match v with
    | VisitField _ slot ty req => visit_field ty slot req (fun t' => match ty with
        | TTable n => run_verifier schema d n t' | _ => true end) t
    | VisitUnion e _ tag _ slot req arms => visit_union e tag slot req (fun z =>
        match list_find (fun a => a.1 = z) arms with
        | Some (_, (_, n)) => Some (run_verifier schema d n)
        | None => None
        end) t
    end = true.
Proof.
  destruct depth as [|d]; [done|]. cbn [run_verifier]. destruct (find_table n schema) as [i|]; [|done].
  intros H. exists d, i. split_and!; [done..|]. intros v Hv%list_elem_of_In.
  by apply (proj1 (forallb_forall _ _) H).
Qed.

Lemma get_field_tab g t t' : get_field g t = Some (Tab t') -> fb_get (g_type g) (g_slot g) t = Some (Tab t').
Proof. unfold get_field. destruct (fb_get _ _ t); [done|]. by destruct (g_default g). Qed.

(** What a variant's accessor found. *)
Lemma variant_access_inv i v t t' e tag slot :
  getter_named (v_tag_getter v) (getters i) = Some (Get (v_tag_getter v) tag (TEnum e) (Some 0)) ->
  getter_named (v_data_getter v) (getters i) = Some (Get (v_data_getter v) slot TAnyTable None) ->
  v_tag v <> 0 -> variant_access i v t = Some t' ->
  fb_get (TEnum e) tag t = Some (Scal (v_tag v)) /\ fb_get TAnyTable slot t = Some (Tab t').
Proof.
  intros Ht Hd Hz. unfold variant_access, access. rewrite Ht, Hd.
  cbn [mbind option_bind]. unfold get_field. cbn [g_type g_slot g_default fmap option_fmap option_map].
  destruct (fb_get (TEnum e) tag t) as [[z|s|l|u]|]; try done.
  - destruct (Z.eqb_spec z (v_tag v)) as [->|]; [|done].
    destruct (fb_get TAnyTable slot t) as [[]|]; try done. by intros [= ->].
  - destruct (Z.eqb_spec 0 (v_tag v)); [congruence|done].
Qed.

Lemma leads_verified schema depth p q :
  schema ∈ schemas -> leads schema p q -> run_verifier schema depth p.1 p.2 = true ->
  exists d, run_verifier schema d q.1 q.2 = true.
Proof.
  intros Hs Hl (d & j & -> & Hj & Hv)%run_verifier_inv. exists d.
  destruct Hl as [n t i g n' t' Hi Hg Hty Hget|n t i v t' Hi Hv' Hget]; cbn in *;
    rewrite Hj in Hi; injection Hi as ->;
    destruct (find_table_fits _ _ _ Hs Hj) as [b (Hfits & _ & _ & Hvar)%agrees_fits].
  - destruct (fits_visit _ _ _ (Hfits g Hg)) as (w & Hw & Hc). specialize (Hv w Hw).
    destruct w as [n1 slot ty req|e tn tag n1 slot req arms]; cbn in Hc.
    + apply bool_decide_eq_true in Hc as (-> & -> & ->). apply visited_field in Hv as [_ Hv].
      apply get_field_tab, Hv in Hget. by rewrite Hty in Hget.
    + rewrite Hty in Hc. apply orb_true_iff in Hc as [Hc|Hc];
        apply bool_decide_eq_true in Hc as (_ & _ & ?); done.
  - apply Hvar, existsb_exists in Hv' as (w & Hw%list_elem_of_In & Hc). specialize (Hv w Hw).
    destruct w as [|e tn tag n1 slot req arms]; [done|].
    apply andb_true_iff in Hc as [(-> & -> & Ht & Hd & Ha)%bool_decide_eq_true Hz%negb_true_iff%Z.eqb_neq].
    destruct (variant_access_inv _ _ _ _ _ _ _ Ht Hd Hz Hget) as [Htag Hdata].
    apply fmap_Some in Ha as ([k [z m]] & Hf & [= <- <-]).
    apply visited_union in Hv as [_ Hv]. eapply Hv; [exact Htag|cbv beta; by rewrite Hf|done].
Qed.

(** An accessor that verification makes safe in a table: any but that of a union's value, which
    is read where the tag is that of a variant, as the variants' accessors do. *)
Definition readable (i : TableImpl) (g : Getter) (t : Table) : Prop :=
  g_type g = TAnyTable -> exists v, v ∈ variants i /\ v_data_getter v = g_name g /\ has_tag i v t = true.

Lemma getter_slot_valid schema d i b n g t :
  (i, b) ∈ all_tables -> find_table n schema = Some i -> run_verifier schema d n t = true ->
  g ∈ getters i -> readable i g t -> valid_slot (g_type g) (g_slot g) t.
Proof.
  intros (Hfits & _ & Hnames & Hvar)%agrees_fits Hi (d' & i' & -> & Hi' & Hv)%run_verifier_inv Hg Hr.
  rewrite Hi in Hi'. injection Hi' as <-.
  destruct (decide (g_type g = TAnyTable)) as [Hany|Hany].
  - destruct (Hr Hany) as (v & Hin & Hdata & Htag).
    apply Hvar, existsb_exists in Hin as (w & Hw%list_elem_of_In & Hc). specialize (Hv w Hw).
    destruct w as [|e tn tag n1 slot req arms]; [done|].
    apply andb_true_iff in Hc as [(-> & -> & Ht & Hd & Ha)%bool_decide_eq_true Hz%negb_true_iff%Z.eqb_neq].
    rewrite Hdata, getter_named_NoDup in Hd by done. injection Hd as ->.
    apply fmap_Some in Ha as ([k [z m]] & Hf & [= <- <-]).
    apply visited_union in Hv as [_ Hv]. eapply Hv; [|cbv beta; by rewrite Hf].
    unfold has_tag, access in Htag. rewrite Ht in Htag. cbn in Htag. unfold get_field in Htag. cbn in Htag.
    destruct (fb_get (TEnum e) tag t) as [[z'|?|?|?]|]; try done; cbn in Htag.
    + apply Z.eqb_eq in Htag. congruence.
    + by destruct (v_tag v).
  - destruct (fits_visit _ _ _ (Hfits g Hg)) as (w & Hw & Hc). specialize (Hv w Hw).
    destruct w as [n1 slot ty req|e tn tag n1 slot req arms]; cbn in Hc.
    + apply bool_decide_eq_true in Hc as (-> & -> & ->). by apply visited_field in Hv as [? _].
    + apply visited_union in Hv as [? _].
      apply orb_true_iff in Hc as [Hc|Hc]; apply bool_decide_eq_true in Hc as (_ & -> & Hty); [|done].
      by rewrite Hty.
Qed.

(** C29: The safety of the generated accessors.  In a buffer that was verified as a table of one
    of the schemas, every table that the accessors lead to, through fields and through the
    variants of unions, is one of the schema and has in the slot of each accessor nothing or a
    valid value of the accessor's type, so that the unchecked reads are sound, and every
    accessor answers a value of its type.  The accessor of a union's untyped value is excepted
    unless the tag is that of a variant, whose typed accessor tests that first: for other tags
    the verifier does not look at the value. *)
Theorem verified_buffers_safe schema name buf t n t' :
  schema ∈ schemas -> root_as schema name buf = Ok t -> rtc (leads schema) (name, t) (n, t') ->
  exists i, find_table n schema = Some i /\ forall g, g ∈ getters i -> readable i g t' ->
    valid_slot (g_type g) (g_slot g) t' /\
    forall v, access i (g_name g) t' = Some v -> has_type (g_type g) v.
Proof.
  intros Hs Hr%root_verified Hl.
  assert (exists d, run_verifier schema d n t' = true) as [d Hd].
  { change (exists d, run_verifier schema d (n, t').1 (n, t').2 = true).
    assert (exists d, run_verifier schema d (name, t).1 (name, t).2 = true) as Hd by by exists 64%nat.
    clear Hr. revert Hd. induction Hl as [p|p q r Hpq _ IH]; [done|]. intros [d Hd]. apply IH.
    by eapply leads_verified. }
  pose proof (run_verifier_inv _ _ _ _ Hd) as (d' & i & _ & Hi & _). exists i. split; [done|].
  destruct (find_table_fits _ _ _ Hs Hi) as [b Hib]. intros g Hg Hread.
  assert (valid_slot (g_type g) (g_slot g) t') as Hslot by by eapply getter_slot_valid.
  destruct (agrees_fits _ _ Hib) as (Hfits & _ & Hnames & _).
  split; [done|]. intros v. unfold access. rewrite getter_named_NoDup by done. cbn. unfold get_field.
  destruct (fb_get _ _ t') eqn:Hget; [intros [= <-]; by eapply valid_slot_typed|].
  intros (z & Hz & ->)%fmap_Some. cbn. apply (fits_scalar _ _ _ (Hfits g Hg)). by rewrite Hz.
Qed.
End Tables.
