(* ===== verification/Json.v ===== *)
(** * JSON values (serde_json) and CBOR values (ciborium)

    The data types of the two crates and the accessors the sources use.  A number is an
    unsigned or negative 64-bit integer or a binary64, an inductive [spec_float] of the
    standard library.  A [serde_json::Map] is a list of pairs with distinct keys, whose order
    no definition here observes: equality of objects, which serde_json has on keys and values,
    does not see it. *)
From Stdlib Require Import Floats.SpecFloat.
From S2P Require Import Prelude.

Inductive Number : Set :=
| PosInt (n : Z)
| NegInt (n : Z)
| Float (f : spec_float).

Inductive Value : Set :=
| VNull
| VBool (b : bool)
| VNumber (n : Number)
| VString (s : string)
| VArray (a : list Value)
| VObject (m : list (string * Value)).

Abbreviation Map := (list (string * Value)).

(** ** Objects *)

Fixpoint map_get (k : string) (m : Map) : option Value :=
  match m with
  | [] => None
  | (k', v) :: m => if bool_decide (k = k') then Some v else map_get k m
  end.

Fixpoint map_insert (k : string) (v : Value) (m : Map) : Map :=
  match m with
  | [] => [(k, v)]
  | (k', w) :: m => if bool_decide (k = k') then (k', v) :: m else (k', w) :: map_insert k v m
  end.

Definition contains_key (k : string) (m : Map) : bool :=
  match map_get k m with Some _ => true | None => false end.

(** [if let Some(v) = v { m.insert(k, f(v)) }] *)
Definition map_insert_opt (k : string) (v : option Value) (m : Map) : Map :=
  match v with Some v => map_insert k v m | None => m end.

(** ** Accessors of values *)

Definition as_object (v : Value) : option Map := match v with VObject m => Some m | _ => None end.
Definition as_array (v : Value) : option (list Value) :=
  match v with VArray a => Some a | _ => None end.
Definition as_str (v : Value) : option string := match v with VString s => Some s | _ => None end.
Definition as_bool (v : Value) : option bool := match v with VBool b => Some b | _ => None end.
Definition is_null (v : Value) : bool := match v with VNull => true | _ => false end.

(** [v.get(k)], and [v[k]], which is null where there is no such key. *)
Definition get (k : string) (v : Value) : option Value := m ← as_object v; map_get k m.
Definition at_key (k : string) (v : Value) : Value := default VNull (get k v).

(** The strings of an array, other elements skipped:
    [.and_then(Value::as_array).map(..filter_map(Value::as_str)..).unwrap_or_default()] *)
Definition strings_of (v : option Value) : list string :=
  match v ≫= as_array with Some a => omap (M := list) as_str a | None => [] end.

Definition json_strings (l : list string) : Value := VArray (VString <$> l).

(** ** Equality

    The derived [PartialEq]: binary64 numbers are compared as such, so 0.0 equals -0.0. *)
Definition number_eqb (a b : Number) : bool :=
  match a, b with
  | PosInt a, PosInt b => (a =? b)%Z
  | NegInt a, NegInt b => (a =? b)%Z
  | Float a, Float b => SFeqb a b
  | _, _ => false
  end.

Fixpoint value_eqb (a b : Value) : bool :=
  match a, b with
  | VNull, VNull => true
  | VBool a, VBool b => Bool.eqb a b
  | VNumber a, VNumber b => number_eqb a b
  | VString a, VString b => bool_decide (a = b)
  | VArray a, VArray b =>
    (fix go (a b : list Value) : bool :=
       match a, b with
       | [], [] => true
       | x :: a, y :: b => value_eqb x y && go a b
       | _, _ => false
       end) a b
  | VObject a, VObject b =>
    (length a =? length b) &&
    (fix go (a : list (string * Value)) : bool :=
       match a with
       | [] => true
       | (k, x) :: a =>
         match map_get k b with Some y => value_eqb x y | None => false end && go a
       end) a
  | _, _ => false
  end.

(** ** CBOR *)

Inductive CborValue : Set :=
| CInteger (i : Z)
| CBytes (b : bytes)
| CFloat (f : spec_float)
| CText (s : string)
| CBool (b : bool)
| CNull
| CTag (t : Z) (v : CborValue)
| CArray (a : list CborValue)
| CMap (m : list (CborValue * CborValue)).

(** [f.is_finite() && f >= 0.0], then [f.trunc() as u64], which saturates. *)
Definition is_finite (f : spec_float) : bool :=
  match f with S754_zero _ | S754_finite _ _ _ => true | _ => false end.

Definition trunc_u64 (f : spec_float) : Z :=
  match f with
  | S754_finite false m e =>
    Z.min (2 ^ 64 - 1)
      (if (0 <=? e)%Z then Z.pos m * 2 ^ e else Z.pos m / 2 ^ (- e))%Z
  | S754_infinity false => 2 ^ 64 - 1
  | _ => 0
  end%Z.

(** ** Lemmas on objects *)

Lemma map_get_insert k v m : map_get k (map_insert k v m) = Some v.
Proof.
  induction m as [|[k' w] m IH]; simpl; [by rewrite bool_decide_true|].
  case_bool_decide; simpl; [by rewrite bool_decide_true|]. by rewrite bool_decide_false.
Qed.

Lemma map_get_insert_ne k k' v m : k <> k' -> map_get k (map_insert k' v m) = map_get k m.
Proof.
  intros Hne. induction m as [|[k0 w] m IH]; simpl; [by rewrite bool_decide_false|].
  case_bool_decide; subst; simpl.
  - by rewrite !bool_decide_false.
  - case_bool_decide; [done|]. apply IH.
Qed.

Lemma map_get_insert_opt k k' v m :
  map_get k (map_insert_opt k' v m) =
  if decide (k = k') then match v with Some v => Some v | None => map_get k m end
  else map_get k m.
Proof.
  destruct v as [v|]; simpl; case_decide; subst; try done.
  - apply map_get_insert.
  - by apply map_get_insert_ne.
Qed.

Lemma map_get_insert_decide k k' v m :
  map_get k (map_insert k' v m) = if decide (k = k') then Some v else map_get k m.
Proof. apply (map_get_insert_opt _ _ (Some v)). Qed.

Lemma get_object k m : get k (VObject m) = map_get k m.
Proof. done. Qed.

#[export] Hint Rewrite map_get_insert_opt map_get_insert : backend.
