(* ===== verification/NanoTdf.v ===== *)
(** * The NanoTDF header parser (src/src/lib.rs)

    [BinaryParser] walks a byte slice with a cursor.  Each reader is a state
    transformer on the parser that returns a [Result] or panics; a reader that
    fails leaves the cursor where the failing read found it.  The theorems relate
    [parse_header] to the wire format of a header, in both directions, and locate
    its panics. *)
From S2P Require Import Prelude.

(** ** Data *)

Inductive ProtocolEnum : Set :=
| Http | Https | Ws | Wss | SharedResource.

#[export] Instance protocol_enum_eq_dec : EqDecision ProtocolEnum.
Proof. solve_decision. Defined.

Record ResourceLocator := {
  protocol_enum : ProtocolEnum;
  locator_body : string;
}.

Inductive ECDSAParams : Set :=
| Secp256r1 | Secp384r1 | Secp521r1 | Secp256k1.

Inductive SymmetricCiphers : Set :=
| Gcm64 | Gcm96 | Gcm104 | Gcm112 | Gcm120 | Gcm128.

Record ECCAndBindingMode := {
  use_ecdsa_binding : bool;
  ephemeral_ecc_params_enum : ECDSAParams;
}.

Record SymmetricAndPayloadConfig := {
  has_signature : bool;
  signature_ecc_mode : option ECDSAParams;
  symmetric_cipher_enum : option SymmetricCiphers;
}.

Inductive PolicyType : Set :=
| Remote | Embedded.

Record Policy := {
  policy_type : PolicyType;
  policy_body : option bytes;
  remote : option ResourceLocator;
  binding : option bytes;
}.

Record Header := {
  magic_number : bytes;
  version : bytes;
  kas : ResourceLocator;
  ecc_mode : ECCAndBindingMode;
  payload_sig_mode : SymmetricAndPayloadConfig;
  policy : Policy;
  ephemeral_key : bytes;
}.

Record Payload := {
  payload_length : Z;
  iv : bytes;
  ciphertext : bytes;
  payload_mac : bytes;
}.

Inductive ParsingError : Set :=
| InvalidFormat | InvalidMagicNumber | InvalidVersion | InvalidKas
| InvalidEccMode | InvalidPayloadSigMode | InvalidPolicy | InvalidEphemeralKey.

Record BinaryParser := {
  data : bytes;
  position : nat;
}.

Definition MAGIC_NUMBER_SIZE : nat := 2.
Definition VERSION_SIZE : nat := 1.
Definition MIN_EPHEMERAL_KEY_SIZE : nat := 33.

Definition get_ephemeral_key (h : Header) : bytes := ephemeral_key h.
Definition get_policy (h : Header) : Policy := policy h.
Definition get_ecc_mode (h : Header) : ECCAndBindingMode := ecc_mode h.
Definition get_kas (h : Header) : ResourceLocator := kas h.
Definition get_binding (p : Policy) : option bytes := binding p.
Definition get_locator (p : Policy) : option ResourceLocator := remote p.

(** ** The parsing monad *)

Definition parser (A : Type) : Type :=
  BinaryParser -> outcome (result A ParsingError * BinaryParser).

Definition preturn {A} (a : A) : parser A := fun p => Done (Ok a, p).

Definition pbind {A B} (m : parser A) (k : A -> parser B) : parser B := fun p =>
  let! r := m p in
  match r with
  | (Ok a, p') => k a p'
  | (Err e, p') => Done (Err e, p')
  end.

(** [m.unwrap()]: an [Err] panics. *)
Definition punwrap {A} (m : parser A) : parser A := fun p =>
  let! r := m p in
  match r with
  | (Ok a, p') => Done (Ok a, p')
  | (Err _, _) => Panic
  end.

Definition presult {A} (r : result A ParsingError) : parser A := fun p => Done (r, p).

Definition plift {A} (o : outcome A) : parser A := fun p =>
  let! a := o in Done (Ok a, p).

Notation "x <- m ; k" := (pbind m (fun x => k))
  (at level 100, m at next level, right associativity) : rust_scope.

(** ** Operations *)

Definition new (d : bytes) : BinaryParser := {| data := d; position := 0 |}.

Definition read (len : nat) : parser bytes := fun p =>
  if length (data p) <? position p + len then Done (Err InvalidFormat, p) else
  let! result := slice (data p) (position p) (position p + len) in
  Done (Ok result, {| data := data p; position := position p + len |}).

(** [self.read(1)?[0]] *)
Definition read_byte : parser byte :=
  r <- read 1; plift (index r 0).

Definition protocol_of (b : byte) : result ProtocolEnum ParsingError :=
  match b2z b with
  | 0x00 => Ok Http
  | 0x01 => Ok Https
  | 0x02 => Ok Ws
  | 0x03 => Ok Wss
  | 0xFF => Ok SharedResource
  | _ => Err InvalidKas
  end%Z.

Definition read_kas_field : parser ResourceLocator :=
  tag <- read_byte;
  protocol <- presult (protocol_of tag);
  body_length <- read_byte;
  raw <- read (Z.to_nat (b2z body_length));
  body <- presult (ok_or InvalidKas (from_utf8 raw));
  preturn {| protocol_enum := protocol; locator_body := body |}.

Definition binding_size (binding_mode : ECCAndBindingMode) : nat :=
  if use_ecdsa_binding binding_mode then
    match ephemeral_ecc_params_enum binding_mode with
    | Secp256r1 | Secp256k1 => 64
    | Secp384r1 => 96
    | Secp521r1 => 132
    end
  else 8.

Definition read_policy_binding (binding_mode : ECCAndBindingMode) : parser bytes :=
  read (binding_size binding_mode).

(** The two bytes of [body_length] and [u16::from_be_bytes] of them. *)
Definition read_u16 : parser Z :=
  body_length <- read 2;
  b0 <- plift (index body_length 0);
  b1 <- plift (index body_length 1);
  preturn (be_to_Z [b0; b1]).

Definition policy_type_of (b : byte) : result PolicyType ParsingError :=
  match b2z b with
  | 0x00 => Ok Remote
  | 0x01 => Ok Embedded
  | _ => Err InvalidPolicy
  end%Z.

Definition read_policy_field (binding_mode : ECCAndBindingMode) : parser Policy :=
  tag <- read_byte;
  ty <- presult (policy_type_of tag);
  match ty with
  | Remote =>
    r <- read_kas_field;
    b <- punwrap (read_policy_binding binding_mode);
    preturn {| policy_type := ty; policy_body := None; remote := Some r; binding := Some b |}
  | Embedded =>
    len <- read_u16;
    body <- read (Z.to_nat len);
    b <- punwrap (read_policy_binding binding_mode);
    preturn {| policy_type := ty; policy_body := Some body; remote := None; binding := Some b |}
  end.

(** The decoding of the ECC and binding mode byte, in [read_ecc_and_binding_mode]. *)
Definition ecc_and_binding_mode_of (b : byte) : result ECCAndBindingMode ParsingError :=
  let use_ecdsa := negb (Z.land (b2z b) (Z.shiftl 1 7) =? 0)%Z in
  let params :=
    match Z.land (b2z b) 0x07 with
    | 0x00 => Ok Secp256r1
    | 0x01 => Ok Secp384r1
    | 0x02 => Ok Secp521r1
    | 0x03 => Ok Secp256k1
    | _ => Err InvalidEccMode
    end%Z in
  let? e := params in
  Ok {| use_ecdsa_binding := use_ecdsa; ephemeral_ecc_params_enum := e |}.

Definition read_ecc_and_binding_mode : parser ECCAndBindingMode :=
  b <- read_byte;
  presult (ecc_and_binding_mode_of b).

(** The decoding of the symmetric and payload config byte, in
    [read_symmetric_and_payload_config]. *)
Definition symmetric_and_payload_config_of (b : byte) : SymmetricAndPayloadConfig :=
  let has_sig := negb (Z.shiftr (Z.land (b2z b) 0x80) 7 =? 0)%Z in
  let signature_ecc :=
    match Z.shiftr (Z.land (b2z b) 0x70) 4 with
    | 0x00 => Some Secp256r1
    | 0x01 => Some Secp384r1
    | 0x02 => Some Secp521r1
    | 0x03 => Some Secp256k1
    | _ => None
    end%Z in
  let cipher :=
    match Z.land (b2z b) 0x0F with
    | 0x00 => Some Gcm64
    | 0x01 => Some Gcm96
    | 0x02 => Some Gcm104
    | 0x03 => Some Gcm112
    | 0x04 => Some Gcm120
    | 0x05 => Some Gcm128
    | _ => None
    end%Z in
  {| has_signature := has_sig;
     signature_ecc_mode := signature_ecc;
     symmetric_cipher_enum := cipher |}.

Definition read_symmetric_and_payload_config : parser SymmetricAndPayloadConfig :=
  b <- read_byte;
  preturn (symmetric_and_payload_config_of b).

Definition parse_header : parser Header :=
  magic <- read MAGIC_NUMBER_SIZE;
  ver <- read VERSION_SIZE;
  k <- read_kas_field;
  ecc <- read_ecc_and_binding_mode;
  sig_mode <- read_symmetric_and_payload_config;
  pol <- read_policy_field ecc;
  eph <- read MIN_EPHEMERAL_KEY_SIZE;
  preturn {| magic_number := magic; version := ver; kas := k; ecc_mode := ecc;
             payload_sig_mode := sig_mode; policy := pol; ephemeral_key := eph |}.

(** [parse_payload].  The subtraction [length as usize - iv.len() - 3] underflows
    when [length < 6]: a debug build panics there, and in a release build the wrapped
    sum [start_index + remaining_data_length] is [length], so that the slice
    [6..length] panics for its order.  Both are [Panic]. *)
Definition parse_payload (d : bytes) : outcome (option Payload) :=
  let! length_data := slice d 0 3 in
  let len := be_to_Z (x00 :: length_data) in
  let! iv_ := slice d 3 6 in
  if (len <? Z.of_nat (length iv_) + 3)%Z then Panic else
  let remaining := Z.to_nat len - length iv_ - 3 in
  let! ct := slice d 6 (6 + remaining) in
  let! mac := slice d (6 + remaining) (length d) in
  Done (Some {| payload_length := len; iv := iv_; ciphertext := ct; payload_mac := mac |}).

(** ** Wire format

    The byte layout of a header.  The two mode bytes are kept: several bytes decode
    to the same mode, because the decoders ignore reserved bits. *)
Definition protocol_byte (p : ProtocolEnum) : byte :=
  match p with
  | Http => x00 | Https => x01 | Ws => x02 | Wss => x03 | SharedResource => xff
  end.

Definition locator_wire (r : ResourceLocator) : bytes :=
  protocol_byte (protocol_enum r)
    :: z2b (Z.of_nat (length (as_bytes (locator_body r)))) :: as_bytes (locator_body r).

Definition locator_ok (r : ResourceLocator) : Prop :=
  utf8_valid (as_bytes (locator_body r)) = true /\ length (as_bytes (locator_body r)) < 256.

Inductive policy_prefix_wire : Policy -> bytes -> Prop :=
| wire_remote r b :
    locator_ok r ->
    policy_prefix_wire
      {| policy_type := Remote; policy_body := None; remote := Some r; binding := Some b |}
      (x00 :: locator_wire r)
| wire_embedded body b :
    (Z.of_nat (length body) < 2 ^ 16)%Z ->
    policy_prefix_wire
      {| policy_type := Embedded; policy_body := Some body; remote := None; binding := Some b |}
      (x01 :: be_bytes 2 (Z.of_nat (length body)) ++ body).

(** [header_prefix_wire h ecc sym w]: [w] encodes the fields of [h] up to the policy
    binding, with mode bytes [ecc] and [sym]. *)
Inductive header_prefix_wire (h : Header) (ecc sym : byte) : bytes -> Prop :=
| wire_prefix pw :
    length (magic_number h) = MAGIC_NUMBER_SIZE ->
    length (version h) = VERSION_SIZE ->
    locator_ok (kas h) ->
    ecc_and_binding_mode_of ecc = Ok (ecc_mode h) ->
    symmetric_and_payload_config_of sym = payload_sig_mode h ->
    policy_prefix_wire (policy h) pw ->
    header_prefix_wire h ecc sym
      (magic_number h ++ version h ++ locator_wire (kas h) ++ [ecc] ++ [sym] ++ pw).

Inductive header_wire (h : Header) : bytes -> Prop :=
| wire_header ecc sym w b :
    header_prefix_wire h ecc sym w ->
    binding (policy h) = Some b ->
    length b = binding_size (ecc_mode h) ->
    length (ephemeral_key h) = MIN_EPHEMERAL_KEY_SIZE ->
    header_wire h (w ++ b ++ ephemeral_key h).

(** ** Completeness: a reader that meets an encoding of a value returns it *)

Definition parses {A} (m : parser A) (w : bytes) (a : A) : Prop :=
  forall pre rest,
    m {| data := pre ++ w ++ rest; position := length pre |} =
    Done (Ok a, {| data := pre ++ w ++ rest; position := length pre + length w |}).

Lemma parses_return {A} (a : A) : parses (preturn a) [] a.
Proof. intros pre rest. simpl. by rewrite Nat.add_0_r. Qed.

Lemma parses_bind {A B} (m : parser A) (k : A -> parser B) w1 w2 a b :
  parses m w1 a -> parses (k a) w2 b -> parses (pbind m k) (w1 ++ w2) b.
Proof.
  intros Hm Hk pre rest. unfold pbind.
  rewrite <-app_assoc, Hm. simpl.
  specialize (Hk (pre ++ w1) rest). rewrite <-app_assoc, length_app in Hk.
  rewrite Hk, length_app. by rewrite Nat.add_assoc.
Qed.

Lemma parses_unwrap {A} (m : parser A) w a : parses m w a -> parses (punwrap m) w a.
Proof. intros H pre rest. unfold punwrap. by rewrite H. Qed.

Lemma parses_read w n : length w = n -> parses (read n) w w.
Proof.
  intros <- pre rest. unfold read. simpl.
  rewrite (proj2 (Nat.ltb_ge _ _)) by (rewrite !length_app; lia).
  by rewrite slice_app.
Qed.

Lemma parses_read_byte b : parses read_byte [b] b.
Proof.
  change [b] with ([b] ++ []). eapply parses_bind; [by apply parses_read|].
  intros pre rest. simpl. by rewrite Nat.add_0_r.
Qed.

Lemma parses_cons {A} (k : byte -> parser A) b w a :
  parses (k b) w a -> parses (pbind read_byte k) (b :: w) a.
Proof. apply (parses_bind _ _ [b]), parses_read_byte. Qed.

Lemma parses_result {A B} (r : result A ParsingError) (k : A -> parser B) w a b :
  r = Ok a -> parses (k a) w b -> parses (pbind (presult r) k) w b.
Proof. intros -> H. exact (parses_bind _ _ [] w a b (parses_return a) H). Qed.

Lemma parses_lift {A B} (o : outcome A) (k : A -> parser B) w a b :
  o = Done a -> parses (k a) w b -> parses (pbind (plift o) k) w b.
Proof. intros -> H. exact (parses_bind _ _ [] w a b (parses_return a) H). Qed.

Lemma parses_last {A B} (m : parser A) (k : A -> parser B) w a b :
  parses m w a -> k a = preturn b -> parses (pbind m k) w b.
Proof.
  intros Hm Hk. rewrite <-(app_nil_r w). eapply parses_bind; [done|].
  rewrite Hk. apply parses_return.
Qed.

#[export] Hint Resolve parses_return parses_read parses_read_byte parses_unwrap : backend.

Lemma b2z_length_byte n : n < 256 -> Z.to_nat (b2z (z2b (Z.of_nat n))) = n.
Proof. intros. rewrite b2z_z2b, Z.mod_small by lia. lia. Qed.


Lemma protocol_of_byte p : protocol_of (protocol_byte p) = Ok p.
Proof. by destruct p. Qed.

Lemma parses_locator r : locator_ok r -> parses read_kas_field (locator_wire r) r.
Proof.
  destruct r as [p body]; intros [Hu Hl]; unfold locator_wire; simpl in *.
  apply parses_cons. eapply parses_result; [apply protocol_of_byte|].
  apply parses_cons. rewrite b2z_length_byte by done.
  rewrite <-(app_nil_r (as_bytes body)) at 2.
  eapply parses_bind; [by apply parses_read|].
  eapply parses_result; [by rewrite as_bytes_from_utf8|]. apply parses_return.
Qed.

Lemma parses_read_u16 n :
  (Z.of_nat n < 2 ^ 16)%Z -> parses read_u16 (be_bytes 2 (Z.of_nat n)) (Z.of_nat n).
Proof.
  intros H. pose proof (length_be_bytes 2 (Z.of_nat n)) as L.
  pose proof (be_to_Z_bytes_small 2 (Z.of_nat n)) as B.
  destruct (be_bytes 2 (Z.of_nat n)) as [|b0 [|b1 [|]]] eqn:E; try done.
  eapply (parses_bind _ _ [b0; b1] []); [by apply parses_read|].
  eapply parses_lift; [done|]. eapply parses_lift; [done|].
  rewrite B by lia. apply parses_return.
Qed.

Lemma parses_policy m p pw b :
  policy_prefix_wire p pw -> binding p = Some b -> length b = binding_size m ->
  parses (read_policy_field m) (pw ++ b) p.
Proof.
  intros Hw Hb Hl. destruct Hw; simpl in Hb; injection Hb as ->;
    unfold read_policy_field, read_policy_binding.
  - apply parses_cons. eapply parses_result; [done|].
    eapply parses_bind; [by apply parses_locator|].
    eapply parses_last; [by auto with backend|done].
  - rewrite <-app_comm_cons, <-app_assoc.
    apply parses_cons. eapply parses_result; [done|].
    eapply parses_bind; [by apply parses_read_u16|].
    rewrite Nat2Z.id. eapply parses_bind; [by apply parses_read|].
    eapply parses_last; [by auto with backend|done].
Qed.

Lemma parses_header h w : header_wire h w -> parses parse_header w h.
Proof.
  intros [ecc sym ? b [pw Hm Hv Hk Hecc Hsym Hp] Hb Hlb Hle].
  rewrite <-!app_assoc. unfold parse_header.
  eapply parses_bind; [by apply parses_read|].
  eapply parses_bind; [by apply parses_read|].
  eapply parses_bind; [by apply parses_locator|].
  eapply (parses_bind _ _ [ecc]).
  { apply parses_cons. rewrite Hecc. apply parses_return. }
  eapply (parses_bind _ _ [sym]).
  { apply parses_cons. apply parses_return. }
  rewrite app_assoc. eapply parses_bind; [by eapply parses_policy|].
  eapply parses_last; [by apply parses_read|].
  rewrite Hsym. by destruct h.
Qed.

(** ** Soundness: what a reader consumed encodes what it returned *)

Definition consumes {A} (m : parser A) (R : A -> bytes -> Prop) : Prop :=
  forall p a p', m p = Done (Ok a, p') ->
    exists w rest, drop (position p) (data p) = w ++ rest /\
      p' = {| data := data p; position := position p + length w |} /\ R a w.

Lemma pbind_Ok {A B} (m : parser A) (k : A -> parser B) p b p' :
  pbind m k p = Done (Ok b, p') <->
  exists a q, m p = Done (Ok a, q) /\ k a q = Done (Ok b, p').
Proof.
  unfold pbind. destruct (m p) as [[[a|e] q]|]; simpl; split; try done.
  - eauto.
  - by intros (? & ? & [= -> ->] & ?).
  - by intros (? & ? & [=] & ?).
  - by intros (? & ? & [=] & ?).
Qed.

Lemma consumes_return {A} (a : A) : consumes (preturn a) (fun a' w => a' = a /\ w = []).
Proof.
  intros p a' p' [= <- <-]. exists [], (drop (position p) (data p)).
  destruct p; simpl. by rewrite Nat.add_0_r.
Qed.

Lemma consumes_bind {A B} (m : parser A) (k : A -> parser B) R (T : A -> B -> bytes -> Prop) :
  consumes m R -> (forall a, consumes (k a) (T a)) ->
  consumes (pbind m k) (fun b w => exists a w1 w2, w = w1 ++ w2 /\ R a w1 /\ T a b w2).
Proof.
  intros Hm Hk p b p' (a & q & H1 & H2)%pbind_Ok.
  apply Hm in H1 as (w1 & r1 & D1 & -> & HR).
  apply Hk in H2 as (w2 & r2 & D2 & -> & HT). simpl in *.
  rewrite <-drop_drop, D1, drop_app_length in D2.
  exists (w1 ++ w2), r2. rewrite D1, D2, app_assoc, length_app, Nat.add_assoc. eauto 10.
Qed.

Lemma consumes_weaken {A} (m : parser A) (R T : A -> bytes -> Prop) :
  consumes m R -> (forall a w, R a w -> T a w) -> consumes m T.
Proof. intros H HT p a p' (w & r & ? & ? & ?)%H. eauto 10. Qed.

Lemma consumes_read n : consumes (read n) (fun a w => a = w /\ length w = n).
Proof.
  intros p a p'. unfold read. case_match eqn:E; [done|]. apply Nat.ltb_ge in E.
  destruct (slice _ _ _) as [s|] eqn:S; [|done]. intros [= <- <-].
  pose proof (slice_length _ _ _ _ S) as L. apply slice_Done in S as [_ ->].
  replace (position p + n - position p) with n in * by lia.
  exists (take n (drop (position p) (data p))), (drop n (drop (position p) (data p))).
  rewrite take_drop, L. auto.
Qed.

Lemma consumes_result {A} (r : result A ParsingError) :
  consumes (presult r) (fun a w => r = Ok a /\ w = []).
Proof.
  intros p a p' [= <- <-]. exists [], (drop (position p) (data p)).
  destruct p; simpl. by rewrite Nat.add_0_r.
Qed.

Lemma consumes_lift {A} (o : outcome A) :
  consumes (plift o) (fun a w => o = Done a /\ w = []).
Proof.
  intros p a p'. unfold plift. destruct o; [|done]. intros [= <- <-].
  exists [], (drop (position p) (data p)).
  destruct p; simpl. by rewrite Nat.add_0_r.
Qed.

Lemma consumes_unwrap {A} (m : parser A) R : consumes m R -> consumes (punwrap m) R.
Proof.
  intros H p a p'. unfold punwrap. specialize (H p).
  destruct (m p) as [[[a'|e] q]|]; simpl; try done. intros [= <- <-]. by apply H.
Qed.

Lemma consumes_read_byte : consumes read_byte (fun b w => w = [b]).
Proof.
  eapply consumes_weaken.
  - apply consumes_bind; [apply consumes_read|intros ?; apply consumes_lift].
  - intros b w (? & [|c [|]] & ? & -> & [-> ?] & Hi & ->); try done.
    by injection Hi as ->.
Qed.

(** Take a [consumes] goal apart along the structure of its program. *)
Ltac consumes_step :=
  lazymatch goal with
  | |- consumes (pbind _ _) _ => eapply consumes_bind; [|intros ?]
  | |- consumes (read _) _ => apply consumes_read
  | |- consumes read_byte _ => apply consumes_read_byte
  | |- consumes (presult _) _ => apply consumes_result
  | |- consumes (plift _) _ => apply consumes_lift
  | |- consumes (punwrap _) _ => apply consumes_unwrap
  | |- consumes (preturn _) _ => apply consumes_return
  end.

Ltac consumes_inv :=
  cbv beta in *;
  repeat match goal with
  | H : exists _, _ |- _ => destruct H as [? H]
  | H : _ /\ _ |- _ => destruct H
  end; subst.

Lemma protocol_of_Ok b p : protocol_of b = Ok p -> b = protocol_byte p.
Proof. by destruct b; intros [= <-]. Qed.

Lemma policy_type_of_Ok b t :
  policy_type_of b = Ok t -> b = match t with Remote => x00 | Embedded => x01 end.
Proof. by destruct b; intros [= <-]. Qed.

Lemma consumes_locator :
  consumes read_kas_field (fun r w => locator_ok r /\ w = locator_wire r).
Proof.
  eapply consumes_weaken; [unfold read_kas_field; repeat consumes_step|].
  intros r w H. consumes_inv. simpl. inv_result.
  match goal with H : from_utf8 _ = Some _ |- _ => rename H into Hu end.
  match goal with H : length _ = Z.to_nat (b2z ?b) |- _ => rename H into Hl; rename b into c end.
  pose proof (b2z_range c). unfold locator_ok, locator_wire; simpl.
  pose proof (from_utf8_as_bytes _ _ Hu) as ->.
  unfold from_utf8 in Hu. case_match eqn:E; [|done]. split; [split; [done|lia]|].
  rewrite app_nil_r, Hl, Z2Nat.id, z2b_b2z by lia.
  match goal with H : protocol_of _ = _ |- _ => by rewrite (protocol_of_Ok _ _ H) end.
Qed.

Lemma consumes_read_u16 :
  consumes read_u16 (fun z w => w = be_bytes 2 z /\ (0 <= z < 2 ^ 16)%Z).
Proof.
  eapply consumes_weaken; [unfold read_u16; repeat consumes_step|].
  intros z w H. consumes_inv.
  match goal with H : length ?l = 2 |- _ => destruct l as [|b0 [|b1 [|]]]; try done end.
  repeat match goal with H : index _ _ = Done _ |- _ => injection H as -> end.
  match goal with |- context [be_to_Z ?l] => set (r := reverse l) end.
  unfold be_to_Z, be_bytes. fold r.
  pose proof (le_to_Z_range r) as Hr. change (length r) with 2 in Hr.
  split; [|lia]. change 2 with (length r). rewrite le_bytes_to_Z.
  unfold r. by rewrite reverse_involutive.
Qed.

Lemma consumes_policy_type {A} (f g : parser A) R T ty :
  consumes f R -> consumes g T ->
  consumes (match ty with Remote => f | Embedded => g end)
    (fun p w => match ty with Remote => R p w | Embedded => T p w end).
Proof. by destruct ty. Qed.

Definition policy_wire (m : ECCAndBindingMode) (p : Policy) (w : bytes) : Prop :=
  exists pw b, w = pw ++ b /\ policy_prefix_wire p pw /\ binding p = Some b /\
    length b = binding_size m.

Lemma wire_embedded_length body b z :
  length body = Z.to_nat z -> (0 <= z < 2 ^ 16)%Z ->
  policy_prefix_wire
    {| policy_type := Embedded; policy_body := Some body; remote := None; binding := Some b |}
    (x01 :: be_bytes 2 z ++ body).
Proof.
  intros H Hz. replace z with (Z.of_nat (length body)) in * by lia. apply wire_embedded. lia.
Qed.

Lemma consumes_policy m : consumes (read_policy_field m) (policy_wire m).
Proof.
  eapply consumes_weaken.
  { unfold read_policy_field, read_policy_binding.
    repeat first [consumes_step | apply consumes_policy_type | apply consumes_locator
                 | apply consumes_read_u16]. }
  intros p w H. consumes_inv.
  match goal with H : policy_type_of _ = Ok ?t |- _ =>
    apply policy_type_of_Ok in H as ->; destruct t end; consumes_inv.
  - eexists (x00 :: locator_wire _), _. split; [simpl; by rewrite app_nil_r|].
    split; [by constructor|]. done.
  - match goal with
    | _ : length ?body = Z.to_nat ?z, _ : length ?b = binding_size _ |- _ =>
      exists (x01 :: be_bytes 2 z ++ body), b
    end.
    split; [simpl; by rewrite app_nil_r|].
    split; [|done]. by apply wire_embedded_length.
Qed.

Lemma consumes_ecc :
  consumes read_ecc_and_binding_mode
    (fun m w => exists b, w = [b] /\ ecc_and_binding_mode_of b = Ok m).
Proof.
  eapply consumes_weaken; [unfold read_ecc_and_binding_mode; repeat consumes_step|].
  intros m w H. consumes_inv. eauto.
Qed.

Lemma consumes_sym :
  consumes read_symmetric_and_payload_config
    (fun c w => exists b, w = [b] /\ symmetric_and_payload_config_of b = c).
Proof.
  eapply consumes_weaken; [unfold read_symmetric_and_payload_config; repeat consumes_step|].
  intros c w H. consumes_inv. eauto.
Qed.

Lemma consumes_header : consumes parse_header header_wire.
Proof.
  eapply consumes_weaken.
  { unfold parse_header.
    repeat first [consumes_step | apply consumes_locator | apply consumes_policy
                 | apply consumes_ecc | apply consumes_sym]. }
  intros h w H. unfold policy_wire in H. consumes_inv. simpl.
  match goal with
  | H1 : length ?m = MAGIC_NUMBER_SIZE, H2 : length ?v = VERSION_SIZE, H3 : locator_ok ?k,
    H4 : ecc_and_binding_mode_of ?e = Ok ?em, H5 : policy_prefix_wire ?p ?pw,
    H6 : binding ?p = Some ?b, H7 : length ?b = binding_size ?em,
    H8 : length ?eph = MIN_EPHEMERAL_KEY_SIZE
    |- header_wire {| payload_sig_mode := symmetric_and_payload_config_of ?s |} ?w =>
    replace w with ((m ++ v ++ locator_wire k ++ [e] ++ [s] ++ pw) ++ b ++ eph)
      by (unfold locator_wire; simpl; rewrite app_nil_r, <-!app_assoc; simpl;
          by rewrite <-!app_assoc);
    apply (wire_header (Build_Header m v k em (symmetric_and_payload_config_of s) p eph) e s);
    [by constructor|done|done|done]
  end.
Qed.

(** ** Panics *)

Definition safe {A} (m : parser A) : Prop := forall p, m p <> Panic.

Lemma pbind_Panic {A B} (m : parser A) (k : A -> parser B) p :
  pbind m k p = Panic <->
  m p = Panic \/ exists a q, m p = Done (Ok a, q) /\ k a q = Panic.
Proof.
  unfold pbind. destruct (m p) as [[[a|e] q]|]; simpl; split; try done; eauto.
  - by intros [?|(? & ? & [= -> ->] & ?)].
  - by intros [?|(? & ? & [=] & ?)].
Qed.

Lemma safe_bind {A B} (m : parser A) (k : A -> parser B) R :
  safe m -> consumes m R -> (forall a w, R a w -> safe (k a)) -> safe (pbind m k).
Proof.
  intros Hm Hc Hk p [?|(a & q & H1 & H2)]%pbind_Panic; [by eapply Hm|].
  apply Hc in H1 as (w & r & _ & _ & HR). by eapply Hk.
Qed.

Lemma safe_read n : safe (read n).
Proof.
  intros p. unfold read. case_match eqn:E; [done|]. apply Nat.ltb_ge in E.
  rewrite slice_in_range by lia. done.
Qed.

Lemma safe_result {A} (r : result A ParsingError) : safe (presult r).
Proof. done. Qed.

Lemma safe_return {A} (a : A) : safe (preturn a).
Proof. done. Qed.

Lemma safe_lift {A} (o : outcome A) : o <> Panic -> safe (plift o).
Proof. by intros H p; unfold plift; destruct o. Qed.

Lemma safe_read_byte : safe read_byte.
Proof.
  eapply safe_bind; [apply safe_read|apply consumes_read|].
  by intros [|b [|]] ? [<- ?].
Qed.

Lemma safe_read_u16 : safe read_u16.
Proof.
  eapply safe_bind; [apply safe_read|apply consumes_read|].
  by intros [|b0 [|b1 [|]]] ? [<- ?].
Qed.

#[export] Hint Resolve safe_read safe_result safe_return safe_read_byte : backend.
#[export] Hint Resolve consumes_read consumes_result consumes_read_byte : backend.

Lemma safe_locator : safe read_kas_field.
Proof.
  unfold read_kas_field.
  repeat (eapply safe_bind; [solve [eauto with backend]..|intros ? ? ?]).
  apply safe_return.
Qed.

Lemma safe_ecc : safe read_ecc_and_binding_mode.
Proof. eapply safe_bind; [auto with backend..|done]. Qed.

Lemma safe_sym : safe read_symmetric_and_payload_config.
Proof. eapply safe_bind; [auto with backend..|done]. Qed.

Lemma punwrap_Panic {A} (m : parser A) p :
  safe m -> punwrap m p = Panic -> exists e q, m p = Done (Err e, q).
Proof.
  intros Hs. unfold punwrap. specialize (Hs p).
  destruct (m p) as [[[a|e] q]|]; simpl; try done. eauto.
Qed.

Lemma read_Err n p e q :
  0 < n -> read n p = Done (Err e, q) -> length (drop (position p) (data p)) < n.
Proof.
  intros Hn. unfold read. case_match eqn:E.
  - intros _. apply Nat.ltb_lt in E. rewrite length_drop. lia.
  - by destruct (slice _ _ _).
Qed.

Definition panics_at {A} (m : parser A) (R : bytes -> bytes -> Prop) : Prop :=
  forall p, m p = Panic ->
    exists w rest, drop (position p) (data p) = w ++ rest /\ R w rest.

Lemma panics_bind_r {A B} (m : parser A) (k : A -> parser B) S (T : A -> bytes -> bytes -> Prop) :
  safe m -> consumes m S -> (forall a w, S a w -> panics_at (k a) (T a)) ->
  panics_at (pbind m k) (fun w r => exists a w1 w2, w = w1 ++ w2 /\ S a w1 /\ T a w2 r).
Proof.
  intros Hs Hc Hk p [H|(a & q & H1 & H2)]%pbind_Panic; [by destruct (Hs p)|].
  apply Hc in H1 as (w1 & r1 & D1 & -> & HS).
  eapply Hk in H2 as (w2 & r2 & D2 & HT); [|done]. simpl in D2.
  rewrite <-drop_drop, D1, drop_app_length in D2.
  exists (w1 ++ w2), r2. rewrite D1, D2, app_assoc. eauto 10.
Qed.

Lemma panics_bind_l {A B} (m : parser A) (k : A -> parser B) R :
  panics_at m R -> (forall a, safe (k a)) -> panics_at (pbind m k) R.
Proof.
  intros Hm Hk p [H|(a & q & H1 & H2)]%pbind_Panic; [by apply Hm|].
  by destruct (Hk a q).
Qed.

Lemma panics_unwrap_read n :
  0 < n -> panics_at (punwrap (read n)) (fun w r => w = [] /\ length r < n).
Proof.
  intros Hn p (e & q & H)%punwrap_Panic; [|apply safe_read].
  apply read_Err in H; [|done]. by exists [], (drop (position p) (data p)).
Qed.

Lemma panics_weaken {A} (m : parser A) (R T : bytes -> bytes -> Prop) :
  panics_at m R -> (forall w r, R w r -> T w r) -> panics_at m T.
Proof. intros H HT p (w & r & ? & ?)%H. eauto 10. Qed.

Lemma binding_size_pos m : 0 < binding_size m.
Proof. unfold binding_size. repeat case_match; lia. Qed.

Lemma panics_policy_type {A} (f g : parser A) R T ty :
  panics_at f R -> panics_at g T ->
  panics_at (match ty with Remote => f | Embedded => g end)
    (fun w r => match ty with Remote => R w r | Embedded => T w r end).
Proof. by destruct ty. Qed.

Lemma panics_policy m :
  panics_at (read_policy_field m) (fun w r =>
    exists p, policy_prefix_wire p w /\ length r < binding_size m).
Proof.
  eapply panics_weaken.
  { unfold read_policy_field, read_policy_binding.
    eapply panics_bind_r; [auto with backend..|intros tag _ _].
    eapply panics_bind_r; [auto with backend..|intros ty _ _].
    apply panics_policy_type.
    - eapply panics_bind_r; [apply safe_locator|apply consumes_locator|intros r _ _].
      apply panics_bind_l; [apply panics_unwrap_read, binding_size_pos|auto with backend].
    - eapply panics_bind_r; [apply safe_read_u16|apply consumes_read_u16|intros z _ _].
      eapply panics_bind_r; [auto with backend..|intros body _ _].
      apply panics_bind_l; [apply panics_unwrap_read, binding_size_pos|auto with backend]. }
  intros w r H. consumes_inv.
  match goal with H : policy_type_of _ = Ok ?t |- _ =>
    apply policy_type_of_Ok in H as ->; destruct t end; consumes_inv.
  - eexists. split; [|done]. simpl. rewrite app_nil_r. by apply (wire_remote _ []).
  - eexists. split; [|done]. simpl. rewrite app_nil_r.
    by apply (wire_embedded_length _ []).
Qed.

Definition truncated (m : ECCAndBindingMode) (rest : bytes) : Prop :=
  length rest < binding_size m.

Lemma panics_header :
  panics_at parse_header (fun w r =>
    exists h ecc sym, header_prefix_wire h ecc sym w /\ truncated (ecc_mode h) r).
Proof.
  eapply panics_weaken.
  { unfold parse_header.
    eapply panics_bind_r; [auto with backend..|intros magic _ _].
    eapply panics_bind_r; [auto with backend..|intros ver _ _].
    eapply panics_bind_r; [apply safe_locator|apply consumes_locator|intros k _ _].
    eapply panics_bind_r; [apply safe_ecc|apply consumes_ecc|intros ecc _ _].
    eapply panics_bind_r; [apply safe_sym|apply consumes_sym|intros sym _ _].
    apply panics_bind_l; [apply panics_policy|].
    intros pol. eapply safe_bind; [auto with backend..|done]. }
  intros w r H. consumes_inv.
  match goal with
  | H1 : length ?m = MAGIC_NUMBER_SIZE, H2 : length ?v = VERSION_SIZE, H3 : locator_ok ?k,
    H4 : ecc_and_binding_mode_of ?e = Ok ?em, H5 : policy_prefix_wire ?p ?pw
    |- context [_ ++ [?e] ++ [?s] ++ _] =>
    exists (Build_Header m v k em (symmetric_and_payload_config_of s) p []), e, s;
    split; [by constructor|done]
  end.
Qed.

(** Conversely, a header that stops inside its policy binding makes the parser panic. *)
Definition crashes {A} (m : parser A) (w rest : bytes) : Prop :=
  forall pre, m {| data := pre ++ w ++ rest; position := length pre |} = Panic.

Lemma crashes_bind_r {A B} (m : parser A) (k : A -> parser B) w1 w2 r a :
  parses m w1 a -> crashes (k a) w2 r -> crashes (pbind m k) (w1 ++ w2) r.
Proof.
  intros Hm Hk pre. unfold pbind. rewrite <-app_assoc, Hm. simpl.
  specialize (Hk (pre ++ w1)). by rewrite <-app_assoc, length_app in Hk.
Qed.

Lemma crashes_then {A B} (m : parser A) (k : A -> parser B) w r a :
  parses m w a -> crashes (k a) [] r -> crashes (pbind m k) w r.
Proof. intros. rewrite <-(app_nil_r w). by eapply crashes_bind_r. Qed.

Lemma crashes_bind_l {A B} (m : parser A) (k : A -> parser B) w r :
  crashes m w r -> crashes (pbind m k) w r.
Proof. intros Hm pre. unfold pbind. by rewrite Hm. Qed.

Lemma crashes_cons {A} (k : byte -> parser A) b w r :
  crashes (k b) w r -> crashes (pbind read_byte k) (b :: w) r.
Proof. apply (crashes_bind_r _ _ [b]), parses_read_byte. Qed.

Lemma crashes_result {A B} (x : result A ParsingError) (k : A -> parser B) w r a :
  x = Ok a -> crashes (k a) w r -> crashes (pbind (presult x) k) w r.
Proof. intros -> H. exact (crashes_bind_r _ _ [] w r a (parses_return a) H). Qed.

Lemma crashes_unwrap_read n r : length r < n -> crashes (punwrap (read n)) [] r.
Proof.
  intros H pre. unfold punwrap, read. simpl.
  by rewrite (proj2 (Nat.ltb_lt _ _)) by (rewrite length_app; lia).
Qed.

Lemma crashes_policy m p pw r :
  policy_prefix_wire p pw -> truncated m r -> crashes (read_policy_field m) pw r.
Proof.
  intros Hw Ht. destruct Hw; unfold read_policy_field, read_policy_binding.
  - apply crashes_cons. eapply crashes_result; [done|].
    eapply crashes_then; [by apply parses_locator|].
    by apply crashes_bind_l, crashes_unwrap_read.
  - apply crashes_cons. eapply crashes_result; [done|].
    eapply crashes_bind_r; [by apply parses_read_u16|].
    rewrite Nat2Z.id. eapply crashes_then; [by apply parses_read|].
    by apply crashes_bind_l, crashes_unwrap_read.
Qed.

Lemma crashes_header h ecc sym w r :
  header_prefix_wire h ecc sym w -> truncated (ecc_mode h) r -> crashes parse_header w r.
Proof.
  intros [pw Hm Hv Hk Hecc Hsym Hp] Ht. unfold parse_header.
  eapply crashes_bind_r; [by apply parses_read|].
  eapply crashes_bind_r; [by apply parses_read|].
  eapply crashes_bind_r; [by apply parses_locator|].
  eapply (crashes_bind_r _ _ [ecc]).
  { apply parses_cons. rewrite Hecc. apply parses_return. }
  eapply (crashes_bind_r _ _ [sym]).
  { apply parses_cons. apply parses_return. }
  apply crashes_bind_l. by eapply crashes_policy.
Qed.

(** ** Errors *)

Definition fails_with {A} (m : parser A) (E : ParsingError -> Prop) : Prop :=
  forall p e p', m p = Done (Err e, p') -> E e.

Lemma fails_bind {A B} (m : parser A) (k : A -> parser B) E :
  fails_with m E -> (forall a, fails_with (k a) E) -> fails_with (pbind m k) E.
Proof.
  intros Hm Hk p e p'. unfold pbind. specialize (Hm p).
  destruct (m p) as [[[a|e'] q]|]; simpl; [by apply Hk|intros [= <- <-]; by eapply Hm|done].
Qed.

Lemma fails_read n (E : ParsingError -> Prop) : E InvalidFormat -> fails_with (read n) E.
Proof.
  intros HE p e p'. unfold read. case_match; [by intros [= <- _]|].
  by destruct (slice _ _ _).
Qed.

Lemma fails_lift {A} (o : outcome A) E : fails_with (plift o) E.
Proof. intros p e p'. unfold plift. by destruct o. Qed.

Lemma fails_unwrap {A} (m : parser A) E : fails_with (punwrap m) E.
Proof.
  intros p e p'. unfold punwrap. by destruct (m p) as [[[a|e'] q]|].
Qed.

Lemma fails_result {A} (r : result A ParsingError) (E : ParsingError -> Prop) :
  (forall e, r = Err e -> E e) -> fails_with (presult r) E.
Proof. intros H p e p' [= -> _]. by apply H. Qed.

Lemma fails_return {A} (a : A) E : fails_with (preturn a) E.
Proof. done. Qed.

(** The errors the parser can report. *)
Definition reported (e : ParsingError) : Prop :=
  e = InvalidFormat \/ e = InvalidKas \/ e = InvalidEccMode \/ e = InvalidPolicy.

Ltac fails_step :=
  lazymatch goal with
  | |- fails_with (pbind _ _) _ => apply fails_bind; [|intros ?]
  | |- fails_with (read _) _ => apply fails_read; by left
  | |- fails_with (presult _) _ => apply fails_result; intros ?
  | |- fails_with (plift _) _ => apply fails_lift
  | |- fails_with (punwrap _) _ => apply fails_unwrap
  | |- fails_with (preturn _) _ => apply fails_return
  | |- fails_with (match ?t with Remote => _ | Embedded => _ end) _ => destruct t
  end.

Lemma protocol_of_Err b e : protocol_of b = Err e -> reported e.
Proof. unfold protocol_of, reported. repeat case_match; intros [= <-]; auto. Qed.

Lemma policy_type_of_Err b e : policy_type_of b = Err e -> reported e.
Proof. unfold policy_type_of, reported. repeat case_match; intros [= <-]; auto. Qed.

Lemma ecc_and_binding_mode_of_Err b e : ecc_and_binding_mode_of b = Err e -> reported e.
Proof.
  unfold ecc_and_binding_mode_of, reported. intros [H|(? & ? & ?)]%rbind_Err; [|done].
  revert H. repeat case_match; intros [= <-]; auto.
Qed.

Lemma fails_locator : fails_with read_kas_field reported.
Proof.
  unfold read_kas_field, read_byte. repeat fails_step.
  - apply protocol_of_Err.
  - unfold ok_or. case_match; intros [= <-]. unfold reported. auto.
Qed.

Lemma fails_header : fails_with parse_header reported.
Proof.
  unfold parse_header, read_ecc_and_binding_mode, read_symmetric_and_payload_config,
    read_policy_field, read_policy_binding, read_u16, read_byte.
  repeat first [apply fails_locator | fails_step];
    eauto using policy_type_of_Err, ecc_and_binding_mode_of_Err.
Qed.

(** ** Theorems *)

(** C4: [parse_header] returns a header exactly when the input starts with an encoding of
    that header, and then leaves the cursor right after the encoding: the parser is sound
    and complete for the wire format. *)
Theorem parse_header_correct d h p' :
  parse_header (new d) = Done (Ok h, p') <->
  exists w rest, d = w ++ rest /\ header_wire h w /\
    p' = {| data := d; position := length w |}.
Proof.
  split.
  - intros (w & rest & Hd & -> & Hw)%consumes_header. eauto.
  - intros (w & rest & -> & Hw & ->). exact (parses_header h w Hw [] rest).
Qed.

(** [parse_header] panics exactly on the inputs that are well formed up to the policy
    binding and end before it does: the [unwrap] on [read_policy_binding] is the parser's
    only panic, and every truncated binding reaches it. *)
Theorem parse_header_panics d :
  parse_header (new d) = Panic <->
  exists h ecc sym w rest, d = w ++ rest /\ header_prefix_wire h ecc sym w /\
    truncated (ecc_mode h) rest.
Proof.
  split.
  - intros (w & r & Hd & h & ecc & sym & Hw & Ht)%panics_header. eauto 10.
  - intros (h & ecc & sym & w & r & -> & Hw & Ht).
    exact (crashes_header h ecc sym w r Hw Ht []).
Qed.

(** The only errors [parse_header] reports are [InvalidFormat], [InvalidKas],
    [InvalidEccMode] and [InvalidPolicy]; in particular it never rejects a header for its
    magic number or its version. *)
Theorem parse_header_errors d e p' :
  parse_header (new d) = Done (Err e, p') -> reported e.
Proof. apply fails_header. Qed.

Definition kas_locator : ResourceLocator :=
  {| protocol_enum := Https; locator_body := "kas" |}.

(** A header whose policy type byte is 7. *)
Definition unknown_policy : bytes :=
  [x00; x00; x00] ++ locator_wire kas_locator ++ [x00; x00; x07].

Lemma parse_header_errors_witness :
  exists p', parse_header (new unknown_policy) = Done (Err InvalidPolicy, p') /\
    reported InvalidPolicy.
Proof.
  exists {| data := unknown_policy; position := 11 |}. split; [reflexivity|].
  exact (parse_header_errors unknown_policy InvalidPolicy
           {| data := unknown_policy; position := 11 |} eq_refl).
Defined.

Lemma parse_payload_layout iv_ ct mac :
  length iv_ = 3 -> (Z.of_nat (length ct) + 6 < 2 ^ 24)%Z ->
  parse_payload (be_bytes 3 (Z.of_nat (length ct) + 6) ++ iv_ ++ ct ++ mac) =
  Done (Some {| payload_length := Z.of_nat (length ct) + 6; iv := iv_;
                ciphertext := ct; payload_mac := mac |}).
Proof.
  intros Hiv Hct. set (lb := be_bytes 3 _).
  assert (length lb = 3) as Hlb by apply length_be_bytes.
  assert (be_to_Z (x00 :: lb) = Z.of_nat (length ct) + 6)%Z as Hlen.
  { rewrite be_to_Z_zero. unfold lb. apply be_to_Z_bytes_small. lia. }
  set (d := lb ++ iv_ ++ ct ++ mac).
  assert (slice d 0 3 = Done lb) as S1 by (apply (slice_app []); simpl; lia).
  assert (slice d 3 6 = Done iv_) as S2 by (apply slice_app; lia).
  assert (slice d 6 (6 + length ct) = Done ct) as S3.
  { unfold d. rewrite (app_assoc lb). apply slice_app; rewrite length_app; lia. }
  assert (slice d (6 + length ct) (length d) = Done mac) as S4.
  { unfold d. replace (lb ++ iv_ ++ ct ++ mac) with ((lb ++ iv_ ++ ct) ++ mac ++ [])
      by (rewrite app_nil_r, <-!app_assoc; done).
    apply slice_app; rewrite !length_app; simpl; lia. }
  unfold parse_payload. rewrite S1; cbn [obind]; cbv zeta.
  rewrite S2; cbn [obind]. rewrite Hlen, Hiv, (proj2 (Z.ltb_ge _ _)) by lia.
  replace (Z.to_nat _ - 3 - 3) with (length ct) by lia.
  rewrite S3; cbn [obind]. rewrite S4. done.
Qed.
