(* ===== verification/Services.v ===== *)
(** * Effects and external services

    An asynchronous function of the backend is a [prog]: a tree whose nodes are the
    requests it makes of the outside ([event]: a Redis command, the clock, a chain RPC, an
    access to a shared cache or cell) and whose leaves are its results.  The same term is
    run alone ([run]) or in any interleaving with others ([steps] on a pool), because every
    [await] of the code is a node.

    The services themselves (Redis, the chain node, the moka cache, the clock) are not part
    of the repository.  [World] is their interface and [WorldLaws] their documented
    behaviour; theorems are proved for every world that has it. *)
From S2P Require Import Prelude.

(** ** Redis commands, as the code issues them *)

Inductive RedisError : Set :=
| redis_error (detail : string).

Inductive redis_cmd : Type -> Type :=
| GET (key : string) : redis_cmd (option string)
| SET (key value : string) : redis_cmd unit
| SETEX (key value : string) (ttl : Z) : redis_cmd unit
| SETNXEX (key value : string) (ttl : Z) : redis_cmd bool
| SADD (key member : string) : redis_cmd unit
| SREM (key member : string) : redis_cmd unit
| SMEMBERS (key : string) : redis_cmd (list string)
| EXISTS (key : string) : redis_cmd bool
| EXPIRE (key : string) (ttl : Z) : redis_cmd unit
| DEL (key : string) : redis_cmd unit.

Definition cmd_key {X} (c : redis_cmd X) : string :=
  match c with
  | GET k | SET k _ | SETEX k _ _ | SETNXEX k _ _ | SADD k _ | SREM k _
  | SMEMBERS k | EXISTS k | EXPIRE k _ | DEL k => k
  end.

(** ** The operating system, as the code asks it

    Paths are byte strings; an environment variable that is not set, or is not Unicode, is
    [None]. *)
Inductive os_cmd : Type -> Type :=
| ReadToString (path : string) : os_cmd (result string string)
| PathExists (path : string) : os_cmd bool
| EnvVar (name : string) : os_cmd (option string)
| CurrentDir : os_cmd (result bytes string).

(** ** Events

    [cached] is the type of the entries of the in-memory cache.  [Monotonic] reads the
    clock of [Instant], in milliseconds; [Random] is what a call draws from [OsRng];
    [Window f] is the critical section of the latency window's mutex, which replaces the
    window by [f] of it and answers the window it found; [FairPlaySpc] is a call of the
    FairPlay SDK; [NatsClient] asks whether the NATS client is connected; [PutObject] stores
    an object in S3. *)
Inductive event (cached : Type) : Type -> Type :=
| Connect : event cached (result unit RedisError)
| Redis {X} (c : redis_cmd X) : event cached (result X RedisError)
| Now : event cached Z
| CacheGet (key : bytes) : event cached (option cached)
| CacheInsert (key : bytes) (entry : cached) : event cached unit
| CacheInvalidate (key : bytes) : event cached unit
| ChainDial (url : string) : event cached (result unit string)
| ChainLatest : event cached (result Z string)
| ChainFetch (key : bytes) : event cached (result (option bytes) string)
| ClientRead : event cached bool
| ClientWrite : event cached unit
| BlockLoad : event cached Z
| BlockStore (block : Z) : event cached unit
| Monotonic : event cached Z
| Random : event cached bytes
| NatsPublish (subject : string) (payload : bytes) : event cached (result unit string)
| Window (f : list Z -> list Z) : event cached (list Z)
| FairPlaySpc (content_id asset_id : string) (spc_data content_key : bytes) :
    event cached (result bytes string)
| NatsClient : event cached bool
| PutObject (bucket key : string) (body : bytes) : event cached (result unit string)
| Os {X} (c : os_cmd X) : event cached X.
Arguments Connect {cached}.
Arguments Redis {cached X} c.
Arguments Now {cached}.
Arguments CacheGet {cached} key.
Arguments CacheInsert {cached} key entry.
Arguments CacheInvalidate {cached} key.
Arguments ChainDial {cached} url.
Arguments ChainLatest {cached}.
Arguments ChainFetch {cached} key.
Arguments ClientRead {cached}.
Arguments ClientWrite {cached}.
Arguments BlockLoad {cached}.
Arguments BlockStore {cached} block.
Arguments Monotonic {cached}.
Arguments Random {cached}.
Arguments NatsPublish {cached} subject payload.
Arguments Window {cached} f.
Arguments FairPlaySpc {cached} content_id asset_id spc_data content_key.
Arguments NatsClient {cached}.
Arguments PutObject {cached} bucket key body.
Arguments Os {cached X} c.

(** Case analysis on an event, naming the command of a Redis event. *)
Tactic Notation "case_redis" ident(e) "as" ident(X) ident(c) :=
  destruct e as [|X c| | | | | | | | | | | | | | | | | | |].

(** ** Programs *)

Inductive prog (E : Type -> Type) (A : Type) : Type :=
| Ret (a : A)
| Vis {X : Type} (e : E X) (k : X -> prog E A).
Arguments Ret {E A} a.
Arguments Vis {E A X} e k.

Fixpoint bind {E A B} (m : prog E A) (k : A -> prog E B) : prog E B :=
  match m with
  | Ret a => k a
  | Vis e c => Vis e (fun x => bind (c x) k)
  end.

Definition trigger {E X} (e : E X) : prog E X := Vis e Ret.

(** [m.await?] *)
Definition bind_ok {E A B Er} (m : prog E (result A Er)) (k : A -> prog E (result B Er)) :
    prog E (result B Er) :=
  bind m (fun r => match r with Ok a => k a | Err e => Ret (Err e) end).

Definition await_map_err {E A Er Fr} (f : Er -> Fr) (m : prog E (result A Er)) :
    prog E (result A Fr) :=
  bind m (fun r => Ret (map_err f r)).

Notation "'let*' x := m 'in' k" := (bind m (fun x => k))
  (at level 10, x pattern, m at level 100, k at level 200) : rust_scope.
Notation "'let*?' x := m 'in' k" := (bind_ok m (fun x => k))
  (at level 10, x pattern, m at level 100, k at level 200) : rust_scope.

(** ** Worlds *)

Class World (C W : Type) := {
  exec : forall X, event C X -> W -> X * W;
}.
Arguments exec {C W _ X} e w.

Section Run.
Context {C W : Type} `{!World C W}.

Fixpoint run {A} (m : prog (event C) A) (w : W) : A * W :=
  match m with
  | Ret a => (a, w)
  | Vis e k => let '(x, w') := exec e w in run (k x) w'
  end.

Lemma run_bind {A B} (m : prog (event C) A) (k : A -> prog (event C) B) w :
  run (bind m k) w = let '(a, w') := run m w in run (k a) w'.
Proof.
  revert w. induction m as [a|X e c IH]; intros w; simpl; [done|].
  destruct (exec e w) as [x w']. apply IH.
Qed.

Lemma run_bind_inv {A B} (m : prog (event C) A) (k : A -> prog (event C) B) w b w' :
  run (bind m k) w = (b, w') <->
  exists a w1, run m w = (a, w1) /\ run (k a) w1 = (b, w').
Proof.
  rewrite run_bind. destruct (run m w) as [a w1] eqn:E. split; [eauto|].
  by intros (? & ? & [= -> ->] & ?).
Qed.

Lemma run_trigger {X} (e : event C X) w : run (trigger e) w = exec e w.
Proof. simpl. by destruct (exec e w). Qed.

Lemma run_bind_ok {A B Er} (m : prog (event C) (result A Er)) k w (b : B) w' :
  run (bind_ok m k) w = (Ok b, w') <->
  exists a w1, run m w = (Ok a, w1) /\ run (k a) w1 = (Ok b, w').
Proof.
  unfold bind_ok. rewrite run_bind_inv. split.
  - intros ([a|e] & w1 & H1 & H2); [eauto|done].
  - intros (a & w1 & H1 & H2). exists (Ok a). eauto.
Qed.

Lemma run_map_err_ok {A Er Fr} (f : Er -> Fr) (m : prog (event C) (result A Er)) w a w' :
  run (await_map_err f m) w = (Ok a, w') <-> run m w = (Ok a, w').
Proof.
  unfold await_map_err. rewrite run_bind_inv. split.
  - intros ([a'|e] & w1 & H & [= <- <-]); done.
  - intros H. by exists (Ok a), w'.
Qed.

(** ** Interleavings

    A pool of programs; at each step one of them performs its next event. *)
Inductive steps {A} : W * list (prog (event C) A) -> W * list (prog (event C) A) -> Prop :=
| steps_refl s : steps s s
| steps_step w ps i X (e : event C X) k x w1 s' :
    ps !! i = Some (Vis e k) -> exec e w = (x, w1) ->
    steps (w1, <[i := k x]> ps) s' ->
    steps (w, ps) s'.

Lemma steps_trans {A} (s1 s2 s3 : W * list (prog (event C) A)) :
  steps s1 s2 -> steps s2 s3 -> steps s1 s3.
Proof. induction 1; [done|]. intros. econstructor; eauto. Qed.

(** Running one program of the pool to its end is one of the interleavings. *)
Lemma steps_run {A} (m : prog (event C) A) w ps i :
  ps !! i = Some m ->
  steps (w, ps) (snd (run m w), <[i := Ret (fst (run m w))]> ps).
Proof.
  revert w ps. induction m as [a|X e k IH]; intros w ps Hi; simpl.
  - rewrite list_insert_id by done. constructor.
  - destruct (exec e w) as [x w1] eqn:E.
    econstructor; [done..|].
    rewrite <-(list_insert_insert_eq ps i (Ret _) (k x)).
    apply IH. apply list_lookup_insert_eq. by eapply lookup_lt_Some.
Qed.

(** The interleaving a schedule picks: at each turn the program it names performs its next
    event. *)
Fixpoint schedule {A} (turns : list nat) (s : W * list (prog (event C) A)) :
    W * list (prog (event C) A) :=
  match turns with
  | [] => s
  | i :: turns =>
    match s.2 !! i with
    | Some (Vis e k) => let '(x, w1) := exec e s.1 in schedule turns (w1, <[i := k x]> s.2)
    | _ => schedule turns s
    end
  end.

Lemma steps_schedule {A} turns (s : W * list (prog (event C) A)) : steps s (schedule turns s).
Proof.
  revert s. induction turns as [|i turns IH]; intros [w ps]; simpl; [constructor|].
  destruct (ps !! i) as [[a|X e k]|] eqn:E; [apply IH| |apply IH].
  destruct (exec e w) as [x w1] eqn:Ex. by econstructor.
Qed.
End Run.

(** ** What Redis documents

    The keyspace maps a key to a string or a set, with an optional deadline; a key at or
    past its deadline reads as absent. *)
Inductive rvalue : Type :=
| RStr (s : string)
| RSet (m : gset string).

Record entry := Entry {
  val : rvalue;
  deadline : option Z;
}.

Abbreviation store := (gmap string entry).

Definition alive (t : Z) (e : entry) : bool :=
  match deadline e with
  | None => true
  | Some d => (t <? d)%Z
  end.

Definition live_entry (t : Z) (s : store) (k : string) : option entry :=
  match s !! k with
  | Some e => if alive t e then Some e else None
  | None => None
  end.

Definition live (t : Z) (s : store) (k : string) : option rvalue :=
  val <$> live_entry t s k.

(** The members of the set at a key; an absent key is the empty set. *)
Definition members (t : Z) (s : store) (k : string) : gset string :=
  match live t s k with
  | Some (RSet m) => m
  | _ => ∅
  end.

(** [redis_spec t c s r s']: at time [t], command [c] on keyspace [s] may answer [r] and
    leave [s'].  A command against a key of the wrong type answers an error. *)
Definition redis_spec {X} (t : Z) (c : redis_cmd X) (s : store) : X -> store -> Prop :=
  match c in redis_cmd X return X -> store -> Prop with
  | GET k => fun r s' => s' = s /\
      match live t s k with
      | None => r = None
      | Some (RStr v) => r = Some v
      | Some (RSet _) => False
      end
  | SET k v => fun _ s' => s' = <[k := Entry (RStr v) None]> s
  | SETEX k v ttl => fun _ s' => s' = <[k := Entry (RStr v) (Some (t + ttl)%Z)]> s
  | SETNXEX k v ttl => fun r s' =>
      match live t s k with
      | None => r = true /\ s' = <[k := Entry (RStr v) (Some (t + ttl)%Z)]> s
      | Some _ => r = false /\ s' = s
      end
  | SADD k m => fun _ s' =>
      match live_entry t s k with
      | None => s' = <[k := Entry (RSet {[m]}) None]> s
      | Some (Entry (RSet ms) d) => s' = <[k := Entry (RSet ({[m]} ∪ ms)) d]> s
      | Some (Entry (RStr _) _) => False
      end
  | SREM k m => fun _ s' =>
      match live_entry t s k with
      | None => s' = s
      | Some (Entry (RSet ms) d) =>
          s' = if decide (ms ∖ {[m]} = ∅) then delete k s
               else <[k := Entry (RSet (ms ∖ {[m]})) d]> s
      | Some (Entry (RStr _) _) => False
      end
  | SMEMBERS k => fun r s' => s' = s /\
      match live t s k with
      | None => r = []
      | Some (RSet ms) => NoDup r /\ list_to_set r = ms
      | Some (RStr _) => False
      end
  | EXISTS k => fun r s' => s' = s /\ r = bool_decide (is_Some (live t s k))
  | EXPIRE k ttl => fun _ s' =>
      match live_entry t s k with
      | None => s' = s
      | Some e => s' = <[k := Entry (val e) (Some (t + ttl)%Z)]> s
      end
  | DEL k => fun _ s' => s' = delete k s
  end.

Definition is_redis {C X} (e : event C X) : bool :=
  match e with Redis _ => true | _ => false end.
Definition is_cache {C X} (e : event C X) : bool :=
  match e with CacheGet _ | CacheInsert _ _ | CacheInvalidate _ => true | _ => false end.
Definition is_block {C X} (e : event C X) : bool :=
  match e with BlockStore _ => true | _ => false end.
Definition is_window {C X} (e : event C X) : bool :=
  match e with Window _ => true | _ => false end.

(** Documented behaviour of the services.  Time is read in seconds from one clock that
    never goes back; a command that reports an error may or may not have taken effect; the
    cache may forget an entry at any time but never invents one. *)
Class WorldLaws (C W : Type) `{!World C W} := {
  clock : W -> Z;
  view : W -> store;
  cached : W -> bytes -> option C;
  last_block : W -> Z;
  window : W -> list Z;
  clock_mono : forall X (e : event C X) w x w',
    exec e w = (x, w') -> (clock w <= clock w')%Z;
  now_reads : forall w t w', exec Now w = (t, w') -> t = clock w';
  redis_ok : forall X (c : redis_cmd X) w r w',
    exec (Redis c) w = (Ok r, w') -> redis_spec (clock w') c (view w) r (view w');
  redis_err : forall X (c : redis_cmd X) w e w',
    exec (Redis c) w = (Err e, w') ->
    view w' = view w \/ exists r, redis_spec (clock w') c (view w) r (view w');
  view_frame : forall X (e : event C X) w x w',
    is_redis e = false -> exec e w = (x, w') -> view w' = view w;
  cache_get : forall k w r w',
    exec (CacheGet k) w = (r, w') -> r = None \/ r = cached w k;
  cache_sources : forall X (e : event C X) w x w' k c,
    exec e w = (x, w') -> cached w' k = Some c ->
    cached w k = Some c \/
    match e with CacheInsert k' c' => k' = k /\ c' = c | _ => False end;
  block_load : forall w b w', exec BlockLoad w = (b, w') -> b = last_block w;
  block_store : forall b u w w', exec (BlockStore b) w = (u, w') -> last_block w' = b;
  block_frame : forall X (e : event C X) w x w',
    is_block e = false -> exec e w = (x, w') -> last_block w' = last_block w;
  window_update : forall f l w w',
    exec (Window f) w = (l, w') -> l = window w /\ window w' = f (window w);
  window_frame : forall X (e : event C X) w x w',
    is_window e = false -> exec e w = (x, w') -> window w' = window w;
}.

(** ** Facts about the keyspace *)

Lemma live_insert t s k e :
  live t (<[k := e]> s) k = if alive t e then Some (val e) else None.
Proof. unfold live, live_entry. rewrite lookup_insert_eq. by case_match. Qed.

Lemma live_insert_ne t s k k' e : k <> k' -> live t (<[k := e]> s) k' = live t s k'.
Proof. intros. unfold live, live_entry. by rewrite lookup_insert_ne. Qed.

Lemma live_delete t s k : live t (delete k s) k = None.
Proof. unfold live, live_entry. by rewrite lookup_delete_eq. Qed.

Lemma live_delete_ne t s k k' : k <> k' -> live t (delete k s) k' = live t s k'.
Proof. intros. unfold live, live_entry. by rewrite lookup_delete_ne. Qed.

(** Time only removes keys. *)
Lemma live_entry_mono t t' s k e :
  (t <= t')%Z -> live_entry t' s k = Some e -> live_entry t s k = Some e.
Proof.
  intros Ht. unfold live_entry, alive. destruct (s !! k) as [[v [d|]]|]; simpl; try done.
  destruct (Z.ltb_spec t' d); [|done]. by rewrite (proj2 (Z.ltb_lt _ _)) by lia.
Qed.

Lemma live_mono t t' s k v :
  (t <= t')%Z -> live t' s k = Some v -> live t s k = Some v.
Proof.
  unfold live. intros Ht (e & He & ->)%fmap_Some.
  by rewrite (live_entry_mono _ _ _ _ _ Ht He).
Qed.

(** A command touches only its own key. *)
Lemma redis_spec_frame {X} t (c : redis_cmd X) s r s' k :
  redis_spec t c s r s' -> cmd_key c <> k -> s' !! k = s !! k.
Proof.
  destruct c; simpl; intros H Hk; repeat case_match; destruct_and?; subst; try done;
    first [by rewrite lookup_insert_ne | by rewrite lookup_delete_ne].
Qed.

(** A command against a key that is not [k] leaves what [k] reads as. *)
Lemma redis_spec_live_frame {X} t (c : redis_cmd X) s r s' k t' :
  redis_spec t c s r s' -> cmd_key c <> k -> live t' s' k = live t' s k.
Proof.
  intros H Hk. unfold live, live_entry. by rewrite (redis_spec_frame _ _ _ _ _ _ H Hk).
Qed.

(** ** A program logic for programs run alone

    Assertions speak of the clock and the keyspace.  [Stable] assertions survive the
    passing of time, which may happen at every event. *)
Definition assertion : Type := Z -> store -> Prop.

Class Stable (P : assertion) : Prop :=
  stable : forall t t' s, P t s -> (t <= t')%Z -> P t' s.

#[export] Instance stable_and P Q : Stable P -> Stable Q -> Stable (fun t s => P t s /\ Q t s).
Proof. intros HP HQ t t' s [] ?. split; [by eapply HP|by eapply HQ]. Qed.
#[export] Instance stable_pure (P : Prop) : Stable (fun _ _ => P).
Proof. by intros t t' s. Qed.
#[export] Instance stable_store (P : store -> Prop) : Stable (fun _ s => P s).
Proof. by intros t t' s. Qed.
#[export] Instance stable_forall {A} (P : A -> assertion) :
  (forall a, Stable (P a)) -> Stable (fun t s => forall a, P a t s).
Proof. intros H t t' s HP ? a. by eapply H. Qed.
#[export] Instance stable_since t0 (P : store -> Prop) : Stable (fun t s => (t0 <= t)%Z /\ P s).
Proof. intros t t' s [] ?. split; [lia|done]. Qed.

Section Hoare.
Context {C W : Type} `{!World C W, !WorldLaws C W}.

Definition hoare {A} (P : assertion) (m : prog (event C) A) (Q : A -> assertion) : Prop :=
  forall w r w', P (clock w) (view w) -> run m w = (r, w') -> Q r (clock w') (view w').

Lemma hoare_ret {A} (a : A) (P : assertion) (Q : A -> assertion) :
  (forall t s, P t s -> Q a t s) -> hoare P (Ret a) Q.
Proof. intros H w r w' HP [= <- <-]. auto. Qed.

Lemma hoare_bind {A B} (m : prog (event C) A) (k : A -> prog (event C) B) P R Q :
  hoare P m R -> (forall a, hoare (R a) (k a) Q) -> hoare P (bind m k) Q.
Proof.
  intros Hm Hk w r w' HP (a & w1 & H1 & H2)%run_bind_inv.
  eapply Hk; [by eapply Hm|done].
Qed.

Lemma hoare_bind_ok {A B Er} (m : prog (event C) (result A Er)) k
    (P : assertion) (R : A -> assertion) (Q : result B Er -> assertion) :
  hoare P m (fun r => match r with Ok a => R a | Err e => Q (Err e) end) ->
  (forall a, hoare (R a) (k a) Q) -> hoare P (bind_ok m k) Q.
Proof.
  intros Hm Hk. eapply hoare_bind; [done|]. intros [a|e]; [apply Hk|by apply hoare_ret].
Qed.

Lemma hoare_map_err {A Er Fr} (f : Er -> Fr) (m : prog (event C) (result A Er)) P
    (Q : result A Fr -> assertion) :
  hoare P m (fun r => Q (map_err f r)) -> hoare P (await_map_err f m) Q.
Proof. intros H. eapply hoare_bind; [done|]. intros r. by apply hoare_ret. Qed.

Lemma hoare_consequence {A} (m : prog (event C) A) (P P' : assertion) (Q Q' : A -> assertion) :
  (forall t s, P t s -> P' t s) -> (forall a t s, Q' a t s -> Q a t s) ->
  hoare P' m Q' -> hoare P m Q.
Proof. intros HP HQ H w r w' Hw Hr. eapply HQ, H; [by apply HP|done]. Qed.

Lemma hoare_post {A} (m : prog (event C) A) (P : assertion) (Q Q' : A -> assertion) :
  (forall a t s, Q' a t s -> Q a t s) -> hoare P m Q' -> hoare P m Q.
Proof. intros. by eapply hoare_consequence. Qed.

Lemma hoare_event {X} (e : event C X) (P : assertion) `{!Stable P} (Q : X -> assertion) :
  is_redis e = false -> (forall x t s, P t s -> Q x t s) -> hoare P (trigger e) Q.
Proof.
  intros He HQ w r w' HP H. rewrite run_trigger in H. apply HQ.
  rewrite (view_frame _ _ _ _ _ He H). eapply stable; [done|by eapply clock_mono].
Qed.

Lemma hoare_now (P : assertion) `{!Stable P} (Q : Z -> assertion) :
  (forall t s, P t s -> Q t t s) -> hoare P (trigger Now) Q.
Proof.
  intros HQ w r w' HP H. rewrite run_trigger in H. rewrite (now_reads _ _ _ H).
  apply HQ. rewrite (view_frame _ Now w r w' eq_refl H).
  eapply stable; [done|by eapply clock_mono].
Qed.

(** A command either takes effect, and then answers or fails, or fails without effect. *)
Lemma hoare_redis {X} (c : redis_cmd X) (P : assertion) `{!Stable P}
    (Q : result X RedisError -> assertion) :
  (forall t s x s', P t s -> redis_spec t c s x s' -> Q (Ok x) t s') ->
  (forall t s x s' e, P t s -> redis_spec t c s x s' -> Q (Err e) t s') ->
  (forall t s e, P t s -> Q (Err e) t s) ->
  hoare P (trigger (Redis c)) Q.
Proof.
  intros H1 H2 H3 w [x|e] w' HP H; rewrite run_trigger in H;
    (assert (P (clock w') (view w)) as HP' by (eapply stable; [done|by eapply clock_mono])).
  - eapply H1; [done|by apply redis_ok].
  - apply redis_err in H as [-> | [x Hx]]; [by apply H3|by eapply H2].
Qed.
End Hoare.

(** ** Programs that only perform some kinds of events *)

Section AllEvents.
Context {E : Type -> Type} (ok : forall X, E X -> Prop).

Fixpoint all_events {A} (m : prog E A) : Prop :=
  match m with
  | Ret _ => True
  | Vis e k => ok _ e /\ forall x, all_events (k x)
  end.

Lemma all_events_bind {A B} (m : prog E A) (k : A -> prog E B) :
  all_events m -> (forall a, all_events (k a)) -> all_events (bind m k).
Proof. induction m as [a|X e c IH]; simpl; [auto|]. intros [? Hc] Hk. eauto. Qed.

Lemma all_events_bind_ok {A B Er} (m : prog E (result A Er))
    (k : A -> prog E (result B Er)) :
  all_events m -> (forall a, all_events (k a)) -> all_events (bind_ok m k).
Proof. intros ??. apply all_events_bind; [done|]. by intros []. Qed.

Lemma all_events_map_err {A Er Fr} (f : Er -> Fr) (m : prog E (result A Er)) :
  all_events m -> all_events (await_map_err f m).
Proof. intros. by apply all_events_bind. Qed.

Lemma all_events_trigger {X} (e : E X) : ok _ e -> all_events (trigger e).
Proof. done. Qed.
End AllEvents.

#[export] Hint Resolve all_events_bind all_events_bind_ok all_events_map_err
  all_events_trigger : backend.

Lemma hoare_exists {C W} `{!World C W, !WorldLaws C W} {A B} (P : B -> assertion)
    (m : prog (event C) A) (Q : A -> assertion) :
  (forall x, hoare (P x) m Q) -> hoare (fun t s => exists x, P x t s) m Q.
Proof. intros H w r w' [x Hx] Hr. by eapply H. Qed.

Lemma hoare_pure {C W} `{!World C W, !WorldLaws C W} {A} (P : Prop) (R : assertion)
    (m : prog (event C) A) (Q : A -> assertion) :
  (P -> hoare R m Q) -> hoare (fun t s => P /\ R t s) m Q.
Proof. intros H w r w' [HP HR] Hr. by eapply H. Qed.

(** The state a program starts from can be named. *)
Lemma hoare_at {C W} `{!World C W, !WorldLaws C W} {A} (P : assertion)
    (m : prog (event C) A) (Q : A -> assertion) :
  (forall t0 s0, P t0 s0 -> hoare (fun t s => P t s /\ (t0 <= t)%Z /\ s = s0) m Q) ->
  hoare P m Q.
Proof. intros H w r w' Hw Hr. eapply (H (clock w) (view w)); [done|done|exact Hr]. Qed.

(** ** Traces

    The events of an execution with their answers.  [path m tr a]: answered as in [tr],
    [m] ends with [a].  Every execution is a path, whether alone or interleaved. *)
Definition answer (E : Type -> Type) : Type := {X : Type & (E X * X)%type}.
Definition answered {E : Type -> Type} {X} (e : E X) (x : X) : answer E := existT X (e, x).

Lemma elem_of_insert_inv {A} (l : list A) i x y : y ∈ <[i := x]> l -> y = x \/ y ∈ l.
Proof.
  intros [j Hj]%list_elem_of_lookup.
  apply list_lookup_insert_Some in Hj as [(_ & ? & _)|[_ ?%list_elem_of_lookup_2]]; auto.
Qed.

Section Paths.
Context {E : Type -> Type}.

Fixpoint path {A} (m : prog E A) (tr : list (answer E)) (a : A) : Prop :=
  match m, tr with
  | Ret b, [] => a = b
  | Vis e k, ev :: tr => exists x, ev = answered e x /\ path (k x) tr a
  | _, _ => False
  end.

Lemma path_bind {A B} (m : prog E A) (k : A -> prog E B) tr b :
  path (bind m k) tr b <->
  exists a tr1 tr2, tr = tr1 ++ tr2 /\ path m tr1 a /\ path (k a) tr2 b.
Proof.
  revert tr. induction m as [a|X e c IH]; intros tr; simpl.
  - split; [intros H; by exists a, [], tr|].
    intros (a' & tr1 & tr2 & -> & H & Hk). destruct tr1; [|done]. by subst.
  - split.
    + destruct tr as [|ev tr]; [done|]. intros (x & -> & H).
      apply IH in H as (a & tr1 & tr2 & -> & H1 & H2).
      exists a, (answered e x :: tr1), tr2. simpl. eauto.
    + intros (a & tr1 & tr2 & -> & H1 & H2). destruct tr1 as [|ev tr1]; [done|].
      destruct H1 as (x & -> & H1). simpl. exists x. split; [done|]. apply IH.
      by exists a, tr1, tr2.
Qed.

Lemma path_trigger {X} (e : E X) tr x : path (trigger e) tr x <-> tr = [answered e x].
Proof.
  simpl. destruct tr as [|ev tr]; [done|]. split.
  - intros (y & -> & H). destruct tr; [by subst|done].
  - intros [= -> ->]. by exists x.
Qed.

Lemma path_bind_ok {A B Er} (m : prog E (result A Er)) k tr (b : B) :
  path (bind_ok m k) tr (Ok b) <->
  exists a tr1 tr2, tr = tr1 ++ tr2 /\ path m tr1 (Ok a) /\ path (k a) tr2 (Ok b).
Proof.
  unfold bind_ok. rewrite path_bind. split.
  - intros ([a|e] & tr1 & tr2 & -> & H1 & H2).
    + by exists a, tr1, tr2.
    + simpl in H2. by destruct tr2.
  - intros (a & tr1 & tr2 & -> & H1 & H2). by exists (Ok a), tr1, tr2.
Qed.

Lemma path_map_err {A Er Fr} (f : Er -> Fr) (m : prog E (result A Er)) tr a :
  path (await_map_err f m) tr (Ok a) <-> path m tr (Ok a).
Proof.
  unfold await_map_err. rewrite path_bind. split.
  - intros ([a'|e] & tr1 & tr2 & -> & H1 & H2); simpl in H2; destruct tr2; try done.
    simplify_eq. by rewrite app_nil_r.
  - intros H. exists (Ok a), tr, []. by rewrite app_nil_r.
Qed.

Lemma path_ret {A} (a b : A) tr : path (Ret (E := E) a) tr b <-> tr = [] /\ a = b.
Proof. destruct tr; simpl; naive_solver. Qed.

(** [ensures I m Q]: whatever the answers are, as long as they are in [I], the result is in
    [Q]. *)
Fixpoint ensures {A} (I : forall X, E X -> X -> Prop) (m : prog E A)
    (Q : A -> Prop) : Prop :=
  match m with
  | Ret a => Q a
  | Vis e k => forall x, I _ e x -> ensures I (k x) Q
  end.

Lemma ensures_bind {A B} I (m : prog E A) (k : A -> prog E B) R Q :
  ensures I m R -> (forall a, R a -> ensures I (k a) Q) -> ensures I (bind m k) Q.
Proof. intros Hm Hk. induction m as [a|X e c IH]; simpl in *; auto. Qed.

Lemma ensures_mono {A} I (m : prog E A) (R Q : A -> Prop) :
  (forall a, R a -> Q a) -> ensures I m R -> ensures I m Q.
Proof. intros HRQ. induction m; simpl; auto. Qed.

(** Any answer. *)
Abbreviation anyway := (fun X (_ : E X) (_ : X) => True).

Lemma ensures_weaken {A} I (m : prog E A) Q : ensures anyway m Q -> ensures I m Q.
Proof. induction m; simpl; auto. Qed.

Lemma all_events_bind_ensures {A B} P (m : prog E A) (k : A -> prog E B) R :
  all_events P m -> ensures anyway m R -> (forall a, R a -> all_events P (k a)) ->
  all_events P (bind m k).
Proof.
  intros Hm HR Hk. induction m as [a|X e c IH]; simpl in *; [auto|].
  destruct Hm. split; [done|]. auto.
Qed.

Lemma ensures_skip {A B} I (m : prog E A) (k : A -> prog E B) Q :
  (forall a, ensures I (k a) Q) -> ensures I (bind m k) Q.
Proof. intros Hk. induction m; simpl; auto. Qed.

Lemma ensures_skip_ok {A B Er} I (m : prog E (result A Er)) k
    (Q : result B Er -> Prop) :
  (forall e, Q (Err e)) -> (forall a, ensures I (k a) Q) -> ensures I (bind_ok m k) Q.
Proof. intros He Hk. apply ensures_skip. intros []; simpl; auto. Qed.

Lemma ensures_map_err {A Er Fr} I (f : Er -> Fr) (m : prog E (result A Er)) Q :
  ensures I m (fun r => Q (map_err f r)) -> ensures I (await_map_err f m) Q.
Proof. intros H. by eapply ensures_bind. Qed.

Lemma ensures_true {A} I (m : prog E A) : ensures I m (fun _ => True).
Proof. by induction m; simpl. Qed.

Lemma ensures_bind_ok {A B Er} I (m : prog E (result A Er)) k
    (R : A -> Prop) (Q : result B Er -> Prop) :
  ensures I m (fun r => match r with Ok a => R a | Err _ => True end) ->
  (forall e, Q (Err e)) -> (forall a, R a -> ensures I (k a) Q) ->
  ensures I (bind_ok m k) Q.
Proof. intros Hm He Hk. eapply ensures_bind; [done|]. intros [a|e]; simpl; auto. Qed.

End Paths.

Section PathsOfRuns.
Context {C W : Type} `{!World C W}.

Lemma run_path {A} (m : prog (event C) A) w a w' : run m w = (a, w') -> exists tr, path m tr a.
Proof.
  revert w. induction m as [b|X e k IH]; simpl; intros w H.
  - exists []. by simplify_eq.
  - destruct (exec e w) as [x w1]. apply IH in H as [tr H]. exists (answered e x :: tr). eauto.
Qed.

Lemma steps_path {A} (s s' : W * list (prog (event C) A)) i m a :
  steps s s' -> s.2 !! i = Some m -> s'.2 !! i = Some (Ret a) -> exists tr, path m tr a.
Proof.
  intros H. revert m. induction H as [s|w ps j X e k x w1 s' Hj He Hs IH]; simpl; intros m Hm Ha.
  - exists []. by simplify_eq.
  - destruct (decide (i = j)) as [->|Hij].
    + simplify_eq. destruct (IH (k x)) as [tr Htr]; [|done|].
      { simpl. apply list_lookup_insert_eq. by eapply lookup_lt_Some. }
      exists (answered e x :: tr). simpl. eauto.
    + apply IH; [|done]. simpl. by rewrite list_lookup_insert_ne.
Qed.

(** An invariant of the world that the events of every program keep, and that restricts
    the answers, makes [ensures] hold of each program of a pool. *)
Lemma steps_ensures {A} (J : W -> Prop) (G : forall X, event C X -> Prop) I
    (s s' : W * list (prog (event C) A)) i m Q a :
  (forall X (e : event C X) w x w', J w -> G X e -> exec e w = (x, w') -> J w' /\ I X e x) ->
  steps s s' -> J s.1 -> (forall p, p ∈ s.2 -> all_events G p) ->
  s.2 !! i = Some m -> ensures I m Q -> s'.2 !! i = Some (Ret a) -> J s'.1 /\ Q a.
Proof.
  intros HJ H. revert m. induction H as [s|w ps j X e k x w1 s' Hj He Hs IH];
    simpl; intros m Hw HG Hm HQ Ha.
  - by simplify_eq.
  - assert (all_events G (Vis e k)) as [Ge Gk].
    { apply HG. by eapply list_elem_of_lookup_2. }
    destruct (HJ _ _ _ _ _ Hw Ge He) as [Hw1 Ix].
    apply (IH (if decide (i = j) then k x else m)); simpl; [done| | | |done].
    + by intros p [->|?]%elem_of_insert_inv; auto.
    + case_decide; subst.
      * apply list_lookup_insert_eq. by eapply lookup_lt_Some.
      * by rewrite list_lookup_insert_ne.
    + case_decide; subst; [|done]. simplify_eq. by apply HQ.
Qed.
End PathsOfRuns.
