(* ===== verification/SimWorld.v ===== *)
(** * A simulated world

    An executable instance of [World]: an in-memory keyspace, cache, chain and clock, with a
    schedule of delays that makes time pass between events.  It satisfies [WorldLaws], so
    that every hypothesis of that form can hold, and it runs the handlers on concrete
    inputs. *)
From S2P Require Import Prelude Services.

(** Files, environment and working directory; the objects in S3; whether NATS is
    connected. *)
Record outside := Outside {
  os_files : list (string * string);
  os_env : list (string * string);
  os_cwd : result bytes string;
  os_objects : list (string * string * bytes);
  os_nats : bool;
}.

Definition nothing_outside : outside := Outside [] [] (Ok []) [] true.

Record sim (C : Type) := Sim {
  sim_now : Z;
  sim_delays : list Z;
  sim_store : store;
  sim_cache : list (bytes * C);
  sim_height : result Z string;
  sim_chain : list (bytes * bytes);
  sim_dialable : bool;
  sim_client : bool;
  sim_block : Z;
  sim_window : list Z;
  sim_random : list bytes;
  sim_published : list (string * bytes);
  sim_outside : outside;
}.
Arguments Sim {C}.
Arguments sim_now {C}.
Arguments sim_delays {C}.
Arguments sim_store {C}.
Arguments sim_cache {C}.
Arguments sim_height {C}.
Arguments sim_chain {C}.
Arguments sim_dialable {C}.
Arguments sim_client {C}.
Arguments sim_block {C}.
Arguments sim_window {C}.
Arguments sim_random {C}.
Arguments sim_published {C}.
Arguments sim_outside {C}.

Fixpoint assoc {A B} `{EqDecision A} (k : A) (l : list (A * B)) : option B :=
  match l with
  | [] => None
  | (k', v) :: l => if decide (k' = k) then Some v else assoc k l
  end.

Definition wrong_type : RedisError :=
  redis_error "WRONGTYPE Operation against a key holding the wrong kind of value".

(** One command against the keyspace at time [t]. *)
Definition sim_redis {X} (t : Z) (c : redis_cmd X) (s : store) : result X RedisError * store :=
  match c in redis_cmd X return result X RedisError * store with
  | GET k =>
      match live t s k with
      | None => (Ok None, s)
      | Some (RStr v) => (Ok (Some v), s)
      | Some (RSet _) => (Err wrong_type, s)
      end
  | SET k v => (Ok tt, <[k := Entry (RStr v) None]> s)
  | SETEX k v ttl => (Ok tt, <[k := Entry (RStr v) (Some (t + ttl)%Z)]> s)
  | SETNXEX k v ttl =>
      match live t s k with
      | None => (Ok true, <[k := Entry (RStr v) (Some (t + ttl)%Z)]> s)
      | Some _ => (Ok false, s)
      end
  | SADD k m =>
      match live_entry t s k with
      | None => (Ok tt, <[k := Entry (RSet {[m]}) None]> s)
      | Some (Entry (RSet ms) d) => (Ok tt, <[k := Entry (RSet ({[m]} ∪ ms)) d]> s)
      | Some (Entry (RStr _) _) => (Err wrong_type, s)
      end
  | SREM k m =>
      match live_entry t s k with
      | None => (Ok tt, s)
      | Some (Entry (RSet ms) d) =>
          (Ok tt, if decide (ms ∖ {[m]} = ∅) then delete k s
                  else <[k := Entry (RSet (ms ∖ {[m]})) d]> s)
      | Some (Entry (RStr _) _) => (Err wrong_type, s)
      end
  | SMEMBERS k =>
      match live t s k with
      | None => (Ok [], s)
      | Some (RSet ms) => (Ok (elements ms), s)
      | Some (RStr _) => (Err wrong_type, s)
      end
  | EXISTS k => (Ok (bool_decide (is_Some (live t s k))), s)
  | EXPIRE k ttl =>
      match live_entry t s k with
      | None => (Ok tt, s)
      | Some e => (Ok tt, <[k := Entry (val e) (Some (t + ttl)%Z)]> s)
      end
  | DEL k => (Ok tt, delete k s)
  end.

Section SimWorld.
Context {C : Type}.
Implicit Types w : sim C.

(** The time of the next event: the schedule's delay is spent first. *)
Definition sim_tick w : Z * list Z :=
  match sim_delays w with
  | [] => (sim_now w, [])
  | d :: ds => ((sim_now w + Z.max 0 d)%Z, ds)
  end.

Definition sim_advance w : sim C :=
  let '(t, ds) := sim_tick w in
  Sim t ds (sim_store w) (sim_cache w) (sim_height w) (sim_chain w)
    (sim_dialable w) (sim_client w) (sim_block w) (sim_window w) (sim_random w) (sim_published w)
    (sim_outside w).

Definition set_store w s : sim C :=
  Sim (sim_now w) (sim_delays w) s (sim_cache w) (sim_height w) (sim_chain w)
    (sim_dialable w) (sim_client w) (sim_block w) (sim_window w) (sim_random w) (sim_published w)
    (sim_outside w).
Definition set_cache w c : sim C :=
  Sim (sim_now w) (sim_delays w) (sim_store w) c (sim_height w) (sim_chain w)
    (sim_dialable w) (sim_client w) (sim_block w) (sim_window w) (sim_random w) (sim_published w)
    (sim_outside w).
Definition set_client w b : sim C :=
  Sim (sim_now w) (sim_delays w) (sim_store w) (sim_cache w) (sim_height w) (sim_chain w)
    (sim_dialable w) b (sim_block w) (sim_window w) (sim_random w) (sim_published w)
    (sim_outside w).
Definition set_block w b : sim C :=
  Sim (sim_now w) (sim_delays w) (sim_store w) (sim_cache w) (sim_height w) (sim_chain w)
    (sim_dialable w) (sim_client w) b (sim_window w) (sim_random w) (sim_published w)
    (sim_outside w).
Definition set_window w l : sim C :=
  Sim (sim_now w) (sim_delays w) (sim_store w) (sim_cache w) (sim_height w) (sim_chain w)
    (sim_dialable w) (sim_client w) (sim_block w) l (sim_random w) (sim_published w)
    (sim_outside w).
Definition set_random w l : sim C :=
  Sim (sim_now w) (sim_delays w) (sim_store w) (sim_cache w) (sim_height w) (sim_chain w)
    (sim_dialable w) (sim_client w) (sim_block w) (sim_window w) l (sim_published w)
    (sim_outside w).
Definition set_published w l : sim C :=
  Sim (sim_now w) (sim_delays w) (sim_store w) (sim_cache w) (sim_height w) (sim_chain w)
    (sim_dialable w) (sim_client w) (sim_block w) (sim_window w) (sim_random w) l
    (sim_outside w).
Definition set_outside w o : sim C :=
  Sim (sim_now w) (sim_delays w) (sim_store w) (sim_cache w) (sim_height w) (sim_chain w)
    (sim_dialable w) (sim_client w) (sim_block w) (sim_window w) (sim_random w) (sim_published w) o.

Definition sim_os {X} (c : os_cmd X) (o : outside) : X :=
  match c in os_cmd X return X with
  | ReadToString p => ok_or "No such file or directory"%string (assoc p (os_files o))
  | PathExists p => bool_decide (is_Some (assoc p (os_files o)))
  | EnvVar n => assoc n (os_env o)
  | CurrentDir => os_cwd o
  end.

Definition add_object (o : outside) (bucket key : string) (body : bytes) : outside :=
  Outside (os_files o) (os_env o) (os_cwd o) (os_objects o ++ [(bucket, key, body)]) (os_nats o).

Definition sim_handle {X} (e : event C X) w : X * sim C :=
  match e in event _ X return X * sim C with
  | Connect => (Ok tt, w)
  | Redis c => let '(r, s) := sim_redis (sim_now w) c (sim_store w) in (r, set_store w s)
  | Now => (sim_now w, w)
  | CacheGet k => (assoc k (sim_cache w), w)
  | CacheInsert k c => (tt, set_cache w ((k, c) :: sim_cache w))
  | CacheInvalidate k => (tt, set_cache w (base.filter (fun p => p.1 <> k) (sim_cache w)))
  | ChainDial _ => (if sim_dialable w then Ok tt else Err "unreachable"%string, w)
  | ChainLatest => (sim_height w, w)
  | ChainFetch k => (Ok (assoc k (sim_chain w)), w)
  | ClientRead => (sim_client w, w)
  | ClientWrite => (tt, set_client w true)
  | BlockLoad => (sim_block w, w)
  | BlockStore b => (tt, set_block w b)
  | Monotonic => ((1000 * sim_now w)%Z, w)
  | Random => (default [] (head (sim_random w)), set_random w (tail (sim_random w)))
  | NatsPublish s p => (Ok tt, set_published w (sim_published w ++ [(s, p)]))
  | Window f => (sim_window w, set_window w (f (sim_window w)))
  | FairPlaySpc _ _ spc key => (Ok (spc ++ key), w)
  | NatsClient => (os_nats (sim_outside w), w)
  | PutObject b k body => (Ok tt, set_outside w (add_object (sim_outside w) b k body))
  | Os c => (sim_os c (sim_outside w), w)
  end.

#[export] Instance sim_world : World C (sim C) :=
  {| exec := fun X e w => sim_handle e (sim_advance w) |}.

Lemma sim_redis_ok {X} t (c : redis_cmd X) s r s' :
  sim_redis t c s = (Ok r, s') -> redis_spec t c s r s'.
Proof.
  destruct c; simpl; intros H; repeat case_match; simplify_eq; try done.
  split; [done|]. split; [apply NoDup_elements|by rewrite list_to_set_elements_L].
Qed.

Lemma sim_redis_err {X} t (c : redis_cmd X) s e s' :
  sim_redis t c s = (Err e, s') -> s' = s.
Proof. by destruct c; simpl; intros H; repeat case_match; simplify_eq. Qed.

Lemma sim_advance_store w : sim_store (sim_advance w) = sim_store w.
Proof. unfold sim_advance. by case_match. Qed.
Lemma sim_advance_cache w : sim_cache (sim_advance w) = sim_cache w.
Proof. unfold sim_advance. by case_match. Qed.
Lemma sim_advance_block w : sim_block (sim_advance w) = sim_block w.
Proof. unfold sim_advance. by case_match. Qed.
Lemma sim_advance_window w : sim_window (sim_advance w) = sim_window w.
Proof. unfold sim_advance. by case_match. Qed.
Lemma sim_advance_now w : (sim_now w <= sim_now (sim_advance w))%Z.
Proof.
  unfold sim_advance, sim_tick. destruct (sim_delays w); simpl; lia.
Qed.

Lemma assoc_filter {B} (k k' : bytes) (l : list (bytes * B)) :
  assoc k' (base.filter (fun p => p.1 <> k) l) = if decide (k' = k) then None else assoc k' l.
Proof.
  induction l as [|[a b] l IH]; simpl; [by case_decide|].
  rewrite filter_cons; simpl. destruct (decide (a <> k)) as [Ha|Ha]; simpl; rewrite IH.
  - by repeat case_decide; subst.
  - apply dec_stable in Ha as ->. by repeat case_decide; subst.
Qed.

#[export] Instance sim_laws : WorldLaws C (sim C).
Proof.
  refine {| clock := sim_now; view := sim_store;
            cached := fun w k => assoc k (sim_cache w); last_block := sim_block;
            window := sim_window |}.
  - intros X e w x w' H. pose proof (sim_advance_now w) as Hn. revert Hn H.
    unfold exec, sim_world. destruct e; simpl; intros; repeat case_match; simplify_eq; done.
  - by intros w t w' [= <- <-].
  - intros X c w r w'. unfold exec, sim_world. simpl.
    destruct (sim_redis _ c _) as [r' s] eqn:E. intros [= -> <-]. simpl.
    rewrite <-sim_advance_store. by apply sim_redis_ok.
  - intros X c w e w'. unfold exec, sim_world. simpl.
    destruct (sim_redis _ c _) as [r' s] eqn:E. intros [= -> <-]. left. simpl.
    rewrite <-sim_advance_store. by eapply sim_redis_err.
  - intros X e w x w'. unfold exec, sim_world. rewrite <-(sim_advance_store w).
    destruct e; simpl; intros; simplify_eq; done.
  - intros k w r w' [= <- <-]. right. by rewrite sim_advance_cache.
  - intros X e w x w' k c. unfold exec, sim_world. rewrite <-(sim_advance_cache w).
    destruct e; simpl; intros; simplify_eq; simpl in *; auto.
    + repeat case_match; simplify_eq; auto.
    + case_decide; simplify_eq; auto.
    + rewrite assoc_filter in H0. case_decide; [done|auto].
  - intros w b w' [= <- <-]. by rewrite sim_advance_block.
  - by intros b u w w' [= <- <-].
  - intros X e w x w'. unfold exec, sim_world. rewrite <-(sim_advance_block w).
    destruct e; simpl; intros; repeat case_match; simplify_eq; done.
  - intros f l w w' [= <- <-]. by rewrite sim_advance_window.
  - intros X e w x w'. unfold exec, sim_world. rewrite <-(sim_advance_window w).
    destruct e; simpl; intros; repeat case_match; simplify_eq; done.
Defined.
End SimWorld.
