(* ===== verification/SessionManager.v ===== *)
(** * Playback sessions (src/src/session_manager.rs)

    The session manager keeps each playback session under a Redis key with a heartbeat
    time-to-live, and each user's session ids in a Redis set.  Its methods are programs
    over Redis; they are proved correct when run alone in any world, for any passing of
    time between their commands, and their races are exhibited as interleavings. *)
From S2P Require Import Prelude Services SimWorld.

(** ** Data *)

Definition DEFAULT_MAX_CONCURRENT_STREAMS : Z := 5.
Definition SESSION_HEARTBEAT_TIMEOUT : Z := 300.
Definition REDIS_MAX_RETRIES : Z := 3.
Definition REDIS_RETRY_DELAY_MS : Z := 100.

(** src/src/lib.rs *)
Inductive MediaProtocol : Set :=
| TDF3 | FairPlay.

Inductive SessionState : Set :=
| Starting | Playing | Paused | Stopped.

Record C2paSessionMetadata := {
  validation_status : string;
  creator : option string;
  ai_generated : option bool;
  edit_count : option Z;
  validated_timestamp : Z;
}.

Record PlaybackSession := {
  session_id : string;
  user_id : string;
  asset_id : string;
  protocol : MediaProtocol;
  segment_index : option Z;
  state : SessionState;
  start_timestamp : Z;
  first_play_timestamp : option Z;
  last_heartbeat_timestamp : Z;
  client_ip : string;
  geo_region : option string;
  user_agent : option string;
  c2pa_metadata : option C2paSessionMetadata;
}.

#[export] Instance media_protocol_dec : EqDecision MediaProtocol.
Proof. solve_decision. Defined.
#[export] Instance session_state_dec : EqDecision SessionState.
Proof. solve_decision. Defined.

Inductive SessionManagerError : Set :=
| RedisFailure (e : RedisError)
| SerializationError (detail : string)
| SessionNotFound
| ConcurrencyLimitExceeded (current max : Z).

Record SessionManager := {
  max_concurrent_streams : Z;
}.

(** [serde_json]'s encoding of a session. *)
Class SessionJson := {
  to_string : PlaybackSession -> result string string;
  from_str : string -> result PlaybackSession string;
}.

Class SessionJsonLaws `{!SessionJson} := {
  json_roundtrip : forall s j, to_string s = Ok j -> from_str j = Ok s;
}.

(** ** Redis keys *)

Definition session_key (id : string) : string := "session:" +:+ id.
Definition user_sessions_key (user : string) : string := "user:" +:+ user +:+ ":sessions".
Definition first_play_key (user asset : string) : string :=
  "rental:" +:+ user +:+ ":" +:+ asset.

(** ** Operations *)

Section Operations.
Context {C : Type} {json : SessionJson}.
Abbreviation io A := (prog (event C) A).

Definition redis {X} (c : redis_cmd X) : io (result X SessionManagerError) :=
  await_map_err RedisFailure (trigger (Redis c)).

Definition connect : io (result unit SessionManagerError) :=
  await_map_err RedisFailure (trigger Connect).

Definition serialize (s : PlaybackSession) : io (result string SessionManagerError) :=
  Ret (map_err SerializationError (to_string s)).

Definition deserialize (j : string) : io (result PlaybackSession SessionManagerError) :=
  Ret (map_err SerializationError (from_str j)).

(** [PlaybackSession::new] *)
Definition new_session (session_id user_id asset_id : string) (protocol : MediaProtocol)
    (client_ip : string) : io PlaybackSession :=
  let* now := trigger Now in
  Ret {| session_id := session_id; user_id := user_id; asset_id := asset_id;
         protocol := protocol; segment_index := None; state := Starting;
         start_timestamp := now; first_play_timestamp := None;
         last_heartbeat_timestamp := now; client_ip := client_ip;
         geo_region := None; user_agent := None; c2pa_metadata := None |}.

Definition is_expired (s : PlaybackSession) (current_timestamp : Z) : bool :=
  (SESSION_HEARTBEAT_TIMEOUT <? i64_wrap (current_timestamp - last_heartbeat_timestamp s))%Z.

Definition new_manager (max : option Z) : SessionManager :=
  {| max_concurrent_streams := default DEFAULT_MAX_CONCURRENT_STREAMS max |}.

(** The loop of [get_active_session_count]. *)
Fixpoint count_sessions (key : string) (session_ids : list string) (active_count : Z) :
    io (result Z SessionManagerError) :=
  match session_ids with
  | [] => Ret (Ok active_count)
  | id :: rest =>
    let*? exists_ := redis (EXISTS (session_key id)) in
    if exists_ : bool then count_sessions key rest (active_count + 1)
    else
      let*? _ := redis (SREM key id) in
      count_sessions key rest active_count
  end.

Definition get_active_session_count (user : string) : io (result Z SessionManagerError) :=
  let*? _ := connect in
  let*? session_ids := redis (SMEMBERS (user_sessions_key user)) in
  count_sessions (user_sessions_key user) session_ids 0.

Definition create_session (self : SessionManager) (session : PlaybackSession) :
    io (result unit SessionManagerError) :=
  let*? active_count := get_active_session_count (user_id session) in
  if (max_concurrent_streams self <=? active_count)%Z then
    Ret (Err (ConcurrencyLimitExceeded active_count (max_concurrent_streams self)))
  else
  let*? _ := connect in
  let*? session_json := serialize session in
  let*? _ := redis (SETEX (session_key (session_id session)) session_json
                      SESSION_HEARTBEAT_TIMEOUT) in
  let*? _ := redis (SADD (user_sessions_key (user_id session)) (session_id session)) in
  let*? _ := redis (EXPIRE (user_sessions_key (user_id session)) SESSION_HEARTBEAT_TIMEOUT) in
  Ret (Ok tt).

(** The update of the session in [heartbeat]. *)
Definition heartbeat_update (now : Z) (new_state : option SessionState)
    (new_segment : option Z) (s : PlaybackSession) : PlaybackSession :=
  let first_play :=
    match new_state with
    | Some st =>
      if bool_decide (st = Playing) && bool_decide (first_play_timestamp s = None)
      then Some now else first_play_timestamp s
    | None => first_play_timestamp s
    end in
  {| session_id := session_id s; user_id := user_id s; asset_id := asset_id s;
     protocol := protocol s;
     segment_index := match new_segment with Some i => Some i | None => segment_index s end;
     state := default (state s) new_state;
     start_timestamp := start_timestamp s; first_play_timestamp := first_play;
     last_heartbeat_timestamp := now; client_ip := client_ip s;
     geo_region := geo_region s; user_agent := user_agent s;
     c2pa_metadata := c2pa_metadata s |}.

Definition heartbeat (id : string) (new_state : option SessionState)
    (new_segment : option Z) : io (result PlaybackSession SessionManagerError) :=
  let*? _ := connect in
  let*? session_json := redis (GET (session_key id)) in
  match session_json with
  | None => Ret (Err SessionNotFound)
  | Some json =>
    let*? session := deserialize json in
    let* now := trigger Now in
    let session := heartbeat_update now new_state new_segment session in
    let*? session_json := serialize session in
    let*? _ := redis (SETEX (session_key id) session_json SESSION_HEARTBEAT_TIMEOUT) in
    let*? _ := redis (EXPIRE (user_sessions_key (user_id session))
                        SESSION_HEARTBEAT_TIMEOUT) in
    Ret (Ok session)
  end.

Definition get_session (id : string) : io (result (option PlaybackSession) SessionManagerError) :=
  let*? _ := connect in
  let*? session_json := redis (GET (session_key id)) in
  match session_json with
  | Some json => let*? session := deserialize json in Ret (Ok (Some session))
  | None => Ret (Ok None)
  end.

Definition terminate_session (id : string) : io (result unit SessionManagerError) :=
  let*? _ := connect in
  let*? found := get_session id in
  match found with
  | Some session =>
    let*? _ := redis (SREM (user_sessions_key (user_id session)) id) in
    let*? _ := redis (DEL (session_key id)) in
    Ret (Ok tt)
  | None => Ret (Ok tt)
  end.

(** The loop of [get_user_sessions]: a session that cannot be read is skipped, and the
    result of a clean-up is ignored. *)
Fixpoint collect_sessions (now : Z) (session_ids : list string) (sessions : list PlaybackSession) :
    io (list PlaybackSession) :=
  match session_ids with
  | [] => Ret sessions
  | id :: rest =>
    let* r := get_session id in
    match r with
    | Ok (Some session) =>
      if negb (is_expired session now) then collect_sessions now rest (sessions ++ [session])
      else
        let* _ := terminate_session id in
        collect_sessions now rest sessions
    | _ => collect_sessions now rest sessions
    end
  end.

Definition get_user_sessions (user : string) :
    io (result (list PlaybackSession) SessionManagerError) :=
  let*? _ := connect in
  let*? session_ids := redis (SMEMBERS (user_sessions_key user)) in
  let* now := trigger Now in
  let* sessions := collect_sessions now session_ids [] in
  Ret (Ok sessions).

(** The loop of [cleanup_expired_sessions]. *)
Fixpoint cleanup_loop (now : Z) (sessions : list PlaybackSession) (cleaned : Z) :
    io (result Z SessionManagerError) :=
  match sessions with
  | [] => Ret (Ok cleaned)
  | s :: rest =>
    if is_expired s now then
      let*? _ := terminate_session (session_id s) in
      cleanup_loop now rest (cleaned + 1)
    else cleanup_loop now rest cleaned
  end.

Definition cleanup_expired_sessions (user : string) : io (result Z SessionManagerError) :=
  let*? sessions := get_user_sessions user in
  let* now := trigger Now in
  cleanup_loop now sessions 0.

Definition record_first_play (user asset : string) : io (result Z SessionManagerError) :=
  let*? _ := connect in
  let key := first_play_key user asset in
  let* now := trigger Now in
  let*? stored := redis (GET key) in
  match stored with
  | Some value => Ret (Ok (default now (parse_i64 value)))
  | None =>
    let*? _ := redis (SETEX key (display_Z now) (30 * 24 * 60 * 60)) in
    Ret (Ok now)
  end.

Definition get_first_play (user asset : string) : io (result (option Z) SessionManagerError) :=
  let*? _ := connect in
  let*? stored := redis (GET (first_play_key user asset)) in
  Ret (Ok (stored ≫= parse_i64)).

(** [retry_redis_operation]: the operation is tried until it succeeds, at most
    [REDIS_MAX_RETRIES] times; the sleeps between the attempts have no other effect.
    [fuel] bounds the loop, and [REDIS_MAX_RETRIES] of it are enough. *)
Fixpoint retry_loop {A} (fuel : nat) (operation : io (result A SessionManagerError))
    (attempt : Z) : io (option (result A SessionManagerError)) :=
  match fuel with
  | O => Ret None
  | S fuel =>
    let* r := operation in
    match r with
    | Ok v => Ret (Some (Ok v))
    | Err e =>
      let attempt := (attempt + 1)%Z in
      if (REDIS_MAX_RETRIES <=? attempt)%Z then Ret (Some (Err e))
      else retry_loop fuel operation attempt
    end
  end.

Definition retry_redis_operation {A} (operation : io (result A SessionManagerError)) :
    io (option (result A SessionManagerError)) :=
  retry_loop (Z.to_nat REDIS_MAX_RETRIES) operation 0.
End Operations.
