(* ===== verification/SessionCodec.v ===== *)
(** * A concrete codec for sessions

    An executable instance of [SessionJson] that satisfies its laws: a session is written
    as the number that codes the tree of its fields.  It runs the session manager on
    concrete inputs in the simulated world; it is not serde_json's format. *)
From stdpp Require Import countable.
From S2P Require Import Prelude Services SimWorld SessionManager.

Abbreviation leaf := (string + Z)%type.
Abbreviation tree := (gen_tree leaf).

Definition str (s : string) : tree := GenLeaf (inl s).
Definition num (z : Z) : tree := GenLeaf (inr z).
Definition opt {A} (f : A -> tree) (o : option A) : tree :=
  match o with None => GenNode 0 [] | Some a => GenNode 1 [f a] end.

Definition of_str (t : tree) : option string :=
  match t with GenLeaf (inl s) => Some s | _ => None end.
Definition of_num (t : tree) : option Z :=
  match t with GenLeaf (inr z) => Some z | _ => None end.
Definition of_opt {A} (f : tree -> option A) (t : tree) : option (option A) :=
  match t with
  | GenNode 0 [] => Some None
  | GenNode 1 [t] => Some <$> f t
  | _ => None
  end.

Definition protocol_num (p : MediaProtocol) : Z := match p with TDF3 => 0 | FairPlay => 1 end.
Definition num_protocol (z : Z) : MediaProtocol := if (z =? 0)%Z then TDF3 else FairPlay.
Definition state_num (s : SessionState) : Z :=
  match s with Starting => 0 | Playing => 1 | Paused => 2 | Stopped => 3 end.
Definition num_state (z : Z) : SessionState :=
  if (z =? 0)%Z then Starting else if (z =? 1)%Z then Playing
  else if (z =? 2)%Z then Paused else Stopped.
Definition bool_num (b : bool) : Z := if b then 1 else 0.

Definition c2pa_tree (c : C2paSessionMetadata) : tree :=
  GenNode 0 [str (validation_status c); opt str (creator c);
             opt (fun b => num (bool_num b)) (ai_generated c); opt num (edit_count c);
             num (validated_timestamp c)].
Definition of_c2pa (t : tree) : option C2paSessionMetadata :=
  match t with
  | GenNode 0 [a; b; c; d; e] =>
    a ← of_str a; b ← of_opt of_str b;
    c ← of_opt (fun t => (fun z => (z =? 1)%Z) <$> of_num t) c; d ← of_opt of_num d;
    e ← of_num e;
    Some {| validation_status := a; creator := b; ai_generated := c; edit_count := d;
            validated_timestamp := e |}
  | _ => None
  end.

Definition session_tree (s : PlaybackSession) : tree :=
  GenNode 0 [str (session_id s); str (user_id s); str (asset_id s);
             num (protocol_num (protocol s)); opt num (segment_index s);
             num (state_num (state s)); num (start_timestamp s);
             opt num (first_play_timestamp s); num (last_heartbeat_timestamp s);
             str (client_ip s); opt str (geo_region s); opt str (user_agent s);
             opt c2pa_tree (c2pa_metadata s)].
Definition of_session (t : tree) : option PlaybackSession :=
  match t with
  | GenNode 0 [a; b; c; d; e; f; g; h; i; j; k; l; m] =>
    a ← of_str a; b ← of_str b; c ← of_str c; d ← of_num d; e ← of_opt of_num e;
    f ← of_num f; g ← of_num g; h ← of_opt of_num h; i ← of_num i; j ← of_str j;
    k ← of_opt of_str k; l ← of_opt of_str l; m ← of_opt of_c2pa m;
    Some {| session_id := a; user_id := b; asset_id := c; protocol := num_protocol d;
            segment_index := e; state := num_state f; start_timestamp := g;
            first_play_timestamp := h; last_heartbeat_timestamp := i; client_ip := j;
            geo_region := k; user_agent := l; c2pa_metadata := m |}
  | _ => None
  end.

Lemma of_session_tree s : of_session (session_tree s) = Some s.
Proof.
  destruct s as [a b c [] [e|] [] g [h|] i j [k|] [l|] [[m1 [m2|] [[]|] [m4|] m5]|]]; reflexivity.
Qed.

Definition tree_text (t : tree) : string := display_Z (Z.pos (encode t)).
Definition text_tree (s : string) : option tree :=
  match parse_Z s with Some (Z.pos p) => decode p | _ => None end.

Lemma text_tree_text t : text_tree (tree_text t) = Some t.
Proof. unfold text_tree, tree_text. rewrite parse_display_Z. apply decode_encode. Qed.

#[export] Instance sample_json : SessionJson :=
  {| to_string := fun s => Ok (tree_text (session_tree s));
     from_str := fun j => ok_or "malformed session"%string (text_tree j ≫= of_session) |}.

#[export] Instance sample_json_laws : SessionJsonLaws.
Proof.
  split. intros s j [= <-]. cbn [from_str sample_json].
  rewrite text_tree_text. cbn [mbind option_bind]. by rewrite of_session_tree.
Defined.

(** A session and an empty world. *)
Definition sample_session (id user : string) : PlaybackSession :=
  {| session_id := id; user_id := user; asset_id := "asset"; protocol := TDF3;
     segment_index := None; state := Starting; start_timestamp := 100;
     first_play_timestamp := None; last_heartbeat_timestamp := 100; client_ip := "127.0.0.1";
     geo_region := None; user_agent := None; c2pa_metadata := None |}.

Definition sample_world (delays : list Z) : sim unit :=
  {| sim_now := 100; sim_delays := delays; sim_store := ∅; sim_cache := []; sim_height := Ok 0%Z;
     sim_chain := []; sim_dialable := false; sim_client := false; sim_block := 0;
     sim_window := []; sim_random := []; sim_published := []; sim_outside := nothing_outside |}.
