(* ===== verification/MediaMetrics.v ===== *)
(** * Media metrics (src/src/media_metrics.rs)

    Analytics events and the sliding window of key-request latencies.  The window lives
    behind a mutex: each of its critical sections is one [Window] event.  The percentile
    indices are computed in binary64 arithmetic, as the code does. *)
From Stdlib Require Import Floats.SpecFloat.
From stdpp Require Import sorting.
From S2P Require Import Prelude Services SimWorld SessionCodec.

(** ** Events *)

Inductive KeyRequestResult : Set :=
| Success | PolicyDenied | AuthenticationFailed | InvalidRequest | InternalError.

Inductive SessionEndReason : Set :=
| UserTerminated | Timeout | Error | PolicyViolation.

Inductive RentalAction : Set :=
| FirstPlay | Expired | AccessGranted.

Inductive MediaEvent : Set :=
| KeyRequest (session_id user_id asset_id : string) (segment_index : option Z)
    (result : KeyRequestResult) (latency_ms timestamp : Z)
| SessionStart (session_id user_id asset_id client_ip : string)
    (geo_region user_agent : option string) (timestamp : Z)
| SessionEnd (session_id user_id asset_id : string) (duration_seconds : Z)
    (reason : SessionEndReason) (timestamp : Z)
| PolicyDenial (session_id : option string) (user_id asset_id denial_reason : string)
    (timestamp : Z)
| ConcurrencyLimit (user_id : string) (current_streams max_streams timestamp : Z)
| RentalWindow (user_id asset_id : string) (action : RentalAction) (timestamp : Z)
| C2paValidationSuccess (session_id : option string) (user_id asset_id : string)
    (creator : option string) (ai_generated : option bool) (timestamp : Z)
| C2paValidationFailure (session_id : option string) (user_id asset_id error : string)
    (timestamp : Z)
| C2paPolicyDenial (session_id : option string) (user_id asset_id reason : string)
    (timestamp : Z).

Definition event_type (e : MediaEvent) : string :=
  match e with
  | KeyRequest _ _ _ _ _ _ _ => "key_request"
  | SessionStart _ _ _ _ _ _ _ => "session_start"
  | SessionEnd _ _ _ _ _ _ => "session_end"
  | PolicyDenial _ _ _ _ _ => "policy_denial"
  | ConcurrencyLimit _ _ _ _ => "concurrency_limit"
  | RentalWindow _ _ _ _ => "rental_window"
  | C2paValidationSuccess _ _ _ _ _ _ => "c2pa_validation_success"
  | C2paValidationFailure _ _ _ _ _ => "c2pa_validation_failure"
  | C2paPolicyDenial _ _ _ _ _ => "c2pa_policy_denial"
  end.

(** [serde_json::to_vec] of an event. *)
Class MediaEventJson := {
  event_to_vec : MediaEvent -> result bytes string;
}.

(** ** The metrics publisher *)

Record MediaMetrics := {
  nats_client : bool;
  metrics_subject : string;
  enable_analytics : bool;
  max_window_size : nat;
}.

Definition new_metrics (nats_client : bool) (metrics_subject : string) (enable_analytics : bool) :
    MediaMetrics :=
  {| nats_client := nats_client; metrics_subject := metrics_subject;
     enable_analytics := enable_analytics; max_window_size := 1000 |}.

Record PerformanceMetrics := {
  key_delivery_p50_ms : spec_float;
  key_delivery_p95_ms : spec_float;
  key_delivery_p99_ms : spec_float;
  total_key_requests : Z;
  successful_requests : Z;
  failed_requests : Z;
  policy_denials : Z;
}.

(** [x as f64] of an integer, and [x as usize] of a float: towards zero, saturating, and
    zero for a NaN. *)
Definition f64_of_Z (z : Z) : spec_float := binary_normalize 53 1024 z 0 false.

Definition usize_of_f64 (x : spec_float) : Z :=
  match x with
  | S754_zero _ | S754_nan | S754_infinity true | S754_finite true _ _ => 0
  | S754_infinity false => 2 ^ 64 - 1
  | S754_finite false m e => Z.min (2 ^ 64 - 1) (Z.shiftl (Z.pos m) e)
  end.

(** The binary64 numbers nearest to 0.50, 0.95 and 0.99. *)
Definition f64_0_50 : spec_float := S754_finite false 4503599627370496 (-53).
Definition f64_0_95 : spec_float := S754_finite false 8556839292003942 (-53).
Definition f64_0_99 : spec_float := S754_finite false 8917127262193582 (-53).

Definition default_metrics : PerformanceMetrics :=
  {| key_delivery_p50_ms := f64_of_Z 0; key_delivery_p95_ms := f64_of_Z 0;
     key_delivery_p99_ms := f64_of_Z 0; total_key_requests := 0;
     successful_requests := 0; failed_requests := 0; policy_denials := 0 |}.

(** [(len as f64 * p) as usize] *)
Definition percentile_index (p : spec_float) (len : nat) : nat :=
  Z.to_nat (usize_of_f64 (SFmul 53 1024 (f64_of_Z (Z.of_nat len)) p)).

(** The body of [record_key_request_latency]'s critical section. *)
Definition push_latency (max : nat) (latency_ms : Z) (window : list Z) : list Z :=
  let window := window ++ [latency_ms] in
  if max <? length window then tail window else window.

Definition summarize (window : list Z) : PerformanceMetrics :=
  match window with
  | [] => default_metrics
  | _ =>
    let sorted := merge_sort Z.le window in
    let at_ p := f64_of_Z (default 0%Z (sorted !! percentile_index p (length sorted))) in
    {| key_delivery_p50_ms := at_ f64_0_50;
       key_delivery_p95_ms := at_ f64_0_95;
       key_delivery_p99_ms := at_ f64_0_99;
       total_key_requests := Z.of_nat (length sorted);
       successful_requests := 0; failed_requests := 0; policy_denials := 0 |}
  end.

Section Operations.
Context {C : Type} {json : MediaEventJson}.
Abbreviation io A := (prog (event C) A).

(** A failure to serialize or to publish is only logged. *)
Definition publish_event (self : MediaMetrics) (e : MediaEvent) : io unit :=
  if negb (enable_analytics self) then Ret tt
  else if nats_client self then
    match event_to_vec e with
    | Ok payload =>
      let subject := metrics_subject self +:+ "." +:+ event_type e in
      let* _ := trigger (NatsPublish subject payload) in
      Ret tt
    | Err _ => Ret tt
    end
  else Ret tt.

Definition record_key_request_latency (self : MediaMetrics) (latency_ms : Z) : io unit :=
  let* _ := trigger (Window (push_latency (max_window_size self) latency_ms)) in
  Ret tt.

Definition get_metrics (self : MediaMetrics) : io PerformanceMetrics :=
  let* window := trigger (Window (fun window => window)) in
  Ret (summarize window).

(** [RequestTimer]: the instant it was started at. *)
Definition RequestTimer : Type := Z.
Definition start : io RequestTimer := trigger Monotonic.
Definition elapsed_ms (self : RequestTimer) : io Z :=
  let* now := trigger Monotonic in
  Ret (Z.max 0 (now - self) mod 2 ^ 64)%Z.

(** Requests served one after the other. *)
Fixpoint record_all (self : MediaMetrics) (latencies : list Z) : io unit :=
  match latencies with
  | [] => Ret tt
  | l :: rest => let* _ := record_key_request_latency self l in record_all self rest
  end.
End Operations.

(** ** The window holds the last requests *)

(** The last [n] elements. *)
Definition last_n {A} (n : nat) (l : list A) : list A := drop (length l - n) l.

Lemma length_last_n {A} n (l : list A) : length (last_n n l) = Nat.min n (length l).
Proof. unfold last_n. rewrite length_drop. lia. Qed.

Lemma push_latency_last max x l : 0 < max -> push_latency max x (last_n max l) = last_n max (l ++ [x]).
Proof.
  intros Hm. unfold push_latency. rewrite length_app, length_last_n. simpl.
  unfold last_n. rewrite length_app. simpl.
  destruct (Nat.ltb_spec max (Nat.min max (length l) + 1)).
  - replace (length l + 1 - max) with (S (length l - max)) by lia.
    rewrite drop_app_le by lia. replace (S (length l - max)) with (length l - max + 1) by lia.
    rewrite <-drop_drop. destruct (drop (length l - max) l) as [|y r] eqn:E; [|done].
    apply (f_equal length) in E. rewrite length_drop in E. simpl in E. lia.
  - replace (length l - max) with 0 by lia. by replace (length l + 1 - max) with 0 by lia.
Qed.

Section Window.
Context {C W : Type} `{!World C W, !WorldLaws C W}.

Lemma run_record_all self ls l w r w' :
  0 < max_window_size self -> window w = last_n (max_window_size self) l ->
  run (record_all self ls) w = (r, w') ->
  window w' = last_n (max_window_size self) (l ++ ls).
Proof.
  intros Hm. revert l w. induction ls as [|x ls IH]; intros l w Hw H.
  - rewrite app_nil_r. simpl in H. by simplify_eq.
  - cbn [record_all] in H. apply run_bind_inv in H as (u & w1 & H1 & H).
    unfold record_key_request_latency in H1. apply run_bind_inv in H1 as (v & w2 & H1 & [= _ <-]).
    rewrite run_trigger in H1. apply window_update in H1 as [_ H1].
    rewrite Hw, push_latency_last in H1 by done. apply (IH _ _ H1) in H. by rewrite <-app_assoc in H.
Qed.

(** ** The percentile indices *)

(** For every size the window can have, the rounded product truncates to the integer
    quotient. *)
Definition index_of (p : spec_float) (len : Z) : Z := usize_of_f64 (SFmul 53 1024 (f64_of_Z len) p).

Definition indices_agree (n : Z) : bool :=
  (index_of f64_0_50 n =? n * 50 / 100)%Z && (index_of f64_0_95 n =? n * 95 / 100)%Z &&
  (index_of f64_0_99 n =? n * 99 / 100)%Z.

Fixpoint agree_from (count : nat) (n : Z) : bool :=
  match count with
  | O => true
  | S count => indices_agree n && agree_from count (Z.succ n)
  end.

Lemma agree_from_all : agree_from 1001 0 = true.
Proof. vm_compute. reflexivity. Qed.

Lemma agree_from_elem count n k :
  agree_from count n = true -> (n <= k < n + Z.of_nat count)%Z -> indices_agree k = true.
Proof.
  revert n. induction count as [|count IH]; intros n H Hk; [lia|]. cbn [agree_from] in H.
  apply andb_true_iff in H as [H1 H2]. destruct (decide (n = k)) as [->|]; [done|].
  apply (IH (Z.succ n)); [done|lia].
Qed.

Lemma to_nat_quotient n k : Z.to_nat (Z.of_nat n * Z.of_nat k / 100) = n * k / 100.
Proof. change 100%Z with (Z.of_nat 100). by rewrite <-Nat2Z.inj_mul, <-Nat2Z.inj_div, Nat2Z.id. Qed.

Lemma percentile_index_exact n :
  n <= 1000 ->
  percentile_index f64_0_50 n = n * 50 / 100 /\ percentile_index f64_0_95 n = n * 95 / 100 /\
  percentile_index f64_0_99 n = n * 99 / 100.
Proof.
  intros Hn. pose proof (agree_from_elem _ _ (Z.of_nat n) agree_from_all ltac:(lia)) as H.
  unfold indices_agree in H. reflect_bools. unfold percentile_index.
  repeat match goal with H : index_of _ _ = _ |- _ => unfold index_of in H; rewrite H; clear H end.
  split_and!; [apply (to_nat_quotient n 50)|apply (to_nat_quotient n 95)|apply (to_nat_quotient n 99)].
Qed.

(** The nearest-rank element of a sorted list. *)
Definition percentile (k : nat) (sorted : list Z) (x : Z) : Prop :=
  sorted !! (length sorted * k / 100) = Some x.

Lemma percentile_exists k sorted :
  k < 100 -> 0 < length sorted -> exists x, percentile k sorted x.
Proof. intros Hk Hl. apply lookup_lt_is_Some_2. apply Nat.Div0.div_lt_upper_bound. nia. Qed.

Lemma StronglySorted_lookup_lt l i j x y :
  StronglySorted Z.le l -> l !! i = Some x -> l !! j = Some y -> i < j -> (x <= y)%Z.
Proof.
  intros Hs. revert i j. induction Hs as [|z l Hs IH Hz]; intros [|i] [|j] Hx Hy Hij;
    simpl in *; try (done || lia).
  - simplify_eq. by eapply (Forall_lookup_1 _ _ _ _ Hz).
  - eapply IH; [done..|lia].
Qed.

(** Monotone in [k], on a sorted list. *)
Lemma percentile_mono k k' sorted x y :
  Sorted Z.le sorted -> k <= k' -> percentile k sorted x -> percentile k' sorted y -> (x <= y)%Z.
Proof.
  intros Hs Hk Hx Hy. apply Sorted_StronglySorted in Hs; [|apply _].
  set (i := length sorted * k / 100) in *. set (j := length sorted * k' / 100) in *.
  assert (i <= j) by (apply Nat.Div0.div_le_mono; nia).
  unfold percentile in Hx, Hy. fold i in Hx. fold j in Hy.
  destruct (decide (i = j)) as [E|E]; [rewrite E in Hx; simplify_eq; lia|].
  eapply (StronglySorted_lookup_lt _ i j); [done..|lia].
Qed.

Lemma summarize_spec l :
  0 < length l <= 1000 ->
  exists sorted p50 p95 p99,
    Sorted Z.le sorted /\ sorted ≡ₚ l /\
    percentile 50 sorted p50 /\ percentile 95 sorted p95 /\ percentile 99 sorted p99 /\
    summarize l =
      {| key_delivery_p50_ms := f64_of_Z p50; key_delivery_p95_ms := f64_of_Z p95;
         key_delivery_p99_ms := f64_of_Z p99; total_key_requests := Z.of_nat (length l);
         successful_requests := 0; failed_requests := 0; policy_denials := 0 |}.
Proof.
  intros Hl. exists (merge_sort Z.le l).
  pose proof (merge_sort_Permutation Z.le l) as HP. pose proof (Permutation_length HP) as HL.
  destruct (percentile_exists 50 (merge_sort Z.le l)) as [p50 H50]; [lia..|].
  destruct (percentile_exists 95 (merge_sort Z.le l)) as [p95 H95]; [lia..|].
  destruct (percentile_exists 99 (merge_sort Z.le l)) as [p99 H99]; [lia..|].
  exists p50, p95, p99. split; [apply Sorted_merge_sort, _|]. do 4 (split; [done|]).
  unfold summarize. destruct l as [|x l]; [simpl in Hl; lia|]. unfold percentile in *.
  destruct (percentile_index_exact (length (merge_sort Z.le (x :: l)))) as (-> & -> & ->); [lia|].
  by rewrite H50, H95, H99, HL.
Qed.

(** With the thousand-request window of [new], after any sequence of key requests the
    metrics count the last thousand of them (all of them if there are fewer) and report the
    elements of rank 50, 95 and 99 per cent of their sorted latencies, so that the reported
    percentiles are ordered; the binary64 index arithmetic never falls outside the window. *)
Theorem metrics_of_last_requests nats subject analytics ls w m w' :
  ls <> [] -> window w = [] ->
  run (let* _ := record_all (new_metrics nats subject analytics) ls in
       get_metrics (new_metrics nats subject analytics)) w = (m, w') ->
  exists sorted p50 p95 p99,
    Sorted Z.le sorted /\ sorted ≡ₚ last_n 1000 ls /\
    percentile 50 sorted p50 /\ percentile 95 sorted p95 /\ percentile 99 sorted p99 /\
    (p50 <= p95 <= p99)%Z /\
    m = {| key_delivery_p50_ms := f64_of_Z p50; key_delivery_p95_ms := f64_of_Z p95;
           key_delivery_p99_ms := f64_of_Z p99;
           total_key_requests := Z.of_nat (Nat.min 1000 (length ls));
           successful_requests := 0; failed_requests := 0; policy_denials := 0 |}.
Proof.
  intros Hls Hw (u & w1 & H1 & H)%run_bind_inv.
  apply (run_record_all _ _ []) in H1; [|by simpl; lia|done]. cbn [max_window_size new_metrics app] in H1.
  unfold get_metrics in H. apply run_bind_inv in H as (l & w2 & H2 & [= <- <-]).
  rewrite run_trigger in H2. apply window_update in H2 as [-> _]. rewrite H1.
  pose proof (length_last_n 1000 ls) as HL.
  assert (0 < length ls) by (destruct ls; [done|simpl; lia]).
  destruct (summarize_spec (last_n 1000 ls)) as (sorted & p50 & p95 & p99 & Hs & HP & H50 & H95 & H99 & ->);
    [lia|].
  exists sorted, p50, p95, p99. rewrite HL.
  split_and!; try done; (eapply percentile_mono; [done| |done|done]; lia).
Qed.
End Window.

Lemma metrics_of_last_requests_witness :
  exists m w', run (let* _ := record_all (new_metrics false "" false) [30; 10; 20]%Z in
       get_metrics (new_metrics false "" false)) (sample_world []) = (m, w') /\
  total_key_requests m = 3%Z.
Proof.
  eexists _, _. split; [exact eq_refl|].
  destruct (metrics_of_last_requests (W := sim unit) false "" false [30; 10; 20]%Z (sample_world []) _ _
    ltac:(discriminate) eq_refl eq_refl) as (s & a & b & c & _ & _ & _ & _ & _ & _ & ->).
  reflexivity.
Defined.
