(* ===== verification/SessionLimit.v ===== *)
(** * The concurrency limit (src/src/session_manager.rs)

    What [get_active_session_count] counts, and that the methods of the session manager,
    run one after the other in any world, keep every user within
    [max_concurrent_streams], whether they succeed or fail half-way. *)
From S2P Require Import Prelude Services SimWorld SessionManager SessionCodec.

(** ** Keys *)

#[export] Instance session_key_inj : Inj (=) (=) session_key.
Proof. intros a b H. unfold session_key in H. by simplify_eq. Qed.

#[export] Instance user_sessions_key_inj : Inj (=) (=) user_sessions_key.
Proof.
  intros a b H. unfold user_sessions_key in H. simplify_eq/=. by eapply append_inj_r.
Qed.

Lemma session_user_key id u : session_key id <> user_sessions_key u.
Proof. done. Qed.
Lemma first_play_session_key u a id : first_play_key u a <> session_key id.
Proof. done. Qed.
Lemma first_play_user_key u a v : first_play_key u a <> user_sessions_key v.
Proof. done. Qed.
#[export] Hint Resolve session_user_key first_play_session_key first_play_user_key : backend.

(** ** Tracked sessions

    The sessions of a user that count: members of the user's set whose key is present. *)
Definition present (t : Z) (s : store) (id : string) : Prop :=
  is_Some (live t s (session_key id)).

#[export] Instance present_dec t s id : Decision (present t s id).
Proof. unfold present. apply _. Defined.

Definition tracked (t : Z) (s : store) (u : string) : gset string :=
  base.filter (present t s) (members t s (user_sessions_key u)).

Lemma elem_of_tracked t s u id :
  id ∈ tracked t s u <-> present t s id /\ id ∈ members t s (user_sessions_key u).
Proof. unfold tracked. by rewrite elem_of_filter. Qed.

Lemma members_mono t t' s k : (t <= t')%Z -> members t' s k ⊆ members t s k.
Proof.
  intros Ht. unfold members. destruct (live t' s k) as [v|] eqn:E; [|set_solver].
  by rewrite (live_mono _ _ _ _ _ Ht E).
Qed.

Lemma present_mono t t' s id : (t <= t')%Z -> present t' s id -> present t s id.
Proof. intros Ht [v Hv]. exists v. by eapply live_mono. Qed.

(** ** Commands that only remove *)

Definition shrinks (t : Z) (s s' : store) : Prop :=
  (forall u, members t s' (user_sessions_key u) ⊆ members t s (user_sessions_key u)) /\
  (forall id, present t s' id -> present t s id).

Lemma shrinks_tracked t s s' u : shrinks t s s' -> tracked t s' u ⊆ tracked t s u.
Proof. intros [Hm Hp] id. rewrite !elem_of_tracked. set_solver. Qed.

Lemma shrinks_refl t s : shrinks t s s.
Proof. split; auto. Qed.

Definition harmless_cmd {X} (c : redis_cmd X) : Prop :=
  match c with
  | GET _ | SREM _ _ | SMEMBERS _ | EXISTS _ | EXPIRE _ _ | DEL _ => True
  | SET k _ | SETEX k _ _ | SETNXEX k _ _ =>
      (forall id, k <> session_key id) /\ (forall u, k <> user_sessions_key u)
  | SADD _ _ => False
  end.

Lemma live_entry_insert t s k e :
  live_entry t (<[k := e]> s) k = if alive t e then Some e else None.
Proof. unfold live_entry. by rewrite lookup_insert_eq. Qed.

Lemma shrinks_key t s s' k :
  (forall k', k <> k' -> s' !! k' = s !! k') ->
  members t s' k ⊆ members t s k ->
  (is_Some (live t s' k) -> is_Some (live t s k)) -> shrinks t s s'.
Proof.
  intros Hf Hm Hl.
  assert (forall k', k <> k' -> live t s' k' = live t s k') as Hf'.
  { intros k' Hk. unfold live, live_entry. by rewrite Hf. }
  split.
  - intros u. destruct (decide (k = user_sessions_key u)) as [->|Hk]; [done|].
    unfold members. by rewrite Hf'.
  - intros id. unfold present.
    destruct (decide (k = session_key id)) as [->|Hk]; [done|]. by rewrite Hf'.
Qed.

Lemma shrinks_harmless {X} t (c : redis_cmd X) s x s' :
  harmless_cmd c -> redis_spec t c s x s' -> shrinks t s s'.
Proof.
  intros Hc Hs. pose proof (fun k => redis_spec_frame t c s x s' k Hs) as Hf.
  destruct c; simpl in *; try done; try (destruct Hs as [-> _]; apply shrinks_refl).
  1, 2, 3: destruct Hc as [H1 H2]; split;
    [intros u; unfold members, live, live_entry; by rewrite Hf
    |intros id; unfold present, live, live_entry; by rewrite Hf].
  - destruct (live_entry t s key) as [[[v|ms] d]|] eqn:E; [done| |subst; apply shrinks_refl].
    assert (live t s key = Some (RSet ms)) as El by (unfold live; by rewrite E).
    apply (shrinks_key _ _ _ key); [done|..]; rewrite ?El; [|by eauto].
    subst s'. unfold members. rewrite El. case_decide; [by rewrite live_delete|].
    rewrite live_insert. destruct (alive _ _); simpl; set_solver.
  - destruct (live_entry t s key) as [e|] eqn:E; [|subst; apply shrinks_refl].
    assert (live t s key = Some (val e)) as El by (unfold live; by rewrite E).
    apply (shrinks_key _ _ _ key); [done|..]; rewrite ?El; [|by eauto].
    subst s'. unfold members. rewrite El, live_insert. destruct (alive _ _); simpl; set_solver.
  - apply (shrinks_key _ _ _ key); [done|..]; subst s'.
    + unfold members. rewrite live_delete. set_solver.
    + rewrite live_delete. by intros [].
Qed.

(** Assertions that survive such commands and the passing of time. *)
Class Shrinking (P : assertion) : Prop := {
  shrinking_stable :: Stable P;
  shrinking : forall t s s', P t s -> shrinks t s s' -> P t s';
}.

#[export] Instance shrinking_and P Q :
  Shrinking P -> Shrinking Q -> Shrinking (fun t s => P t s /\ Q t s).
Proof. intros HP HQ. split; [apply _|]. intros t s s' [] ?. split; by eapply shrinking. Qed.
#[export] Instance shrinking_pure (P : Prop) : Shrinking (fun _ _ => P).
Proof. split; [apply _|done]. Qed.
#[export] Instance shrinking_forall {A} (P : A -> assertion) :
  (forall a, Shrinking (P a)) -> Shrinking (fun t s => forall a, P a t s).
Proof. intros H. split; [apply _|]. intros t s s' HP ? a. by eapply shrinking. Qed.
#[export] Instance shrinking_tracked u (S : gset string) :
  Shrinking (fun t s => tracked t s u ⊆ S).
Proof.
  split; [intros t t' s H Ht id|intros t s s' H Hs id].
  - rewrite elem_of_tracked. intros [? ?]. apply H, elem_of_tracked.
    split; [by eapply present_mono|by eapply members_mono].
  - intros Hid. apply H. by eapply shrinks_tracked.
Qed.
#[export] Instance shrinking_member u id (P : Prop) :
  Shrinking (fun t s => id ∈ members t s (user_sessions_key u) -> P).
Proof.
  split; [intros t t' s H Ht Hid|intros t s s' H Hs Hid]; apply H.
  - by eapply members_mono.
  - by apply Hs.
Qed.
#[export] Instance shrinking_present id (P : Prop) : Shrinking (fun t s => present t s id -> P).
Proof.
  split; [intros t t' s H Ht Hid|intros t s s' H Hs Hid]; apply H.
  - by eapply present_mono.
  - by apply Hs.
Qed.

Definition harmless {C} X (e : event C X) : Prop :=
  match e with
  | Redis c => harmless_cmd c
  | _ => True
  end.

Section Harmless.
Context {C : Type} {json : SessionJson}.
Abbreviation quiet := (all_events (@harmless C)).

Lemma redis_quiet {X} (c : redis_cmd X) : harmless_cmd c -> quiet (redis c).
Proof. intros. by apply all_events_map_err. Qed.
Lemma connect_quiet : quiet connect.
Proof. by apply all_events_map_err. Qed.
Lemma ret_quiet {A} (a : A) : quiet (Ret a).
Proof. done. Qed.
Lemma serialize_quiet s : quiet (serialize s).
Proof. done. Qed.
Lemma deserialize_quiet j : quiet (deserialize j).
Proof. done. Qed.
Lemma now_quiet : quiet (trigger Now).
Proof. done. Qed.

(** Walks a program event by event. *)
Ltac quiet :=
  repeat first
    [ progress intros
    | apply ret_quiet | apply connect_quiet | apply deserialize_quiet | apply now_quiet
    | apply serialize_quiet
    | apply redis_quiet; simpl; auto with backend; fail
    | apply all_events_bind_ok | apply all_events_bind
    | case_match ].

Lemma count_sessions_quiet key ids n : quiet (count_sessions key ids n).
Proof.
  revert n. induction ids as [|id ids IH]; intros n; [done|]; cbn [count_sessions].
  apply all_events_bind_ok; [by apply redis_quiet|]. intros []; [apply IH|].
  apply all_events_bind_ok; [by apply redis_quiet|]. intros _. apply IH.
Qed.

Lemma get_active_session_count_quiet u : quiet (get_active_session_count u).
Proof. unfold get_active_session_count. quiet. apply count_sessions_quiet. Qed.

Lemma get_session_quiet id : quiet (get_session id).
Proof. unfold get_session. quiet. Qed.

Lemma terminate_session_quiet id : quiet (terminate_session id).
Proof.
  unfold terminate_session. apply all_events_bind_ok; [apply connect_quiet|]. intros _.
  apply all_events_bind_ok; [apply get_session_quiet|]. quiet.
Qed.

Lemma collect_sessions_quiet now ids l : quiet (collect_sessions now ids l).
Proof.
  revert l. induction ids as [|id ids IH]; intros l; [done|]; cbn [collect_sessions].
  apply all_events_bind; [apply get_session_quiet|].
  intros [[s|]|e]; try apply IH. case_match; [apply IH|].
  apply all_events_bind; [apply terminate_session_quiet|]. intros _. apply IH.
Qed.

Lemma get_user_sessions_quiet u : quiet (get_user_sessions u).
Proof.
  unfold get_user_sessions. quiet. apply collect_sessions_quiet.
Qed.

Lemma cleanup_loop_quiet now l n : quiet (cleanup_loop now l n).
Proof.
  revert n. induction l as [|s l IH]; intros n; [done|]; cbn [cleanup_loop]. case_match; [|apply IH].
  apply all_events_bind_ok; [apply terminate_session_quiet|]. intros _. apply IH.
Qed.

Lemma cleanup_expired_sessions_quiet u : quiet (cleanup_expired_sessions u).
Proof.
  unfold cleanup_expired_sessions.
  apply all_events_bind_ok; [apply get_user_sessions_quiet|]. intros l.
  apply all_events_bind; [apply now_quiet|]. intros. apply cleanup_loop_quiet.
Qed.

Lemma record_first_play_quiet u a : quiet (record_first_play u a).
Proof. unfold record_first_play. quiet. Qed.

Lemma get_first_play_quiet u a : quiet (get_first_play u a).
Proof. unfold get_first_play. quiet. Qed.
End Harmless.

(** ** Rules for the manager's programs *)

Section Rules.
Context {C W : Type} `{!World C W, !WorldLaws C W} {json : SessionJson}.
Implicit Types P : assertion.

Lemma hoare_quiet {A} P `{!Shrinking P} (m : prog (event C) A) :
  all_events harmless m -> hoare P m (fun _ => P).
Proof.
  induction m as [a|X e k IH]; intros Hm; [by apply hoare_ret|].
  destruct Hm as [He Hk]. change (Vis e k) with (bind (trigger e) k).
  apply (hoare_bind _ _ _ (fun _ => P)); [|auto].
  destruct (is_redis e) eqn:Er; [|by apply hoare_event; [apply _|..]].
  destruct e; try done.
  apply hoare_redis; [apply _|..]; intros; try done;
    (eapply shrinking; [done|by eapply shrinks_harmless]).
Qed.

(** One command, then the rest on success. *)
Lemma hoare_step {X B} (c : redis_cmd X) k P (R : X -> assertion)
    (Q : result B SessionManagerError -> assertion) `{!Stable P} :
  (forall t s x s', P t s -> redis_spec t c s x s' -> R x t s') ->
  (forall e t s, P t s -> Q (Err e) t s) -> (forall x e t s, R x t s -> Q (Err e) t s) ->
  (forall x, hoare (R x) (k x) Q) ->
  hoare P (bind_ok (redis c) k) Q.
Proof.
  intros HR HPe HRe Hk. apply (hoare_bind_ok _ _ _ R); [|done].
  apply hoare_map_err, hoare_redis; [done|..]; intros; simpl; eauto.
Qed.

(** A part that keeps an assertion, then the rest on success. *)
Lemma hoare_quiet_ok {A B Er} P `{!Shrinking P} (m : prog (event C) (result A Er)) k
    (Q : result B Er -> assertion) :
  all_events harmless m -> (forall e t s, P t s -> Q (Err e) t s) ->
  (forall a, hoare P (k a) Q) -> hoare P (bind_ok m k) Q.
Proof.
  intros Hm HQ Hk. apply (hoare_bind_ok _ _ _ (fun _ => P)); [|done].
  eapply hoare_post; [|by apply hoare_quiet]. intros [] ??; auto.
Qed.
End Rules.

(** ** Counting *)

Section Count.
Context {C W : Type} `{!World C W, !WorldLaws C W} {json : SessionJson}.

(** The loop: [K] are the sessions counted so far, [L] those present at the start. *)
Lemma count_sessions_spec (F : assertion) `{!Shrinking F} (L : string -> Prop) u ids :
  NoDup ids -> forall (K : gset string) n, (forall id, id ∈ ids -> id ∉ K) ->
  Z.of_nat (size K) = n ->
  hoare (fun t s => F t s /\ (tracked t s u ⊆ K ∪ list_to_set ids) /\
                    (forall id, present t s id -> L id))
    (count_sessions (user_sessions_key u) ids n)
    (fun r t s => F t s /\
       match r with
       | Ok n' => exists K', Z.of_nat (size K') = n' /\ (tracked t s u ⊆ K') /\
                    (forall id, id ∈ K' -> id ∈ K \/ (id ∈ ids /\ L id))
       | Err _ => True
       end).
Proof.
  induction 1 as [|id ids Hid _ IH]; intros K n HK Hn; cbn [count_sessions].
  - apply hoare_ret. intros t s (HF & Ht & _). split; [done|].
    exists K. split_and!; [done|set_solver|auto].
  - apply (hoare_step _ _ _ (fun (b : bool) t s => (b = true -> L id) /\ F t s /\
      (tracked t s u ⊆ (if b then {[id]} ∪ K else K) ∪ list_to_set ids) /\
      (forall id, present t s id -> L id))); [apply _|..].
    + intros t s b s' (HF & Ht & HL) [-> ->]. split_and!; [|done| |done].
      * intros ?%bool_decide_eq_true. by apply HL.
      * intros x Hx. specialize (Ht x Hx). apply elem_of_tracked in Hx as [Hx _].
        destruct (decide (x = id)) as [->|].
        -- rewrite bool_decide_eq_true_2 by done. set_solver.
        -- case_bool_decide; set_solver.
    + by intros e t s (? & _).
    + by intros x e t s (? & ? & _).
    + intros [].
      * apply hoare_pure; intros HLi.
        eapply hoare_consequence; [| |apply (IH ({[id]} ∪ K))].
        -- naive_solver.
        -- intros r t s (HF & Hr). split; [done|]. destruct r as [n'|]; [|done].
           destruct Hr as (K' & H1 & H2 & H3). exists K'. split_and!; [done..|].
           set_solver.
        -- set_solver.
        -- rewrite size_union by set_solver. rewrite size_singleton. lia.
      * apply hoare_pure; intros _. apply hoare_quiet_ok; [apply _|by apply redis_quiet|..].
        { by intros e t s (? & _). }
        intros _. eapply hoare_post; [|by apply IH; [set_solver|]].
        intros r t s (HF & Hr). split; [done|]. destruct r as [n'|]; [|done].
        destruct Hr as (K' & H1 & H2 & H3). exists K'. set_solver.
Qed.

Lemma get_active_session_count_spec (F : assertion) `{!Shrinking F} u t0 s0 :
  hoare (fun t s => F t s /\ (t0 <= t)%Z /\ s = s0)
    (get_active_session_count u)
    (fun r t s => F t s /\
       match r with
       | Ok n => exists K, Z.of_nat (size K) = n /\ (tracked t s u ⊆ K) /\ (K ⊆ tracked t0 s0 u)
       | Err _ => True
       end).
Proof.
  unfold get_active_session_count.
  apply (hoare_bind_ok _ _ _ (fun _ t s => F t s /\ (t0 <= t)%Z /\ s = s0)).
  { apply hoare_map_err, hoare_event; [apply _|done|]. intros [] ? ? (? & ?); simpl; auto. }
  intros _. apply (hoare_step _ _ _ (fun ids t s => (NoDup ids /\
      forall id, id ∈ ids -> id ∈ members t0 s0 (user_sessions_key u)) /\ F t s /\
      (tracked t s u ⊆ ∅ ∪ list_to_set ids) /\
      (forall id, present t s id -> present t0 s0 id))); [apply _|..].
  - intros t s ids s' (HF & Ht & ->) [-> Hl].
    assert (NoDup ids /\ list_to_set ids = members t s0 (user_sessions_key u)) as [Hd Hm].
    { unfold members. destruct (live _ _ _) as [[]|]; [done|done|].
      subst. split; [constructor|done]. }
    split_and!; [done| |done| |].
    + intros id Hid. apply (members_mono _ _ _ _ Ht). set_solver.
    + intros id [_ ?]%elem_of_tracked. set_solver.
    + intros id. by apply present_mono.
  - by intros e t s (? & _).
  - by intros x e t s (_ & ? & _).
  - intros ids. apply hoare_pure. intros [Hd Hm].
    eapply hoare_post; [|apply (count_sessions_spec F _ _ _ Hd ∅); [set_solver|]].
    + intros r t s (HF & Hr). split; [done|]. destruct r as [n|]; [|done].
      destruct Hr as (K & H1 & H2 & H3). exists K. split_and!; [done..|].
      intros id Hid. destruct (H3 id Hid) as [?|[? ?]]; [set_solver|].
      apply elem_of_tracked. eauto.
    + done.
Qed.
End Count.

(** ** The invariant

    [owner] names the user each session id was issued to. *)
Section Limit.
Context {C W : Type} `{!World C W, !WorldLaws C W} {json : SessionJson}.
Context (self : SessionManager) (owner : string -> string).
Abbreviation max := (max_concurrent_streams self).

Definition owned (t : Z) (s : store) : Prop :=
  forall u id, id ∈ members t s (user_sessions_key u) -> owner id = u.

Definition within_limit (t : Z) (s : store) : Prop :=
  owned t s /\ forall u, (Z.of_nat (size (tracked t s u)) <= max)%Z.

#[export] Instance shrinking_owned : Shrinking owned.
Proof. unfold owned. apply _. Qed.

(** The sessions that would count if [id] were present. *)
Definition reserved (id : string) (t : Z) (s : store) (u : string) : gset string :=
  tracked t s u ∪ ({[id]} ∩ members t s (user_sessions_key u)).

Lemma elem_of_reserved id t s u x :
  x ∈ reserved id t s u <->
  x ∈ tracked t s u \/ (x = id /\ id ∈ members t s (user_sessions_key u)).
Proof. unfold reserved. set_solver. Qed.

Lemma shrinking_size (f : Z -> store -> gset string) n :
  (forall S, Shrinking (fun t s => f t s ⊆ S)) ->
  Shrinking (fun t s => (Z.of_nat (size (f t s)) <= n)%Z).
Proof.
  intros H. split.
  - intros t t' s Hs Ht. assert (f t' s ⊆ f t s) as ?%subseteq_size; [|lia].
    by apply (@stable _ (@shrinking_stable _ (H (f t s))) t t' s).
  - intros t s s' Hs Hr. assert (f t s' ⊆ f t s) as ?%subseteq_size; [|lia].
    by apply (@shrinking _ (H (f t s)) t s s').
Qed.

#[export] Instance shrinking_tracked_size u n :
  Shrinking (fun t s => (Z.of_nat (size (tracked t s u)) <= n)%Z).
Proof. apply (shrinking_size (fun t s => tracked t s u)). apply _. Qed.

#[export] Instance shrinking_reserved id u n :
  Shrinking (fun t s => (Z.of_nat (size (reserved id t s u)) <= n)%Z).
Proof.
  apply (shrinking_size (fun t s => reserved id t s u)). intros S.
  assert (forall t s, reserved id t s u ⊆ S <->
    (tracked t s u ⊆ S) /\ (id ∈ members t s (user_sessions_key u) -> id ∈ S)) as E.
  { intros. unfold reserved. set_solver. }
  set (P := fun t s => (tracked t s u ⊆ S) /\
    (id ∈ members t s (user_sessions_key u) -> id ∈ S)).
  assert (Shrinking P) as HP by (unfold P; apply _).
  split.
  - intros t t' s. rewrite !E. apply (@stable P), _.
  - intros t s s'. rewrite !E. apply (@shrinking P HP).
Qed.

#[export] Instance shrinking_within_limit : Shrinking within_limit.
Proof. unfold within_limit. apply _. Qed.

(** *** Effects of the commands that add *)

Lemma members_put_session t s id e u :
  members t (<[session_key id := e]> s) (user_sessions_key u) = members t s (user_sessions_key u).
Proof. unfold members. by rewrite live_insert_ne by auto with backend. Qed.

Lemma tracked_put_session t s id e u :
  tracked t (<[session_key id := e]> s) u ⊆ reserved id t s u.
Proof.
  intros x [Hp Hm]%elem_of_tracked. rewrite members_put_session in Hm.
  unfold reserved. destruct (decide (x = id)) as [->|Hx]; [set_solver|].
  apply elem_of_union_l, elem_of_tracked. split; [|done].
  unfold present in *. rewrite live_insert_ne in Hp; [done|]. by intros ?%(inj session_key).
Qed.

Lemma owned_put_session t s id e : owned t s -> owned t (<[session_key id := e]> s).
Proof. intros H u x. rewrite members_put_session. apply H. Qed.

Lemma members_sadd t s k m x s' :
  redis_spec t (SADD k m) s x s' -> members t s' k ⊆ {[m]} ∪ members t s k.
Proof.
  simpl. unfold members, live.
  destruct (live_entry t s k) as [[[|ms] d]|] eqn:E; intros H; [done|..]; subst s';
    rewrite live_entry_insert; destruct (alive _ _); simpl; set_solver.
Qed.

Lemma members_sadd_user t s u id x s' v :
  redis_spec t (SADD (user_sessions_key u) id) s x s' ->
  forall y, y ∈ members t s' (user_sessions_key v) ->
  y ∈ members t s (user_sessions_key v) \/ (v = u /\ y = id).
Proof.
  intros H y Hy. destruct (decide (v = u)) as [->|Hv].
  - apply (members_sadd _ _ _ _ _ _ H) in Hy. set_solver.
  - left. revert Hy. unfold members. rewrite (redis_spec_live_frame _ _ _ _ _ _ _ H); [done|].
    simpl. by intros ?%(inj user_sessions_key).
Qed.

Lemma tracked_sadd t s u id x s' v :
  redis_spec t (SADD (user_sessions_key u) id) s x s' ->
  forall y, y ∈ tracked t s' v -> y ∈ tracked t s v \/ (v = u /\ y = id).
Proof.
  intros H y. rewrite !elem_of_tracked. unfold present.
  rewrite (redis_spec_live_frame _ _ _ _ _ _ _ H) by done. intros [Hp Hm].
  destruct (members_sadd_user _ _ _ _ _ _ _ H _ Hm); auto.
Qed.

Lemma owned_sadd t s u id x s' :
  owner id = u -> redis_spec t (SADD (user_sessions_key u) id) s x s' ->
  owned t s -> owned t s'.
Proof.
  intros Hu H Ho v y Hy. destruct (members_sadd_user _ _ _ _ _ _ _ H _ Hy) as [?|[-> ->]]; auto.
Qed.

(** *** The two methods that add *)

(** Room was found for [id]: with it the user still has at most the [max] sessions of a
    set [K] that includes it. *)
Definition room (u id : string) (K : gset string) (t : Z) (s : store) : Prop :=
  owned t s /\ (tracked t s u ⊆ {[id]} ∪ K) /\
  forall v, (v = u -> False) -> (Z.of_nat (size (tracked t s v)) <= max)%Z.

#[local] Instance shrinking_implies (P : Prop) (Q : assertion) :
  Shrinking Q -> Shrinking (fun t s => P -> Q t s).
Proof.
  intros HQ. split.
  - intros t t' s H Ht p. eapply (stable (P := Q)); [by apply H|done].
  - intros t s s' H Hs p. eapply (shrinking (P := Q)); [by apply H|done].
Qed.

#[export] Instance shrinking_room u id K : Shrinking (room u id K).
Proof. unfold room. apply _. Qed.

Lemma room_within u id K t s :
  (Z.of_nat (size K) < max)%Z -> room u id K t s -> within_limit t s.
Proof.
  intros HK (Ho & Hu & Hv). split; [done|]. intros v. destruct (decide (v = u)) as [->|]; [|auto].
  apply subseteq_size in Hu. pose proof (size_union_alt {[id]} K) as Hs.
  pose proof (subseteq_size (K ∖ {[id]}) K ltac:(set_solver)).
  rewrite size_singleton in Hs. lia.
Qed.

Lemma room_put_session u id K t s e :
  owner id = u -> room u id K t s -> room u id K t (<[session_key id := e]> s).
Proof.
  intros Hu (Ho & Ht & Hv). split_and!; [by apply owned_put_session|..].
  - intros x [|[-> _]]%tracked_put_session%elem_of_reserved; set_solver.
  - intros v Hne. etrans; [|by apply (Hv v)]. apply inj_le, subseteq_size.
    intros x [|[-> Hm]]%tracked_put_session%elem_of_reserved; [done|].
    destruct Hne. rewrite <-Hu. symmetry. by apply Ho.
Qed.

Lemma room_sadd u id K t s x s' :
  owner id = u -> redis_spec t (SADD (user_sessions_key u) id) s x s' ->
  room u id K t s -> room u id K t s'.
Proof.
  intros Hu H (Ho & Ht & Hv). split_and!; [by eapply owned_sadd|..].
  - intros y Hy. destruct (tracked_sadd _ _ _ _ _ _ _ H y Hy) as [|[_ ->]]; set_solver.
  - intros v Hne. etrans; [|by apply (Hv v)]. apply inj_le, subseteq_size.
    intros y Hy. destruct (tracked_sadd _ _ _ _ _ _ _ H y Hy) as [|[-> _]]; [done|by destruct Hne].
Qed.

Lemma create_session_within session :
  owner (session_id session) = user_id session ->
  hoare within_limit (create_session self session) (fun _ => within_limit).
Proof.
  intros Hu. set (u := user_id session) in *. set (id := session_id session) in *.
  apply hoare_at. intros t0 s0 _. unfold create_session.
  eapply hoare_bind_ok with (R := fun n t s => within_limit t s /\ exists K,
    Z.of_nat (size K) = n /\ (tracked t s u ⊆ K)).
  { eapply hoare_post; [|apply (get_active_session_count_spec within_limit u t0 s0)].
    intros [n|e] t s [Hw H]; [|done]. destruct H as (K & ? & ? & _). eauto. }
  intros n. destruct (Z.leb_spec max n) as [|Hn].
  { apply hoare_ret. by intros t s [? _]. }
  eapply hoare_consequence with (P' := fun t s => exists K,
    (Z.of_nat (size K) < max)%Z /\ room u id K t s) (Q' := fun _ => within_limit); [|done|].
  { intros t s [[Ho Hw] (K & <- & HK)]. exists K. split; [done|]. split_and!; [done|set_solver|auto]. }
  apply hoare_exists. intros K. apply hoare_pure. intros HK.
  pose proof (room_within u id K) as Hwithin.
  apply hoare_quiet_ok; [apply _|apply connect_quiet|eauto|]. intros _.
  apply hoare_quiet_ok; [apply _|apply serialize_quiet|eauto|]. intros j.
  apply (hoare_step _ _ _ (fun _ => room u id K)); [apply _|..]; eauto.
  { intros t s _ s' HR ->. by apply room_put_session. }
  intros _. apply (hoare_step _ _ _ (fun _ => room u id K)); [apply _|..]; eauto.
  { intros t s x s' HR Hs. by eapply room_sadd. }
  intros _. apply hoare_quiet_ok; [apply _|by apply redis_quiet|eauto|].
  intros _. apply hoare_ret. eauto.
Qed.

Lemma heartbeat_within id st seg :
  hoare within_limit (heartbeat id st seg) (fun _ => within_limit).
Proof.
  unfold heartbeat.
  apply hoare_quiet_ok; [apply _|apply connect_quiet|eauto|]. intros _.
  set (R := fun t s => owned t s /\ forall u, (Z.of_nat (size (reserved id t s u)) <= max)%Z).
  assert (Shrinking R) as HR by (unfold R; apply _).
  assert (forall t s, R t s -> within_limit t s) as HRw.
  { intros t s [Ho H]. split; [done|]. intros u. etrans; [|apply (H u)].
    apply inj_le, subseteq_size. unfold reserved. set_solver. }
  apply (hoare_step _ _ _ (fun j t s => match j with Some _ => R t s | None => within_limit t s end));
    [apply _|..].
  - intros t s j s' [Ho Hw] [-> Hl]. destruct j as [j|]; [|done]. split; [done|].
    intros u. etrans; [|apply (Hw u)]. apply inj_le, subseteq_size.
    intros x [|[-> Hm]]%elem_of_reserved; [done|].
    apply elem_of_tracked. split; [|done]. unfold present.
    destruct (live _ _ _); [eauto|done].
  - done.
  - intros [] ???; auto.
  - intros [j|]; [|by apply hoare_ret].
    apply hoare_quiet_ok; [apply _|apply deserialize_quiet|eauto|]. intros session.
    apply (hoare_bind _ _ _ (fun _ => R)); [by apply hoare_quiet|]. intros now.
    apply hoare_quiet_ok; [apply _|apply serialize_quiet|eauto|]. intros j'.
    apply (hoare_step _ _ _ (fun _ => within_limit)); [apply _|..]; eauto.
    + intros t s x s' [Ho H] ->. split; [by apply owned_put_session|]. intros u.
      etrans; [|apply (H u)]. apply inj_le, subseteq_size, tracked_put_session.
    + intros _. apply hoare_quiet_ok; [apply _|by apply redis_quiet|eauto|].
      intros _. by apply hoare_ret.
Qed.
End Limit.

(** ** Any sequence of calls *)

Inductive request : Type :=
| CreateSession (session : PlaybackSession)
| Heartbeat (id : string) (state : option SessionState) (segment : option Z)
| GetSession (id : string)
| TerminateSession (id : string)
| CountSessions (user : string)
| UserSessions (user : string)
| CleanupSessions (user : string)
| RecordFirstPlay (user asset : string)
| GetFirstPlay (user asset : string).

Section Requests.
Context {C : Type} {json : SessionJson} (self : SessionManager).

Definition ignore {A} (m : prog (event C) A) : prog (event C) unit := let* _ := m in Ret tt.

Definition serve (r : request) : prog (event C) unit :=
  match r with
  | CreateSession s => ignore (create_session self s)
  | Heartbeat id st seg => ignore (heartbeat id st seg)
  | GetSession id => ignore (get_session id)
  | TerminateSession id => ignore (terminate_session id)
  | CountSessions u => ignore (get_active_session_count u)
  | UserSessions u => ignore (get_user_sessions u)
  | CleanupSessions u => ignore (cleanup_expired_sessions u)
  | RecordFirstPlay u a => ignore (record_first_play u a)
  | GetFirstPlay u a => ignore (get_first_play u a)
  end.

Fixpoint serve_all (rs : list request) : prog (event C) unit :=
  match rs with
  | [] => Ret tt
  | r :: rs => let* _ := serve r in serve_all rs
  end.

(** Session ids are issued to one user each. *)
Definition issued (owner : string -> string) (r : request) : Prop :=
  match r with
  | CreateSession s => owner (session_id s) = user_id s
  | _ => True
  end.
End Requests.

Section Theorems.
Context {C W : Type} `{!World C W, !WorldLaws C W} {json : SessionJson}.
Implicit Types w : W.

Lemma serve_within self owner r :
  issued owner r ->
  hoare (C := C) (W := W) (within_limit self owner) (serve self r) (fun _ => within_limit self owner).
Proof.
  intros Hr. destruct r; unfold serve, ignore;
    (apply (hoare_bind _ _ _ (fun _ => within_limit self owner)); [|intros; by apply hoare_ret]).
  { by apply create_session_within. }
  { apply heartbeat_within. }
  all: apply hoare_quiet; [apply _|].
  - apply get_session_quiet.
  - apply terminate_session_quiet.
  - apply get_active_session_count_quiet.
  - apply get_user_sessions_quiet.
  - apply cleanup_expired_sessions_quiet.
  - apply record_first_play_quiet.
  - apply get_first_play_quiet.
Qed.

(** C5: served one after the other, any sequence of session-manager calls keeps every user
    at no more than [max_concurrent_streams] tracked sessions, whatever the commands
    answer (errors with or without effect included) and however much time passes. *)
Theorem concurrency_limit_invariant self owner rs w w' :
  Forall (issued owner) rs ->
  within_limit self owner (clock w) (view w) ->
  run (C := C) (serve_all self rs) w = (tt, w') ->
  within_limit self owner (clock w') (view w').
Proof.
  intros Hrs. revert w. induction Hrs as [|r rs Hr _ IH]; intros w Hw H.
  - by injection H as <-.
  - cbn [serve_all] in H. apply run_bind_inv in H as ([] & w1 & H1 & H2).
    apply (IH w1); [|done]. by eapply (serve_within self owner r Hr).
Qed.

(** The count a successful [get_active_session_count] returns lies between the user's
    tracked sessions when it ends and when it starts; it is exact when no time passes. *)
Theorem get_active_session_count_bounds u w n w' :
  run (C := C) (get_active_session_count u) w = (Ok n, w') ->
  (Z.of_nat (size (tracked (clock w') (view w') u)) <= n <=
   Z.of_nat (size (tracked (clock w) (view w) u)))%Z.
Proof.
  intros H.
  destruct (get_active_session_count_spec (fun _ _ => True) u (clock w) (view w) w (Ok n) w')
    as (_ & K & <- & H1%subseteq_size & H2%subseteq_size); [done|done|lia].
Qed.
End Theorems.

(** ** In the simulated world *)

Lemma within_limit_empty self owner t :
  (0 <= max_concurrent_streams self)%Z -> within_limit self owner t ∅.
Proof.
  intros Hm. assert (forall u, members t ∅ (user_sessions_key u) = ∅) as E.
  { intros u. unfold members, live, live_entry. by rewrite lookup_empty. }
  split.
  - intros u id. rewrite E. set_solver.
  - intros u. assert (tracked t ∅ u = ∅) as -> by (unfold tracked; rewrite E; set_solver).
    by rewrite size_empty.
Qed.

Definition one_stream : SessionManager := new_manager (Some 1%Z).
Definition sample_requests : list request :=
  [CreateSession (sample_session "a" "alice"); CreateSession (sample_session "b" "alice");
   Heartbeat "a" (Some Playing) None; CountSessions "alice"].
Definition sample_served : sim unit := snd (run (serve_all one_stream sample_requests) (sample_world [1; 2]%Z)).

Lemma concurrency_limit_invariant_witness :
  within_limit one_stream (fun _ => "alice"%string) (clock sample_served) (view sample_served).
Proof.
  apply (concurrency_limit_invariant one_stream (fun _ => "alice"%string) sample_requests
           (sample_world [1; 2]%Z)).
  - repeat constructor.
  - by apply within_limit_empty.
  - vm_compute. reflexivity.
Defined.

Lemma get_active_session_count_bounds_witness :
  (Z.of_nat (size (tracked (clock sample_served) (view sample_served) "alice")) <= 1 <=
   Z.of_nat (size (tracked (clock sample_served) (view sample_served) "alice")))%Z.
Proof.
  apply (get_active_session_count_bounds "alice" sample_served 1 sample_served).
  vm_compute. reflexivity.
Defined.
