(* ===== verification/SessionProps.v ===== *)
(** * What the session manager's methods do (src/src/session_manager.rs)

    The effect of each method that changes sessions, round trips between them, the
    first-play record, and the interleavings in which check-then-act methods race. *)
From S2P Require Import Prelude Services SimWorld SessionManager SessionCodec SessionLimit.

Section Methods.
Context {C W : Type} `{!World C W, !WorldLaws C W} {json : SessionJson}.
Implicit Types w : W.

Lemma run_redis_inv {X} (c : redis_cmd X) w r w' :
  run (C := C) (redis c) w = (r, w') ->
  (clock w <= clock w')%Z /\
  match r with
  | Ok x => redis_spec (clock w') c (view w) x (view w')
  | Err _ => view w' = view w \/ exists x, redis_spec (clock w') c (view w) x (view w')
  end.
Proof.
  unfold redis, await_map_err. rewrite run_bind_inv. intros ([x|e] & w1 & H & Hr);
    rewrite run_trigger in H; injection Hr as <- <-; (split; [by eapply clock_mono|]).
  - by apply redis_ok.
  - by apply redis_err in H.
Qed.

Lemma run_connect_inv w r w' :
  run (C := C) connect w = (r, w') -> (clock w <= clock w')%Z /\ view w' = view w.
Proof.
  unfold connect, await_map_err. rewrite run_bind_inv. intros (x & w1 & H & Hr).
  rewrite run_trigger in H. injection Hr as <- <-.
  split; [by eapply clock_mono|by eapply (view_frame _ Connect)].
Qed.

Lemma run_now_inv w t w' :
  run (C := C) (trigger Now) w = (t, w') ->
  (clock w <= clock w')%Z /\ view w' = view w /\ t = clock w'.
Proof.
  rewrite run_trigger. intros H.
  split_and!; [by eapply clock_mono|by eapply (view_frame _ Now)|by eapply now_reads].
Qed.

Lemma run_serialize_inv s w r w' :
  run (C := C) (serialize s) w = (r, w') -> w' = w /\ r = map_err SerializationError (to_string s).
Proof. by intros [= <- <-]. Qed.

Lemma run_deserialize_inv j w r w' :
  run (C := C) (deserialize j) w = (r, w') -> w' = w /\ r = map_err SerializationError (from_str j).
Proof. by intros [= <- <-]. Qed.

Lemma run_quiet_mono {A} (m : prog (event C) A) w r w' :
  run m w = (r, w') -> (clock w <= clock w')%Z.
Proof.
  revert w. induction m as [a|X e k IH]; simpl; intros w H; [by simplify_eq|].
  destruct (exec e w) as [x w1] eqn:E. apply clock_mono in E. apply IH in H. lia.
Qed.
End Methods.

(** Takes a run that succeeded apart, event by event. *)
Ltac run_inv :=
  repeat match goal with
  | H : run (bind_ok _ _) _ = (Ok _, _) |- _ => apply run_bind_ok in H as (? & ? & ? & ?)
  | H : run (bind _ _) _ = (_, _) |- _ => apply run_bind_inv in H as (? & ? & ? & ?)
  | H : run (redis _) _ = (_, _) |- _ => apply run_redis_inv in H as [? H]
  | H : run connect _ = (_, _) |- _ => apply run_connect_inv in H as [? ?]
  | H : run (trigger Now) _ = (_, _) |- _ => apply run_now_inv in H as (? & ? & ->)
  | H : run (serialize _) _ = (_, _) |- _ => apply run_serialize_inv in H as [-> H]
  | H : run (deserialize _) _ = (_, _) |- _ => apply run_deserialize_inv in H as [-> H]
  | H : Ok _ = map_err _ _ |- _ => symmetry in H; apply map_err_Ok in H
  | H : run (Ret _) _ = (_, _) |- _ => cbn [run] in H; injection H; clear H; intros; subst
  end.

(** Names the keyspace after a read by the keyspace before it. *)
Ltac views :=
  repeat match goal with
  | H : redis_spec _ (GET _) _ _ _ |- _ => destruct H as [? H]
  | E : view ?x = view ?y |- _ => rewrite E in *; clear E
  end.

Section Sessions.
Context {C W : Type} `{!World C W, !WorldLaws C W} {json : SessionJson} {laws : SessionJsonLaws}.
Implicit Types w : W.

(** [key] holds a session until some time. *)
Definition holds (s : store) (id : string) (session : PlaybackSession) (until : Z) : Prop :=
  exists j, to_string session = Ok j /\
            s !! session_key id = Some (Entry (RStr j) (Some until)).

Lemma holds_frame {X} t (c : redis_cmd X) s r s' id session d :
  redis_spec t c s r s' -> cmd_key c <> session_key id ->
  holds s id session d -> holds s' id session d.
Proof.
  intros H Hk (j & Hj & Hs). exists j. by rewrite (redis_spec_frame _ _ _ _ _ _ H Hk).
Qed.

Lemma holds_live s id session d t :
  holds s id session d -> (t < d)%Z ->
  exists j, from_str j = Ok session /\ live t s (session_key id) = Some (RStr j).
Proof.
  intros (j & Hj & Hs) Ht. exists j. split; [by apply json_roundtrip|].
  unfold live, live_entry, alive. rewrite Hs. simpl. by rewrite (proj2 (Z.ltb_lt _ _)).
Qed.

Lemma holds_expired s id session d t :
  holds s id session d -> (d <= t)%Z -> live t s (session_key id) = None.
Proof.
  intros (j & Hj & Hs) Ht. unfold live, live_entry, alive. rewrite Hs. simpl.
  by rewrite (proj2 (Z.ltb_ge _ _)).
Qed.

Lemma create_session_stores self session w w' :
  run (C := C) (create_session self session) w = (Ok tt, w') ->
  exists d, (clock w + SESSION_HEARTBEAT_TIMEOUT <= d)%Z /\
    (d <= clock w' + SESSION_HEARTBEAT_TIMEOUT)%Z /\
    holds (view w') (session_id session) session d.
Proof.
  unfold create_session. intros H. apply run_bind_ok in H as (n & w1 & Hc & H).
  apply run_quiet_mono in Hc. destruct (Z.leb_spec (max_concurrent_streams self) n); [done|].
  run_inv.
  match goal with H : redis_spec (clock ?wx) (SETEX _ _ _) _ _ _ |- _ =>
    exists (clock wx + SESSION_HEARTBEAT_TIMEOUT)%Z; cbn in H end.
  split_and!; [lia..|].
  eapply (holds_frame _ (EXPIRE _ _)); [done|done|].
  eapply (holds_frame _ (SADD _ _)); [done|done|].
  eexists. split; [done|]. rewrite H2. by rewrite lookup_insert_eq.
Qed.

(** A key that is absent, or holds the text [j]. *)
Definition reads (t : Z) (s : store) (id : string) (r : option string) : Prop :=
  match live t s (session_key id) with
  | None => r = None
  | Some (RStr j) => r = Some j
  | Some (RSet _) => False
  end.

Lemma get_session_ok id w r w' :
  run (C := C) (get_session id) w = (Ok r, w') ->
  (clock w <= clock w')%Z /\ view w' = view w /\
  exists j, reads (clock w') (view w) id j /\
    match j with
    | None => r = None
    | Some j => exists s, from_str j = Ok s /\ r = Some s
    end.
Proof.
  unfold get_session. intros H. apply run_bind_ok in H as ([] & w1 & H1 & H).
  apply run_bind_ok in H as (j & w2 & H2 & H). run_inv.
  match goal with E : view w1 = view w |- _ => rewrite E in * end.
  destruct H2 as [Hs Hl]. destruct j as [j|]; run_inv.
  - split_and!; [lia|done|]. exists (Some j). eauto.
  - split_and!; [lia|done|]. exists None. eauto.
Qed.

(** A session that [create_session] stored is what [get_session] answers until
    [SESSION_HEARTBEAT_TIMEOUT] seconds have passed without a heartbeat, and nothing is
    answered [SESSION_HEARTBEAT_TIMEOUT] seconds after the creation ended. *)
Theorem create_get_session self session w w1 w1' r w2 :
  run (C := C) (create_session self session) w = (Ok tt, w1) ->
  view w1' = view w1 ->
  run (C := C) (get_session (session_id session)) w1' = (Ok r, w2) ->
  ((clock w2 < clock w + SESSION_HEARTBEAT_TIMEOUT)%Z -> r = Some session) /\
  ((clock w1 + SESSION_HEARTBEAT_TIMEOUT <= clock w2)%Z -> r = None).
Proof.
  intros (d & Hd1 & Hd2 & Hh)%create_session_stores Hv (Ht & _ & j & Hr & Hj)%get_session_ok.
  rewrite <-Hv in Hh. unfold reads in Hr. split; intros Hlt.
  - destruct (holds_live _ _ _ _ (clock w2) Hh) as (j' & Hj' & Hl); [lia|].
    rewrite Hl in Hr. subst j. destruct Hj as (s & Hs & ->). congruence.
  - rewrite (holds_expired _ _ _ _ _ Hh) in Hr by lia. by subst j.
Qed.

Lemma heartbeat_update_first_play now st seg s :
  first_play_timestamp (heartbeat_update now st seg s) =
  match first_play_timestamp s with
  | Some t => Some t
  | None => if bool_decide (st = Some Playing) then Some now else None
  end.
Proof.
  unfold heartbeat_update. simpl. by destruct (first_play_timestamp s), st as [[]|].
Qed.

(** A successful heartbeat read a live session and stored, for another
    [SESSION_HEARTBEAT_TIMEOUT] seconds, that session with the heartbeat time, the new
    state and segment if any, and the first-play time set at the first change to
    [Playing] only; every other field, the user in particular, is unchanged. *)
Theorem heartbeat_updates id st seg w s' w' :
  run (C := C) (heartbeat id st seg) w = (Ok s', w') ->
  exists j s now d t,
    reads t (view w) id (Some j) /\ from_str j = Ok s /\
    s' = heartbeat_update now st seg s /\ user_id s' = user_id s /\
    last_heartbeat_timestamp s' = now /\
    first_play_timestamp s' =
      match first_play_timestamp s with
      | Some t => Some t
      | None => if bool_decide (st = Some Playing) then Some now else None
      end /\
    holds (view w') id s' d /\
    (clock w <= t <= now)%Z /\ (now + SESSION_HEARTBEAT_TIMEOUT <= d)%Z /\
    (d <= clock w' + SESSION_HEARTBEAT_TIMEOUT)%Z.
Proof.
  unfold heartbeat. intros H. apply run_bind_ok in H as ([] & w1 & H1 & H).
  apply run_bind_ok in H as (j & w2 & H2 & H). run_inv.
  match goal with E : view w1 = view w |- _ => rewrite E in * end.
  destruct H2 as [Hs Hl]. destruct j as [j|]; [|done].
  apply run_bind_ok in H as (s & w3 & Hd & H).
  apply run_bind_inv in H as (now & w4 & Hn & H).
  apply run_bind_ok in H as (j' & w5 & Hj & H).
  apply run_bind_ok in H as ([] & w6 & Hset & H). run_inv.
  cbn in Hset. exists j, s, (clock w4), (clock w6 + SESSION_HEARTBEAT_TIMEOUT)%Z, (clock w2).
  split_and!; [done|done|done|done|done|apply heartbeat_update_first_play| |lia..].
  eapply (holds_frame _ (EXPIRE _ _)); [done|done|].
  exists j'. split; [done|]. by rewrite Hset, lookup_insert_eq.
Qed.

(** After a successful [terminate_session] the session is gone for good: its key reads
    as absent at every later time and no user's count includes it; the sessions under
    other ids are untouched. *)
Theorem terminate_session_removes id w w' :
  run (C := C) (terminate_session id) w = (Ok tt, w') ->
  (forall t, (clock w' <= t)%Z ->
     live t (view w') (session_key id) = None /\
     forall u, id ∈ tracked t (view w') u -> False) /\
  (forall id', id' <> id -> view w' !! session_key id' = view w !! session_key id').
Proof.
  unfold terminate_session. intros H. apply run_bind_ok in H as ([] & w1 & H1 & H).
  apply run_bind_ok in H as (found & w2 & Hg & H).
  apply run_connect_inv in H1 as [_ Hv1].
  apply get_session_ok in Hg as (_ & Hv2 & j & Hr & Hj).
  assert (forall t, live (clock w') (view w') (session_key id) = None -> (clock w' <= t)%Z ->
    live t (view w') (session_key id) = None /\
    forall u, id ∈ tracked t (view w') u -> False) as Hgone.
  { intros t Hn Ht. destruct (live t (view w') (session_key id)) as [v|] eqn:E.
    - by rewrite (live_mono _ _ _ _ _ Ht E) in Hn.
    - split; [done|]. intros u [[v Hv] _]%elem_of_tracked. congruence. }
  destruct found as [session|].
  - apply run_bind_ok in H as ([] & w3 & H3 & H).
    apply run_bind_ok in H as ([] & w4 & H4 & H). run_inv. cbn in H4. split.
    + intros t. apply Hgone. rewrite H4. apply live_delete.
    + intros id' Hid. rewrite H4, lookup_delete_ne by (by intros ?%(inj session_key)).
      rewrite (redis_spec_frame _ (SREM _ _) _ _ _ _ H3) by done. by rewrite Hv2, Hv1.
  - run_inv. rewrite Hv2, Hv1. split; [|done]. intros t. rewrite <-Hv1, <-Hv2. apply Hgone.
    rewrite Hv2. unfold reads in Hr. destruct j; [by destruct Hj as (? & _ & ?)|].
    by destruct (live _ _ _) as [[]|].
Qed.

(** *** Retries *)


(** *** First plays *)

Definition FIRST_PLAY_TTL : Z := 30 * 24 * 60 * 60.

(** The record of a first play at time [t1], lasting until [d]. *)
Definition recorded (s : store) (u a : string) (t1 d : Z) : Prop :=
  s !! first_play_key u a = Some (Entry (RStr (display_Z t1)) (Some d)).

Lemma recorded_live s u a t1 d t :
  recorded s u a t1 d -> (t < d)%Z -> live t s (first_play_key u a) = Some (RStr (display_Z t1)).
Proof.
  intros Hs Ht. unfold live, live_entry, alive. rewrite Hs. simpl.
  by rewrite (proj2 (Z.ltb_lt _ _)).
Qed.

Lemma record_first_play_fresh u a w t1 w1 :
  live (clock w) (view w) (first_play_key u a) = None ->
  run (C := C) (record_first_play u a) w = (Ok t1, w1) ->
  exists d, (clock w <= t1 <= clock w1)%Z /\ (clock w + FIRST_PLAY_TTL <= d)%Z /\
            recorded (view w1) u a t1 d.
Proof.
  intros Hn H. unfold record_first_play in H. apply run_bind_ok in H as ([] & w2 & H2 & H).
  apply run_bind_inv in H as (now & w3 & H3 & H).
  apply run_bind_ok in H as (j & w4 & H4 & H). run_inv. views.
  destruct (live (clock w4) (view w) _) as [v|] eqn:E.
  { apply (live_mono (clock w)) in E; [congruence|lia]. }
  subst j. apply run_bind_ok in H as ([] & w5 & H5 & H). run_inv. cbn in H5.
  exists (clock w1 + FIRST_PLAY_TTL)%Z. split_and!; [lia..|].
  unfold recorded. by rewrite H5, lookup_insert_eq.
Qed.

Lemma record_first_play_again u a w t1 d t2 w' :
  recorded (view w) u a t1 d -> in_i64 t1 -> (clock w' < d)%Z ->
  run (C := C) (record_first_play u a) w = (Ok t2, w') ->
  t2 = t1 /\ recorded (view w') u a t1 d.
Proof.
  intros Hr Hi Hd H. pose proof (run_quiet_mono _ _ _ _ H) as Hm.
  unfold record_first_play in H. apply run_bind_ok in H as ([] & w2 & H2 & H).
  apply run_bind_inv in H as (now & w3 & H3 & H).
  apply run_bind_ok in H as (j & w4 & H4 & H).
  pose proof (run_quiet_mono _ _ _ _ H) as Hm4. run_inv. views.
  rewrite (recorded_live _ _ _ _ _ _ Hr) in H4 by lia. subst j. run_inv. views.
  by rewrite parse_display_i64.
Qed.

Lemma get_first_play_recorded u a w t1 d r w' :
  recorded (view w) u a t1 d -> in_i64 t1 -> (clock w' < d)%Z ->
  run (C := C) (get_first_play u a) w = (Ok r, w') -> r = Some t1.
Proof.
  intros Hr Hi Hd H. unfold get_first_play in H. apply run_bind_ok in H as ([] & w2 & H2 & H).
  apply run_bind_ok in H as (j & w4 & H4 & H). run_inv. views.
  rewrite (recorded_live _ _ _ _ _ _ Hr) in H4 by lia. subst j. simpl.
  by rewrite parse_display_i64.
Qed.

(** A first play is recorded once: while the record lasts (30 days), recording again,
    with anything else happening to other keys in between, answers the first timestamp,
    and so does [get_first_play]. *)
Theorem record_first_play_once u a w t1 w1 w2 t2 w3 w4 t3 w5 :
  live (clock w) (view w) (first_play_key u a) = None ->
  (0 <= clock w)%Z -> in_i64 (clock w1) ->
  run (C := C) (record_first_play u a) w = (Ok t1, w1) ->
  view w2 !! first_play_key u a = view w1 !! first_play_key u a ->
  run (C := C) (record_first_play u a) w2 = (Ok t2, w3) ->
  view w4 !! first_play_key u a = view w3 !! first_play_key u a ->
  run (C := C) (get_first_play u a) w4 = (Ok t3, w5) ->
  (clock w3 < clock w + FIRST_PLAY_TTL)%Z -> (clock w5 < clock w + FIRST_PLAY_TTL)%Z ->
  (clock w <= t1 <= clock w1)%Z /\ t2 = t1 /\ t3 = Some t1.
Proof.
  intros Hn H0 Hi H1 Hv2 H2 Hv4 H3 Hc3 Hc5.
  destruct (record_first_play_fresh u a w t1 w1 Hn H1) as (d & Ht & Hd & Hr).
  assert (in_i64 t1) by (unfold in_i64 in *; lia).
  unfold recorded in Hr. rewrite <-Hv2 in Hr.
  destruct (record_first_play_again u a w2 t1 d t2 w3) as [-> Hr3]; [done|done|lia|done|].
  unfold recorded in Hr3. rewrite <-Hv4 in Hr3.
  rewrite (get_first_play_recorded u a w4 t1 d t3 w5); [done|done|done|lia|done].
Qed.

(** *** Clean-up *)

Lemma collect_sessions_fresh now ids l w r w' :
  run (C := C) (collect_sessions now ids l) w = (r, w') ->
  Forall (fun s => is_expired s now = false) l ->
  Forall (fun s => is_expired s now = false) r.
Proof.
  revert l w. induction ids as [|id ids IH]; intros l w H Hl; cbn [collect_sessions] in H.
  { run_inv. done. }
  apply run_bind_inv in H as (g & w1 & _ & H).
  destruct g as [[s|]|]; try by eapply IH.
  destruct (is_expired s now) eqn:E; cbn [negb] in H.
  - apply run_bind_inv in H as (? & ? & _ & H). by eapply IH.
  - eapply IH; [done|]. apply Forall_app. eauto.
Qed.

Lemma cleanup_loop_fresh now l n w r w' :
  Forall (fun s => is_expired s now = false) l ->
  run (C := C) (cleanup_loop now l n) w = (Ok r, w') -> r = n.
Proof.
  induction 1 as [|s l Hs _ IH]; cbn [cleanup_loop]; intros H; [by run_inv|].
  rewrite Hs in H. auto.
Qed.

(** [get_user_sessions] already removed the expired sessions it met, so that
    [cleanup_expired_sessions] reports none: unless the clock advances during the call,
    its count is 0 whatever it cleaned. *)
Theorem cleanup_counts_none u w n w' :
  run (C := C) (cleanup_expired_sessions u) w = (Ok n, w') -> clock w' = clock w -> n = 0%Z.
Proof.
  intros H Hc. unfold cleanup_expired_sessions in H.
  apply run_bind_ok in H as (l & w1 & Hl & H). apply run_bind_inv in H as (now & w2 & Hn & H).
  pose proof (run_quiet_mono _ _ _ _ H) as Hm2. apply run_now_inv in Hn as (Hm1 & _ & ->).
  pose proof (run_quiet_mono _ _ _ _ Hl) as Hm0.
  unfold get_user_sessions in Hl. apply run_bind_ok in Hl as ([] & w3 & H3 & Hl).
  apply run_bind_ok in Hl as (ids & w4 & H4 & Hl).
  apply run_bind_inv in Hl as (now & w5 & H5 & Hl).
  apply run_bind_inv in Hl as (l' & w6 & H6 & Hl).
  pose proof (run_quiet_mono _ _ _ _ H6) as Hm6. run_inv.
  apply cleanup_loop_fresh in H; [done|].
  replace (clock w2) with (clock w5) by lia.
  by apply (collect_sessions_fresh _ _ _ _ _ _ H6).
Qed.
End Sessions.

(** ** In the simulated world *)

Definition after {A} (m : prog (event unit) A) (w : sim unit) : sim unit := snd (run m w).
Definition created : sim unit :=
  after (create_session one_stream (sample_session "a" "alice")) (sample_world [2]%Z).

Lemma create_get_session_witness : Some (sample_session "a" "alice") = Some (sample_session "a" "alice").
Proof.
  apply (create_get_session one_stream (sample_session "a" "alice") (sample_world [2]%Z) created
           created (Some (sample_session "a" "alice")) created);
    vm_compute; reflexivity.
Defined.

Definition beaten : sim unit := after (heartbeat "a" (Some Playing) (Some 3%Z)) created.
Definition playing : PlaybackSession :=
  heartbeat_update 102 (Some Playing) (Some 3%Z) (sample_session "a" "alice").

Lemma heartbeat_updates_witness :
  exists j s now d t,
    reads t (view created) "a" (Some j) /\ from_str j = Ok s /\
    playing = heartbeat_update now (Some Playing) (Some 3%Z) s /\
    user_id playing = user_id s /\ last_heartbeat_timestamp playing = now /\
    first_play_timestamp playing =
      match first_play_timestamp s with
      | Some t => Some t
      | None => if bool_decide (Some Playing = Some Playing) then Some now else None
      end /\
    holds (view beaten) "a" playing d /\
    (clock created <= t <= now)%Z /\ (now + SESSION_HEARTBEAT_TIMEOUT <= d)%Z /\
    (d <= clock beaten + SESSION_HEARTBEAT_TIMEOUT)%Z.
Proof.
  apply (heartbeat_updates "a" (Some Playing) (Some 3%Z) created playing beaten).
  vm_compute. reflexivity.
Defined.

Definition terminated : sim unit := after (terminate_session "a") beaten.

Lemma terminate_session_removes_witness :
  live 500 (view terminated) (session_key "a") = None /\
  view terminated !! session_key "b" = view beaten !! session_key "b".
Proof.
  destruct (terminate_session_removes "a" beaten terminated) as [H1 H2].
  - vm_compute. reflexivity.
  - split; [apply H1; vm_compute; discriminate|by apply H2].
Defined.

Definition first_played : sim unit := after (record_first_play "alice" "film") (sample_world [2]%Z).

Lemma record_first_play_once_witness :
  (clock (sample_world [2]%Z) <= 102 <= clock first_played)%Z /\ 102%Z = 102%Z /\
  Some 102%Z = Some 102%Z.
Proof.
  apply (record_first_play_once "alice" "film" (sample_world [2]%Z) 102 first_played
           first_played 102 first_played first_played (Some 102%Z) first_played);
    try (vm_compute; reflexivity); vm_compute; (done || split; (done || reflexivity)).
Defined.

Lemma cleanup_counts_none_witness : 0%Z = 0%Z.
Proof.
  apply (cleanup_counts_none "alice" created 0 created); vm_compute; reflexivity.
Defined.

(** ** Races

    Two calls of one method, each performing its events in order, interleaved. *)

(** The limit is checked before the session is added, without a transaction: two
    concurrent [create_session] calls of one user both succeed where one stream is
    allowed, and the user ends up with two. *)
Theorem create_session_race :
  exists w' : sim unit,
    steps (sample_world [], [create_session one_stream (sample_session "a" "alice");
                             create_session one_stream (sample_session "b" "alice")])
          (w', [Ret (Ok tt); Ret (Ok tt)]) /\
    size (tracked (clock w') (view w') "alice") = 2.
Proof.
  pose (s := schedule (C := unit) [0; 0; 1; 1; 0; 0; 0; 0; 1; 1; 1; 1]
    (sample_world [], [create_session one_stream (sample_session "a" "alice");
                       create_session one_stream (sample_session "b" "alice")])).
  exists s.1. split; [|by vm_compute].
  replace [Ret (Ok tt); Ret (Ok tt)] with s.2 by by vm_compute.
  rewrite <-surjective_pairing. apply steps_schedule.
Qed.

(** [record_first_play] reads and then sets, although its comment says "SET NX": two
    concurrent calls record two first plays, and the later one replaces the record that
    the first call already answered. *)
Theorem record_first_play_race :
  exists w' : sim unit,
    steps (sample_world [0; 0; 0; 5]%Z, [record_first_play "alice" "film"; record_first_play "alice" "film"])
          (w', [Ret (Ok 100%Z); Ret (Ok 105%Z)]) /\
    fst (run (get_first_play "alice" "film") w') = Ok (Some 105%Z).
Proof.
  pose (s := schedule (C := unit) [0; 0; 0; 1; 1; 1; 0; 1]
    (sample_world [0; 0; 0; 5]%Z,
     [record_first_play "alice" "film"; record_first_play "alice" "film"])).
  exists s.1. split; [|by vm_compute].
  replace [Ret (Ok 100%Z); Ret (Ok 105%Z)] with s.2 by by vm_compute.
  rewrite <-surjective_pairing. apply steps_schedule.
Qed.

(** The key of a first play joins the two identifiers with a colon that they may
    contain, so different user and asset pairs share a record; the session and user-set
    keys are injective and never meet. *)
Theorem key_spaces :
  (exists u a v b, (u, a) <> (v, b) /\ first_play_key u a = first_play_key v b) /\
  (forall a b, session_key a = session_key b -> a = b) /\
  (forall a b, user_sessions_key a = user_sessions_key b -> a = b) /\
  (forall u a, session_key a = user_sessions_key u -> False) /\
  (forall u a v, first_play_key u a = user_sessions_key v -> False) /\
  (forall u a v, first_play_key u a = session_key v -> False).
Proof.
  split_and!; try done.
  - by exists "a:b"%string, "c"%string, "a"%string, "b:c"%string.
  - intros a b. apply (inj session_key).
  - intros a b. apply (inj user_sessions_key).
Qed.
