(* ===== verification/Crypto.v ===== *)
(** * Cryptographic primitives and signature formats (src/src/modules/crypto.rs)

    The hash functions, codecs and curve operations come from crates; they are the
    [Primitives] interface, with the documented facts the theorems use in
    [PrimitivesLaws].  The module's own code, above all its DER parser, is modelled in
    full, panics included. *)
From S2P Require Import Prelude.

(** ** What the crates provide *)

Class Primitives := {
  sha256 : bytes -> bytes;
  blake2b_256 : bytes -> bytes;
  hex_encode : bytes -> string;
  hex_decode : string -> result bytes string;
  P256Key : Type;
  P256Sig : Type;
  p256_key : bytes -> result P256Key string;
  p256_sig : bytes -> result P256Sig string;
  p256_verify : P256Key -> bytes -> P256Sig -> bool;
  P384Key : Type;
  P384Sig : Type;
  p384_key : bytes -> result P384Key string;
  p384_sig : bytes -> result P384Sig string;
  p384_verify : P384Key -> bytes -> P384Sig -> bool;
}.

Class PrimitivesLaws `{!Primitives} := {
  sha256_length : forall b, length (sha256 b) = 32;
  hex_roundtrip : forall b, hex_decode (hex_encode b) = Ok b;
  hex_length : forall b, String.length (hex_encode b) = 2 * length b;
}.

(** ** Signature formats *)

Inductive SignatureError : Set :=
| InvalidPublicKey (detail : string)
| InvalidSignatureFormat (detail : string)
| UnsupportedAlgorithm (alg : string)
| VerificationFailed.

(** [dst[i..j].copy_from_slice(src)]: panics when the range is out of bounds or the
    lengths differ. *)
Definition copy_slice (dst : bytes) (i j : nat) (src : bytes) : outcome bytes :=
  if (i <=? j) && (j <=? length dst) && (length src =? j - i)
  then Done (take i dst ++ src ++ drop j dst) else Panic.

(** [len > component_len && der[pos] == 0x00]: the index is evaluated only in the first
    case. *)
Definition skips_zero (component_len len : nat) (der : bytes) (pos : nat) : outcome bool :=
  if component_len <? len
  then let! b := index der pos in Done (bool_decide (b = x00))
  else Done false.

(** The copy of R into [result[..component_len]] (lines 187-202) and of S into
    [result[component_len..]] (lines 216-231): the same code but for the destination,
    which starts at [base] and ends at [fin]. *)
Definition copy_integer (component_len base fin len : nat) (der : bytes) (pos : nat)
    (result : bytes) : outcome bytes :=
  let! z := skips_zero component_len len der pos in
  let start := if z : bool then pos + 1 else pos in
  let actual_len := if component_len <? len then len - 1 else len in
  let dest_start := base + (component_len - actual_len) in
  let! src := slice der start (start + actual_len `min` component_len) in
  copy_slice result dest_start fin src.

Definition parse_der_signature (N : nat) (der : bytes) : outcome (result bytes SignatureError) :=
  if length der <? 8 then Done (Err (InvalidSignatureFormat "Invalid DER sequence")) else
  let! b0 := index der 0 in
  if negb (bool_decide (b0 = x30)) then
    Done (Err (InvalidSignatureFormat "Invalid DER sequence")) else
  let component_len := N / 2 in
  let result := replicate N x00 in
  let pos := 2 in
  let! tag := index der pos in
  if negb (bool_decide (tag = x02)) then
    Done (Err (InvalidSignatureFormat "Invalid DER R tag")) else
  let pos := pos + 1 in
  let! len := index der pos in
  let r_len := Z.to_nat (b2z len) in
  let pos := pos + 1 in
  let! result := copy_integer component_len 0 component_len r_len der pos result in
  let pos := pos + r_len in
  let! tag := index der pos in
  if negb (bool_decide (tag = x02)) then
    Done (Err (InvalidSignatureFormat "Invalid DER S tag")) else
  let pos := pos + 1 in
  let! len := index der pos in
  let s_len := Z.to_nat (b2z len) in
  let pos := pos + 1 in
  let! result := copy_integer component_len component_len N s_len der pos result in
  Done (Ok result).

Definition parse_ecdsa_signature (N : nat) (signature : bytes) :
    outcome (result bytes SignatureError) :=
  let refuse :=
    Done (Err (InvalidSignatureFormat ("Expected " +:+ display_Z (Z.of_nat N) +:+
      " bytes raw or DER encoded, got " +:+ display_Z (Z.of_nat (length signature)) +:+
      " bytes"))) in
  if length signature =? N then Done (Ok signature)
  else if 6 <? length signature then
    let! b0 := index signature 0 in
    if bool_decide (b0 = x30) then
      let! der_result := parse_der_signature N signature in
      match der_result with Ok sig => Done (Ok sig) | Err _ => refuse end
    else refuse
  else refuse.

Section Verify.
Context {prims : Primitives}.

Definition verify_es256 (public_key message signature : bytes) :
    outcome (result bool SignatureError) :=
  match p256_key public_key with
  | Err e => Done (Err (InvalidPublicKey e))
  | Ok verifying_key =>
    let! sig := parse_ecdsa_signature 64 signature in
    Done (let? sig := sig in
          let? sig := map_err InvalidSignatureFormat (p256_sig sig) in
          Ok (p256_verify verifying_key message sig))
  end.

Definition verify_es384 (public_key message signature : bytes) :
    outcome (result bool SignatureError) :=
  match p384_key public_key with
  | Err e => Done (Err (InvalidPublicKey e))
  | Ok verifying_key =>
    let! sig := parse_ecdsa_signature 96 signature in
    Done (let? sig := sig in
          let? sig := map_err InvalidSignatureFormat (p384_sig sig) in
          Ok (p384_verify verifying_key message sig))
  end.

Definition verify_ecdsa_signature (algorithm : string) (public_key message signature : bytes) :
    outcome (result bool SignatureError) :=
  if bool_decide (algorithm = "ES256"%string) then verify_es256 public_key message signature
  else if bool_decide (algorithm = "ES384"%string) then verify_es384 public_key message signature
  else if bool_decide (algorithm = "ES512"%string) then
    Done (Err (UnsupportedAlgorithm "ES512 (P-521) not yet supported"))
  else Done (Err (UnsupportedAlgorithm algorithm)).
End Verify.

(** ** DER integers

    The encoding of a positive integer: big-endian, with as few bytes as leave the sign
    bit clear. *)
Definition der_int_length (z : Z) : nat := Z.to_nat ((Z.log2 z + 1) / 8) + 1.
Definition der_int (z : Z) : bytes := be_bytes (der_int_length z) z.

Definition der_sequence (body : bytes) : bytes :=
  x30 :: z2b (Z.of_nat (length body)) :: body.
Definition der_element (content : bytes) : bytes :=
  x02 :: z2b (Z.of_nat (length content)) :: content.
Definition der_signature (r s : Z) : bytes :=
  der_sequence (der_element (der_int r) ++ der_element (der_int s)).

Lemma der_int_fits z : (0 < z)%Z -> (z < 256 ^ Z.of_nat (der_int_length z))%Z.
Proof.
  intros Hz. unfold der_int_length. pose proof (Z.log2_nonneg z).
  pose proof (Z.div_pos (Z.log2 z + 1) 8 ltac:(lia) ltac:(lia)).
  rewrite Nat2Z.inj_add, Z2Nat.id by done.
  change 256%Z with (2 ^ 8)%Z. rewrite <-Z.pow_mul_r by lia.
  apply Z.log2_lt_pow2; [done|].
  pose proof (Z.div_mod (Z.log2 z + 1) 8 ltac:(lia)).
  pose proof (Z.mod_pos_bound (Z.log2 z + 1) 8 ltac:(lia)). lia.
Qed.

Lemma der_int_length_le z c :
  (0 < z < 256 ^ Z.of_nat c)%Z -> der_int_length z <= c + 1.
Proof.
  intros [Hz Hc]. unfold der_int_length. change 256%Z with (2 ^ 8)%Z in Hc.
  rewrite <-Z.pow_mul_r in Hc by lia. apply Z.log2_lt_pow2 in Hc; [|done].
  pose proof (Z.div_lt_upper_bound (Z.log2 z + 1) 8 (Z.of_nat c + 1) ltac:(lia) ltac:(lia)).
  lia.
Qed.

Lemma copy_slice_Done dst i j src :
  i <= j <= length dst -> length src = j - i ->
  copy_slice dst i j src = Done (take i dst ++ src ++ drop j dst).
Proof.
  intros [? ?] ?. unfold copy_slice.
  by rewrite (proj2 (Nat.leb_le i j)), (proj2 (Nat.leb_le j _)), (proj2 (Nat.eqb_eq _ _)).
Qed.

(** An integer below [256 ^ c] is copied as its [c]-byte form. *)
Lemma copy_integer_der c z pre post done_ n len pos der :
  (0 < z < 256 ^ Z.of_nat c)%Z -> c <= n ->
  der = pre ++ der_int z ++ post -> pos = length pre -> len = der_int_length z ->
  copy_integer c (length done_) (length done_ + c) len der pos (done_ ++ replicate n x00) =
  Done (done_ ++ be_bytes c z ++ replicate (n - c) x00).
Proof.
  intros Hz Hn -> -> ->. pose proof (der_int_length_le z c Hz) as Hl.
  pose proof (der_int_fits z ltac:(lia)) as Hf. unfold copy_integer, skips_zero, der_int.
  destruct (Nat.ltb_spec c (der_int_length z)) as [Hc|Hc].
  - replace (der_int_length z) with (c + 1) in * by lia.
    rewrite be_bytes_pad by lia. cbn [replicate app]. rewrite index_app by done. cbn [obind].
    change (x00 :: be_bytes c z ++ post) with ([x00] ++ be_bytes c z ++ post).
    rewrite (app_assoc pre), slice_app by
      (rewrite length_app; simpl; autorewrite with backend; lia). cbn [obind].
    replace (length done_ + (c - (c + 1 - 1))) with (length done_) by lia.
    rewrite copy_slice_Done by
      (rewrite ?length_app, ?length_replicate; autorewrite with backend; lia).
    by rewrite take_app_length, drop_app_add, drop_replicate.
  - cbn [obind]. rewrite slice_app by (autorewrite with backend; lia). cbn [obind].
    rewrite copy_slice_Done by
      (rewrite ?length_app, ?length_replicate; autorewrite with backend; lia).
    rewrite take_app_add, drop_app_add, drop_replicate, take_replicate.
    rewrite Nat.min_l by lia. rewrite <-app_assoc, (app_assoc (replicate _ _)).
    rewrite <-be_bytes_pad by lia. do 4 f_equal. lia.
Qed.

Lemma der_len_byte z c :
  (0 < z < 256 ^ Z.of_nat c)%Z -> c < 255 ->
  Z.to_nat (b2z (z2b (Z.of_nat (length (der_int z))))) = der_int_length z.
Proof.
  intros Hz Hc. unfold der_int. autorewrite with backend. rewrite b2z_z2b.
  pose proof (der_int_length_le z c Hz). rewrite Z.mod_small by lia. lia.
Qed.

Lemma parse_der_signature_der c r s :
  c < 255 -> (0 < r < 256 ^ Z.of_nat c)%Z -> (0 < s < 256 ^ Z.of_nat c)%Z ->
  parse_der_signature (2 * c) (der_signature r s) = Done (Ok (be_bytes c r ++ be_bytes c s)).
Proof.
  intros Hc Hr Hs. unfold der_signature, der_sequence, der_element.
  set (lr := z2b (Z.of_nat (length (der_int r)))). set (ls := z2b (Z.of_nat (length (der_int s)))).
  set (l := z2b _). set (pre := [x30; l; x02; lr]). set (der := x30 :: l :: _).
  assert (der = (pre ++ der_int r) ++ x02 :: ls :: der_int s) as Ed by (by rewrite <-app_assoc).
  assert (length (pre ++ der_int r) = 4 + der_int_length r) as Lp.
  { rewrite length_app. unfold der_int. by autorewrite with backend. }
  unfold parse_der_signature. rewrite (proj2 (Nat.ltb_ge _ _)).
  2:{ rewrite Ed, length_app, Lp. unfold der_int_length. cbn [length].
      unfold der_int. autorewrite with backend. unfold der_int_length. lia. }
  change (index der 0) with (Done x30). change (index der 2) with (Done x02).
  change (index der (2 + 1)) with (Done lr). cbn [obind].
  rewrite !bool_decide_eq_true_2 by done. cbn [negb].
  replace (2 * c / 2) with c by (rewrite Nat.mul_comm, Nat.div_mul; lia).
  assert (Z.to_nat (b2z lr) = der_int_length r) as -> by (by apply (der_len_byte _ c)).
  change (2 + 1 + 1) with 4.
  rewrite (copy_integer_der c r pre (x02 :: ls :: der_int s) [] (2 * c)) by (done || lia).
  cbn [obind app]. rewrite Ed, index_app by done. cbn [obind].
  rewrite bool_decide_eq_true_2 by done. cbn [negb].
  replace ((pre ++ der_int r) ++ x02 :: ls :: der_int s)
    with (((pre ++ der_int r) ++ [x02]) ++ ls :: der_int s ++ [])
    by (by rewrite app_nil_r, <-!app_assoc).
  rewrite index_app by (rewrite length_app, Lp; done). cbn [obind].
  assert (Z.to_nat (b2z ls) = der_int_length s) as -> by (by apply (der_len_byte _ c)).
  pose proof (copy_integer_der c s (((pre ++ der_int r) ++ [x02]) ++ [ls]) [] (be_bytes c r) c
    (der_int_length s) (4 + der_int_length r + 1 + 1)) as E.
  rewrite length_be_bytes in E. replace (2 * c) with (c + c) by lia.
  replace (c + c - c) with c by lia. erewrite E; try done.
  - cbn [obind]. by rewrite Nat.sub_diag, app_nil_r.
  - by rewrite <-(app_assoc _ [ls]).
  - rewrite !length_app in *. simpl in *. lia.
Qed.

(** ** Properties *)

(** A raw signature of the expected length is taken as it is, and the DER encoding of
    any pair of scalars that fit in half the length each is converted to the raw form of
    the same pair, whatever leading zeros either form has.  The one DER encoding that is
    not converted is one as long as a raw signature. *)
Theorem parse_ecdsa_signature_formats c r s sig :
  0 < c < 255 -> (0 < r < 256 ^ Z.of_nat c)%Z -> (0 < s < 256 ^ Z.of_nat c)%Z ->
  length sig = 2 * c -> length (der_signature r s) <> 2 * c ->
  parse_ecdsa_signature (2 * c) sig = Done (Ok sig) /\
  parse_ecdsa_signature (2 * c) (der_signature r s) = Done (Ok (be_bytes c r ++ be_bytes c s)).
Proof.
  intros Hc Hr Hs Hsig Hlen. unfold parse_ecdsa_signature.
  rewrite (proj2 (Nat.eqb_eq _ _) Hsig), (proj2 (Nat.eqb_neq _ _) Hlen).
  rewrite (proj2 (Nat.ltb_lt _ _)).
  - change (index (der_signature r s) 0) with (Done x30). cbn [obind].
    rewrite bool_decide_eq_true_2 by done. by rewrite parse_der_signature_der by (done || lia).
  - unfold der_signature, der_sequence, der_element. cbn [length].
    rewrite length_app. cbn [length]. unfold der_int. autorewrite with backend.
    unfold der_int_length. lia.
Qed.

Lemma obind_panics {A B} (o : outcome A) (k : A -> outcome B) :
  (forall a, k a = Panic) -> obind o k = Panic.
Proof. by destruct o; simpl. Qed.

Lemma copy_integer_then_panics {B} c base fin len der pos res (k : bytes -> outcome B) :
  (forall x, k x = Panic) -> obind (copy_integer c base fin len der pos res) k = Panic.
Proof. apply obind_panics. Qed.

(** The lengths inside a DER signature are not checked against the input: an input
    that starts like one but whose first integer claims to reach the end of the input or
    beyond stops the thread instead of being refused. *)
Theorem parse_ecdsa_signature_panics N sig len :
  8 <= length sig -> length sig <> N ->
  sig !! 0 = Some x30 -> sig !! 2 = Some x02 -> sig !! 3 = Some len ->
  (Z.of_nat (length sig) <= 4 + b2z len)%Z ->
  parse_ecdsa_signature N sig = Panic.
Proof.
  intros H8 HN H0 H2 H3 Hlen. unfold parse_ecdsa_signature, parse_der_signature.
  rewrite (proj2 (Nat.eqb_neq _ _) HN), (proj2 (Nat.ltb_lt _ _)) by lia.
  unfold index at 1. rewrite H0. cbn [obind]. rewrite bool_decide_eq_true_2 by done.
  rewrite (proj2 (Nat.ltb_ge _ _)) by lia. unfold index at 1. rewrite H0. cbn [obind].
  rewrite bool_decide_eq_true_2 by done. cbn [negb].
  unfold index at 1. rewrite H2. cbn [obind]. rewrite bool_decide_eq_true_2 by done. cbn [negb].
  unfold index at 1. change (2 + 1) with 3. rewrite H3. cbn [obind].
  match goal with |- obind ?o _ = _ => assert (o = Panic) as -> end; [|done].
  apply copy_integer_then_panics. intros x.
  rewrite index_panics; [done|]. pose proof (b2z_range len). lia.
Qed.

(** An integer one byte too long is cut instead of refused: the signature whose first
    integer is 256^32 is accepted as the one whose first integer is 256^31. *)
Theorem parse_der_signature_truncates :
  parse_der_signature 64 (der_signature (256 ^ 32) 1) =
  parse_der_signature 64 (der_signature (256 ^ 31) 1).
Proof. vm_compute. reflexivity. Qed.

Lemma parse_ecdsa_signature_formats_witness :
  parse_ecdsa_signature (2 * 32) (replicate 64 x00) = Done (Ok (replicate 64 x00)) /\
  parse_ecdsa_signature (2 * 32) (der_signature (2 ^ 255) 1) =
    Done (Ok (be_bytes 32 (2 ^ 255) ++ be_bytes 32 1)).
Proof.
  apply (parse_ecdsa_signature_formats 32 (2 ^ 255) 1 (replicate 64 x00));
    try (vm_compute; done); lia.
Defined.

Lemma parse_ecdsa_signature_panics_witness :
  parse_ecdsa_signature 64 [x30; x06; x02; xff; x01; x02; x01; x01] = Panic.
Proof.
  apply (parse_ecdsa_signature_panics 64 _ xff); (reflexivity || done || (simpl; lia)).
Defined.
