(* ===== verification/Chain.v ===== *)
(** * Chain-driven session validation (src/src/chain/)

    A request proves possession of the ephemeral key of a session granted on the chain.
    [SessionCache] (cache.rs) keeps grants in memory and consumed nonces in Redis,
    [ChainClient] (client.rs) reads the node, [ChainValidator] (validator.rs) runs the six
    checks.  All are programs over the services of [Services]. *)
From S2P Require Import Prelude Services Crypto.

(** ** Errors (error.rs) *)

Inductive ChainError : Set :=
| ConnectionFailed (url reason : string)
| NodeSyncing
| NoPeers
| BlockRegression (current expected : Z)
| RpcError (detail : string)
| DecodeError (detail : string)
| ContractNotFound
| StorageKeyNotFound.

Inductive ValidationError : Set :=
| SessionNotFound (session_id : string)
| SessionExpired (expired_at current : Z)
| SessionRevoked
| ScopeMismatch (resource_id : string)
| HeaderHashMismatch (client server : string)
| SignatureInvalid (reason : string)
| NonceReplay
| ChainFailure (e : ChainError)
| CryptoFailure (detail : string).

Inductive CacheError : Set :=
| IntegrityFailed
| CacheRedisError (detail : string).

Definition redis_text (e : RedisError) : string :=
  match e with redis_error d => d end.

Definition cache_error_text (e : CacheError) : string :=
  match e with
  | IntegrityFailed => "Cache integrity check failed"
  | CacheRedisError d => "Redis operation failed: " +:+ d
  end.

(** ** Data (types.rs) *)

Record SessionGrant := {
  session_id : bytes;
  eph_pub_key : bytes;
  scope_id : bytes;
  expires_at_block : Z;
  is_revoked : bool;
  created_at_block : Z;
}.

Record ChainValidationRequest := {
  req_session_id : string;
  req_header_hash : bytes;
  req_resource_id : string;
  req_signature : bytes;
  req_algorithm : string;
  req_nonce : Z;
}.

Record ValidatedSession := {
  grant : SessionGrant;
  validated_at_block : Z;
}.

(** What the contract stores, and the SCALE codec of it. *)
Record ChainSessionGrant := {
  c_eph_pub_key : bytes;
  c_scope_id : bytes;
  c_expires_at_block : Z;
  c_is_revoked : bool;
  c_created_at_block : Z;
}.

Class Scale := {
  scale_encode_id : bytes -> bytes;
  scale_decode_grant : bytes -> result ChainSessionGrant string;
}.

Record CachedEntry := {
  entry_grant : SessionGrant;
  entry_block : Z;
  integrity_tag : bytes;
}.

Definition NONCE_KEY_PREFIX : string := "chain:nonce:".
Definition NONCE_TTL : Z := 300.

Definition u64_le (z : Z) : bytes := le_bytes 8 z.

(** [a.iter().zip(b.iter())] folded with [|=] and [^]. *)
Definition constant_time_eq (a b : bytes) : bool :=
  if negb (length a =? length b) then false
  else (fold_left (fun diff p => Z.lor diff (Z.lxor (b2z p.1) (b2z p.2))) (zip a b) 0 =? 0)%Z.

Section Chain.
Context {prims : Primitives} {scale : Scale}.
Abbreviation io A := (prog (event CachedEntry) A).

(** *** ChainValidationRequest *)

Definition compute_signing_message (r : ChainValidationRequest) : result bytes string :=
  match hex_decode (req_session_id r) with
  | Err _ => Err "Invalid session_id hex"%string
  | Ok session_bytes =>
    Ok (sha256 (session_bytes ++ req_header_hash r ++ u64_le (req_nonce r)))
  end.

Definition session_id_bytes (r : ChainValidationRequest) : result bytes string :=
  match hex_decode (req_session_id r) with
  | Err _ => Err "Invalid session_id hex"%string
  | Ok b => if length b =? 32 then Ok b else Err "session_id must be 32 bytes"%string
  end.

(** *** SessionCache *)

Context (server_secret : bytes).

Definition compute_integrity_tag (g : SessionGrant) (block_number : Z) : bytes :=
  sha256 (server_secret ++ session_id g ++ eph_pub_key g ++ scope_id g ++
          u64_le (expires_at_block g) ++ [if is_revoked g then x01 else x00] ++
          u64_le (created_at_block g) ++ u64_le block_number).

Definition make_entry (g : SessionGrant) (block_number : Z) : CachedEntry :=
  {| entry_grant := g; entry_block := block_number;
     integrity_tag := compute_integrity_tag g block_number |}.

Definition cache_store (g : SessionGrant) (block_number : Z) : io unit :=
  trigger (CacheInsert (session_id g) (make_entry g block_number)).

Definition cache_get (id : bytes) : io (option SessionGrant) :=
  let* found := trigger (CacheGet id) in
  match found with
  | None => Ret None
  | Some entry =>
    let expected_tag := compute_integrity_tag (entry_grant entry) (entry_block entry) in
    if negb (constant_time_eq (integrity_tag entry) expected_tag) then
      let* _ := trigger (CacheInvalidate id) in
      Ret None
    else Ret (Some (entry_grant entry))
  end.

Definition cache_invalidate (id : bytes) : io unit := trigger (CacheInvalidate id).

Definition nonce_key (id : bytes) (nonce : Z) : string :=
  NONCE_KEY_PREFIX +:+ hex_encode id +:+ ":" +:+ display_Z nonce.

Definition check_and_consume_nonce (id : bytes) (nonce : Z) : io (result bool CacheError) :=
  let*? _ := await_map_err (fun e => CacheRedisError (redis_text e)) (trigger Connect) in
  await_map_err (fun e => CacheRedisError (redis_text e))
    (trigger (Redis (SETNXEX (nonce_key id nonce) "1" NONCE_TTL))).

(** *** ChainClient *)

Context (rpc_url : string).

Definition validate_node_health_internal : io (result unit ChainError) :=
  let*? current_block := await_map_err RpcError (trigger ChainLatest) in
  let* last_known := trigger BlockLoad in
  if (0 <? last_known)%Z && (current_block + 2 <? last_known)%Z then
    Ret (Err (BlockRegression current_block last_known))
  else
    let* _ := trigger (BlockStore current_block) in
    Ret (Ok tt).

Definition client_connect : io (result unit ChainError) :=
  let*? _ := await_map_err (ConnectionFailed rpc_url) (trigger (ChainDial rpc_url)) in
  let*? _ := validate_node_health_internal in
  let* _ := trigger ClientWrite in
  Ret (Ok tt).

Definition get_client : io (result unit ChainError) :=
  let* connected := trigger ClientRead in
  if connected : bool then Ret (Ok tt)
  else
    let*? _ := client_connect in
    let* connected := trigger ClientRead in
    if connected : bool then Ret (Ok tt)
    else Ret (Err (ConnectionFailed rpc_url "Failed to establish connection")).

Definition current_block : io (result Z ChainError) :=
  let*? _ := get_client in
  let*? block_number := await_map_err RpcError (trigger ChainLatest) in
  let* _ := trigger (BlockStore block_number) in
  Ret (Ok block_number).

Definition validate_node_health : io (result unit ChainError) :=
  let*? _ := get_client in
  validate_node_health_internal.

Definition compute_session_storage_key (id : bytes) : bytes :=
  blake2b_256 (le_bytes 4 1 ++ scale_encode_id id).

Definition decode_session_grant (id data : bytes) : result SessionGrant ChainError :=
  let? g := map_err DecodeError (scale_decode_grant data) in
  Ok {| session_id := id; eph_pub_key := c_eph_pub_key g; scope_id := c_scope_id g;
        expires_at_block := c_expires_at_block g; is_revoked := c_is_revoked g;
        created_at_block := c_created_at_block g |}.

Definition client_get_session_grant (id : bytes) :
    io (result (option SessionGrant) ChainError) :=
  let*? _ := get_client in
  let*? _ := validate_node_health_internal in
  let storage_key := compute_session_storage_key id in
  let*? _ := await_map_err RpcError (trigger ChainLatest) in
  let*? storage_data := await_map_err RpcError (trigger (ChainFetch storage_key)) in
  match storage_data with
  | Some data => let*? g := Ret (decode_session_grant id data) in Ret (Ok (Some g))
  | None => Ret (Ok None)
  end.

(** *** ChainValidator *)

Definition get_session_grant (id : bytes) :
    io (result (SessionGrant * Z) ValidationError) :=
  let* hit := cache_get id in
  match hit with
  | Some g =>
    let*? b := await_map_err ChainFailure current_block in
    Ret (Ok (g, b))
  | None =>
    let*? b := await_map_err ChainFailure current_block in
    let*? found := await_map_err ChainFailure (client_get_session_grant id) in
    match found with
    | None => Ret (Err (SessionNotFound (hex_encode id)))
    | Some g =>
      let* _ := cache_store g b in
      Ret (Ok (g, b))
    end
  end.

Definition chain_verify_es256 (public_key message signature : bytes) :
    result bool ValidationError :=
  let? key := map_err (fun e => SignatureInvalid ("Invalid P-256 public key: " +:+ e))
                (p256_key public_key) in
  let? sig := map_err (fun e => SignatureInvalid ("Invalid ES256 signature format: " +:+ e))
                (p256_sig signature) in
  Ok (p256_verify key message sig).

Definition chain_verify_es384 (public_key message signature : bytes) :
    result bool ValidationError :=
  let? key := map_err (fun e => SignatureInvalid ("Invalid P-384 public key: " +:+ e))
                (p384_key public_key) in
  let? sig := map_err (fun e => SignatureInvalid ("Invalid ES384 signature format: " +:+ e))
                (p384_sig signature) in
  Ok (p384_verify key message sig).

Definition chain_verify_es512 (public_key message signature : bytes) :
    result bool ValidationError :=
  Err (SignatureInvalid "ES512 (P-521) not yet supported").

Definition verify_signature (r : ChainValidationRequest) (g : SessionGrant) :
    result unit ValidationError :=
  let? message := map_err SignatureInvalid (compute_signing_message r) in
  let? valid :=
    if bool_decide (req_algorithm r = "ES256"%string) then
      chain_verify_es256 (eph_pub_key g) message (req_signature r)
    else if bool_decide (req_algorithm r = "ES384"%string) then
      chain_verify_es384 (eph_pub_key g) message (req_signature r)
    else if bool_decide (req_algorithm r = "ES512"%string) then
      chain_verify_es512 (eph_pub_key g) message (req_signature r)
    else Err (SignatureInvalid ("Unsupported algorithm: " +:+ req_algorithm r)) in
  if valid : bool then Ok tt
  else Err (SignatureInvalid "Signature does not match ephemeral public key").

Definition check_scope (header_hash scope : bytes) : result unit ValidationError :=
  if bool_decide (header_hash = scope) then Ok tt
  else Err (ScopeMismatch (hex_encode header_hash)).

(** The six checks of [ChainValidator::validate].  The log lines around them are left out; two
    of them slice [resource_id] at its sixteenth byte (or its end), which panics inside a
    character where a log at that level is enabled.  The three callers of the repository pass
    the hexadecimal form of a hash ([chain_request] of [MediaApi], [chain_rewrap_request] of
    [WebSocket] and [rewrap_chain_request] of [HttpRewrap]), for which every byte is a
    character. *)
Definition validate (r : ChainValidationRequest) : io (result ValidatedSession ValidationError) :=
  let*? id := Ret (map_err (fun e => SessionNotFound ("Invalid format: " +:+ e))
                     (session_id_bytes r)) in
  let*? (g, b) := get_session_grant id in
  if (expires_at_block g <=? b)%Z then Ret (Err (SessionExpired (expires_at_block g) b))
  else if is_revoked g then Ret (Err SessionRevoked)
  else
    let*? _ := Ret (check_scope (req_header_hash r) (scope_id g)) in
    let*? _ := Ret (verify_signature r g) in
    let*? nonce_fresh :=
      await_map_err (fun e => CryptoFailure (cache_error_text e))
        (check_and_consume_nonce id (req_nonce r)) in
    if negb nonce_fresh then Ret (Err NonceReplay)
    else Ret (Ok {| grant := g; validated_at_block := b |}).
End Chain.
