(* ===== verification/CryptoSample.v ===== *)
(** * Concrete primitives for running the models

    An executable instance of [Primitives] that satisfies [PrimitivesLaws], and one of
    [Scale].  Hexadecimal is the usual one; the hash and the signature schemes are only
    stand-ins with the right lengths, to run the handlers on concrete inputs. *)
From S2P Require Import Prelude Services SimWorld Crypto Chain.

Definition hex_digit (z : Z) : ascii :=
  default "0"%char (list_ascii_of_string "0123456789abcdef" !! Z.to_nat z).
Definition hex_value (c : ascii) : option Z :=
  let n := Z.of_nat (nat_of_ascii c) in
  if (48 <=? n)%Z && (n <=? 57)%Z then Some (n - 48)%Z
  else if (97 <=? n)%Z && (n <=? 102)%Z then Some (n - 87)%Z
  else if (65 <=? n)%Z && (n <=? 70)%Z then Some (n - 55)%Z
  else None.

Fixpoint sample_hex_encode (b : bytes) : string :=
  match b with
  | [] => ""
  | x :: b => String (hex_digit (b2z x / 16)) (String (hex_digit (b2z x mod 16)) (sample_hex_encode b))
  end.
Fixpoint sample_hex_decode (s : string) : result bytes string :=
  match s with
  | EmptyString => Ok []
  | String a (String b s) =>
    match hex_value a, hex_value b with
    | Some x, Some y => let? r := sample_hex_decode s in Ok (z2b (16 * x + y) :: r)
    | _, _ => Err "invalid character"%string
    end
  | _ => Err "odd number of digits"%string
  end.

Lemma sample_hex_roundtrip b : sample_hex_decode (sample_hex_encode b) = Ok b.
Proof.
  induction b as [|x b IH]; [done|]. cbn [sample_hex_encode sample_hex_decode]. rewrite IH.
  destruct x; reflexivity.
Qed.

Lemma sample_hex_length b : String.length (sample_hex_encode b) = 2 * length b.
Proof. induction b as [|x b IH]; simpl in *; [done|]. rewrite IH. lia. Qed.

Definition sized (n : nat) (b : bytes) : result bytes string :=
  if length b =? n then Ok b else Err "invalid length"%string.

#[export] Instance sample_primitives : Primitives :=
  {| sha256 := fun b => le_bytes 32 (le_to_Z b);
     blake2b_256 := fun b => le_bytes 32 (le_to_Z (reverse b));
     hex_encode := sample_hex_encode; hex_decode := sample_hex_decode;
     P256Key := bytes; P256Sig := bytes;
     p256_key := sized 33; p256_sig := sized 64;
     p256_verify := fun k m s => bool_decide (s = m ++ take 32 k);
     P384Key := bytes; P384Sig := bytes;
     p384_key := sized 49; p384_sig := sized 96;
     p384_verify := fun k m s => bool_decide (s = m ++ k ++ replicate 15 x00) |}.

#[export] Instance sample_primitives_laws : PrimitivesLaws.
Proof.
  split.
  - intros b. apply length_le_bytes.
  - apply sample_hex_roundtrip.
  - apply sample_hex_length.
Defined.

(** Fixed-width fields: key 33, scope 32, expiry 8, revoked 1, creation 8. *)
#[export] Instance sample_scale : Scale :=
  {| scale_encode_id := fun b => b;
     scale_decode_grant := fun d =>
       if length d =? 82 then
         Ok {| c_eph_pub_key := take 33 d; c_scope_id := take 32 (drop 33 d);
               c_expires_at_block := le_to_Z (take 8 (drop 65 d));
               c_is_revoked := bool_decide (take 1 (drop 73 d) = [x01]);
               c_created_at_block := le_to_Z (drop 74 d) |}
       else Err "not enough data"%string |}.

(** A session on the chain, a request that proves possession of its key, and a node. *)
Definition sample_id : bytes := replicate 32 xab.
Definition sample_key : bytes := replicate 33 x02.
Definition sample_scope : bytes := replicate 32 x11.
Definition sample_chain_data (expires : Z) : bytes :=
  sample_key ++ sample_scope ++ u64_le expires ++ [x00] ++ u64_le 1.

Definition sample_request (nonce : Z) : ChainValidationRequest :=
  {| req_session_id := sample_hex_encode sample_id; req_header_hash := sample_scope;
     req_resource_id := ""; req_algorithm := "ES256"; req_nonce := nonce;
     req_signature :=
       sha256 (sample_id ++ sample_scope ++ u64_le nonce) ++ take 32 sample_key |}.

Definition sample_secret : bytes := replicate 32 x07.

Definition sample_node (delays : list Z) (height expires last : Z) : sim CachedEntry :=
  {| sim_now := 100; sim_delays := delays; sim_store := ∅; sim_cache := [];
     sim_height := Ok height;
     sim_chain := [(compute_session_storage_key sample_id, sample_chain_data expires)];
     sim_dialable := true; sim_client := true; sim_block := last;
     sim_window := []; sim_random := []; sim_published := []; sim_outside := nothing_outside |}.

Definition sample_validate (nonce : Z) : prog (event CachedEntry) (result ValidatedSession ValidationError) :=
  validate sample_secret "ws://node" (sample_request nonce).

Definition sample_validated (height expires : Z) : ValidatedSession :=
  {| grant := {| session_id := sample_id; eph_pub_key := sample_key; scope_id := sample_scope;
                 expires_at_block := expires; is_revoked := false; created_at_block := 1 |};
     validated_at_block := height |}.
