(* ===== verification/ChainProps.v ===== *)
(** * What chain validation guarantees (src/src/chain/)

    Soundness of [validate] on every path, the one-time use of nonces and the identity of
    the granted session under every interleaving, the effects of refused requests, and
    two ways in which the code falls short of its comments. *)
From S2P Require Import Prelude Services SimWorld Crypto Chain CryptoSample.

(** ** Comparison and keys *)

Lemma fold_lor_zero l acc :
  (0 <= acc)%Z ->
  (fold_left (fun diff p => Z.lor diff (Z.lxor (b2z p.1) (b2z p.2))) l acc = 0)%Z <->
  acc = 0%Z /\ Forall (fun p : byte * byte => p.1 = p.2) l.
Proof.
  revert acc. induction l as [|[x y] l IH]; intros acc Ha; simpl; [by split; [|intros []]|].
  rewrite IH.
  - rewrite Z.lor_eq_0_iff, Z.lxor_eq_0_iff, Forall_cons_iff. simpl.
    split; [|naive_solver]. intros [[-> ?%b2z_inj] ?]. auto.
  - apply Z.lor_nonneg. split; [done|]. apply Z.lxor_nonneg.
    pose proof (b2z_range x). pose proof (b2z_range y). lia.
Qed.

Lemma zip_same (a b : bytes) :
  length a = length b -> Forall (fun p : byte * byte => p.1 = p.2) (zip a b) -> a = b.
Proof.
  revert b. induction a as [|x a IH]; intros [|y b]; simpl; intros L H; try done.
  apply Forall_cons_iff in H as [E H]. simpl in E. subst. f_equal. auto.
Qed.

(** The comparison that looks at every byte decides equality. *)
Lemma constant_time_eq_spec a b : constant_time_eq a b = true <-> a = b.
Proof.
  unfold constant_time_eq. destruct (Nat.eqb_spec (length a) (length b)) as [L|L]; simpl.
  - rewrite Z.eqb_eq, fold_lor_zero by done. split.
    + intros [_ H]. by apply zip_same.
    + intros ->. split; [done|]. clear L. induction b; simpl; auto.
  - split; [done|]. by intros ->.
Qed.

(** ** Soundness on every path *)

Ltac path_inv :=
  repeat match goal with
  | H : path (bind_ok _ _) _ (Ok _) |- _ => apply path_bind_ok in H as (? & ? & ? & -> & ? & ?)
  | H : path (bind _ _) _ _ |- _ => apply path_bind in H as (? & ? & ? & -> & ? & ?)
  | H : path (await_map_err _ _) _ (Ok _) |- _ => apply path_map_err in H
  | H : path (trigger _) _ _ |- _ => apply path_trigger in H as ->
  | H : path (Ret _) _ _ |- _ => apply path_ret in H as [-> ?]; simplify_eq
  end.

Section Sound.
Context {prims : Primitives} {scale : Scale} (server_secret : bytes) (rpc_url : string).
Implicit Types (r : ChainValidationRequest) (tr : list (answer (event CachedEntry))).

(** Where a grant came from: the cache, under the requested id and with its tag intact, or
    the node's answer for the storage key of the id. *)
Definition granted (id : bytes) (g : SessionGrant) tr : Prop :=
  (exists entry, answered (CacheGet id) (Some entry) ∈ tr /\ entry_grant entry = g /\
     integrity_tag entry = compute_integrity_tag server_secret g (entry_block entry)) \/
  (exists data, answered (ChainFetch (compute_session_storage_key id)) (Ok (Some data)) ∈ tr /\
     decode_session_grant id data = Ok g).

Lemma current_block_path tr b :
  path (current_block rpc_url) tr (Ok b) -> answered ChainLatest (Ok b) ∈ tr.
Proof. unfold current_block. intros. path_inv. set_solver. Qed.

Lemma get_session_grant_path id tr g b :
  path (get_session_grant server_secret rpc_url id) tr (Ok (g, b)) ->
  granted id g tr /\ answered ChainLatest (Ok b) ∈ tr.
Proof.
  unfold get_session_grant. intros H.
  apply path_bind in H as (hit & tr1 & tr2 & -> & Hc & H). unfold cache_get in Hc.
  apply path_bind in Hc as (found & t1 & t2 & -> & Hf & Hc). apply path_trigger in Hf as ->.
  destruct hit as [g'|].
  - path_inv. match goal with H : path (current_block _) _ _ |- _ => apply current_block_path in H end.
    split; [|set_solver]. left. destruct found as [entry|]; [|by path_inv].
    destruct (constant_time_eq _ _) eqn:E; cbn [negb] in Hc; [|by path_inv].
    apply constant_time_eq_spec in E. apply path_ret in Hc as [-> [= <-]].
    exists entry. split_and!; [set_solver|done|done].
  - apply path_bind_ok in H as (b' & t3 & t4 & -> & Hb & H).
    apply path_map_err, current_block_path in Hb.
    apply path_bind_ok in H as (gs & t5 & t6 & -> & Hg & H).
    destruct gs as [g'|]; [|by path_inv]. path_inv. split; [|set_solver]. right.
    unfold client_get_session_grant in Hg. path_inv.
    match goal with H : path (match ?x with _ => _ end) _ _ |- _ => destruct x as [data|] end;
      path_inv.
    exists data. split; [set_solver|done].
Qed.

(** The signature check that a request passed. *)
Definition signed (r : ChainValidationRequest) (key message : bytes) : Prop :=
  (req_algorithm r = "ES256"%string /\ exists k s,
     p256_key key = Ok k /\ p256_sig (req_signature r) = Ok s /\ p256_verify k message s = true) \/
  (req_algorithm r = "ES384"%string /\ exists k s,
     p384_key key = Ok k /\ p384_sig (req_signature r) = Ok s /\ p384_verify k message s = true).

Lemma verify_signature_ok r g :
  verify_signature r g = Ok tt ->
  exists id, hex_decode (req_session_id r) = Ok id /\
    signed r (eph_pub_key g) (sha256 (id ++ req_header_hash r ++ u64_le (req_nonce r))).
Proof.
  unfold verify_signature, compute_signing_message. intros H.
  destruct (hex_decode _) as [id|]; [|done]. exists id. split; [done|]. simpl in H.
  unfold signed. repeat case_bool_decide; simpl in H; try done.
  - left. unfold chain_verify_es256 in H. split; [done|].
    destruct (p256_key _) as [k|]; [|done]. destruct (p256_sig _) as [s|]; [|done].
    exists k, s. simpl in H. by destruct (p256_verify _ _ _).
  - right. unfold chain_verify_es384 in H. split; [done|].
    destruct (p384_key _) as [k|]; [|done]. destruct (p384_sig _) as [s|]; [|done].
    exists k, s. simpl in H. by destruct (p384_verify _ _ _).
Qed.

(** What a validated request is justified by: the grant of its session, in force at a
    block the node reported and for the resource asked for, a signature of the session's
    key over the request, and a nonce that Redis had not seen. *)
Definition justified r v tr : Prop :=
  exists id,
    hex_decode (req_session_id r) = Ok id /\ length id = 32 /\
    granted id (grant v) tr /\
    answered ChainLatest (Ok (validated_at_block v)) ∈ tr /\
    (validated_at_block v < expires_at_block (grant v))%Z /\
    is_revoked (grant v) = false /\
    req_header_hash r = scope_id (grant v) /\
    signed r (eph_pub_key (grant v)) (sha256 (id ++ req_header_hash r ++ u64_le (req_nonce r))) /\
    answered (Redis (SETNXEX (nonce_key id (req_nonce r)) "1" NONCE_TTL)) (Ok true) ∈ tr.

Lemma validate_justified r tr v :
  path (validate server_secret rpc_url r) tr (Ok v) -> justified r v tr.
Proof.
  unfold validate, justified. intros H.
  apply path_bind_ok in H as (id & tr1 & tr2 & -> & Hid & H).
  apply path_ret in Hid as [-> Hid]. apply map_err_Ok in Hid. unfold session_id_bytes in Hid.
  destruct (hex_decode (req_session_id r)) as [id'|] eqn:Ex; [|done].
  destruct (Nat.eqb_spec (length id') 32) as [L|]; simplify_eq.
  apply path_bind_ok in H as ([g b] & tr3 & tr4 & -> & Hg & H).
  apply get_session_grant_path in Hg as [Hg Hb].
  destruct (Z.leb_spec (expires_at_block g) b); [by path_inv|].
  destruct (is_revoked g) eqn:Er; [by path_inv|].
  apply path_bind_ok in H as ([] & tr5 & tr6 & -> & Hs & H). apply path_ret in Hs as [-> Hs].
  apply path_bind_ok in H as ([] & tr7 & tr8 & -> & Hv & H). apply path_ret in Hv as [-> Hv].
  apply path_bind_ok in H as (fresh & tr9 & tr10 & -> & Hn & H).
  destruct fresh; cbn [negb] in H; [|by path_inv]. unfold check_and_consume_nonce in Hn. path_inv.
  exists id. simpl. unfold check_scope in Hs. case_bool_decide; [|done].
  apply verify_signature_ok in Hv as (id' & Hid' & Hsig). rewrite Ex in Hid'. simplify_eq.
  split_and!; [done|done| |set_solver|done|done|done|done|set_solver].
  destruct Hg as [(e & Hin & He)|(d & Hin & Hd)]; [left; exists e|right; exists d];
    (split; [set_solver|done]).
Qed.

(** C1: a request is validated only if its id is 32 hex-coded bytes for which the cache or
    the node answered the grant, the grant expires after the block the node answered, is
    not revoked and is scoped to the request's header hash, the signature verifies under
    the grant's ephemeral key on the hash of id, header hash and nonce (ES256 or ES384),
    and Redis answered that the nonce was not yet used: whatever else is interleaved. *)
Theorem validate_sound r tr v :
  path (validate server_secret rpc_url r) tr (Ok v) ->
  exists id,
    hex_decode (req_session_id r) = Ok id /\ length id = 32 /\
    granted id (grant v) tr /\
    answered ChainLatest (Ok (validated_at_block v)) ∈ tr /\
    (validated_at_block v < expires_at_block (grant v))%Z /\
    is_revoked (grant v) = false /\
    req_header_hash r = scope_id (grant v) /\
    signed r (eph_pub_key (grant v)) (sha256 (id ++ req_header_hash r ++ u64_le (req_nonce r))) /\
    answered (Redis (SETNXEX (nonce_key id (req_nonce r)) "1" NONCE_TTL)) (Ok true) ∈ tr.
Proof. apply validate_justified. Qed.
End Sound.

(** ** Nonces are used once *)

Section Nonce.
Context {C W : Type} `{!World C W, !WorldLaws C W}.

(** The answer that grants a nonce record. *)
Definition wins (k : string) {X} (e : event C X) : X -> Prop :=
  match e in event _ X return X -> Prop with
  | Redis c =>
    match c in redis_cmd X return result X RedisError -> Prop with
    | SETNXEX k' _ ttl => fun r => k' = k /\ ttl = NONCE_TTL /\ r = Ok true
    | _ => fun _ => False
    end
  | _ => fun _ => False
  end.

(** Events that do not remove or shorten the record. *)
Definition keeps (k : string) X (e : event C X) : Prop :=
  match e with
  | Redis c =>
    cmd_key c <> k \/
    match c with
    | GET _ | SMEMBERS _ | EXISTS _ => True
    | SETNXEX _ _ ttl => ttl = NONCE_TTL
    | _ => False
    end
  | _ => True
  end.

(** Programs that succeed only through such an answer. *)
Fixpoint guarded {A E} (k : string) (p : prog (event C) (result A E)) : Prop :=
  match p with
  | Ret (Ok _) => False
  | Ret (Err _) => True
  | Vis e c => forall x, wins k e x \/ guarded k (c x)
  end.

Lemma guarded_bind {A B E} k (m : prog (event C) A) (f : A -> prog (event C) (result B E)) :
  (forall a, guarded k (f a)) -> guarded k (bind m f).
Proof. intros Hf. induction m as [a|X e c IH]; simpl; auto. Qed.

Lemma guarded_bind_ok {A B E} k (m : prog (event C) (result A E))
    (f : A -> prog (event C) (result B E)) :
  (forall a, guarded k (f a)) -> guarded k (bind_ok m f).
Proof. intros Hf. apply guarded_bind. by intros []. Qed.

Lemma guarded_ret_ok {A B E} k (a : A) (f : A -> prog (event C) (result B E)) :
  guarded k (f a) -> guarded k (bind_ok (Ret (Ok a)) f).
Proof. done. Qed.

(** The record, lasting at least until [d]. *)
Definition held (k : string) (d : Z) (s : store) : Prop :=
  exists v d', s !! k = Some (Entry v (Some d')) /\ (d <= d')%Z.

Lemma held_live k d s t : held k d s -> (t < d)%Z -> is_Some (live t s k).
Proof.
  intros (v & d' & Hs & Hd) Ht. exists v. unfold live, live_entry, alive. rewrite Hs. simpl.
  by rewrite (proj2 (Z.ltb_lt _ _)) by lia.
Qed.

Lemma redis_spec_held {X} t (c : redis_cmd X) s r s' k d :
  keeps k _ (Redis c) -> redis_spec t c s r s' -> (t < d)%Z -> held k d s -> held k d s'.
Proof.
  intros Hk Hc Ht Hh. destruct (decide (cmd_key c = k)) as [<-|Hne].
  - destruct Hk as [|Hk]; [done|].
    destruct c; simpl in *; try done; try (by destruct Hc as [-> _]).
    destruct (held_live _ _ _ _ Hh Ht) as [v Hv]. rewrite Hv in Hc. by destruct Hc as [_ ->].
  - unfold held. by rewrite (redis_spec_frame _ _ _ _ _ _ Hc Hne).
Qed.

Lemma held_keeps {X} (e : event C X) w x w1 k d :
  keeps k _ e -> exec e w = (x, w1) -> (clock w1 < d)%Z -> held k d (view w) -> held k d (view w1).
Proof.
  intros Hk He Hd Hh. destruct (is_redis e) eqn:Er.
  - destruct e; try done. destruct x as [x|err].
    + by eapply redis_spec_held; [..|apply redis_ok|done|done].
    + apply redis_err in He as [-> |[r Hr]]; [done|]. by eapply redis_spec_held.
  - by rewrite (view_frame _ _ _ _ _ Er He).
Qed.

(** A program that is granted the record finds none and leaves one. *)
Lemma guarded_step {A E X} k t0 (e : event C X) (c : X -> prog (event C) (result A E)) w x w1 :
  guarded k (Vis e c) -> exec e w = (x, w1) ->
  (t0 <= clock w1 < t0 + NONCE_TTL)%Z ->
  guarded k (c x) \/
  (~ held k (t0 + NONCE_TTL) (view w) /\ held k (t0 + NONCE_TTL) (view w1)).
Proof.
  intros Hg He Ht. destruct (Hg x) as [Hw|]; [right|by left].
  case_redis e as X c0; try done. destruct c0; try done.
  destruct Hw as (-> & -> & ->). apply redis_ok in He. simpl in He.
  destruct (live (clock w1) (view w) k) as [v|] eqn:El; [by destruct He|].
  destruct He as [_ ->]. split.
  - intros Hh. destruct (held_live _ _ _ (clock w1) Hh) as [v Hv]; [lia|]. congruence.
  - exists (RStr value), (clock w1 + NONCE_TTL)%Z. rewrite lookup_insert_eq. split; [done|lia].
Qed.

(** Of two programs at most one has been granted the record, and then it is there. *)
Definition exclusive {A E} k d (w : W) (p q : prog (event C) (result A E)) : Prop :=
  (guarded k p /\ guarded k q) \/ ((guarded k p \/ guarded k q) /\ held k d (view w)).

Lemma exclusive_sym {A E} k d w (p q : prog (event C) (result A E)) :
  exclusive k d w p q -> exclusive k d w q p.
Proof. unfold exclusive. tauto. Qed.

Lemma exclusive_frame {A E X} k d (e : event C X) w x w1 (p q : prog (event C) (result A E)) :
  keeps k _ e -> exec e w = (x, w1) -> (clock w1 < d)%Z ->
  exclusive k d w p q -> exclusive k d w1 p q.
Proof.
  intros Hk He Hd [?|[? Hh]]; [by left|right]. split; [done|]. by eapply held_keeps.
Qed.

Lemma exclusive_step {A E X} k t0 (e : event C X) (c : X -> prog (event C) (result A E)) w x w1 q :
  keeps k _ e -> exec e w = (x, w1) -> (t0 <= clock w1 < t0 + NONCE_TTL)%Z ->
  exclusive k (t0 + NONCE_TTL) w (Vis e c) q -> exclusive k (t0 + NONCE_TTL) w1 (c x) q.
Proof.
  intros Hk He Ht Hx.
  assert (forall Hh : held k (t0 + NONCE_TTL) (view w), held k (t0 + NONCE_TTL) (view w1)) as Hkeep.
  { intros. eapply held_keeps; [done|done|lia|done]. }
  destruct Hx as [[Hp Hq]|[[Hp|Hq] Hh]].
  - destruct (guarded_step k t0 e c w x w1 Hp He Ht) as [|[_ ?]]; [by left|right; auto].
  - destruct (guarded_step k t0 e c w x w1 Hp He Ht) as [|[? _]]; [right; auto|done].
  - right. auto.
Qed.

Lemma steps_clock {A} (s s' : W * list (prog (event C) A)) :
  steps s s' -> (clock s.1 <= clock s'.1)%Z.
Proof. induction 1 as [|w ps i X e k x w1 s' Hi He Hs IH]; simpl in *; [lia|]. apply clock_mono in He. lia. Qed.

Lemma steps_exclusive {A E} k t0 (s s' : W * list (prog (event C) (result A E))) i j p q :
  i <> j -> steps s s' -> (t0 <= clock s.1)%Z -> (clock s'.1 < t0 + NONCE_TTL)%Z ->
  (forall p, p ∈ s.2 -> all_events (keeps k) p) ->
  s.2 !! i = Some p -> s.2 !! j = Some q -> exclusive k (t0 + NONCE_TTL) s.1 p q ->
  exists p' q', s'.2 !! i = Some p' /\ s'.2 !! j = Some q' /\
    exclusive k (t0 + NONCE_TTL) s'.1 p' q'.
Proof.
  intros Hij Hs. revert p q. induction Hs as [s|w ps l X e c x w1 s' Hl He Hs IH]; simpl;
    intros p q Ht Hc Hk Hp Hq Hx; [eauto|].
  assert (clock w <= clock w1)%Z as Hm by (by eapply clock_mono).
  assert (clock w1 <= clock s'.1)%Z as Hm' by (by apply (steps_clock _ _ Hs)).
  assert (all_events (keeps k) (Vis e c)) as [Ke Kc] by (apply Hk; by eapply list_elem_of_lookup_2).
  assert (forall p0, p0 ∈ <[l := c x]> ps -> all_events (keeps k) p0) as Hk'.
  { by intros p0 [->|?]%elem_of_insert_inv; auto. }
  simpl in IH. destruct (decide (l = i)) as [->|]; [|destruct (decide (l = j)) as [->|]].
  - simplify_eq. apply (IH (c x) q); [lia|done|done| | |].
    + apply list_lookup_insert_eq. by eapply lookup_lt_Some.
    + by rewrite list_lookup_insert_ne.
    + apply (exclusive_step _ _ e _ w); [done|done|lia|done].
  - simplify_eq. apply (IH p (c x)); [lia|done|done| | |].
    + by rewrite list_lookup_insert_ne.
    + apply list_lookup_insert_eq. by eapply lookup_lt_Some.
    + apply exclusive_sym, (exclusive_step _ _ e _ w); [done|done|lia|].
      by apply exclusive_sym.
  - apply (IH p q); [lia|done|done| | |].
    + by rewrite list_lookup_insert_ne.
    + by rewrite list_lookup_insert_ne.
    + eapply (exclusive_frame _ _ e w); [done|done|lia|done].
Qed.
End Nonce.

Section Validators.
Context {prims : Primitives} {scale : Scale} (server_secret : bytes) (rpc_url : string).
Implicit Types (r : ChainValidationRequest).

Lemma validate_guarded r id :
  session_id_bytes r = Ok id ->
  guarded (nonce_key id (req_nonce r)) (validate server_secret rpc_url r).
Proof.
  intros Hid. unfold validate. rewrite Hid. apply guarded_ret_ok.
  apply guarded_bind_ok. intros [g b]. case_match; [done|]. case_match; [done|].
  apply guarded_bind_ok. intros []. apply guarded_bind_ok. intros [].
  unfold check_and_consume_nonce. simpl. intros [[]|e]; [right|by right].
  intros [[]|e]; simpl; auto.
Qed.

Lemma all_events_mono {A} (P Q : forall X, event CachedEntry X -> Prop)
    (m : prog (event CachedEntry) A) :
  (forall X e, P X e -> Q X e) -> all_events P m -> all_events Q m.
Proof. intros H. induction m; simpl; [done|]. intros []. auto. Qed.

Lemma events_health (P : forall X, event CachedEntry X -> Prop) :
  P _ ChainLatest -> P _ BlockLoad -> (forall b, P _ (BlockStore b)) ->
  all_events P validate_node_health_internal.
Proof.
  intros ???. unfold validate_node_health_internal.
  apply all_events_bind_ok; [by apply all_events_map_err, all_events_trigger|]. intros b.
  apply all_events_bind; [by apply all_events_trigger|]. intros l. case_match; [done|].
  apply all_events_bind; [by apply all_events_trigger|done].
Qed.

(** The events of [get_session_grant]: every client event, and the cache under the id; and
    those of [validate], which also consumes a nonce. *)
Definition fetch_event id X (e : event CachedEntry X) : Prop :=
  match e with
  | ChainDial _ | ChainLatest | ClientRead | ClientWrite | BlockLoad | BlockStore _
  | ChainFetch _ => True
  | CacheGet k | CacheInvalidate k => k = id
  | CacheInsert k entry => k = id /\ session_id (entry_grant entry) = id /\
      integrity_tag entry = compute_integrity_tag server_secret (entry_grant entry) (entry_block entry)
  | _ => False
  end.

Definition validate_event id X (e : event CachedEntry X) : Prop :=
  match e with
  | Connect => True
  | Redis c => match c with SETNXEX k _ ttl => ttl = NONCE_TTL /\ exists n, k = nonce_key id n
               | _ => False end
  | _ => fetch_event id X e
  end.

Ltac events :=
  repeat first
    [ progress intros
    | apply events_health; done
    | apply all_events_map_err
    | apply all_events_trigger; done
    | apply all_events_bind_ok
    | apply all_events_bind
    | done
    | case_match ].

Lemma current_block_events id : all_events (fetch_event id) (current_block rpc_url).
Proof. unfold current_block, get_client, client_connect. events. Qed.

Lemma client_grant_events id : all_events (fetch_event id) (client_get_session_grant rpc_url id).
Proof. unfold client_get_session_grant, get_client, client_connect. events. Qed.

(** The client answers grants for the id it was asked for. *)
Definition for_id (id : bytes) {E} (o : result (option SessionGrant) E) : Prop :=
  match o with Ok (Some g) => session_id g = id | _ => True end.

Lemma client_grant_id I id : ensures I (client_get_session_grant rpc_url id) (for_id id).
Proof.
  unfold client_get_session_grant. do 4 (apply ensures_skip_ok; [done|intros ?]).
  case_match; [|done]. unfold decode_session_grant. by destruct (scale_decode_grant _).
Qed.

Lemma get_session_grant_events id :
  all_events (fetch_event id) (get_session_grant server_secret rpc_url id).
Proof.
  unfold get_session_grant, cache_get. apply all_events_bind; [by events|].
  intros [g|]; (apply all_events_bind_ok; [apply all_events_map_err, current_block_events|]);
    [done|]. intros b.
  eapply (all_events_bind_ensures _ _ _ (for_id id)).
  - apply all_events_map_err, client_grant_events.
  - apply ensures_map_err. eapply ensures_mono; [|apply client_grant_id]. by intros [[]|].
  - by intros [[g|]|e] Hg.
Qed.

(** [validate], past the parsing of the id. *)
Lemma validate_events r id :
  session_id_bytes r = Ok id -> all_events (validate_event id) (validate server_secret rpc_url r).
Proof.
  intros Hid. unfold validate. rewrite Hid.
  apply (all_events_bind_ensures _ _ _ (fun o => o = Ok id)); [done|done|]. intros ? ->.
  apply all_events_bind_ok; [eapply all_events_mono; [|apply get_session_grant_events];
    intros X e; by destruct e|]. intros [g b].
  case_match; [done|]. case_match; [done|].
  apply all_events_bind_ok; [done|]. intros _. apply all_events_bind_ok; [done|]. intros _.
  unfold check_and_consume_nonce. events. apply all_events_trigger. simpl. eauto.
Qed.

Lemma validate_rejects_id r e :
  session_id_bytes r = Err e ->
  validate server_secret rpc_url r = Ret (Err (SessionNotFound ("Invalid format: " +:+ e))).
Proof. intros H. unfold validate. by rewrite H. Qed.

Lemma validate_all P r :
  (forall id X (e : event CachedEntry X), validate_event id X e -> P X e) ->
  all_events P (validate server_secret rpc_url r).
Proof.
  intros HP. destruct (session_id_bytes r) as [id|e] eqn:E.
  - eapply all_events_mono; [|by apply validate_events]. eauto.
  - by rewrite (validate_rejects_id _ _ E).
Qed.

Context {W : Type} `{!World CachedEntry W, !WorldLaws CachedEntry W}.
Implicit Types w : W.

(** C2: among programs that run concurrently, in any interleaving, two requests with one
    session id and one nonce are not both validated, unless at least [NONCE_TTL] seconds pass,
    provided that no program deletes or overwrites the Redis record of this nonce.  Every
    validation satisfies this proviso; the WebSocket cache events do not, since they write any
    key a client names. *)
Theorem nonce_single_use w w' ps ps' i j r1 r2 v1 v2 id :
  i <> j ->
  ps !! i = Some (validate server_secret rpc_url r1) ->
  ps !! j = Some (validate server_secret rpc_url r2) ->
  session_id_bytes r1 = Ok id -> session_id_bytes r2 = Ok id -> req_nonce r1 = req_nonce r2 ->
  (forall p, p ∈ ps -> all_events (keeps (nonce_key id (req_nonce r1))) p) ->
  steps (w, ps) (w', ps') ->
  ps' !! i = Some (Ret (Ok v1)) -> ps' !! j = Some (Ret (Ok v2)) ->
  (clock w + NONCE_TTL <= clock w')%Z.
Proof.
  intros Hij Hi Hj H1 H2 Hn Hk Hs Hi' Hj'.
  destruct (Z.le_gt_cases (clock w + NONCE_TTL) (clock w')) as [|Hlt]; [done|exfalso].
  destruct (steps_exclusive (nonce_key id (req_nonce r1)) (clock w) _ _ i j
    (validate server_secret rpc_url r1) (validate server_secret rpc_url r2) Hij Hs)
    as (p & q & Hp & Hq & Hx); try done.
  - left. split; [by apply validate_guarded|]. rewrite Hn. by apply validate_guarded.
  - simpl in *. simplify_eq. destruct Hx as [[[] _]|[[[]|[]] _]].
Qed.

(** *** Cached grants belong to the session they are stored under *)

Definition cache_keyed w : Prop :=
  forall k e, cached w k = Some e -> session_id (entry_grant e) = k.

Definition stores_keyed X (e : event CachedEntry X) : Prop :=
  match e with CacheInsert k entry => session_id (entry_grant entry) = k | _ => True end.

Definition answers_keyed X (e : event CachedEntry X) : X -> Prop :=
  match e in event _ X return X -> Prop with
  | CacheGet k => fun o =>
      match o with Some entry => session_id (entry_grant entry) = k | None => True end
  | _ => fun _ => True
  end.

Lemma cache_keyed_step {X} (e : event CachedEntry X) w x w' :
  cache_keyed w -> stores_keyed X e -> exec e w = (x, w') ->
  cache_keyed w' /\ answers_keyed X e x.
Proof.
  intros Hw He Hx. split.
  - intros k c Hc. destruct (cache_sources _ _ _ _ _ _ _ Hx Hc) as [?|Hs]; [by apply Hw|].
    destruct e; try done. destruct Hs as [<- <-]. done.
  - destruct e; simpl; try done. apply Services.cache_get in Hx as [->| ->]; [done|].
    destruct (cached w key) eqn:E; [by apply Hw|done].
Qed.

Lemma get_session_grant_id id :
  ensures answers_keyed (get_session_grant server_secret rpc_url id)
    (fun o => match o with Ok (g, _) => session_id g = id | Err _ => True end).
Proof.
  unfold get_session_grant, cache_get.
  apply (ensures_bind _ _ _ (fun o => match o with Some g => session_id g = id | None => True end)).
  - simpl. intros [entry|] Hk; simpl; [|done]. by destruct (constant_time_eq _ _).
  - intros [g|] Hg; (apply ensures_skip_ok; [done|intros b]); [done|].
    eapply ensures_bind; [apply ensures_map_err; eapply ensures_mono; [|apply client_grant_id]|].
    + intros o Ho. instantiate (1 := for_id id). by destruct o as [[]|].
    + intros [[g|]|e] Hg'; simpl; done.
Qed.

Lemma validate_id r :
  ensures answers_keyed (validate server_secret rpc_url r)
    (fun o => match o with Ok v => session_id_bytes r = Ok (session_id (grant v)) | Err _ => True end).
Proof.
  unfold validate. destruct (session_id_bytes r) as [id|e] eqn:E; [|done].
  apply (ensures_bind_ok _ _ _ (fun id' => id' = id)); [done|done|]. intros ? ->.
  eapply (ensures_bind_ok _ _ _ (fun gb : SessionGrant * Z => session_id gb.1 = id));
    [eapply ensures_mono; [|apply get_session_grant_id]; by intros [[]|]|done|].
  intros [g b] Hg. case_match; [done|]. case_match; [done|].
  do 3 (apply ensures_skip_ok; [done|intros ?]). case_match; simpl in *; by subst.
Qed.

(** C21: if every cached grant is under its own session id, then, in any interleaving of
    validations, every validated grant is the one of the session id in its request, and the
    cache stays that way. *)
Theorem validated_grant_is_requested w w' reqs ps' i r v :
  cache_keyed w ->
  steps (w, validate server_secret rpc_url <$> reqs) (w', ps') ->
  reqs !! i = Some r -> ps' !! i = Some (Ret (Ok v)) ->
  cache_keyed w' /\ session_id_bytes r = Ok (session_id (grant v)).
Proof.
  intros Hw Hs Hr Hv.
  destruct (steps_ensures cache_keyed stores_keyed answers_keyed
    (w, validate server_secret rpc_url <$> reqs) (w', ps') i
    (validate server_secret rpc_url r)
    (fun o => match o with Ok v => session_id_bytes r = Ok (session_id (grant v)) | Err _ => True end)
    (Ok v)) as [? ?]; try done.
  - intros. by eapply cache_keyed_step.
  - simpl. intros p (r' & -> & _)%list_elem_of_fmap. apply validate_all.
    intros id X e He. destruct e; simpl in *; try done. naive_solver.
  - simpl. by rewrite list_lookup_fmap, Hr.
  - apply validate_id.
Qed.

(** *** Refused requests *)

Lemma run_view {A} (m : prog (event CachedEntry) A) w a w' :
  all_events (fun X e => is_redis e = false) m -> run m w = (a, w') -> view w' = view w.
Proof.
  revert w. induction m as [b|X e k IH]; simpl; intros w Hm H; [by simplify_eq|].
  destruct Hm as [He Hk]. destruct (exec e w) as [x w1] eqn:E.
  rewrite (IH x w1 (Hk x) H). by eapply view_frame.
Qed.

(** [validate] touches Redis only to consume the nonce of a request that passed every
    other check: a request refused for any reason but a failing Redis leaves the keyspace
    as it was, and a validated one adds exactly the record of its nonce, which was absent,
    for [NONCE_TTL] seconds. *)
Theorem validate_effect r w o w' :
  run (validate server_secret rpc_url r) w = (o, w') ->
  match o with
  | Ok _ => exists id k, session_id_bytes r = Ok id /\ k = nonce_key id (req_nonce r) /\
      live (clock w') (view w) k = None /\
      view w' = <[k := Entry (RStr "1") (Some (clock w' + NONCE_TTL)%Z)]> (view w)
  | Err (CryptoFailure _) => True
  | Err _ => view w' = view w
  end.
Proof.
  unfold validate. destruct (session_id_bytes r) as [id|e] eqn:Eid;
    [|by intros [= <- <-]].
  change (bind_ok (Ret _) ?k) with (k id). cbv beta. intros H.
  apply run_bind_inv in H as (gb & w1 & Hg & H).
  apply run_view in Hg; [|eapply all_events_mono; [|apply get_session_grant_events]].
  2:{ intros X e. by destruct e. }
  destruct gb as [[g b]|e]; [|injection H as <- <-; by destruct e].
  destruct (_ <=? _)%Z; [by injection H as <- <-|].
  destruct (is_revoked g); [by injection H as <- <-|].
  destruct (check_scope _ _) as [[]|e]; [|injection H as <- <-; by destruct e].
  destruct (verify_signature _ _) as [[]|e]; [|injection H as <- <-; by destruct e].
  change (bind_ok (Ret (Ok ?a)) ?k) with (k a) in H. cbv beta in H.
  change (bind_ok (Ret (Ok ?a)) ?k) with (k a) in H. cbv beta in H.
  apply run_bind_inv in H as (fresh & w2 & Hf & H).
  apply run_bind_inv in Hf as (fresh' & w3 & Hf & Hm). injection Hm as <- <-.
  destruct fresh' as [fresh|e]; [|by injection H as <- <-]. simpl in H.
  unfold check_and_consume_nonce in Hf.
  apply run_bind_ok in Hf as ([] & w4 & Hc & Hf).
  apply run_map_err_ok in Hc, Hf. rewrite run_trigger in Hc. rewrite run_trigger in Hf.
  apply (view_frame _ Connect) in Hc; [|done]. apply redis_ok in Hf. simpl in Hf.
  rewrite Hc, Hg in Hf.
  destruct fresh; injection H as <- <-.
  - exists id, (nonce_key id (req_nonce r)). destruct (live _ _ _); naive_solver.
  - destruct (live _ _ _); naive_solver.
Qed.

Lemma validate_keeps k r : all_events (keeps k) (validate server_secret rpc_url r).
Proof.
  apply validate_all. intros id X e. case_redis e as X c; try done.
  destruct c; simpl; naive_solver.
Qed.

End Validators.

(** ** What the nonce record and the signed message identify *)

Section Binding.
Context {prims : Primitives} {laws : PrimitivesLaws}.

(** Different sessions or different nonces have different nonce records. *)
Theorem nonce_key_injective id1 id2 n1 n2 :
  length id1 = length id2 -> nonce_key id1 n1 = nonce_key id2 n2 -> id1 = id2 /\ n1 = n2.
Proof.
  intros L H. unfold nonce_key in H. apply append_inj_len in H as [_ H]; [|done].
  apply append_inj_len in H as [H1 H2]; [|by rewrite !hex_length, L].
  apply append_inj_len in H2 as [_ H2%(inj display_Z)]; [|done]. split; [|done].
  apply (f_equal hex_decode) in H1. rewrite !hex_roundtrip in H1. by simplify_eq.
Qed.

(** The message a request signs determines its session, header hash and nonce, up to a
    collision of SHA-256: fields of fixed width are concatenated, so no two requests share
    a preimage. *)
Theorem signing_message_binds r1 r2 id1 id2 m :
  session_id_bytes r1 = Ok id1 -> session_id_bytes r2 = Ok id2 ->
  length (req_header_hash r1) = 32 -> length (req_header_hash r2) = 32 ->
  in_u64 (req_nonce r1) -> in_u64 (req_nonce r2) ->
  compute_signing_message r1 = Ok m -> compute_signing_message r2 = Ok m ->
  (id1 = id2 /\ req_header_hash r1 = req_header_hash r2 /\ req_nonce r1 = req_nonce r2) \/
  exists a b, a <> b /\ sha256 a = sha256 b.
Proof.
  unfold session_id_bytes, compute_signing_message. intros H1 H2 L1 L2 N1 N2 M1 M2.
  destruct (hex_decode (req_session_id r1)) as [i1|]; [|done].
  destruct (hex_decode (req_session_id r2)) as [i2|]; [|done].
  destruct (Nat.eqb_spec (length i1) 32), (Nat.eqb_spec (length i2) 32); simplify_eq.
  destruct (decide (id1 ++ req_header_hash r1 ++ u64_le (req_nonce r1) =
                    id2 ++ req_header_hash r2 ++ u64_le (req_nonce r2))) as [E|E].
  - left. apply app_inj_1 in E as [-> E]; [|congruence].
    apply app_inj_1 in E as [-> E]; [|congruence]. split_and!; [done|done|].
    by apply le_bytes_inj in E.
  - right. eauto.
Qed.
End Binding.

(** ** On a concrete node *)

Definition sample_run : sim CachedEntry := snd (run (sample_validate 7) (sample_node [] 10 20 0)).

Lemma sample_path : exists tr, path (sample_validate 7) tr (Ok (sample_validated 10 20)).
Proof.
  apply (run_path _ (sample_node [] 10 20 0) _ sample_run). vm_compute. reflexivity.
Defined.

Lemma validate_sound_witness :
  exists tr : list (answer (event CachedEntry)),
    answered (Redis (SETNXEX (nonce_key sample_id 7) "1" NONCE_TTL)) (Ok true) ∈ tr.
Proof.
  destruct sample_path as [tr Htr]. exists tr.
  destruct (validate_sound sample_secret "ws://node" (sample_request 7) tr
    (sample_validated 10 20) Htr) as (id & Hid & _ & _ & _ & _ & _ & _ & _ & Hn).
  assert (id = sample_id) as -> by (vm_compute in Hid; by injection Hid as <-). exact Hn.
Defined.

Lemma validate_effect_witness :
  exists id k, session_id_bytes (sample_request 7) = Ok id /\ k = nonce_key id 7 /\
    live (clock sample_run) (view (sample_node [] 10 20 0)) k = None /\
    view sample_run =
      <[k := Entry (RStr "1") (Some (clock sample_run + NONCE_TTL)%Z)]> (view (sample_node [] 10 20 0)).
Proof.
  apply (validate_effect sample_secret "ws://node" (sample_request 7) (sample_node [] 10 20 0)
    (Ok (sample_validated 10 20)) sample_run).
  vm_compute. reflexivity.
Defined.

(** A node that answers after a pause of 300 seconds once the first validation, of 13
    events, is over. *)
Definition slow_node (pause : Z) : sim CachedEntry :=
  sample_node (replicate 13 0%Z ++ [pause]) 10 20 0.
Definition two_uses : list (prog (event CachedEntry) (result ValidatedSession ValidationError)) :=
  [sample_validate 7; sample_validate 7].
Definition one_after_the_other : list nat := replicate 13 0 ++ replicate 6 1.

(** Once the record of a nonce has expired, the same signed request is validated again
    although its session still lasts; within [NONCE_TTL] seconds it is a replay. *)
Theorem nonce_replay_after_ttl :
  snd (schedule one_after_the_other (slow_node 299, two_uses)) =
    [Ret (Ok (sample_validated 10 20)); Ret (Err NonceReplay)] /\
  snd (schedule one_after_the_other (slow_node 300, two_uses)) =
    [Ret (Ok (sample_validated 10 20)); Ret (Ok (sample_validated 10 20))].
Proof. split; vm_compute; reflexivity. Qed.

Lemma nonce_single_use_witness :
  (clock (slow_node 300) + NONCE_TTL <=
   clock (schedule one_after_the_other (slow_node 300, two_uses)).1)%Z.
Proof.
  apply (nonce_single_use sample_secret "ws://node" (slow_node 300)
    (schedule one_after_the_other (slow_node 300, two_uses)).1 two_uses
    (schedule one_after_the_other (slow_node 300, two_uses)).2 0 1
    (sample_request 7) (sample_request 7) (sample_validated 10 20) (sample_validated 10 20)
    sample_id); [done|exact eq_refl|exact eq_refl|vm_compute; reflexivity
    |vm_compute; reflexivity|exact eq_refl| | |vm_compute; reflexivity|vm_compute; reflexivity].
  - intros p [->|[->|[]%not_elem_of_nil]%elem_of_cons]%elem_of_cons; apply validate_keeps.
  - rewrite <-surjective_pairing. apply steps_schedule.
Defined.

Lemma validated_grant_is_requested_witness :
  cache_keyed (schedule one_after_the_other (slow_node 300, two_uses)).1 /\
  session_id_bytes (sample_request 7) = Ok sample_id.
Proof.
  apply (validated_grant_is_requested sample_secret "ws://node" (slow_node 300)
    (schedule one_after_the_other (slow_node 300, two_uses)).1
    [sample_request 7; sample_request 7]
    (schedule one_after_the_other (slow_node 300, two_uses)).2 0
    (sample_request 7) (sample_validated 10 20));
    [by intros k e| |exact eq_refl|vm_compute; reflexivity].
  change (validate sample_secret "ws://node" <$> [sample_request 7; sample_request 7])
    with two_uses.
  rewrite <-surjective_pairing. apply steps_schedule.
Defined.


Lemma nonce_key_injective_witness : sample_id = sample_id /\ 7%Z = 7%Z.
Proof. apply (nonce_key_injective sample_id sample_id 7 7); reflexivity. Defined.

Lemma signing_message_binds_witness :
  (sample_id = sample_id /\ sample_scope = sample_scope /\ 7%Z = 7%Z) \/
  exists a b : bytes, a <> b /\ sha256 a = sha256 b.
Proof.
  eapply (signing_message_binds (sample_request 7) (sample_request 7) sample_id sample_id);
    try (vm_compute; reflexivity); try (split; vm_compute; done).
Defined.

(** A node whose chain went back by hundreds of blocks fails the health check, but the
    same node is believed by [validate]: [current_block] records the lower block before the
    health check compares with it, and a session that had expired is validated again. *)
Theorem block_regression_unnoticed :
  let w := sample_node [] 10 500 1000 in
  fst (run (validate_node_health "ws://node") w) = Err (BlockRegression 10 1000) /\
  fst (run (sample_validate 7) w) = Ok (sample_validated 10 500).
Proof. split; vm_compute; reflexivity. Qed.
