(* ===== verification/MediaApi.v ===== *)
(** * Media key delivery (src/src/modules/media_api.rs, src/src/modules/crypto.rs)

    The HTTP handlers for streaming media.  They call the session manager, the chain
    validator (through its trait), the NanoTDF parser and the metrics, and release a content
    key to a client.  What the crates compute (base64, PEM, elliptic-curve and RSA
    operations, the rewrapping of [opentdf_kas], JSON values, UUIDs) is the class
    [MediaCrates]; the FairPlay SDK is an event. *)
From S2P Require Import Prelude Services NanoTdf SessionManager Crypto Chain MediaMetrics.

(** ** What the crates provide *)

Class MediaCrates := {
  base64_decode : string -> result bytes string;
  base64_encode : bytes -> string;
  utf8_error : bytes -> string;
  pem_parse : string -> result bytes string;
  pem_encode : string -> bytes -> string;
  PublicKey : Type;
  from_sec1_bytes : bytes -> result PublicKey string;
  from_public_key_der : bytes -> result PublicKey string;
  to_public_key_der : PublicKey -> result bytes string;
  EphemeralSecret : Type;
  ephemeral_random : bytes -> EphemeralSecret;
  ephemeral_public : EphemeralSecret -> PublicKey;
  diffie_hellman : EphemeralSecret -> PublicKey -> bytes;
  SecretKey : Type;
  custom_ecdh : SecretKey -> PublicKey -> result bytes string;
  NanoTdfVersion : Type;
  V12 : NanoTdfVersion;
  detect_nanotdf_version : bytes -> option NanoTdfVersion;
  compute_nanotdf_salt : NanoTdfVersion -> bytes;
  rewrap_dek : bytes -> bytes -> bytes -> bytes -> bytes -> bytes -> result (bytes * bytes) string;
  RsaPrivateKey : Type;
  rsa_oaep_sha1_decrypt : RsaPrivateKey -> bytes -> result bytes string;
  JsonValue : Type;
  json_from_str : string -> result JsonValue string;
  json_get : JsonValue -> string -> option JsonValue;
  json_index : JsonValue -> nat -> option JsonValue;
  json_as_str : JsonValue -> option string;
  uuid_v4 : bytes -> string;
}.

(** ** Data *)

Definition MAX_SPC_DATA_SIZE : Z := 64 * 1024.
Definition MAX_NANOTDF_HEADER_SIZE : Z := 16 * 1024.

Record MediaKeyRequest := {
  kr_session_id : string;
  kr_user_id : string;
  kr_asset_id : string;
  kr_segment_index : option Z;
  client_public_key : option string;
  nanotdf_header : option string;
  spc_data : option string;
  tdf_manifest : option string;
  tdf_wrapped_key : option string;
  chain_session_id : option string;
  chain_header_hash : option string;
  chain_signature : option string;
  chain_nonce : option Z;
  chain_algorithm : option string;
}.

(** The JSON object of a response's metadata. *)
Inductive Metadata : Set :=
| tdf3_metadata (latency_ms : Z) (segment_index : option Z)
| fairplay_metadata (latency_ms : Z) (segment_index : option Z) (protocol : string) (ckc_size : Z).

Record MediaKeyResponse := {
  session_public_key : string;
  wrapped_key : string;
  status : string;
  metadata : option Metadata;
}.

Record SessionStartRequest := {
  ss_user_id : string;
  ss_asset_id : string;
  ss_protocol : option MediaProtocol;
  ss_geo_region : option string;
  ss_user_agent : option string;
}.

Record SessionStartResponse := {
  sr_session_id : string;
  sr_status : string;
}.

Record SessionHeartbeatRequest := {
  hb_state : option string;
  hb_segment_index : option Z;
}.

Record SessionHeartbeatResponse := {
  hr_status : string;
  last_heartbeat : Z;
}.

Record ErrorResponse := {
  error : string;
  message : string;
}.

(** The HTTP status of an error; the body is its JSON. *)
Definition into_response (e : ErrorResponse) : Z * ErrorResponse :=
  let status :=
    if bool_decide (error e = "authentication_failed"%string) then 401%Z
    else if bool_decide (error e = "policy_denied"%string) then 403%Z
    else if bool_decide (error e = "session_not_found"%string) then 404%Z
    else if bool_decide (error e = "concurrency_limit"%string) then 429%Z
    else if bool_decide (error e = "invalid_request"%string) then 400%Z
    else 500%Z in
  (status, e).

(** ** Texts of errors *)

Definition session_error_text (e : SessionManagerError) : string :=
  match e with
  | RedisFailure e => "Redis error: " +:+ redis_text e
  | SerializationError e => "Serialization error: " +:+ e
  | SessionManager.SessionNotFound => "Session not found"
  | ConcurrencyLimitExceeded current max =>
      "Concurrency limit exceeded: " +:+ display_Z current +:+ "/" +:+ display_Z max
  end.

Definition chain_error_text (e : ChainError) : string :=
  match e with
  | ConnectionFailed url reason =>
      "Failed to connect to chain RPC at " +:+ url +:+ ": " +:+ reason
  | NodeSyncing => "Chain node is syncing, cannot trust responses"
  | NoPeers => "Chain node has no peers, may be isolated"
  | BlockRegression current expected =>
      "Block height regression: current " +:+ display_Z current +:+ " < expected " +:+
      display_Z expected
  | RpcError e => "RPC request failed: " +:+ e
  | DecodeError e => "Failed to decode chain storage: " +:+ e
  | ContractNotFound => "Contract not found at address"
  | StorageKeyNotFound => "Storage key not found"
  end.

Definition parsing_error_text (e : ParsingError) : string :=
  match e with
  | InvalidFormat => "InvalidFormat"
  | InvalidMagicNumber => "InvalidMagicNumber"
  | InvalidVersion => "InvalidVersion"
  | InvalidKas => "InvalidKas"
  | InvalidEccMode => "InvalidEccMode"
  | InvalidPayloadSigMode => "InvalidPayloadSigMode"
  | InvalidPolicy => "InvalidPolicy"
  | InvalidEphemeralKey => "InvalidEphemeralKey"
  end.

Definition display_nat (n : nat) : string := display_Z (Z.of_nat n).

Abbreviation invalid_request msg := {| error := "invalid_request"; message := msg |}.
Abbreviation authentication_failed msg := {| error := "authentication_failed"; message := msg |}.
Abbreviation policy_denied msg := {| error := "policy_denied"; message := msg |}.
Abbreviation internal_error msg := {| error := "internal_error"; message := msg |}.
Abbreviation configuration_error msg := {| error := "configuration_error"; message := msg |}.

(** The answer to a request the chain validator refused. *)
Definition validation_error_response (e : ValidationError) : ErrorResponse :=
  match e with
  | SessionNotFound session_id => policy_denied ("Session not found: " +:+ session_id)
  | SessionExpired expired_at current =>
      policy_denied ("Session expired at block " +:+ display_Z expired_at +:+ " (current: " +:+
                     display_Z current +:+ ")")
  | SessionRevoked => policy_denied "Session has been revoked"
  | SignatureInvalid reason =>
      authentication_failed ("Invalid proof-of-possession signature: " +:+ reason)
  | NonceReplay => authentication_failed "Nonce already used (replay attack detected)"
  | ScopeMismatch resource_id =>
      policy_denied ("Resource " +:+ resource_id +:+ " not in session scope")
  | HeaderHashMismatch client server =>
      authentication_failed ("Header hash mismatch: client=" +:+ client +:+ ", server=" +:+ server)
  | ChainFailure e => internal_error ("Chain query failed: " +:+ chain_error_text e)
  | CryptoFailure e => internal_error ("Crypto error: " +:+ e)
  end.

(** ** Programs that may panic *)

Abbreviation io A := (prog (event CachedEntry) A).

Definition handler (A E : Type) : Type := io (outcome (result A E)).

Definition hbind {A B E} (m : handler A E) (k : A -> handler B E) : handler B E :=
  bind m (fun o => match o with
                   | Done (Ok a) => k a
                   | Done (Err e) => Ret (Done (Err e))
                   | Panic => Ret Panic
                   end).

(** A call that cannot panic, one that cannot fail either, a pure result, and the
    conversion of a call's error. *)
Definition call {A E} (m : io (result A E)) : handler A E := bind m (fun r => Ret (Done r)).
Definition perform {A E} (m : io A) : handler A E := bind m (fun a => Ret (Done (Ok a))).
Definition pure {A E} (r : result A E) : handler A E := Ret (Done r).
Definition handler_map_err {A E F} (f : E -> F) (m : handler A E) : handler A F :=
  bind m (fun o => Ret (match o with Done r => Done (map_err f r) | Panic => Panic end)).

Notation "'let+' x := m 'in' k" := (hbind m (fun x => k))
  (at level 10, x pattern, m at level 100, k at level 200) : rust_scope.

Section MediaApi.
Context {prims : Primitives} {sjson : SessionJson} {ejson : MediaEventJson} {crates : MediaCrates}.

(** ** PEM keys (crypto.rs) *)

Definition parse_pem_public_key (pem_str : string) : result PublicKey string :=
  let? contents := pem_parse pem_str in
  if (length contents =? 65) || (length contents =? 33) then from_sec1_bytes contents
  else match from_public_key_der contents with
       | Ok key => Ok key
       | Err _ => from_sec1_bytes contents
       end.

Definition public_key_to_pem (public_key : PublicKey) : result string string :=
  let? spki_der := to_public_key_der public_key in
  Ok (pem_encode "PUBLIC KEY" spki_der).

(** ** State *)

(** The trait [SessionValidator], and the state of http_rewrap.rs. *)
Definition SessionValidator : Type :=
  ChainValidationRequest -> io (result ValidatedSession ValidationError).

Record RewrapState := {
  kas_ec_private_key : SecretKey;
  kas_ec_public_key_pem : string;
  kas_rsa_private_key : option RsaPrivateKey;
  kas_rsa_public_key_pem : option string;
  oauth_public_key_pem : option string;
  rewrap_chain_validator : option SessionValidator;
}.

Record MediaApiState := {
  rewrap_state : RewrapState;
  session_manager : SessionManager;
  media_metrics : MediaMetrics;
  fairplay_handler : bool;
  chain_validator : option SessionValidator;
  fairplay_certificate_data : option bytes;
}.

(** ** Helper functions *)

Definition detect_protocol (payload : MediaKeyRequest) : option MediaProtocol :=
  if bool_decide (is_Some (spc_data payload)) then Some FairPlay
  else if bool_decide (is_Some (nanotdf_header payload)) &&
          bool_decide (is_Some (client_public_key payload)) then Some TDF3
  else None.

Definition extract_dek_from_wrapped_key (wrapped_key_b64 : string) (rsa_private_key : RsaPrivateKey) :
    result bytes string :=
  let? wrapped_key_bytes :=
    map_err (fun e => "Failed to decode wrapped key base64: " +:+ e) (base64_decode wrapped_key_b64) in
  if negb (length wrapped_key_bytes =? 256) then
    Err ("Invalid RSA-wrapped key size: " +:+ display_nat (length wrapped_key_bytes) +:+
         " bytes (expected 256 for RSA-2048)")
  else
  let? dek :=
    map_err (fun e => "RSA-OAEP decryption failed: " +:+ e)
      (rsa_oaep_sha1_decrypt rsa_private_key wrapped_key_bytes) in
  if negb (length dek =? 16) && negb (length dek =? 32) then
    Err ("Unexpected DEK size: " +:+ display_nat (length dek) +:+ " bytes (expected 16 or 32)")
  else Ok dek.

Definition extract_dek_from_tdf_manifest (manifest_b64 : string) (rsa_private_key : RsaPrivateKey) :
    result bytes string :=
  let? manifest_bytes :=
    map_err (fun e => "Failed to decode manifest base64: " +:+ e) (base64_decode manifest_b64) in
  let? manifest_str :=
    ok_or ("Invalid UTF-8 in manifest: " +:+ utf8_error manifest_bytes) (from_utf8 manifest_bytes) in
  let? manifest :=
    map_err (fun e => "Invalid JSON in manifest: " +:+ e) (json_from_str manifest_str) in
  let? wrapped_key_b64 :=
    ok_or "Missing encryptionInformation.keyAccess[0].wrappedKey in manifest"%string
      (ei ← json_get manifest "encryptionInformation"; ka ← json_get ei "keyAccess";
       kao ← json_index ka 0; wk ← json_get kao "wrappedKey"; json_as_str wk) in
  extract_dek_from_wrapped_key wrapped_key_b64 rsa_private_key.

Definition log_key_request_error (st : MediaApiState) (payload : MediaKeyRequest)
    (res : KeyRequestResult) (latency_ms : Z) : io unit :=
  let* now := trigger Now in
  publish_event (media_metrics st)
    (KeyRequest (kr_session_id payload) (kr_user_id payload) (kr_asset_id payload)
       (kr_segment_index payload) res latency_ms now).

Definition validate_session (st : MediaApiState) (payload : MediaKeyRequest) (timer : RequestTimer) :
    io (result PlaybackSession ErrorResponse) :=
  let* r := heartbeat (kr_session_id payload) None (kr_segment_index payload) in
  match r with
  | Err _ =>
    let* latency := elapsed_ms timer in
    let* _ := log_key_request_error st payload InvalidRequest latency in
    Ret (Err {| error := "session_not_found";
                message := "Session " +:+ kr_session_id payload +:+ " not found or expired" |})
  | Ok session =>
    if negb (bool_decide (user_id session = kr_user_id payload)) then
      let* latency := elapsed_ms timer in
      let* _ := log_key_request_error st payload AuthenticationFailed latency in
      Ret (Err (authentication_failed "User ID does not match session"))
    else Ret (Ok session)
  end.

(** The part of [validate_chain_session] before the call of the validator: the request it
    builds. *)
Definition chain_request (payload : MediaKeyRequest) : result ChainValidationRequest ErrorResponse :=
  let? session_id := ok_or (invalid_request "chain_session_id is required") (chain_session_id payload) in
  let? signature := ok_or (invalid_request "chain_signature is required") (chain_signature payload) in
  let? nonce := ok_or (invalid_request "chain_nonce is required") (chain_nonce payload) in
  let? client_header_hash_hex :=
    ok_or (invalid_request "chain_header_hash is required for DPoP binding")
      (chain_header_hash payload) in
  let? client_header_hash :=
    map_err (fun e => invalid_request ("Invalid chain_header_hash hex encoding: " +:+ e))
      (hex_decode client_header_hash_hex) in
  check (if negb (length client_header_hash =? 32) then
           Err (invalid_request ("chain_header_hash must be 32 bytes, got " +:+
                                 display_nat (length client_header_hash)))
         else Ok tt) ;;
  let? header_b64 :=
    ok_or (invalid_request "nanotdf_header is required for chain validation")
      (nanotdf_header payload) in
  let? header_bytes :=
    map_err (fun e => invalid_request ("Invalid nanotdf_header base64 encoding: " +:+ e))
      (base64_decode header_b64) in
  let server_header_hash := sha256 header_bytes in
  check (if negb (bool_decide (client_header_hash = server_header_hash)) then
           Err (authentication_failed "chain_header_hash does not match actual header content")
         else Ok tt) ;;
  let? signature_bytes :=
    map_err (fun e => invalid_request ("Invalid chain_signature encoding: " +:+ e))
      (base64_decode signature) in
  Ok {| req_session_id := session_id; req_header_hash := server_header_hash;
        req_resource_id := hex_encode server_header_hash; req_signature := signature_bytes;
        req_algorithm := default "ES256"%string (chain_algorithm payload); req_nonce := nonce |}.

Definition validate_chain_session (st : MediaApiState) (payload : MediaKeyRequest) :
    io (result unit ErrorResponse) :=
  match chain_validator st with
  | None => Ret (Ok tt)
  | Some validator =>
    let*? validation_request := Ret (chain_request payload) in
    let* r := validator validation_request in
    match r with
    | Ok _ => Ret (Ok tt)
    | Err e => Ret (Err (validation_error_response e))
    end
  end.

(** ** Key requests *)

(** Drawing randomness is part of [rewrap_dek], after everything that can fail. *)
Definition process_nanotdf_header (header_base64 : string) (kas_private_key : SecretKey)
    (session_shared_secret : bytes) : handler string string :=
  let+ header_bytes := pure (base64_decode header_base64) in
  let+ header :=
    Ret (let! r := parse_header (new header_bytes) in Done (map_err parsing_error_text r.1)) in
  let tdf_ephemeral_key_bytes := get_ephemeral_key header in
  if negb (length tdf_ephemeral_key_bytes =? 33) then
    pure (Err ("Invalid ephemeral key size: " +:+ display_nat (length tdf_ephemeral_key_bytes) +:+
               " (expected 33)"))
  else
  let+ tdf_ephemeral_public_key := pure (from_sec1_bytes tdf_ephemeral_key_bytes) in
  let+ dek_shared_secret := pure (custom_ecdh kas_private_key tdf_ephemeral_public_key) in
  let dek_salt :=
    match detect_nanotdf_version header_bytes with
    | Some version => compute_nanotdf_salt version
    | None => compute_nanotdf_salt V12
    end in
  let session_salt := compute_nanotdf_salt V12 in
  let+ rng := perform (trigger Random) in
  let+ (nonce, wrapped_dek) :=
    pure (rewrap_dek rng dek_shared_secret session_shared_secret dek_salt session_salt []) in
  pure (Ok (base64_encode (nonce ++ wrapped_dek))).

(** The event of a released key. *)
Definition log_success (st : MediaApiState) (payload : MediaKeyRequest) (latency : Z) : io unit :=
  let* now := trigger Now in
  publish_event (media_metrics st)
    (KeyRequest (kr_session_id payload) (kr_user_id payload) (kr_asset_id payload)
       (kr_segment_index payload) Success latency now).

Definition handle_tdf3_key_request (st : MediaApiState) (payload : MediaKeyRequest)
    (timer : RequestTimer) : handler MediaKeyResponse ErrorResponse :=
  let+ _ := call (validate_session st payload timer) in
  let+ _ := call (validate_chain_session st payload) in
  let+ header :=
    pure (ok_or (invalid_request "Missing nanotdf_header for TDF3") (nanotdf_header payload)) in
  if (MAX_NANOTDF_HEADER_SIZE * 4 / 3 <? Z.of_nat (String.length header))%Z then
    pure (Err (invalid_request
      ("NanoTDF header too large: " +:+ display_nat (String.length header) +:+ " bytes (max " +:+
       display_Z (MAX_NANOTDF_HEADER_SIZE * 4 / 3) +:+ " bytes encoded)")))
  else
  let+ client_public_key_pem :=
    pure (ok_or (invalid_request "Missing client_public_key for TDF3") (client_public_key payload)) in
  let+ client_key :=
    pure (map_err (fun e => invalid_request
                     ("Invalid client public key: Failed to parse PEM public key: " +:+ e))
            (parse_pem_public_key client_public_key_pem)) in
  let+ rng := perform (trigger Random) in
  let session_private_key := ephemeral_random rng in
  let+ session_public_key_pem :=
    pure (map_err (fun e => internal_error
                     ("Failed to generate session key: Failed to convert public key to PEM: " +:+ e))
            (public_key_to_pem (ephemeral_public session_private_key))) in
  let session_shared_secret := diffie_hellman session_private_key client_key in
  let+ wrapped_key :=
    handler_map_err (fun e => internal_error ("Key processing failed: " +:+ e))
      (process_nanotdf_header header (kas_ec_private_key (rewrap_state st)) session_shared_secret) in
  let+ latency := perform (elapsed_ms timer) in
  let+ _ := perform (record_key_request_latency (media_metrics st) latency) in
  let+ _ := perform (log_success st payload latency) in
  pure (Ok {| session_public_key := session_public_key_pem; wrapped_key := wrapped_key;
              status := "success";
              metadata := Some (tdf3_metadata latency (kr_segment_index payload)) |}).

(** The extraction of the content key in [handle_fairplay_key_request]; [refuse] is the
    logging of a refused key. *)
Definition fairplay_content_key (debug_assertions : bool) (st : MediaApiState)
    (payload : MediaKeyRequest) (timer : RequestTimer) : io (result bytes ErrorResponse) :=
  let refuse res e : io (result bytes ErrorResponse) :=
    let* latency := elapsed_ms timer in
    let* _ := log_key_request_error st payload res latency in
    Ret (Err e) in
  let rsa_key :=
    ok_or (configuration_error
             "RSA key not configured. Set KAS_RSA_KEY_PATH for Standard TDF support.")
      (kas_rsa_private_key (rewrap_state st)) in
  match tdf_manifest payload, tdf_wrapped_key payload with
  | Some manifest, _ =>
    let*? rsa_key := Ret rsa_key in
    match extract_dek_from_tdf_manifest manifest rsa_key with
    | Ok dek => Ret (Ok dek)
    | Err e => refuse PolicyDenied
        (invalid_request ("Failed to extract content key from TDF manifest: " +:+ e))
    end
  | None, Some wrapped =>
    let*? rsa_key := Ret rsa_key in
    match extract_dek_from_wrapped_key wrapped rsa_key with
    | Ok dek => Ret (Ok dek)
    | Err e => refuse PolicyDenied
        (invalid_request ("Failed to decrypt wrapped content key: " +:+ e))
    end
  | None, None =>
    if debug_assertions then Ret (Ok (replicate 16 x00))
    else refuse InvalidRequest
      (invalid_request "FairPlay requests require tdf_manifest or tdf_wrapped_key containing RSA-wrapped content key. See docs/standard_tdf_fairplay_integration.md")
  end.

(** [FairPlayHandler::process_key_request] of modules/fairplay.rs; the SDK runs in a
    blocking task. *)
Definition process_key_request (content_id asset_id : string) (spc_data content_key : bytes) :
    io (result bytes string) :=
  trigger (FairPlaySpc content_id asset_id spc_data content_key).

Definition handle_fairplay_key_request (debug_assertions : bool) (st : MediaApiState)
    (payload : MediaKeyRequest) (timer : RequestTimer) : io (result MediaKeyResponse ErrorResponse) :=
  let*? session := validate_session st payload timer in
  let*? _ := validate_chain_session st payload in
  if negb (bool_decide (protocol session = FairPlay)) then
    Ret (Err (invalid_request "Session was created with different protocol"))
  else
  let*? spc_data_base64 :=
    Ret (ok_or (invalid_request "Missing spc_data for FairPlay") (spc_data payload)) in
  if (MAX_SPC_DATA_SIZE * 4 / 3 <? Z.of_nat (String.length spc_data_base64))%Z then
    Ret (Err (invalid_request
      ("SPC data too large: " +:+ display_nat (String.length spc_data_base64) +:+ " bytes (max " +:+
       display_Z (MAX_SPC_DATA_SIZE * 4 / 3) +:+ " bytes encoded)")))
  else
  let*? spc :=
    Ret (map_err (fun e => invalid_request ("Invalid base64 SPC data: " +:+ e))
           (base64_decode spc_data_base64)) in
  if (MAX_SPC_DATA_SIZE <? Z.of_nat (length spc))%Z then
    Ret (Err (invalid_request
      ("Decoded SPC data too large: " +:+ display_nat (length spc) +:+ " bytes (max " +:+
       display_Z MAX_SPC_DATA_SIZE +:+ " bytes)")))
  else
  let*? content_key := fairplay_content_key debug_assertions st payload timer in
  if negb (length content_key =? 16) && negb (length content_key =? 32) then
    Ret (Err (internal_error ("Invalid content key size: " +:+ display_nat (length content_key) +:+
                              " bytes (expected 16)")))
  else
  let content_key_16 := take 16 content_key in
  if negb (fairplay_handler st) then
    Ret (Err (internal_error "FairPlay handler not initialized"))
  else
  let* r := process_key_request (kr_asset_id payload) (kr_asset_id payload) spc content_key_16 in
  match r with
  | Err e =>
    let* latency := elapsed_ms timer in
    let* _ := log_key_request_error st payload PolicyDenied latency in
    Ret (Err (internal_error ("FairPlay key processing failed: " +:+ e)))
  | Ok ckc_data =>
    let* latency := elapsed_ms timer in
    let* _ := log_success st payload latency in
    Ret (Ok {| session_public_key := ""; wrapped_key := base64_encode ckc_data;
               status := "success";
               metadata := Some (fairplay_metadata latency (kr_segment_index payload) "fairplay"
                                   (Z.of_nat (length ckc_data))) |})
  end.

(** [media_key_request], compiled with the [fairplay] feature and without it. *)
Definition media_key_request (debug_assertions : bool) (st : MediaApiState)
    (payload : MediaKeyRequest) : handler MediaKeyResponse ErrorResponse :=
  let+ timer := perform start in
  let+ protocol :=
    pure (ok_or (invalid_request "Could not detect protocol: provide either (nanotdf_header + client_public_key) for TDF3, or spc_data for FairPlay")
            (detect_protocol payload)) in
  match protocol with
  | TDF3 => handle_tdf3_key_request st payload timer
  | FairPlay => call (handle_fairplay_key_request debug_assertions st payload timer)
  end.

Definition media_key_request_tdf3 (st : MediaApiState) (payload : MediaKeyRequest) :
    handler MediaKeyResponse ErrorResponse :=
  let+ timer := perform start in
  if negb (bool_decide (is_Some (nanotdf_header payload))) ||
     negb (bool_decide (is_Some (client_public_key payload))) then
    pure (Err (invalid_request "TDF3 requires nanotdf_header and client_public_key"))
  else if bool_decide (is_Some (spc_data payload)) then
    pure (Err {| error := "not_implemented";
                 message := "FairPlay support not compiled in (use --features fairplay)" |})
  else handle_tdf3_key_request st payload timer.

(** The certificate, with its status and headers. *)
Definition fairplay_certificate (st : MediaApiState) :
    result (Z * list (string * string) * bytes) ErrorResponse :=
  let? cert_data :=
    ok_or {| error := "not_configured"; message := "FairPlay certificate not configured" |}
      (fairplay_certificate_data st) in
  Ok (200%Z, [("content-type", "application/octet-stream");
              ("cache-control", "public, max-age=86400")]%string, cert_data).

(** ** Sessions *)

(** [client_ip] is the peer address of the connection. *)
Definition session_start (st : MediaApiState) (client_ip : string) (payload : SessionStartRequest) :
    io (result SessionStartResponse ErrorResponse) :=
  let* rng := trigger Random in
  let session_id := ss_user_id payload +:+ ":" +:+ ss_asset_id payload +:+ ":" +:+ uuid_v4 rng in
  let protocol := default TDF3 (ss_protocol payload) in
  let* now := trigger Now in
  let* now' := trigger Now in
  let session :=
    {| SessionManager.session_id := session_id; user_id := ss_user_id payload;
       asset_id := ss_asset_id payload; protocol := protocol; segment_index := None;
       state := Starting; start_timestamp := now; first_play_timestamp := None;
       last_heartbeat_timestamp := now'; client_ip := client_ip;
       geo_region := ss_geo_region payload; user_agent := ss_user_agent payload;
       c2pa_metadata := None |} in
  let* r := create_session (session_manager st) session in
  match r with
  | Ok _ =>
    let* now := trigger Now in
    let* _ := publish_event (media_metrics st)
      (SessionStart session_id (ss_user_id payload) (ss_asset_id payload) client_ip
         (ss_geo_region payload) (ss_user_agent payload) now) in
    Ret (Ok {| sr_session_id := session_id; sr_status := "started" |})
  | Err (ConcurrencyLimitExceeded current max) =>
    let* now := trigger Now in
    let* _ := publish_event (media_metrics st)
      (ConcurrencyLimit (ss_user_id payload) current max now) in
    Ret (Err {| error := "concurrency_limit";
                message := "Maximum concurrent streams (" +:+ display_Z max +:+
                           ") exceeded. Current: " +:+ display_Z current |})
  | Err e => Ret (Err (internal_error ("Failed to create session: " +:+ session_error_text e)))
  end.

Definition parse_state (s : string) : option SessionState :=
  if bool_decide (s = "playing"%string) then Some Playing
  else if bool_decide (s = "paused"%string) then Some Paused
  else if bool_decide (s = "stopped"%string) then Some Stopped
  else None.

Definition session_heartbeat (session_id : string) (payload : SessionHeartbeatRequest) :
    io (result SessionHeartbeatResponse ErrorResponse) :=
  let session_state := hb_state payload ≫= parse_state in
  let* r := heartbeat session_id session_state (hb_segment_index payload) in
  match r with
  | Ok session =>
    Ret (Ok {| hr_status := "ok"; last_heartbeat := last_heartbeat_timestamp session |})
  | Err e =>
    Ret (Err {| error := "session_not_found";
                message := "Session not found: " +:+ session_error_text e |})
  end.

Definition session_terminate (st : MediaApiState) (session_id : string) :
    io (result Z ErrorResponse) :=
  let* found := get_session session_id in
  let* _ :=
    match found with
    | Ok (Some session) =>
      let* now := trigger Now in
      let duration := i64_wrap (now - start_timestamp session) in
      let* now' := trigger Now in
      publish_event (media_metrics st)
        (SessionEnd session_id (user_id session) (asset_id session) duration UserTerminated now')
    | _ => Ret tt
    end in
  let* r := terminate_session session_id in
  match r with
  | Ok _ => Ret (Ok 204%Z)
  | Err e => Ret (Err (internal_error ("Failed to terminate session: " +:+ session_error_text e)))
  end.
End MediaApi.
