(* ===== verification/MediaSample.v ===== *)
(** * A concrete deployment of the media API

    An executable instance of [MediaCrates] (stand-ins with the right types, to run the
    handlers), a NanoTDF, and a world with one playback session and one chain session whose
    scope is the hash of the NanoTDF's header. *)
From S2P Require Import Prelude Services SimWorld NanoTdf SessionManager SessionCodec.
From S2P Require Import Crypto Chain CryptoSample MediaMetrics MediaApi.

#[export] Instance sample_event_json : MediaEventJson :=
  {| event_to_vec := fun e => Ok (as_bytes (event_type e)) |}.

#[export] Instance sample_crates : MediaCrates :=
  {| base64_decode := sample_hex_decode; base64_encode := sample_hex_encode;
     utf8_error := fun _ => "invalid utf-8"%string;
     pem_parse := sample_hex_decode; pem_encode := fun _ b => sample_hex_encode b;
     PublicKey := bytes; from_sec1_bytes := sized 33; from_public_key_der := sized 91;
     to_public_key_der := fun k => Ok k;
     EphemeralSecret := bytes; ephemeral_random := fun rng => rng; ephemeral_public := fun k => k;
     diffie_hellman := fun k pk => k ++ pk;
     SecretKey := bytes; custom_ecdh := fun k pk => Ok (k ++ pk);
     NanoTdfVersion := bool; V12 := false; detect_nanotdf_version := fun _ => None;
     compute_nanotdf_salt := fun v => [if v then x01 else x00];
     rewrap_dek := fun rng dek secret _ _ _ => Ok (rng, dek ++ secret);
     RsaPrivateKey := unit; rsa_oaep_sha1_decrypt := fun _ c => Ok (take 16 c);
     JsonValue := string; json_from_str := fun s => Ok s; json_get := fun v _ => Some v;
     json_index := fun v _ => Some v; json_as_str := fun v => Some v;
     uuid_v4 := sample_hex_encode |}.

(** A NanoTDF header with a remote policy and an 8-byte binding, and one that ends inside
    its binding. *)
Definition cut_prefix : bytes :=
  [x4c; x31; x4c] ++ locator_wire kas_locator ++ [x00; x00] ++ x00 :: locator_wire kas_locator.
Definition sample_header : bytes := cut_prefix ++ replicate 8 xb5 ++ replicate 33 x02.
Definition short_header : bytes := cut_prefix ++ replicate 7 xb5.

Definition sample_rewrap_state : RewrapState :=
  {| kas_ec_private_key := [x09]; kas_ec_public_key_pem := "EC PEM";
     kas_rsa_private_key := Some tt; kas_rsa_public_key_pem := None;
     oauth_public_key_pem := Some "OAUTH PEM"%string;
     rewrap_chain_validator := Some (validate sample_secret "ws://node") |}.

Definition sample_state : MediaApiState :=
  {| rewrap_state := sample_rewrap_state;
     session_manager := new_manager (Some 1%Z); media_metrics := new_metrics true "media" true;
     fairplay_handler := true; chain_validator := Some (validate sample_secret "ws://node");
     fairplay_certificate_data := None |}.

(** A request for the key of [header], signed for the chain session of [CryptoSample]. *)
Definition key_request (user : string) (header : bytes) (spc wrapped : option string) (nonce : Z) :
    MediaKeyRequest :=
  {| kr_session_id := "s1"; kr_user_id := user; kr_asset_id := "asset"; kr_segment_index := Some 3%Z;
     client_public_key := Some (sample_hex_encode (replicate 33 x03));
     nanotdf_header := Some (sample_hex_encode header); spc_data := spc; tdf_manifest := None;
     tdf_wrapped_key := wrapped; chain_session_id := Some (sample_hex_encode sample_id);
     chain_header_hash := Some (sample_hex_encode (sha256 header));
     chain_signature := Some (sample_hex_encode
       (sha256 (sample_id ++ sha256 header ++ u64_le nonce) ++ take 32 sample_key));
     chain_nonce := Some nonce; chain_algorithm := None |}.

Definition media_session (proto : MediaProtocol) : PlaybackSession :=
  {| SessionManager.session_id := "s1"; user_id := "alice"; asset_id := "asset"; protocol := proto;
     segment_index := None; state := Playing; start_timestamp := 90;
     first_play_timestamp := Some 95%Z; last_heartbeat_timestamp := 99; client_ip := "127.0.0.1";
     geo_region := None; user_agent := None; c2pa_metadata := None |}.

(** The session of [alice], and a chain session for [header]. *)
Definition media_world (proto : MediaProtocol) (header : bytes) : sim CachedEntry :=
  {| sim_now := 100; sim_delays := [];
     sim_store := {[ session_key "s1" :=
       Entry (RStr (tree_text (session_tree (media_session proto)))) (Some 399%Z) ]};
     sim_cache := []; sim_height := Ok 10%Z;
     sim_chain := [(compute_session_storage_key sample_id,
                    sample_key ++ sha256 header ++ u64_le 20 ++ [x00] ++ u64_le 1)];
     sim_dialable := true; sim_client := true; sim_block := 0;
     sim_window := []; sim_random := [[x05]; [x06]; [x07]]; sim_published := []; sim_outside := nothing_outside |}.
