(* ===== verification/MediaApiProps.v ===== *)
(** * Correctness of media key delivery

    When a key is released and to whom, when a handler panics, what a refused request still
    changes, and that the API keeps every user within the concurrency limit.  The handlers
    are proved against the interface of the chain validator ([Validates], [QuietValidator]),
    which [ChainProps] discharges. *)
From S2P Require Import Prelude Services SimWorld NanoTdf SessionManager SessionCodec SessionLimit.
From S2P Require Import Crypto Chain CryptoSample ChainProps MediaMetrics MediaApi MediaSample.

(** ** Paths of handlers *)

Section Paths.
Context {A B E : Type}.
Implicit Types tr : list (answer (event CachedEntry)).

Lemma path_hbind (m : handler A E) (k : A -> handler B E) tr (b : B) :
  path (hbind m k) tr (Done (Ok b)) <->
  exists a tr1 tr2, tr = tr1 ++ tr2 /\ path m tr1 (Done (Ok a)) /\ path (k a) tr2 (Done (Ok b)).
Proof.
  unfold hbind. rewrite path_bind. split.
  - intros ([[a|e]|] & tr1 & tr2 & -> & H1 & H2); [by exists a, tr1, tr2|by destruct tr2..].
  - intros (a & tr1 & tr2 & -> & H1 & H2). by exists (Done (Ok a)), tr1, tr2.
Qed.

Lemma path_hbind_panic (m : handler A E) (k : A -> handler B E) tr :
  path (hbind m k) tr Panic <->
  path m tr Panic \/
  exists a tr1 tr2, tr = tr1 ++ tr2 /\ path m tr1 (Done (Ok a)) /\ path (k a) tr2 Panic.
Proof.
  unfold hbind. rewrite path_bind. split.
  - intros ([[a|e]|] & tr1 & tr2 & -> & H1 & H2); [right; by exists a, tr1, tr2|by destruct tr2|].
    left. destruct tr2; [|done]. by rewrite app_nil_r.
  - intros [H|(a & tr1 & tr2 & -> & H1 & H2)]; [|by exists (Done (Ok a)), tr1, tr2].
    exists Panic, tr, []. by rewrite app_nil_r.
Qed.

Lemma path_call (m : prog (event CachedEntry) (result A E)) tr o :
  path (call m) tr o <-> exists r, o = Done r /\ path m tr r.
Proof.
  unfold call. rewrite path_bind. split.
  - intros (r & tr1 & tr2 & -> & H1 & [-> <-]%path_ret). rewrite app_nil_r. eauto.
  - intros (r & -> & H). exists r, tr, []. by rewrite app_nil_r.
Qed.

Lemma path_perform (m : prog (event CachedEntry) A) tr (o : outcome (result A E)) :
  path (perform m) tr o <-> exists a, o = Done (Ok a) /\ path m tr a.
Proof.
  unfold perform. rewrite path_bind. split.
  - intros (r & tr1 & tr2 & -> & H1 & [-> <-]%path_ret). rewrite app_nil_r. eauto.
  - intros (r & -> & H). exists r, tr, []. by rewrite app_nil_r.
Qed.

Lemma path_pure (r : result A E) tr o : path (pure r) tr o <-> tr = [] /\ o = Done r.
Proof. unfold pure. rewrite path_ret. naive_solver. Qed.
End Paths.

Lemma path_hmap_err {A E F} (f : E -> F) (m : handler A E) tr o :
  path (handler_map_err f m) tr o <->
  exists o', path m tr o' /\ o = match o' with Done r => Done (map_err f r) | Panic => Panic end.
Proof.
  unfold handler_map_err. rewrite path_bind. split.
  - intros (r & tr1 & tr2 & -> & H1 & [-> <-]%path_ret). rewrite app_nil_r. eauto.
  - intros (r & H & ->). exists r, tr, []. by rewrite app_nil_r.
Qed.

(** Splits the paths of a handler that ends well into those of its steps. *)
Ltac handler_inv :=
  repeat first
    [ match goal with
      | H : path (hbind _ _) _ (Done (Ok _)) |- _ =>
          apply path_hbind in H as (? & ? & ? & -> & ? & ?)
      | H : path (call _) _ _ |- _ => apply path_call in H as (? & ? & ?); simplify_eq
      | H : path (perform _) _ _ |- _ => apply path_perform in H as (? & ? & ?); simplify_eq
      | H : path (pure _) _ _ |- _ => apply path_pure in H as [-> ?]; simplify_eq
      | H : path (handler_map_err _ _) _ _ |- _ => apply path_hmap_err in H as (? & ? & ?)
      | H : Done _ = Done _ |- _ => injection H as H
      | H : Ok _ = map_err _ _ |- _ => symmetry in H; apply map_err_Ok in H
      | H : Ok _ = ok_or _ _ |- _ => symmetry in H; apply ok_or_Ok in H
      | H : path (bind_ok _ _) _ (Ok _) |- _ => apply path_bind_ok in H as (? & ? & ? & -> & ? & ?)
      | H : path (bind _ _) _ _ |- _ => apply path_bind in H as (? & ? & ? & -> & ? & ?)
      | H : path (await_map_err _ _) _ (Ok _) |- _ => apply path_map_err in H
      | H : path (trigger _) _ _ |- _ => apply path_trigger in H as ->
      | H : path (Ret _) _ _ |- _ => apply path_ret in H as [-> ?]; simplify_eq
      end
    | progress inv_result ].

(** A step that cannot panic. *)
Ltac no_panic H :=
  first [by apply path_pure in H as [] | by apply path_perform in H as (? & ? & _)
        |by apply path_call in H as (? & ? & _)].

Section Release.
Context {prims : Primitives} {scale : Scale}.
Context {sjson : SessionJson} {ejson : MediaEventJson} {crates : MediaCrates}.
Implicit Types (tr : list (answer (event CachedEntry))) (p : MediaKeyRequest).

(** ** What the chain validator promises to the handlers *)

(** A request the validator accepts has [promise]. *)
Class Validates (v : SessionValidator)
    (promise : ChainValidationRequest -> ValidatedSession -> list (answer (event CachedEntry)) -> Prop) : Prop :=
  validates : forall r tr s, path (v r) tr (Ok s) -> promise r s tr.

#[export] Instance chain_validates secret url :
  Validates (validate secret url) (justified secret).
Proof. intros r tr s. apply validate_justified. Qed.

(** The session a key request found: stored under the session id of the request, and of the
    user the request names. *)
Definition authorized p (session : PlaybackSession) tr : Prop :=
  user_id session = kr_user_id p /\
  exists json stored now,
    answered (Redis (GET (session_key (kr_session_id p)))) (Ok (Some json)) ∈ tr /\
    from_str json = Ok stored /\
    session = heartbeat_update now None (kr_segment_index p) stored.

Lemma heartbeat_path id st seg tr s :
  path (heartbeat id st seg) tr (Ok s) ->
  exists json stored now json',
    answered (Redis (GET (session_key id))) (Ok (Some json)) ∈ tr /\
    from_str json = Ok stored /\ s = heartbeat_update now st seg stored /\
    to_string s = Ok json' /\
    answered (Redis (SETEX (session_key id) json' SESSION_HEARTBEAT_TIMEOUT)) (Ok tt) ∈ tr.
Proof.
  unfold heartbeat, connect, redis, deserialize, serialize. intros H.
  apply path_bind_ok in H as ([] & t1 & t2 & -> & _ & H).
  apply path_bind_ok in H as ([json|] & t3 & t4 & -> & Hg & H); [|by handler_inv].
  handler_inv. repeat match goal with x : unit |- _ => destruct x end.
  eexists json, _, _, _. split_and!; [set_solver|done|done|done|set_solver].
Qed.

Lemma validate_session_path st p timer tr s :
  path (validate_session st p timer) tr (Ok s) -> authorized p s tr.
Proof.
  unfold validate_session. intros H. apply path_bind in H as ([s'|e] & t1 & t2 & -> & Hh & H); [|by handler_inv].
  case_bool_decide; cbn [negb] in H; [|by handler_inv]. handler_inv.
  apply heartbeat_path in Hh as (json & stored & now & _ & H1 & H2 & H3 & _).
  split; [done|]. exists json, stored, now. rewrite app_nil_r. done.
Qed.

(** ** The request the validator is asked *)

(** The header of a key request, decoded. *)
Definition header_of p (header : bytes) : Prop :=
  exists b64, nanotdf_header p = Some b64 /\ base64_decode b64 = Ok header.

Lemma chain_request_binds p r :
  chain_request p = Ok r ->
  exists header hash, header_of p header /\ req_header_hash r = sha256 header /\
    chain_header_hash p = Some hash /\ hex_decode hash = Ok (sha256 header) /\
    chain_session_id p = Some (req_session_id r) /\ chain_nonce p = Some (req_nonce r).
Proof.
  unfold chain_request. intros H. inv_result.
  repeat (split_if; simpl in *; inv_result). reflect_bools.
  subst. eexists _, _. unfold header_of. simpl. split_and!; eauto.
Qed.

Lemma validate_chain_session_path st p v promise tr u :
  chain_validator st = Some v -> Validates v promise ->
  path (validate_chain_session st p) tr (Ok u) ->
  exists r s, chain_request p = Ok r /\ promise r s tr.
Proof.
  intros Hv Hp. unfold validate_chain_session. rewrite Hv. intros H.
  apply path_bind_ok in H as (r & t1 & t2 & -> & [-> Hr]%path_ret & H).
  apply path_bind in H as ([s|e] & t3 & t4 & -> & Hs & H); handler_inv.
  exists r, s. rewrite app_nil_r. split; [done|]. by apply validates.
Qed.

(** A chain session justifies the release of the key of [header]. *)
Definition chain_authorized secret p (header : bytes) tr : Prop :=
  exists r s tr', chain_request p = Ok r /\ tr' ⊆ tr /\ justified secret r s tr' /\
    scope_id (grant s) = sha256 header.

(** The validator of a server, if it has one, is that of chain/validator.rs. *)
Definition validates_on_chain secret st : Prop :=
  forall v, chain_validator st = Some v -> exists url, v = validate secret url.

Lemma validate_chain_session_sound secret st p tr u header :
  validates_on_chain secret st -> chain_validator st <> None -> header_of p header ->
  path (validate_chain_session st p) tr (Ok u) -> chain_authorized secret p header tr.
Proof.
  intros Hst Hn (b64 & Hb & Hd) H. destruct (chain_validator st) as [v|] eqn:Hv; [|done].
  destruct (Hst v Hv) as [url ->].
  destruct (validate_chain_session_path _ _ _ _ _ _ Hv (chain_validates secret url) H) as (r & s & Hr & Hj).
  exists r, s, tr. split_and!; [done|done|done|].
  apply chain_request_binds in Hr as (header' & hash & (b64' & Hb' & Hd') & Hh & _).
  destruct Hj as (id & _ & _ & _ & _ & _ & _ & Hs & _). rewrite <-Hs, Hh. congruence.
Qed.

Lemma validated_header secret st p tr u :
  validates_on_chain secret st -> chain_validator st <> None ->
  path (validate_chain_session st p) tr (Ok u) -> exists header, header_of p header.
Proof.
  intros Hst Hn H. destruct (chain_validator st) as [v|] eqn:Hv; [|done].
  destruct (Hst v Hv) as [url ->].
  destruct (validate_chain_session_path _ _ _ _ _ _ Hv (chain_validates secret url) H) as (r & _ & Hr & _).
  apply chain_request_binds in Hr as (header & _ & Hh & _). by exists header.
Qed.

Lemma chain_authorized_mono secret p header tr tr' :
  tr ⊆ tr' -> chain_authorized secret p header tr -> chain_authorized secret p header tr'.
Proof. intros Ht (r & s & t & ? & ? & ?). exists r, s, t. split_and!; [done|by etrans|naive_solver..]. Qed.

Lemma authorized_mono p s tr tr' : tr ⊆ tr' -> authorized p s tr -> authorized p s tr'.
Proof.
  intros Ht (Hu & json & stored & now & Hj & Hs & He). split; [done|].
  exists json, stored, now. auto.
Qed.

(** ** NanoTDF keys *)

(** The wrapped key is the key of the NanoTDF that [header] starts with, rewrapped for the
    client with a fresh session key. *)
Definition rewrapped st (header : bytes) (client : PublicKey) (resp : MediaKeyResponse) : Prop :=
  exists h w rest pk dek rng rng' nonce wrapped,
    header = w ++ rest /\ header_wire h w /\
    from_sec1_bytes (ephemeral_key h) = Ok pk /\
    custom_ecdh (kas_ec_private_key (rewrap_state st)) pk = Ok dek /\
    rewrap_dek rng' dek (diffie_hellman (ephemeral_random rng) client)
      (compute_nanotdf_salt (default V12 (detect_nanotdf_version header)))
      (compute_nanotdf_salt V12) [] = Ok (nonce, wrapped) /\
    wrapped_key resp = base64_encode (nonce ++ wrapped) /\
    public_key_to_pem (ephemeral_public (ephemeral_random rng)) = Ok (session_public_key resp).

Lemma process_nanotdf_header_path b64 key secret tr out :
  path (process_nanotdf_header b64 key secret) tr (Done (Ok out)) ->
  exists header h w rest pk dek rng nonce wrapped,
    base64_decode b64 = Ok header /\ header = w ++ rest /\ header_wire h w /\
    from_sec1_bytes (ephemeral_key h) = Ok pk /\ custom_ecdh key pk = Ok dek /\
    rewrap_dek rng dek secret (compute_nanotdf_salt (default V12 (detect_nanotdf_version header)))
      (compute_nanotdf_salt V12) [] = Ok (nonce, wrapped) /\
    out = base64_encode (nonce ++ wrapped).
Proof.
  unfold process_nanotdf_header. intros H.
  apply path_hbind in H as (header & t1 & t2 & -> & [-> [= Hd]]%path_pure & H).
  apply path_hbind in H as (h & t3 & t4 & -> & [-> Hh]%path_ret & H).
  destruct (parse_header _) as [[[h'|e] q]|] eqn:Ep; simpl in Hh; simplify_eq.
  apply consumes_header in Ep as (w & rest & Hw & _ & Hwire). simpl in Hw.
  destruct (negb _); [by handler_inv|]. handler_inv.
  match goal with x : bytes * bytes |- _ => destruct x as [nonce wrapped] end. handler_inv.
  match goal with H : Ok _ = rewrap_dek ?rng _ _ _ _ _ |- _ => rename H into Hr; exists header, h, w, rest end.
  eexists _, _, _, nonce, wrapped. split_and!; try done.
  rewrite Hr. f_equal. by destruct (detect_nanotdf_version header).
Qed.

(** C3: a TDF3 key request is answered with a key only on a path on which Redis held the
    request's session for the request's user, and the key is that of the request's header,
    rewrapped for the client's key under a fresh session key.  Where a chain validator is
    configured, it has found a justified grant whose scope is the hash of that header;
    without one the server releases the key on the session alone. *)
Theorem tdf3_key_release secret st p timer tr resp :
  validates_on_chain secret st ->
  path (handle_tdf3_key_request st p timer) tr (Done (Ok resp)) ->
  exists session header pem client,
    authorized p session tr /\ header_of p header /\
    (chain_validator st <> None -> chain_authorized secret p header tr) /\
    client_public_key p = Some pem /\ parse_pem_public_key pem = Ok client /\
    rewrapped st header client resp.
Proof.
  intros Hv H. unfold handle_tdf3_key_request in H.
  apply path_hbind in H as (session & t1 & t2 & -> & (? & [= <-] & Hs)%path_call & H).
  apply path_hbind in H as (u & t3 & t4 & -> & (? & [= <-] & Hc)%path_call & H).
  apply path_hbind in H as (b64 & t5 & t6 & -> & [-> [= Hb]]%path_pure & H).
  symmetry in Hb. apply ok_or_Ok in Hb. split_if; [by handler_inv|]. handler_inv.
  match goal with H : path (process_nanotdf_header _ _ _) _ ?o |- _ => rename H into Hp; destruct o as [[]|] end;
    handler_inv; simplify_eq.
  apply process_nanotdf_header_path in Hp as (header & h & w & rest & pk & dek & rng & nonce & wrapped & Hd & Hrest).
  assert (header_of p header) as Hh by (exists b64; done).
  exists session, header. eexists _, _. split_and!; [| |  |done|done|].
  - eapply authorized_mono; [|by eapply validate_session_path]. set_solver.
  - done.
  - intros Hn. eapply chain_authorized_mono; [|by eapply validate_chain_session_sound]. set_solver.
  - destruct Hrest as (? & ? & ? & ? & ? & ->).
    exists h, w, rest, pk, dek. eexists _, rng, nonce, wrapped. simpl. split_and!; done.
Qed.

(** ** FairPlay keys *)

(** The content key of a FairPlay request: unwrapped with the RSA key from the manifest, or
    else from the wrapped key. *)
Definition fairplay_key st p (dek : bytes) : Prop :=
  exists key, kas_rsa_private_key (rewrap_state st) = Some key /\
    ((exists m, tdf_manifest p = Some m /\ extract_dek_from_tdf_manifest m key = Ok dek) \/
     (tdf_manifest p = None /\
      exists k, tdf_wrapped_key p = Some k /\ extract_dek_from_wrapped_key k key = Ok dek)).

Lemma fairplay_content_key_path st p timer tr dek :
  path (fairplay_content_key false st p timer) tr (Ok dek) -> fairplay_key st p dek.
Proof.
  unfold fairplay_content_key, fairplay_key. intros H.
  destruct (tdf_manifest p) as [m|]; [|destruct (tdf_wrapped_key p) as [k|]; [|by handler_inv]];
    (apply path_bind_ok in H as (key & t1 & t2 & -> & [-> Hk%ok_or_Ok]%path_ret & H);
     destruct (extract_dek_from_tdf_manifest _ _) eqn:E1 || destruct (extract_dek_from_wrapped_key _ _) eqn:E1;
     handler_inv; eauto 10).
Qed.

(** C7: in a release build, a FairPlay request is answered with a key context only on a path
    on which Redis held a FairPlay session of the request's user under its session id, and
    the SDK produced the context from the request's own SPC message, of bounded size, and the
    first 16 bytes of the unwrapped content key.  Where a chain validator is configured, it
    has accepted the request, with the hash of its header as scope; without one the session
    alone is enough. *)
Theorem fairplay_key_release secret st p timer tr resp :
  validates_on_chain secret st ->
  path (handle_fairplay_key_request false st p timer) tr (Ok resp) ->
  exists session b64 spc dek ckc,
    authorized p session tr /\ protocol session = FairPlay /\
    (chain_validator st <> None ->
       exists header, header_of p header /\ chain_authorized secret p header tr) /\
    spc_data p = Some b64 /\ base64_decode b64 = Ok spc /\
    (Z.of_nat (length spc) <= MAX_SPC_DATA_SIZE)%Z /\
    fairplay_key st p dek /\
    answered (FairPlaySpc (kr_asset_id p) (kr_asset_id p) spc (take 16 dek)) (Ok ckc) ∈ tr /\
    length (take 16 dek) = 16 /\ wrapped_key resp = base64_encode ckc.
Proof.
  intros Hv H. unfold handle_fairplay_key_request in H.
  apply path_bind_ok in H as (session & t1 & t2 & -> & Hs & H).
  apply path_bind_ok in H as (u & t3 & t4 & -> & Hc & H).
  split_if; [by handler_inv|]. reflect_bools.
  apply path_bind_ok in H as (b64 & t5 & t6 & -> & [-> Hb%ok_or_Ok]%path_ret & H).
  split_if; [by handler_inv|].
  apply path_bind_ok in H as (spc & t7 & t8 & -> & [-> Hd%map_err_Ok]%path_ret & H).
  split_if; [by handler_inv|]. reflect_bools.
  apply path_bind_ok in H as (dek & t9 & t10 & -> & Hk%fairplay_content_key_path & H).
  destruct (_ && _) eqn:El; [by handler_inv|]. destruct (fairplay_handler st); cbn [negb] in H; [|by handler_inv].
  apply path_bind in H as ([ckc|e] & t11 & t12 & -> & Hf%path_trigger & H); handler_inv.
  exists session, b64, spc, dek, ckc. split_and!; try done.
  - eapply authorized_mono; [|by eapply validate_session_path]. set_solver.
  - intros Hn. destruct (validated_header _ _ _ _ _ Hv Hn Hc) as (header & Hh). exists header.
    split; [done|]. eapply chain_authorized_mono; [|by eapply validate_chain_session_sound]. set_solver.
  - set_solver.
  - rewrite length_take. apply andb_false_iff in El as [El|El]; reflect_bools; lia.
Qed.

(** ** What a refused request changes *)

(** A key request is refused for naming the wrong user only after the session it names
    was stored again for a whole heartbeat timeout: such requests keep a foreign session
    alive. *)
Theorem foreign_request_extends_session st p timer tr e :
  path (validate_session st p timer) tr (Err e) -> error e = "authentication_failed"%string ->
  exists json, answered (Redis (SETEX (session_key (kr_session_id p)) json SESSION_HEARTBEAT_TIMEOUT))
    (Ok tt) ∈ tr.
Proof.
  unfold validate_session. intros H He.
  apply path_bind in H as ([s|e'] & t1 & t2 & -> & Hh & H); [|handler_inv; done].
  apply heartbeat_path in Hh as (_ & _ & _ & json & _ & _ & _ & _ & Hin). exists json. set_solver.
Qed.

(** ** Panics *)

(** A header that ends inside its policy binding. *)
Definition cut_header (header : bytes) : Prop :=
  exists h ecc sym w rest, header = w ++ rest /\ header_prefix_wire h ecc sym w /\
    truncated (ecc_mode h) rest.

Lemma process_nanotdf_header_panic b64 key secret tr :
  path (process_nanotdf_header b64 key secret) tr Panic ->
  exists header, base64_decode b64 = Ok header /\ cut_header header.
Proof.
  unfold process_nanotdf_header. intros H.
  apply path_hbind_panic in H as [[_ ?]%path_pure|(header & t1 & t2 & -> & [-> [= Hd]]%path_pure & H)]; [done|].
  exists header. split; [done|].
  apply path_hbind_panic in H as [[_ Hp]%path_ret|(h & t3 & t4 & -> & _ & H)].
  - destruct (parse_header _) as [[? ?]|] eqn:Ep; [done|].
    apply panics_header in Ep as (w & r & Hw & h & ecc & sym & Hp1 & Ht). simpl in Hw.
    exists h, ecc, sym, w, r. done.
  - exfalso. destruct (negb _); [by apply path_pure in H as []|].
    do 4 (apply path_hbind_panic in H as [H|(? & ? & ? & -> & _ & H)];
      [first [by apply path_pure in H as []|by apply path_perform in H as (? & ? & _)]|]).
    match type of H with path (let '(_, _) := ?x in _) _ _ => destruct x end.
    by apply path_pure in H as [].
Qed.

(** A key request panics only in the NanoTDF path and on a header that ends inside its
    policy binding. *)
Theorem key_request_panics debug st p tr :
  path (media_key_request debug st p) tr Panic ->
  spc_data p = None /\ exists header, header_of p header /\ cut_header header.
Proof.
  unfold media_key_request. intros H.
  apply path_hbind_panic in H as [H|(timer & t1 & t2 & -> & _ & H)]; [no_panic H|].
  apply path_hbind_panic in H as [H|(proto & t3 & t4 & -> & [-> [= Hp]]%path_pure & H)]; [no_panic H|].
  symmetry in Hp. apply ok_or_Ok in Hp. unfold detect_protocol in Hp.
  destruct proto; [|no_panic H]. destruct (spc_data p) as [x|]; [done|]. split; [done|].
  unfold handle_tdf3_key_request in H.
  do 2 (apply path_hbind_panic in H as [H|(? & ? & ? & -> & _ & H)]; [no_panic H|]).
  apply path_hbind_panic in H as [H|(b64 & ? & ? & -> & [-> [= Hb]]%path_pure & H)]; [no_panic H|].
  symmetry in Hb. apply ok_or_Ok in Hb. split_if; [no_panic H|].
  do 4 (apply path_hbind_panic in H as [H|(? & ? & ? & -> & _ & H)]; [no_panic H|]).
  apply path_hbind_panic in H as [H|(? & ? & ? & -> & _ & H)].
  - apply path_hmap_err in H as ([r|] & H & Hr); [done|].
    apply process_nanotdf_header_panic in H as (header & Hd & Hc). exists header. split; [by exists b64|done].
  - exfalso. do 3 (apply path_hbind_panic in H as [H|(? & ? & ? & -> & _ & H)]; [no_panic H|]).
    no_panic H.
Qed.
End Release.

(** ** The concurrency limit of the API *)

Lemma all_events_hbind {A B E} ok (m : handler A E) (k : A -> handler B E) :
  all_events ok m -> (forall a, all_events ok (k a)) -> all_events ok (hbind m k).
Proof. intros ??. apply all_events_bind; [done|]. by intros [[]|]. Qed.

Section Limit.
Context {prims : Primitives} {scale : Scale}.
Context {sjson : SessionJson} {ejson : MediaEventJson} {crates : MediaCrates}.
Abbreviation quiet := (all_events (@harmless CachedEntry)).

(** A validator that leaves the session records alone. *)
Class QuietValidator (v : SessionValidator) : Prop :=
  validator_quiet : forall r, quiet (v r).

#[export] Instance chain_quiet secret url : QuietValidator (validate secret url).
Proof.
  intros r. apply validate_all. intros id X e. case_redis e as X c; try done.
  destruct c; try done. intros [_ [n ->]]. split; by intros ?.
Qed.

(** The requests of the API. *)
Inductive api_request : Type :=
| StartSession (client_ip : string) (payload : SessionStartRequest)
| KeySession (debug : bool) (payload : MediaKeyRequest)
| HeartbeatSession (id : string) (payload : SessionHeartbeatRequest)
| EndSession (id : string).

Definition serve_api (st : MediaApiState) (r : api_request) : prog (event CachedEntry) unit :=
  match r with
  | StartSession ip payload => ignore (session_start st ip payload)
  | KeySession debug payload => ignore (media_key_request debug st payload)
  | HeartbeatSession id payload => ignore (session_heartbeat id payload)
  | EndSession id => ignore (session_terminate st id)
  end.

Fixpoint serve_api_all (st : MediaApiState) (rs : list api_request) : prog (event CachedEntry) unit :=
  match rs with
  | [] => Ret tt
  | r :: rs => let* _ := serve_api st r in serve_api_all st rs
  end.

(** Session ids start with the user id and a colon. *)
Fixpoint before_colon (s : string) : string :=
  match s with
  | EmptyString => EmptyString
  | String c s => if bool_decide (c = ":"%char) then EmptyString else String c (before_colon s)
  end.

Definition plain_user (r : api_request) : Prop :=
  match r with
  | StartSession _ payload => before_colon (ss_user_id payload) = ss_user_id payload
  | _ => True
  end.

Lemma before_colon_app u rest : before_colon u = u -> before_colon (u +:+ ":" +:+ rest) = u.
Proof.
  induction u as [|c u IH]; [done|]. simpl. case_bool_decide; [done|]. intros [= Hu].
  f_equal. by apply IH.
Qed.

Lemma publish_event_quiet m e : quiet (publish_event m e).
Proof. unfold publish_event. by repeat case_match. Qed.
Lemma elapsed_ms_quiet timer : quiet (elapsed_ms timer).
Proof. done. Qed.
Lemma log_key_request_error_quiet st p r l : quiet (log_key_request_error st p r l).
Proof. apply all_events_bind; [done|]. intros. apply publish_event_quiet. Qed.
Lemma log_success_quiet st p l : quiet (log_success st p l).
Proof. apply all_events_bind; [done|]. intros. apply publish_event_quiet. Qed.

Ltac quiet :=
  repeat first
    [ progress intros
    | match goal with
      | |- all_events _ (publish_event _ _) => apply publish_event_quiet
      | |- all_events _ (log_key_request_error _ _ _ _) => apply log_key_request_error_quiet
      | |- all_events _ (log_success _ _ _) => apply log_success_quiet
      end
    | done
    | apply all_events_hbind | apply all_events_bind_ok | apply all_events_bind
    | case_match ].

Lemma process_nanotdf_header_quiet b64 key secret : quiet (process_nanotdf_header b64 key secret).
Proof. unfold process_nanotdf_header. quiet. Qed.

Lemma fairplay_content_key_quiet debug st p timer : quiet (fairplay_content_key debug st p timer).
Proof. unfold fairplay_content_key. quiet. Qed.

Context (st : MediaApiState).
Hypothesis validators : forall v, chain_validator st = Some v -> QuietValidator v.

Lemma validate_chain_session_quiet p : quiet (validate_chain_session st p).
Proof.
  unfold validate_chain_session. destruct (chain_validator st) as [v|]; [|done].
  apply all_events_bind_ok; [done|]. intros r.
  apply all_events_bind; [by apply validators|]. by intros [].
Qed.

Context {W : Type} `{!World CachedEntry W, !WorldLaws CachedEntry W}.
Abbreviation within := (within_limit (session_manager st) before_colon).

(** Programs that keep every user within the limit. *)
Definition keeps_limit {A} (m : prog (event CachedEntry) A) : Prop :=
  hoare (W := W) within m (fun _ => within).

Lemma keeps_quiet {A} (m : prog (event CachedEntry) A) : quiet m -> keeps_limit m.
Proof. intros. apply hoare_quiet; [apply _|done]. Qed.
Lemma keeps_bind {A B} (m : prog (event CachedEntry) A) (k : A -> prog (event CachedEntry) B) :
  keeps_limit m -> (forall a, keeps_limit (k a)) -> keeps_limit (bind m k).
Proof. intros. by eapply hoare_bind. Qed.
Lemma keeps_bind_ok {A B E} (m : prog (event CachedEntry) (result A E)) k :
  keeps_limit m -> (forall a, keeps_limit (k a)) -> keeps_limit (bind_ok (B := B) m k).
Proof. intros. apply keeps_bind; [done|]. intros []; [auto|by apply keeps_quiet]. Qed.
Lemma keeps_hbind {A B E} (m : handler A E) (k : A -> handler B E) :
  keeps_limit m -> (forall a, keeps_limit (k a)) -> keeps_limit (hbind m k).
Proof. intros. apply keeps_bind; [done|]. intros [[]|]; [auto|by apply keeps_quiet..]. Qed.
Lemma keeps_call {A E} (m : prog (event CachedEntry) (result A E)) :
  keeps_limit m -> keeps_limit (call m).
Proof. intros. apply keeps_bind; [done|]. intros. by apply keeps_quiet. Qed.

Lemma validate_session_keeps p timer : keeps_limit (validate_session st p timer).
Proof.
  apply keeps_bind; [apply heartbeat_within|]. intros. apply keeps_quiet. quiet.
Qed.

Lemma tdf3_keeps p timer : keeps_limit (handle_tdf3_key_request st p timer).
Proof.
  apply keeps_hbind; [apply keeps_call, validate_session_keeps|]. intros _. apply keeps_quiet.
  apply all_events_hbind; [apply all_events_bind; [apply validate_chain_session_quiet|done]|].
  intros _. apply all_events_hbind; [done|]. intros b64. case_match; [done|].
  do 4 (apply all_events_hbind; [done|intros ?]).
  apply all_events_hbind; [apply all_events_bind; [apply process_nanotdf_header_quiet|done]|]. quiet.
Qed.

Lemma fairplay_keeps debug p timer : keeps_limit (handle_fairplay_key_request debug st p timer).
Proof.
  apply keeps_bind_ok; [apply validate_session_keeps|]. intros s. apply keeps_quiet.
  apply all_events_bind_ok; [apply validate_chain_session_quiet|]. intros _. case_match; [done|].
  apply all_events_bind_ok; [done|]. intros b64. case_match; [done|].
  apply all_events_bind_ok; [done|]. intros spc. case_match; [done|].
  apply all_events_bind_ok; [apply fairplay_content_key_quiet|]. quiet.
Qed.

Lemma session_start_keeps ip p :
  before_colon (ss_user_id p) = ss_user_id p -> keeps_limit (session_start st ip p).
Proof.
  intros Hu. do 3 (apply keeps_bind; [by apply keeps_quiet|intros ?]).
  apply keeps_bind; [apply create_session_within; simpl; by apply before_colon_app|].
  intros [u|[]]; apply keeps_quiet; quiet.
Qed.

Lemma session_terminate_keeps id : keeps_limit (session_terminate st id).
Proof.
  apply keeps_quiet. apply all_events_bind; [apply get_session_quiet|]. intros r.
  apply all_events_bind; [quiet|]. intros _.
  apply all_events_bind; [apply terminate_session_quiet|]. by intros [].
Qed.

Lemma serve_api_keeps r : plain_user r -> keeps_limit (serve_api st r).
Proof.
  intros Hr. destruct r; (apply keeps_bind; [|intros; by apply keeps_quiet]).
  - by apply session_start_keeps.
  - apply keeps_hbind; [by apply keeps_quiet|]. intros timer.
    apply keeps_hbind; [by apply keeps_quiet|]. intros [].
    + apply tdf3_keeps.
    + apply keeps_call, fairplay_keeps.
  - apply keeps_bind; [apply heartbeat_within|]. intros []; by apply keeps_quiet.
  - apply session_terminate_keeps.
Qed.

(** C6: served one after the other, any sequence of requests to the media API, refused,
    failing and panicking ones included, keeps every user within the configured number of
    concurrent streams, provided user ids contain no colon (a session id starts with the
    user id and a colon). *)
Theorem api_concurrency_limit rs w w' :
  Forall plain_user rs -> within (clock w) (view w) ->
  run (serve_api_all st rs) w = (tt, w') -> within (clock w') (view w').
Proof.
  intros Hrs. revert w. induction Hrs as [|r rs Hr _ IH]; intros w Hw H.
  - by injection H as <-.
  - cbn [serve_api_all] in H. apply run_bind_inv in H as ([] & w1 & H1 & H2).
    apply (IH w1); [|done]. by eapply (serve_api_keeps r Hr).
Qed.
End Limit.

(** ** In the simulated world *)

Definition answer_of {A} (m : prog (event CachedEntry) A) (w : sim CachedEntry) : A := fst (run m w).

Lemma answer_path {A} (m : prog (event CachedEntry) A) (w : sim CachedEntry) a :
  answer_of m w = a -> exists tr, path m tr a.
Proof. intros <-. apply (run_path m w _ (snd (run m w))), surjective_pairing. Defined.

Definition tdf3_request : MediaKeyRequest := key_request "alice" sample_header None None 7.
Definition tdf3_response : MediaKeyResponse :=
  {| session_public_key := "05";
     wrapped_key := sample_hex_encode ([x06] ++ [x09] ++ replicate 33 x02 ++ [x05] ++ replicate 33 x03);
     status := "success"; metadata := Some (tdf3_metadata 100000 (Some 3%Z)) |}.

Lemma tdf3_key_release_witness :
  exists tr session header pem client,
    authorized tdf3_request session tr /\ header_of tdf3_request header /\
    (chain_validator sample_state <> None -> chain_authorized sample_secret tdf3_request header tr) /\
    client_public_key tdf3_request = Some pem /\ parse_pem_public_key pem = Ok client /\
    rewrapped sample_state header client tdf3_response.
Proof.
  destruct (answer_path (handle_tdf3_key_request sample_state tdf3_request 0%Z)
    (media_world TDF3 sample_header) (Done (Ok tdf3_response))) as [tr Htr].
  - vm_compute. reflexivity.
  - exists tr. apply (tdf3_key_release sample_secret sample_state tdf3_request 0%Z);
      [intros v [= <-]; by exists "ws://node"%string|exact Htr].
Defined.

(** A FairPlay request with the content key [x] wrapped. *)
Definition fairplay_request (x : byte) : MediaKeyRequest :=
  key_request "alice" sample_header (Some "0011"%string)
    (Some (sample_hex_encode (replicate 256 x))) 7.
Definition fairplay_response (x : byte) : MediaKeyResponse :=
  {| session_public_key := ""; wrapped_key := sample_hex_encode ([x00; x11] ++ replicate 16 x);
     status := "success"; metadata := Some (fairplay_metadata 100000 (Some 3%Z) "fairplay" 18) |}.

Lemma fairplay_key_release_witness :
  exists (tr : list (answer (event CachedEntry))) dek ckc,
    fairplay_key sample_state (fairplay_request x42) dek /\
    answered (FairPlaySpc "asset" "asset" [x00; x11] (take 16 dek)) (Ok ckc) ∈ tr.
Proof.
  destruct (answer_path (handle_fairplay_key_request false sample_state (fairplay_request x42) 0%Z)
    (media_world FairPlay sample_header) (Ok (fairplay_response x42))) as [tr Htr].
  - vm_compute. reflexivity.
  - assert (validates_on_chain sample_secret sample_state) as Hv
      by (intros v [= <-]; by exists "ws://node"%string).
    destruct (fairplay_key_release sample_secret sample_state (fairplay_request x42) 0%Z
      tr (fairplay_response x42) Hv Htr)
      as (session & b64 & spc & dek & ckc & _ & _ & _ & Hb & Hd & _ & Hk & Hf & _).
    exists tr, dek, ckc. split; [exact Hk|].
    injection Hb as <-. vm_compute in Hd. injection Hd as <-. exact Hf.
Defined.

(** The chain session does not bind the content key of a FairPlay request: with one
    chain session, whose scope is the hash of one header, the server answers requests for
    different wrapped keys with the contexts of their different content keys. *)
Theorem fairplay_key_unbound :
  chain_request (fairplay_request x42) = chain_request (fairplay_request x43) /\
  answer_of (handle_fairplay_key_request false sample_state (fairplay_request x42) 0%Z)
    (media_world FairPlay sample_header) = Ok (fairplay_response x42) /\
  answer_of (handle_fairplay_key_request false sample_state (fairplay_request x43) 0%Z)
    (media_world FairPlay sample_header) = Ok (fairplay_response x43) /\
  wrapped_key (fairplay_response x42) <> wrapped_key (fairplay_response x43).
Proof.
  split_and!; [reflexivity|vm_compute; reflexivity|vm_compute; reflexivity|].
  vm_compute. discriminate.
Qed.

(** [mallory] asks for a key in the session of [alice]. *)
Definition foreign_request : MediaKeyRequest := key_request "mallory" sample_header None None 7.

Lemma foreign_request_extends_session_witness :
  exists (tr : list (answer (event CachedEntry))) json,
    answered (Redis (SETEX (session_key "s1") json SESSION_HEARTBEAT_TIMEOUT)) (Ok tt) ∈ tr.
Proof.
  destruct (answer_path (validate_session sample_state foreign_request 0%Z)
    (media_world TDF3 sample_header) (Err (authentication_failed "User ID does not match session")))
    as [tr Htr].
  - vm_compute. reflexivity.
  - exists tr. exact (foreign_request_extends_session sample_state foreign_request 0%Z tr _ Htr eq_refl).
Defined.

(** An authorized request whose header is cut short makes the handler panic. *)
Lemma key_request_panics_witness :
  exists header, header_of (key_request "alice" short_header None None 7) header /\ cut_header header.
Proof.
  destruct (answer_path (media_key_request false sample_state (key_request "alice" short_header None None 7))
    (media_world TDF3 short_header) Panic) as [tr Htr].
  - vm_compute. reflexivity.
  - exact (proj2 (key_request_panics false sample_state _ tr Htr)).
Defined.

Definition sample_api : list api_request :=
  [StartSession "127.0.0.1" {| ss_user_id := "bob"; ss_asset_id := "film"; ss_protocol := None;
                               ss_geo_region := None; ss_user_agent := None |};
   StartSession "127.0.0.1" {| ss_user_id := "bob"; ss_asset_id := "song"; ss_protocol := None;
                               ss_geo_region := None; ss_user_agent := None |};
   KeySession false tdf3_request; EndSession "s1"].
Definition sample_api_end : sim CachedEntry :=
  snd (run (serve_api_all sample_state sample_api) (sample_node [1; 2]%Z 10 20 0)).

Lemma api_concurrency_limit_witness :
  within_limit (session_manager sample_state) before_colon (clock sample_api_end) (view sample_api_end).
Proof.
  apply (api_concurrency_limit sample_state) with (rs := sample_api) (w := sample_node [1; 2]%Z 10 20 0).
  - intros v [= <-]. apply chain_quiet.
  - repeat constructor.
  - by apply within_limit_empty.
  - unfold sample_api_end. destruct (run _ _) as [[] w']. reflexivity.
Defined.
