(* ===== verification/HttpRewrap.v ===== *)
(** * The rewrap endpoint (src/src/modules/http_rewrap.rs)

    A signed request names key access objects; the handler verifies the token, validates the
    chain session if a validator is configured, and rewraps the key of each object for the
    client.  The token and JSON crates are the class [RewrapCrates]. *)
From S2P Require Import Prelude Services NanoTdf SessionManager Crypto Chain MediaMetrics MediaApi.

(** ** Data *)

Record SignedRewrapRequest := {
  signed_request_token : string;
}.

Record JWTClaims := {
  request_body : string;
  jwt_iat : Z;
  jwt_exp : Z;
}.

Record KeyAccessObject := {
  kao_header : string;
  type_field : string;
  kao_url : string;
  kao_protocol : string;
}.

Record KeyAccessObjectWrapper := {
  key_access_object_id : string;
  key_access_object : KeyAccessObject;
}.

Record RewrapPolicy := {
  policy_id : string;
  policy_text : string;
}.

Record RewrapRequestEntry := {
  entry_algorithm : string;
  entry_policy : RewrapPolicy;
  key_access_objects : list KeyAccessObjectWrapper;
}.

Record UnsignedRewrapRequest := {
  ur_client_public_key : string;
  requests : list RewrapRequestEntry;
  ur_chain_session_id : option string;
  ur_chain_header_hash : option string;
  ur_chain_signature : option string;
  ur_chain_nonce : option Z;
  ur_chain_algorithm : option string;
}.

(** [result_metadata] is the text under the key [error] of the JSON object. *)
Record KASResult := {
  result_object_id : string;
  result_status : string;
  kas_wrapped_key : option string;
  result_metadata : option string;
}.

Record ResponsePolicyEntry := {
  response_policy_id : string;
  results : list KASResult;
}.

Record RewrapResponse := {
  responses : list ResponsePolicyEntry;
  rw_session_public_key : string;
  schema_version : string;
}.

Record PublicKeyQuery := {
  algorithm : option string;
  fmt : option string;
  v : option string;
}.

Record PublicKeyResponse := {
  public_key : string;
  kid : option string;
}.

(** What the crates provide: the tokens of [jsonwebtoken] (ES256, with the expiry checked
    against the clock), [serde_json], and [opentdf_kas]'s rewrapping of a plain key. *)
Class RewrapCrates := {
  DecodingKey : Type;
  from_ec_pem : string -> result DecodingKey string;
  jwt_decode : Z -> string -> DecodingKey -> result JWTClaims string;
  jwt_insecure_decode : string -> result JWTClaims string;
  rewrap_request_of_json : string -> result UnsignedRewrapRequest string;
  rewrap_dek_simple : bytes -> bytes -> bytes -> result (bytes * bytes) string;
}.

(** The HTTP status of an error of this module. *)
Definition rewrap_into_response (e : ErrorResponse) : Z * ErrorResponse :=
  let status :=
    if bool_decide (error e = "authentication_failed"%string) then 401%Z
    else if bool_decide (error e = "policy_denied"%string) then 403%Z
    else if bool_decide (error e = "invalid_request"%string) then 400%Z
    else 500%Z in
  (status, e).

(** [str::starts_with] and [str::contains] *)
Definition starts_with (p s : string) : bool := String.prefix p s.
Fixpoint contains (p s : string) : bool :=
  String.prefix p s || match s with EmptyString => false | String _ s => contains p s end.

Section HttpRewrap.
Context {prims : Primitives} {crates : MediaCrates} {rcrates : RewrapCrates}.

Definition kas_public_key_handler (st : RewrapState) (params : PublicKeyQuery) :
    result PublicKeyResponse ErrorResponse :=
  let alg := default "ec:secp256r1"%string (algorithm params) in
  let is_legacy := bool_decide (v params = Some "1"%string) in
  let is_rsa := starts_with "rsa" alg || bool_decide (alg = "rsa"%string) in
  let is_ec := starts_with "ec" alg || bool_decide (alg = "ec"%string) || contains "secp256" alg in
  let? found :=
    if is_rsa then
      match kas_rsa_public_key_pem st with
      | Some pem => Ok (pem, "rsa:2048"%string)
      | None => Err {| error := "not_found"; message := "no default key for algorithm rsa:2048" |}
      end
    else if is_ec then Ok (kas_ec_public_key_pem st, "ec:secp256r1"%string)
    else Err {| error := "invalid_argument";
                message := "Unsupported algorithm: " +:+ alg +:+
                           ". Use 'ec:secp256r1' or 'rsa:2048'" |} in
  Ok {| public_key := found.1; kid := if is_legacy then None else Some found.2 |}.

Definition verify_and_decode_jwt (token : string) (oauth : option string) :
    io (result UnsignedRewrapRequest ErrorResponse) :=
  let*? claims :=
    match oauth with
    | Some pem =>
      let*? decoding_key :=
        Ret (map_err (fun e => configuration_error ("Failed to load OAuth public key: " +:+ e))
               (from_ec_pem pem)) in
      let* now := trigger Now in
      Ret (map_err (fun e => authentication_failed ("JWT validation failed: " +:+ e))
             (jwt_decode now token decoding_key))
    | None =>
      Ret (map_err (fun e => authentication_failed ("Invalid JWT: " +:+ e))
             (jwt_insecure_decode token))
    end in
  Ret (map_err (fun e => invalid_request ("Failed to parse request body: " +:+ e))
         (rewrap_request_of_json (request_body claims))).

(** The object whose header the chain session is checked against. *)
Definition first_object (r : UnsignedRewrapRequest) : option KeyAccessObjectWrapper :=
  entry ← head (requests r); head (key_access_objects entry).

(** The part of the chain validation before the call of the validator. *)
Definition rewrap_chain_request (r : UnsignedRewrapRequest) :
    result ChainValidationRequest ErrorResponse :=
  let? session_id :=
    ok_or (invalid_request "chain_session_id is required") (ur_chain_session_id r) in
  let? signature :=
    ok_or (invalid_request "chain_signature is required") (ur_chain_signature r) in
  let? nonce := ok_or (invalid_request "chain_nonce is required") (ur_chain_nonce r) in
  let? client_header_hash_hex :=
    ok_or (invalid_request "chain_header_hash is required for DPoP binding")
      (ur_chain_header_hash r) in
  let? client_header_hash :=
    map_err (fun e => invalid_request ("Invalid header_hash hex encoding: " +:+ e))
      (hex_decode client_header_hash_hex) in
  check (if negb (length client_header_hash =? 32) then
           Err (invalid_request ("header_hash must be 32 bytes, got " +:+
                                 display_nat (length client_header_hash)))
         else Ok tt) ;;
  let? header_bytes :=
    match first_object r with
    | Some kao =>
      map_err (fun e => invalid_request ("Invalid header base64 encoding: " +:+ e))
        (base64_decode (kao_header (key_access_object kao)))
    | None => Err (invalid_request "No key access object found")
    end in
  let server_header_hash := sha256 header_bytes in
  check (if negb (bool_decide (client_header_hash = server_header_hash)) then
           Err (authentication_failed "header_hash does not match actual header content")
         else Ok tt) ;;
  let? signature_bytes :=
    map_err (fun e => invalid_request ("Invalid signature encoding: " +:+ e))
      (base64_decode signature) in
  Ok {| req_session_id := session_id; req_header_hash := server_header_hash;
        req_resource_id := hex_encode server_header_hash; req_signature := signature_bytes;
        req_algorithm := default "ES256"%string (ur_chain_algorithm r); req_nonce := nonce |}.

Definition validate_rewrap_chain (st : RewrapState) (r : UnsignedRewrapRequest) :
    io (result unit ErrorResponse) :=
  match rewrap_chain_validator st with
  | None => Ret (Ok tt)
  | Some validator =>
    let*? validation_request := Ret (rewrap_chain_request r) in
    let* answer := validator validation_request in
    match answer with
    | Ok _ => Ret (Ok tt)
    | Err e => Ret (Err (validation_error_response e))
    end
  end.

Definition process_ec_unwrap (kao : KeyAccessObjectWrapper) (kas_private_key : SecretKey)
    (session_shared_secret : bytes) : handler string string :=
  let+ header_bytes := pure (base64_decode (kao_header (key_access_object kao))) in
  let+ header :=
    Ret (let! r := parse_header (new header_bytes) in Done (map_err parsing_error_text r.1)) in
  let tdf_ephemeral_key_bytes := get_ephemeral_key header in
  if negb (length tdf_ephemeral_key_bytes =? 33) then
    pure (Err ("Invalid ephemeral key size: " +:+ display_nat (length tdf_ephemeral_key_bytes) +:+
               " (expected 33)"))
  else
  let+ tdf_ephemeral_public_key := pure (from_sec1_bytes tdf_ephemeral_key_bytes) in
  let+ dek_shared_secret := pure (custom_ecdh kas_private_key tdf_ephemeral_public_key) in
  let dek_salt :=
    match detect_nanotdf_version header_bytes with
    | Some version => compute_nanotdf_salt version
    | None => compute_nanotdf_salt V12
    end in
  let session_salt := compute_nanotdf_salt V12 in
  let+ rng := perform (trigger Random) in
  let+ (nonce, wrapped_dek) :=
    pure (rewrap_dek rng dek_shared_secret session_shared_secret dek_salt session_salt []) in
  pure (Ok (base64_encode (nonce ++ wrapped_dek))).

Definition process_rsa_unwrap (kao : KeyAccessObjectWrapper) (st : RewrapState)
    (session_shared_secret : bytes) : handler string string :=
  let+ rsa_private_key := pure (ok_or "RSA key not configured"%string (kas_rsa_private_key st)) in
  let+ wrapped_key_bytes := pure (base64_decode (kao_header (key_access_object kao))) in
  if negb (length wrapped_key_bytes =? 256) then
    pure (Err ("Invalid RSA-wrapped key size: " +:+ display_nat (length wrapped_key_bytes) +:+
               " bytes (expected 256 for RSA-2048)"))
  else
  let+ dek :=
    pure (map_err (fun e => "RSA decryption failed: " +:+ e)
            (rsa_oaep_sha1_decrypt rsa_private_key wrapped_key_bytes)) in
  let+ rng := perform (trigger Random) in
  let+ (nonce, wrapped_dek) := pure (rewrap_dek_simple rng dek session_shared_secret) in
  pure (Ok (base64_encode (nonce ++ wrapped_dek))).

Definition is_rsa_algorithm (alg : string) : bool :=
  bool_decide (alg = ""%string) || starts_with "rsa" alg.

Definition process_key_access_object (kao : KeyAccessObjectWrapper) (alg : string)
    (st : RewrapState) (session_shared_secret : bytes) : handler string string :=
  if is_rsa_algorithm alg then process_rsa_unwrap kao st session_shared_secret
  else if starts_with "ec" alg then
    process_ec_unwrap kao (kas_ec_private_key st) session_shared_secret
  else pure (Err ("Unsupported algorithm: " +:+ alg)).

(** The result of one object: a failure is reported, not propagated. *)
Definition object_result (kao : KeyAccessObjectWrapper) (r : result string string) : KASResult :=
  match r with
  | Ok wrapped_key =>
    {| result_object_id := key_access_object_id kao; result_status := "permit";
       kas_wrapped_key := Some wrapped_key; result_metadata := None |}
  | Err e =>
    {| result_object_id := key_access_object_id kao; result_status := "fail";
       kas_wrapped_key := None; result_metadata := Some e |}
  end.

(** [m] with its error as a value. *)
Definition attempt {A E F} (m : handler A E) : handler (result A E) F :=
  bind m (fun o => Ret (match o with Done r => Done (Ok r) | Panic => Panic end)).

Fixpoint process_objects (kaos : list KeyAccessObjectWrapper) (alg : string) (st : RewrapState)
    (secret : bytes) (acc : list KASResult) : handler (list KASResult) ErrorResponse :=
  match kaos with
  | [] => pure (Ok acc)
  | kao :: kaos =>
    let+ r := attempt (process_key_access_object kao alg st secret) in
    process_objects kaos alg st secret (acc ++ [object_result kao r])
  end.

Fixpoint process_entries (entries : list RewrapRequestEntry) (st : RewrapState) (secret : bytes)
    (acc : list ResponsePolicyEntry) : handler (list ResponsePolicyEntry) ErrorResponse :=
  match entries with
  | [] => pure (Ok acc)
  | entry :: entries =>
    let+ rs := process_objects (key_access_objects entry) (entry_algorithm entry) st secret [] in
    process_entries entries st secret
      (acc ++ [{| response_policy_id := policy_id (entry_policy entry); results := rs |}])
  end.

Definition rewrap_handler (st : RewrapState) (payload : SignedRewrapRequest) :
    handler RewrapResponse ErrorResponse :=
  let+ unsigned_request :=
    call (verify_and_decode_jwt (signed_request_token payload) (oauth_public_key_pem st)) in
  let+ _ := call (validate_rewrap_chain st unsigned_request) in
  let+ client_key :=
    pure (map_err (fun e => invalid_request ("Failed to parse PEM public key: " +:+ e))
            (parse_pem_public_key (ur_client_public_key unsigned_request))) in
  let+ rng := perform (trigger Random) in
  let session_private_key := ephemeral_random rng in
  let+ session_public_key_pem :=
    pure (map_err (fun e => internal_error ("Failed to convert public key to PEM: " +:+ e))
            (public_key_to_pem (ephemeral_public session_private_key))) in
  let session_shared_secret := diffie_hellman session_private_key client_key in
  let+ rs := process_entries (requests unsigned_request) st session_shared_secret [] in
  pure (Ok {| responses := rs; rw_session_public_key := session_public_key_pem;
              schema_version := "1.0.0" |}).
End HttpRewrap.
