(* ===== verification/HttpRewrapProps.v ===== *)
(** * Correctness of the rewrap endpoint

    What a response promises about each key access object, what must have been checked
    before it, when the handler panics, and which objects the chain session leaves
    unchecked. *)
From S2P Require Import Prelude Services SimWorld NanoTdf SessionManager SessionCodec.
From S2P Require Import Crypto Chain CryptoSample ChainProps MediaMetrics MediaApi MediaSample.
From S2P Require Import MediaApiProps HttpRewrap.

Lemma path_attempt {A E F} (m : handler A E) tr (o : outcome (result (result A E) F)) :
  path (attempt m) tr o <->
  (o = Panic /\ path m tr Panic) \/ (exists r, o = Done (Ok r) /\ path m tr (Done r)).
Proof.
  unfold attempt. rewrite path_bind. split.
  - intros ([r|] & tr1 & tr2 & -> & H & [-> <-]%path_ret); rewrite app_nil_r; eauto.
  - intros [[-> H]|(r & -> & H)]; [exists Panic, tr, []|exists (Done r), tr, []];
      by rewrite app_nil_r.
Qed.

Section Rewrap.
Context {prims : Primitives} {scale : Scale} {crates : MediaCrates} {rcrates : RewrapCrates}.
Implicit Types (tr : list (answer (event CachedEntry))) (st : RewrapState).

(** The duplicate of [process_nanotdf_header] in this module is the same function. *)
Lemma process_ec_unwrap_eq kao key secret :
  process_ec_unwrap kao key secret =
  process_nanotdf_header (kao_header (key_access_object kao)) key secret.
Proof. reflexivity. Qed.

(** ** What a response says of an object *)

(** The key of the object's NanoTDF header, rewrapped. *)
Definition ec_rewrapped st secret (kao : KeyAccessObjectWrapper) (key : string) : Prop :=
  exists header h w rest pk dek rng nonce wrapped,
    base64_decode (kao_header (key_access_object kao)) = Ok header /\ header = w ++ rest /\
    header_wire h w /\ from_sec1_bytes (ephemeral_key h) = Ok pk /\
    custom_ecdh (kas_ec_private_key st) pk = Ok dek /\
    rewrap_dek rng dek secret (compute_nanotdf_salt (default V12 (detect_nanotdf_version header)))
      (compute_nanotdf_salt V12) [] = Ok (nonce, wrapped) /\
    key = base64_encode (nonce ++ wrapped).

(** The object's RSA-wrapped key, of 256 bytes, unwrapped and wrapped for the client. *)
Definition rsa_rewrapped st secret (kao : KeyAccessObjectWrapper) (key : string) : Prop :=
  exists rsa cipher dek rng nonce wrapped,
    kas_rsa_private_key st = Some rsa /\
    base64_decode (kao_header (key_access_object kao)) = Ok cipher /\ length cipher = 256 /\
    rsa_oaep_sha1_decrypt rsa cipher = Ok dek /\
    rewrap_dek_simple rng dek secret = Ok (nonce, wrapped) /\
    key = base64_encode (nonce ++ wrapped).

Definition object_answer st secret (alg : string) (kao : KeyAccessObjectWrapper) (res : KASResult) : Prop :=
  result_object_id res = key_access_object_id kao /\
  match kas_wrapped_key res with
  | Some key =>
    result_status res = "permit"%string /\ result_metadata res = None /\
    (if is_rsa_algorithm alg then rsa_rewrapped st secret kao key
     else String.prefix "ec" alg = true /\ ec_rewrapped st secret kao key)
  | None => result_status res = "fail"%string /\ is_Some (result_metadata res)
  end.

Definition entry_answer st secret (entry : RewrapRequestEntry) (resp : ResponsePolicyEntry) : Prop :=
  response_policy_id resp = policy_id (entry_policy entry) /\
  Forall2 (object_answer st secret (entry_algorithm entry)) (key_access_objects entry) (results resp).

Lemma process_rsa_unwrap_path kao st secret tr key :
  path (process_rsa_unwrap kao st secret) tr (Done (Ok key)) -> rsa_rewrapped st secret kao key.
Proof.
  unfold process_rsa_unwrap. intros H.
  apply path_hbind in H as (rsa & t1 & t2 & -> & [-> [= Hk]]%path_pure & H).
  apply path_hbind in H as (cipher & t3 & t4 & -> & [-> [= Hd]]%path_pure & H).
  symmetry in Hk. apply ok_or_Ok in Hk.
  destruct (Nat.eqb_spec (length cipher) 256) as [L|]; cbn [negb] in H; [|by handler_inv]. handler_inv.
  match goal with x : bytes * bytes |- _ => destruct x end. handler_inv.
  by eexists rsa, cipher, _, _, _, _.
Qed.

Lemma process_key_access_object_path kao alg st secret tr r :
  path (process_key_access_object kao alg st secret) tr (Done r) ->
  object_answer st secret alg kao (object_result kao r).
Proof.
  unfold process_key_access_object, object_answer. intros H.
  destruct r as [key|e]; [|by simpl; eauto]. simpl. do 3 (split; [done|]). destruct (is_rsa_algorithm alg).
  - by eapply process_rsa_unwrap_path.
  - unfold starts_with in H. destruct (String.prefix "ec" alg); [|by handler_inv]. split; [done|].
    rewrite process_ec_unwrap_eq in H.
    by apply process_nanotdf_header_path in H.
Qed.

Lemma process_objects_path kaos alg st secret acc tr rs :
  path (process_objects kaos alg st secret acc) tr (Done (Ok rs)) ->
  exists rs', rs = acc ++ rs' /\ Forall2 (object_answer st secret alg) kaos rs'.
Proof.
  revert acc tr. induction kaos as [|kao kaos IH]; intros acc tr H; cbn [process_objects] in H.
  - handler_inv. exists []. by rewrite app_nil_r.
  - apply path_hbind in H as (r & t1 & t2 & -> & [[Hx _]|(r' & [= <-] & Hr)]%path_attempt & H); [done|].
    apply process_key_access_object_path in Hr. apply IH in H as (rs' & -> & Hrs).
    exists (object_result kao r :: rs'). rewrite <-app_assoc. by split; [|constructor].
Qed.

Lemma process_entries_path entries st secret acc tr rs :
  path (process_entries entries st secret acc) tr (Done (Ok rs)) ->
  exists rs', rs = acc ++ rs' /\ Forall2 (entry_answer st secret) entries rs'.
Proof.
  revert acc tr. induction entries as [|entry entries IH]; intros acc tr H; cbn [process_entries] in H.
  - handler_inv. exists []. by rewrite app_nil_r.
  - apply path_hbind in H as (os & t1 & t2 & -> & Ho & H).
    apply process_objects_path in Ho as (os' & -> & Ho). apply IH in H as (rs' & -> & Hrs).
    eexists (_ :: rs'). rewrite <-app_assoc. by split; [|constructor].
Qed.

(** ** What must have been checked *)

(** The request [r] is the one in the token.  A configured key has verified the token at the
    time of the request; a server without one decodes it unverified. *)
Definition read_from_token st (token : string) (r : UnsignedRewrapRequest) tr : Prop :=
  exists claims,
    rewrap_request_of_json (request_body claims) = Ok r /\
    match oauth_public_key_pem st with
    | Some pem => exists key now, from_ec_pem pem = Ok key /\ answered Now now ∈ tr /\
                    jwt_decode now token key = Ok claims
    | None => jwt_insecure_decode token = Ok claims
    end.

Lemma verify_and_decode_jwt_path st token tr r :
  path (verify_and_decode_jwt token (oauth_public_key_pem st)) tr (Ok r) -> read_from_token st token r tr.
Proof.
  unfold verify_and_decode_jwt, read_from_token. intros H.
  apply path_bind_ok in H as (claims & t1 & t2 & -> & Hc & H). handler_inv.
  exists claims. split; [done|]. destruct (oauth_public_key_pem st) as [pem|]; handler_inv; [|done].
  match goal with H : jwt_decode ?now _ ?key = _ |- _ => exists key, now end.
  split_and!; [done|set_solver|done].
Qed.

Lemma rewrap_chain_request_binds r c :
  rewrap_chain_request r = Ok c ->
  exists kao header, first_object r = Some kao /\
    base64_decode (kao_header (key_access_object kao)) = Ok header /\
    req_header_hash c = sha256 header.
Proof.
  unfold rewrap_chain_request. intros H. inv_result.
  destruct (first_object r) as [kao|]; [|done]. inv_result.
  repeat (split_if; simpl in *; inv_result). eauto.
Qed.

(** A chain session in force, whose scope is the hash of the first object's header. *)
Definition rewrap_chain_authorized secret (r : UnsignedRewrapRequest) tr : Prop :=
  exists c s kao header,
    rewrap_chain_request r = Ok c /\ justified secret c s tr /\
    first_object r = Some kao /\ base64_decode (kao_header (key_access_object kao)) = Ok header /\
    scope_id (grant s) = sha256 header.

(** The validator of the endpoint, if it has one, is that of chain/validator.rs. *)
Definition rewraps_on_chain secret st : Prop :=
  forall v, rewrap_chain_validator st = Some v -> exists url, v = validate secret url.

Lemma validate_rewrap_chain_path secret st r tr u :
  rewraps_on_chain secret st -> rewrap_chain_validator st <> None ->
  path (validate_rewrap_chain st r) tr (Ok u) -> rewrap_chain_authorized secret r tr.
Proof.
  intros Hst Hn. destruct (rewrap_chain_validator st) as [v|] eqn:Hv; [|done].
  destruct (Hst v Hv) as [url ->]. unfold validate_rewrap_chain. rewrite Hv. intros H.
  apply path_bind_ok in H as (c & t1 & t2 & -> & [-> Hr]%path_ret & H).
  apply path_bind in H as ([s|e] & t3 & t4 & -> & Hs & H); handler_inv.
  destruct (rewrap_chain_request_binds _ _ Hr) as (kao & header & Hk & Hd & Hh).
  apply validate_justified in Hs. exists c, s, kao, header. rewrite app_nil_r. split_and!; try done.
  destruct Hs as (id & _ & _ & _ & _ & _ & _ & Hscope & _). by rewrite <-Hscope.
Qed.

(** C17: a rewrap response answers, in order, every policy entry and every key access object
    of the request in the token; an object is permitted exactly with its own key, rewrapped
    for the client under the response's session key, and fails otherwise with an error.
    Where an OAuth key is configured it has verified the token (without one the token is only
    decoded), and where a chain validator is configured there is a chain session in force for
    the header of the first object. *)
Theorem rewrap_handler_answers secret st payload tr resp :
  rewraps_on_chain secret st ->
  path (rewrap_handler st payload) tr (Done (Ok resp)) ->
  exists r tr1 tr2 client rng,
    tr1 ⊆ tr /\ read_from_token st (signed_request_token payload) r tr1 /\
    tr2 ⊆ tr /\ (rewrap_chain_validator st <> None -> rewrap_chain_authorized secret r tr2) /\
    parse_pem_public_key (ur_client_public_key r) = Ok client /\
    public_key_to_pem (ephemeral_public (ephemeral_random rng)) = Ok (rw_session_public_key resp) /\
    Forall2 (entry_answer st (diffie_hellman (ephemeral_random rng) client))
      (requests r) (responses resp).
Proof.
  intros Hv H. unfold rewrap_handler in H.
  apply path_hbind in H as (r & t1 & t2 & -> & (? & [= <-] & Hj)%path_call & H).
  apply path_hbind in H as (u & t3 & t4 & -> & (? & [= <-] & Hc)%path_call & H).
  apply path_hbind in H as (client & t5 & t6 & -> & [-> [= Hk]]%path_pure & H).
  apply path_hbind in H as (rng & t7 & t8 & -> & (? & [= <-] & Hr)%path_perform & H).
  apply path_hbind in H as (pem & t9 & t10 & -> & [-> [= Hp]]%path_pure & H).
  apply path_hbind in H as (rs & t11 & t12 & -> & He & H). handler_inv.
  apply process_entries_path in He as (rs' & -> & Hrs).
  exists r, t1, t3, client, rng. split_and!; [set_solver| |set_solver|..]; try done.
  - by apply verify_and_decode_jwt_path.
  - intros Hn. by eapply validate_rewrap_chain_path.
Qed.

(** ** Panics *)

(** The header of an object of an elliptic-curve entry ends inside its policy binding. *)
Definition cut_object (alg : string) (kao : KeyAccessObjectWrapper) : Prop :=
  is_rsa_algorithm alg = false /\
  exists header, base64_decode (kao_header (key_access_object kao)) = Ok header /\ cut_header header.

Lemma process_key_access_object_panic kao alg st secret tr :
  path (process_key_access_object kao alg st secret) tr Panic -> cut_object alg kao.
Proof.
  unfold process_key_access_object, cut_object. intros H. destruct (is_rsa_algorithm alg).
  - exfalso. unfold process_rsa_unwrap in H.
    do 2 (apply path_hbind_panic in H as [H|(? & ? & ? & -> & _ & H)]; [no_panic H|]).
    destruct (negb _); [no_panic H|].
    do 3 (apply path_hbind_panic in H as [H|(? & ? & ? & -> & _ & H)]; [no_panic H|]).
    match type of H with path (let '(_, _) := ?x in _) _ _ => destruct x end. no_panic H.
  - split; [done|]. destruct (starts_with _ _); [|no_panic H].
    rewrite process_ec_unwrap_eq in H. by apply process_nanotdf_header_panic in H.
Qed.

Lemma process_objects_panic kaos alg st secret acc tr :
  path (process_objects kaos alg st secret acc) tr Panic -> Exists (cut_object alg) kaos.
Proof.
  revert acc tr. induction kaos as [|kao kaos IH]; intros acc tr H; cbn [process_objects] in H.
  - no_panic H.
  - apply path_hbind_panic in H as [H|(r & t1 & t2 & -> & _ & H)].
    + left. apply path_attempt in H as [[_ H]|(r & Hx & _)]; [|done].
      by apply process_key_access_object_panic in H.
    + right. by apply IH in H.
Qed.

Lemma process_entries_panic entries st secret acc tr :
  path (process_entries entries st secret acc) tr Panic ->
  Exists (fun e => Exists (cut_object (entry_algorithm e)) (key_access_objects e)) entries.
Proof.
  revert acc tr. induction entries as [|e entries IH]; intros acc tr H; cbn [process_entries] in H.
  - no_panic H.
  - apply path_hbind_panic in H as [H|(r & t1 & t2 & -> & _ & H)].
    + left. by apply process_objects_panic in H.
    + right. by apply IH in H.
Qed.

(** A rewrap request panics only when the header of one of its elliptic-curve objects ends
    inside the policy binding, and then no object of the request is answered. *)
Theorem rewrap_handler_panics st payload tr :
  path (rewrap_handler st payload) tr Panic ->
  exists r tr1, tr1 ⊆ tr /\ read_from_token st (signed_request_token payload) r tr1 /\
    Exists (fun e => Exists (cut_object (entry_algorithm e)) (key_access_objects e)) (requests r).
Proof.
  unfold rewrap_handler. intros H.
  apply path_hbind_panic in H as [H|(r & t1 & t2 & -> & (? & [= <-] & Hj)%path_call & H)]; [no_panic H|].
  exists r, t1. split_and!; [set_solver|by apply verify_and_decode_jwt_path|].
  do 4 (apply path_hbind_panic in H as [H|(? & ? & ? & -> & _ & H)]; [no_panic H|]).
  apply path_hbind_panic in H as [H|(? & ? & ? & -> & _ & H)]; [|no_panic H].
  by apply process_entries_panic in H.
Qed.
End Rewrap.

(** ** In the simulated world *)

Definition sample_object (id : string) (header : bytes) : KeyAccessObjectWrapper :=
  {| key_access_object_id := id;
     key_access_object := {| kao_header := sample_hex_encode header; type_field := "remote";
                             kao_url := ""; kao_protocol := "kas" |} |}.

(** A request for the keys of the given headers, signed for the hash of [bound]. *)
Definition rewrap_request (bound : bytes) (headers : list (string * bytes)) : UnsignedRewrapRequest :=
  {| ur_client_public_key := sample_hex_encode (replicate 33 x03);
     requests := [{| entry_algorithm := "ec:secp256r1";
                     entry_policy := {| policy_id := "p"; policy_text := "" |};
                     key_access_objects := map (fun h => sample_object h.1 h.2) headers |}];
     ur_chain_session_id := Some (sample_hex_encode sample_id);
     ur_chain_header_hash := Some (sample_hex_encode (sha256 bound));
     ur_chain_signature := Some (sample_hex_encode
       (sha256 (sample_id ++ sha256 bound ++ u64_le 7) ++ take 32 sample_key));
     ur_chain_nonce := Some 7%Z; ur_chain_algorithm := None |}.

(** A NanoTDF header with another ephemeral key. *)
Definition other_header : bytes := cut_prefix ++ replicate 8 xb6 ++ replicate 33 x04.

(** Tokens are valid for a thousand seconds and carry the name of a request. *)
#[export] Instance sample_rewrap_crates : RewrapCrates :=
  {| DecodingKey := string; from_ec_pem := fun pem => Ok pem;
     jwt_decode := fun now token key =>
       if bool_decide (key = "OAUTH PEM"%string) && (now <? 1000)%Z
       then Ok {| request_body := token; jwt_iat := 0; jwt_exp := 1000 |}
       else Err "ExpiredSignature"%string;
     jwt_insecure_decode := fun token => Ok {| request_body := token; jwt_iat := 0; jwt_exp := 0 |};
     rewrap_request_of_json := fun body =>
       if bool_decide (body = "two"%string)
       then Ok (rewrap_request sample_header [("a", sample_header); ("b", other_header)]%string)
       else if bool_decide (body = "cut"%string)
       then Ok (rewrap_request sample_header [("a", sample_header); ("b", short_header)]%string)
       else Err "unknown request"%string;
     rewrap_dek_simple := fun rng dek secret => Ok (rng, dek ++ secret) |}.

Definition permit (id : string) (key : bytes) : KASResult :=
  {| result_object_id := id; result_status := "permit";
     kas_wrapped_key := Some (sample_hex_encode key); result_metadata := None |}.
Definition two_answer : RewrapResponse :=
  {| responses := [{| response_policy_id := "p"; results :=
       [permit "a" ([x06] ++ [x09] ++ replicate 33 x02 ++ [x05] ++ replicate 33 x03);
        permit "b" ([x07] ++ [x09] ++ replicate 33 x04 ++ [x05] ++ replicate 33 x03)] |}];
     rw_session_public_key := "05"; schema_version := "1.0.0" |}.

Lemma rewrap_two :
  answer_of (rewrap_handler sample_rewrap_state {| signed_request_token := "two" |})
    (media_world TDF3 sample_header) = Done (Ok two_answer).
Proof. vm_compute. reflexivity. Qed.

Lemma rewrap_handler_answers_witness :
  exists r client rng,
    parse_pem_public_key (ur_client_public_key r) = Ok client /\
    Forall2 (entry_answer sample_rewrap_state (diffie_hellman (ephemeral_random rng) client))
      (requests r) (responses two_answer).
Proof.
  destruct (answer_path _ _ _ rewrap_two) as [tr Htr].
  assert (rewraps_on_chain sample_secret sample_rewrap_state) as Hv
    by (intros v [= <-]; by exists "ws://node"%string).
  destruct (rewrap_handler_answers sample_secret sample_rewrap_state
    {| signed_request_token := "two" |} tr two_answer Hv Htr)
    as (r & tr1 & tr2 & client & rng & _ & _ & _ & _ & Hc & _ & Hf).
  exists r, client, rng. split; [exact Hc|exact Hf].
Defined.

Lemma rewrap_handler_panics_witness :
  exists r, Exists (fun e => Exists (cut_object (entry_algorithm e)) (key_access_objects e)) (requests r).
Proof.
  destruct (answer_path (rewrap_handler sample_rewrap_state {| signed_request_token := "cut" |})
    (media_world TDF3 sample_header) Panic) as [tr Htr].
  - vm_compute. reflexivity.
  - destruct (rewrap_handler_panics sample_rewrap_state {| signed_request_token := "cut" |} tr Htr)
      as (r & tr1 & _ & _ & H).
    exists r. exact H.
Defined.

(** The chain session binds only the first object of a rewrap request: with a session
    whose scope is the hash of one header, the server also rewraps the key of a second
    object with another header, and the same second object alone is refused. *)
Theorem rewrap_binds_first_object_only :
  sha256 sample_header <> sha256 other_header /\
  answer_of (rewrap_handler sample_rewrap_state {| signed_request_token := "two" |})
    (media_world TDF3 sample_header) = Done (Ok two_answer) /\
  answer_of (validate_rewrap_chain sample_rewrap_state
      (rewrap_request other_header [("b", other_header)]%string))
    (media_world TDF3 sample_header) =
    Err (policy_denied ("Resource " +:+ hex_encode (sha256 other_header) +:+ " not in session scope")).
Proof. split_and!; [by vm_compute|apply rewrap_two|vm_compute; reflexivity]. Qed.

(** Errors of the public-key endpoint for an unknown or unconfigured algorithm are reported
    with the status of an internal error. *)
Theorem kas_public_key_error_status st params e :
  kas_public_key_handler st params = Err e -> (rewrap_into_response e).1 = 500%Z.
Proof.
  unfold kas_public_key_handler. intros H. apply rbind_Err in H as [H|(? & _ & H)]; [|done].
  repeat case_match; by simplify_eq.
Qed.
