(* ===== verification/NtdfToken.v ===== *)
(** * NTDF authentication tokens (src/src/modules/ntdf_token.rs)

    A token is a NanoTDF whose decrypted payload is a binary record of claims.  The payload
    parser is modelled byte by byte and proved to accept exactly the wire format; the
    validation around it is modelled with the curve, key-derivation, cipher and NanoTDF
    crates as parameters. *)
From S2P Require Import Prelude RustStr.

(** ** Claims *)

Inductive CapabilityFlag : Set :=
| Profile | OpenId | Email | OfflineAccess | DeviceAttested | BiometricAuth | WebAuthn
| PlatformSecure.

Definition flag_bits (f : CapabilityFlag) : Z :=
  match f with
  | Profile => 0x01 | OpenId => 0x02 | Email => 0x04 | OfflineAccess => 0x08
  | DeviceAttested => 0x10 | BiometricAuth => 0x20 | WebAuthn => 0x40 | PlatformSecure => 0x80
  end.

Inductive AttributeType : Set := Age | SubscriptionTier | SecurityLevel | PlatformCode.

Definition attribute_code (a : AttributeType) : Z :=
  match a with Age => 0 | SubscriptionTier => 1 | SecurityLevel => 2 | PlatformCode => 3 end.

Record NtdfTokenPayload := {
  sub_id : bytes;
  flags : Z;
  scopes : list string;
  attrs : list (Z * Z);
  dpop_jti : option bytes;
  iat : Z;
  exp : Z;
  aud : string;
  session_id : option bytes;
  device_id : option string;
  did : option string;
}.

Inductive NtdfTokenError : Set :=
| InvalidHeaderFormat
| Z85DecodeError (detail : string)
| InvalidNanoTdf (detail : string)
| EcdhError (detail : string)
| DecryptionFailed
| PayloadTooShort
| InvalidPayload (detail : string)
| Expired (exp now : Z)
| InvalidAudience (expected got : string).

Definition has_capability (p : NtdfTokenPayload) (flag : CapabilityFlag) : bool :=
  negb (Z.land (flags p) (flag_bits flag) =? 0)%Z.

Definition get_attribute (p : NtdfTokenPayload) (attr_type : AttributeType) : option Z :=
  snd <$> List.find (fun a => (a.1 =? attribute_code attr_type)%Z) (attrs p).

(** ** The payload parser

    A reader takes the bytes that remain at the cursor. *)
Definition reader (A : Type) : Type := bytes -> result (A * bytes) NtdfTokenError.

Definition rret {A} (a : A) : reader A := fun d => Ok (a, d).
Definition rthen {A B} (m : reader A) (k : A -> reader B) : reader B :=
  fun d => match m d with Ok (a, d') => k a d' | Err e => Err e end.
Notation "'read' x := m 'in' k" := (rthen m (fun x => k))
  (at level 10, x name, m at level 100, k at level 200) : rust_scope.

(** [cursor.read_exact] into a buffer of [n] bytes *)
Definition read_exact (n : nat) : reader bytes :=
  fun d => if n <=? length d then Ok (take n d, drop n d) else Err PayloadTooShort.

Definition read_le (n : nat) : reader Z := read b := read_exact n in rret (le_to_Z b).
Definition read_i64 : reader Z := read z := read_le 8 in rret (i64_of_u64 z).

(** [String::from_utf8(..).map_err(..)?] *)
Definition utf8 (what : string) (b : bytes) : reader string :=
  fun d => match from_utf8 b with
           | Some s => Ok (s, d)
           | None => Err (InvalidPayload ("Invalid UTF-8 in " +:+ what))
           end.

(** A string after its length, in [n] bytes. *)
Definition read_string (what : string) (n : nat) : reader string :=
  read len := read_le n in
  read b := read_exact (Z.to_nat len) in
  utf8 what b.

Fixpoint read_times {A} (n : nat) (m : reader A) : reader (list A) :=
  match n with
  | O => rret []
  | S n => read a := m in read l := read_times n m in rret (a :: l)
  end.

Definition read_attr : reader (Z * Z) :=
  read attr_type := read_le 1 in
  read attr_value := read_le 4 in
  rret (attr_type, attr_value).

(** A field after a presence byte. *)
Definition read_optional {A} (m : reader A) : reader (option A) :=
  read present := read_le 1 in
  if negb (present =? 0)%Z then read a := m in rret (Some a) else rret None.

Definition read_payload : reader NtdfTokenPayload :=
  read sub_id := read_exact 16 in
  read flags := read_le 8 in
  read scopes_count := read_le 2 in
  read scopes := read_times (Z.to_nat scopes_count) (read_string "scope" 1) in
  read attrs_count := read_le 2 in
  read attrs := read_times (Z.to_nat attrs_count) read_attr in
  read dpop_jti := read_optional (read_exact 16) in
  read iat := read_i64 in
  read exp := read_i64 in
  read aud := read_string "audience" 2 in
  read session_id := read_optional (read_exact 16) in
  read device_id := read_optional (read_string "device_id" 1) in
  read did := read_optional (read_string "DID" 2) in
  rret {| sub_id := sub_id; flags := flags; scopes := scopes; attrs := attrs;
          dpop_jti := dpop_jti; iat := iat; exp := exp; aud := aud; session_id := session_id;
          device_id := device_id; did := did |}.

Definition from_bytes (data : bytes) : result NtdfTokenPayload NtdfTokenError :=
  match read_payload data with Ok (p, _) => Ok p | Err e => Err e end.

(** ** The wire format *)

Definition wire_string (n : nat) (s : string) : bytes :=
  le_bytes n (Z.of_nat (String.length s)) ++ as_bytes s.
Definition wire_attr (a : Z * Z) : bytes := le_bytes 1 a.1 ++ le_bytes 4 a.2.
Definition wire_optional {A} (b : byte) (w : A -> bytes) (o : option A) : bytes :=
  b :: match o with Some a => w a | None => [] end.

(** The presence bytes of the four optional fields. *)
Record presence := {
  jti_byte : byte;
  session_byte : byte;
  device_byte : byte;
  did_byte : byte;
}.

Definition wire_payload (b : presence) (p : NtdfTokenPayload) : bytes :=
  sub_id p ++ le_bytes 8 (flags p) ++
  le_bytes 2 (Z.of_nat (length (scopes p))) ++ concat (wire_string 1 <$> scopes p) ++
  le_bytes 2 (Z.of_nat (length (attrs p))) ++ concat (wire_attr <$> attrs p) ++
  wire_optional (jti_byte b) id (dpop_jti p) ++
  le_bytes 8 (iat p) ++ le_bytes 8 (exp p) ++ wire_string 2 (aud p) ++
  wire_optional (session_byte b) id (session_id p) ++
  wire_optional (device_byte b) (wire_string 1) (device_id p) ++
  wire_optional (did_byte b) (wire_string 2) (did p).

(** The values that the fields can carry. *)
Definition text_ok (n : nat) (s : string) : Prop :=
  utf8_valid (as_bytes s) = true /\ (Z.of_nat (String.length s) < 256 ^ Z.of_nat n)%Z.
Definition attr_ok (a : Z * Z) : Prop := (0 <= a.1 < 256)%Z /\ (0 <= a.2 < 2 ^ 32)%Z.
Definition marks {A} (b : byte) (o : option A) : Prop := b = x00 <-> o = None.
Definition opt_ok {A} (P : A -> Prop) (o : option A) : Prop := forall a, o = Some a -> P a.

Definition payload_ok (p : NtdfTokenPayload) : Prop :=
  length (sub_id p) = 16 /\ in_u64 (flags p) /\
  (Z.of_nat (length (scopes p)) < 2 ^ 16)%Z /\ Forall (text_ok 1) (scopes p) /\
  (Z.of_nat (length (attrs p)) < 2 ^ 16)%Z /\ Forall attr_ok (attrs p) /\
  opt_ok (fun j => length j = 16) (dpop_jti p) /\
  in_i64 (iat p) /\ in_i64 (exp p) /\ text_ok 2 (aud p) /\
  opt_ok (fun j => length j = 16) (session_id p) /\
  opt_ok (text_ok 1) (device_id p) /\ opt_ok (text_ok 2) (did p).
Definition presence_ok (b : presence) (p : NtdfTokenPayload) : Prop :=
  marks (jti_byte b) (dpop_jti p) /\ marks (session_byte b) (session_id p) /\
  marks (device_byte b) (device_id p) /\ marks (did_byte b) (did p).

(** ** Readers and the words they accept *)

Definition strict_prefix (u w : bytes) : Prop := exists v, v <> [] /\ w = u ++ v.

(** [m] accepts the words of [W], leaves what follows them, and calls every strict prefix
    of one too short. *)
Record accepts {A} (m : reader A) (W : A -> bytes -> Prop) : Prop := {
  accepts_sound : forall d a rest, m d = Ok (a, rest) -> exists w, W a w /\ d = w ++ rest;
  accepts_complete : forall a w rest, W a w -> m (w ++ rest) = Ok (a, rest);
  accepts_short : forall a w u, W a w -> strict_prefix u w -> m u = Err PayloadTooShort;
}.

Lemma accepts_iff {A} (m : reader A) (W V : A -> bytes -> Prop) :
  accepts m W -> (forall a w, W a w <-> V a w) -> accepts m V.
Proof.
  intros [Hs Hc Hp] E. split.
  - intros d a rest H. destruct (Hs d a rest H) as (w & Hw & ->). exists w. by rewrite <-E.
  - intros a w rest H. by apply Hc, E.
  - intros a w u H. by apply (Hp a w u), E.
Qed.

Lemma strict_prefix_app u w1 w2 :
  strict_prefix u (w1 ++ w2) ->
  strict_prefix u w1 \/ exists u', u = w1 ++ u' /\ strict_prefix u' w2.
Proof.
  intros (v & Hv & E). destruct (decide (length u < length w1)) as [Hl|Hl].
  - left. exists (drop (length u) w1).
    assert (take (length u) w1 = u) as E'.
    { apply (f_equal (take (length u))) in E. rewrite take_app_le in E by lia.
      by rewrite take_app_length in E. }
    split; [|by rewrite <-E' at 1; rewrite take_drop].
    intros H%(f_equal length). rewrite length_drop in H. simpl in H. lia.
  - right. exists (drop (length w1) u).
    assert (u = w1 ++ drop (length w1) u) as Eu.
    { apply (f_equal (take (length w1))) in E as E'. rewrite take_app_length in E'.
      rewrite take_app_le in E' by lia. rewrite E' at 1. by rewrite take_drop. }
    split; [done|]. exists v. split; [done|]. rewrite Eu, <-app_assoc in E. by apply app_inv_head in E.
Qed.

Lemma accepts_ret {A} (a : A) : accepts (rret a) (fun b w => b = a /\ w = []).
Proof.
  split.
  - intros d b rest [= <- <-]. by exists [].
  - by intros b w rest [-> ->].
  - intros b w u [-> ->] (v & Hv & E). by destruct u; simplify_eq/=.
Qed.

Lemma accepts_then {A B} (m : reader A) (k : A -> reader B) W V :
  accepts m W -> (forall a, accepts (k a) (V a)) ->
  accepts (rthen m k) (fun b w => exists a w1 w2, w = w1 ++ w2 /\ W a w1 /\ V a b w2).
Proof.
  intros Hm Hk. unfold rthen. split.
  - intros d b rest H. destruct (m d) as [[a d']|] eqn:E; [|done].
    apply (accepts_sound _ _ Hm) in E as (w1 & H1 & ->).
    apply (accepts_sound _ _ (Hk a)) in H as (w2 & H2 & ->).
    exists (w1 ++ w2). rewrite <-app_assoc. eauto 10.
  - intros b w rest (a & w1 & w2 & -> & H1 & H2).
    rewrite <-app_assoc, (accepts_complete _ _ Hm _ _ _ H1). by apply (accepts_complete _ _ (Hk a)).
  - intros b w u (a & w1 & w2 & -> & H1 & H2) [Hu|(u' & -> & Hu)]%strict_prefix_app.
    + by rewrite (accepts_short _ _ Hm _ _ _ H1 Hu).
    + rewrite (accepts_complete _ _ Hm _ _ _ H1). by eapply (accepts_short _ _ (Hk a)).
Qed.

Lemma accepts_exact n : accepts (read_exact n) (fun b w => b = w /\ length w = n).
Proof.
  unfold read_exact. split.
  - intros d a rest H. destruct (Nat.leb_spec n (length d)); simplify_eq.
    exists (take n d). rewrite take_drop, length_take. split; [split; [done|lia]|done].
  - intros a w rest [-> <-]. rewrite (proj2 (Nat.leb_le _ _)) by (rewrite length_app; lia).
    by rewrite take_app_length, drop_app_length.
  - intros a w u [-> <-] (v & Hv & ->). rewrite (proj2 (Nat.leb_gt _ _)); [done|].
    rewrite length_app. destruct v; simpl; [done|lia].
Qed.

(** Readers of one word per value. *)
Definition reads {A} (m : reader A) (ok : A -> Prop) (wire : A -> bytes) : Prop :=
  accepts m (fun a w => ok a /\ w = wire a).

Lemma reads_le n : reads (read_le n) (fun z => 0 <= z < 256 ^ Z.of_nat n)%Z (le_bytes n).
Proof.
  eapply accepts_iff.
  { apply accepts_then; [apply accepts_exact|intros; apply accepts_ret]. }
  intros z w. split.
  - intros (a & w1 & w2 & -> & [-> L] & -> & ->). rewrite app_nil_r.
    pose proof (le_to_Z_range w1) as Hr. rewrite L in Hr. split; [done|].
    by rewrite <-L, le_bytes_to_Z.
  - intros [Hz ->]. exists (le_bytes n z), (le_bytes n z), []. rewrite app_nil_r, length_le_bytes.
    by rewrite le_to_Z_bytes_small.
Qed.

Lemma i64_of_u64_wrap z : (- 2 ^ 63 <= z < 2 ^ 63)%Z -> i64_of_u64 (z mod 2 ^ 64) = z.
Proof.
  intros H. unfold i64_of_u64, wrap_signed.
  rewrite Zplus_mod_idemp_l. rewrite Z.mod_small; lia.
Qed.

Lemma le_bytes_mod n z : le_bytes n (z mod 256 ^ Z.of_nat n) = le_bytes n z.
Proof.
  rewrite <-(le_to_Z_bytes n z). rewrite <-(length_le_bytes n z) at 1. apply le_bytes_to_Z.
Qed.

Lemma reads_i64 : reads read_i64 in_i64 (le_bytes 8).
Proof.
  eapply accepts_iff.
  { apply accepts_then; [apply (reads_le 8)|intros; apply accepts_ret]. }
  intros z w. split.
  - intros (a & w1 & w2 & -> & [Ha ->] & -> & ->). rewrite app_nil_r.
    split; [apply i64_wrap_range|].
    rewrite <-(le_bytes_mod 8 (i64_of_u64 a)), <-(le_bytes_mod 8 a). f_equal.
    change (256 ^ Z.of_nat 8)%Z with (2 ^ 64)%Z. unfold i64_of_u64, wrap_signed.
    rewrite Zminus_mod_idemp_l. f_equal. lia.
  - intros [Hz ->]. exists (z mod 2 ^ 64)%Z, (le_bytes 8 z), [].
    rewrite app_nil_r, i64_of_u64_wrap by done. split_and!; try done.
    + by apply Z.mod_pos_bound.
    + by apply (Z.mod_pos_bound z (2 ^ 64)).
    + symmetry. apply (le_bytes_mod 8 z).
Qed.

Lemma accepts_utf8 what b :
  accepts (utf8 what b) (fun s w => utf8_valid b = true /\ as_bytes s = b /\ w = []).
Proof.
  unfold utf8. split.
  - intros d s rest H. destruct (from_utf8 b) as [s'|] eqn:E; simplify_eq.
    exists []. split; [|done]. rewrite (from_utf8_as_bytes _ _ E).
    unfold from_utf8 in E. by destruct (utf8_valid b).
  - intros s w rest (Hv & <- & ->). by rewrite as_bytes_from_utf8.
  - intros s w u (_ & _ & ->) (v & Hv & E). by destruct u; simplify_eq/=.
Qed.

Lemma length_as_bytes s : length (as_bytes s) = String.length s.
Proof. unfold as_bytes. induction s; simpl; auto. Qed.

Lemma reads_string what n : reads (read_string what n) (text_ok n) (wire_string n).
Proof.
  eapply accepts_iff.
  { apply accepts_then; [apply (reads_le n)|]. intros len.
    apply accepts_then; [apply accepts_exact|]. intros b. apply accepts_utf8. }
  intros s w. unfold text_ok, wire_string. split.
  - intros (len & w1 & w2 & -> & [Hl ->] & b & w3 & w4 & -> & [-> L] & Hv & <- & ->).
    rewrite app_nil_r. rewrite length_as_bytes in L. rewrite L, Z2Nat.id by lia.
    split; [|done]. split; [done|lia].
  - intros [[Hv Hs] ->]. exists (Z.of_nat (String.length s)), (le_bytes n (Z.of_nat (String.length s))),
      (as_bytes s). split_and!; [done|lia|lia|done|].
    exists (as_bytes s), (as_bytes s), []. rewrite app_nil_r, length_as_bytes, Nat2Z.id. done.
Qed.

Lemma reads_attr : reads read_attr attr_ok wire_attr.
Proof.
  eapply accepts_iff.
  { apply accepts_then; [apply (reads_le 1)|]. intros t.
    apply accepts_then; [apply (reads_le 4)|]. intros v. apply accepts_ret. }
  intros [t v] w. unfold attr_ok, wire_attr. simpl. split.
  - intros (t' & w1 & w2 & -> & [Ht ->] & v' & w3 & w4 & -> & [Hv ->] & [= -> ->] & ->).
    rewrite app_nil_r. done.
  - intros [[Ht Hv] ->]. exists t, (le_bytes 1 t), (le_bytes 4 v). split_and!; [done|lia|simpl; lia|done|].
    exists v, (le_bytes 4 v), []. by rewrite app_nil_r.
Qed.

Lemma reads_times {A} n (m : reader A) ok wire :
  reads m ok wire ->
  reads (read_times n m) (fun l => length l = n /\ Forall ok l) (fun l => concat (wire <$> l)).
Proof.
  intros Hm. induction n as [|n IH]; cbn [read_times].
  - eapply accepts_iff; [apply accepts_ret|]. intros l w. split.
    + by intros [-> ->].
    + intros [[?%nil_length_inv _] ->]. by subst.
  - eapply accepts_iff.
    { apply accepts_then; [apply Hm|]. intros a. apply accepts_then; [apply IH|].
      intros l. apply accepts_ret. }
    intros l w. split.
    + intros (a & w1 & w2 & -> & [Ha ->] & l' & w3 & w4 & -> & [[<- Hl] ->] & -> & ->).
      rewrite app_nil_r. split; [|done]. split; [done|]. by constructor.
    + intros [[L Hl] ->]. destruct l as [|a l]; [done|]. apply Forall_cons_iff in Hl as [Ha Hl].
      injection L as L. exists a, (wire a), (concat (wire <$> l)). split_and!; try done.
      exists l, (concat (wire <$> l)), []. by rewrite app_nil_r.
Qed.

Lemma byte_zero b : (b2z b =? 0)%Z = true <-> b = x00.
Proof.
  rewrite Z.eqb_eq. split; [|by intros ->]. intros H. by apply b2z_inj.
Qed.

Lemma accepts_optional {A} (m : reader A) ok wire :
  reads m ok wire ->
  accepts (read_optional m)
    (fun o w => opt_ok ok o /\ exists b, marks b o /\ w = wire_optional b wire o).
Proof.
  intros Hm. eapply accepts_iff.
  { apply accepts_then; [apply (reads_le 1)|]. intros z.
    instantiate (1 := fun z o w =>
      (z = 0%Z /\ o = None /\ w = []) \/ (z <> 0%Z /\ exists a, o = Some a /\ ok a /\ w = wire a)).
    destruct (Z.eqb_spec z 0) as [Hz|Hz]; cbn [negb].
    - eapply accepts_iff; [apply accepts_ret|]. naive_solver.
    - eapply accepts_iff; [apply accepts_then; [apply Hm|intros; apply accepts_ret]|].
      intros o w. split.
      + intros (a & w1 & w2 & -> & [Ha ->] & -> & ->). rewrite app_nil_r. eauto 10.
      + intros [[? _]|(_ & a & -> & Ha & ->)]; [done|].
        exists a, (wire a), []. by rewrite app_nil_r. }
  intros o w. unfold wire_optional, marks. split.
  - intros (z & w1 & w2 & -> & [Hz ->] & Hw). change (256 ^ Z.of_nat 1)%Z with 256%Z in Hz.
    assert (le_bytes 1 z = [z2b z]) as -> by done.
    assert (z2b z = x00 <-> z = 0%Z) as Eb.
    { rewrite <-byte_zero, Z.eqb_eq, b2z_z2b, Z.mod_small by lia. done. }
    destruct Hw as [(-> & -> & ->)|(Hnz & a & -> & Ha & ->)].
    + split; [by intros a|]. exists x00. done.
    + split; [by intros ? [= <-]|]. exists (z2b z). rewrite Eb. done.
  - intros (Ho & b & Hb & ->). exists (b2z b), [b], (match o with Some a => wire a | None => [] end).
    pose proof (b2z_range b). split_and!; [done|lia|simpl; lia| |].
    + change (le_bytes 1 (b2z b)) with [z2b (b2z b)]. by rewrite z2b_b2z.
    + destruct o as [a|].
      * right. split; [|eauto]. intros Hz%Z.eqb_eq%byte_zero. naive_solver.
      * left. destruct Hb as [_ ->]; done.
Qed.

Lemma accepts_read_payload :
  accepts read_payload
    (fun p w => payload_ok p /\ exists b, presence_ok b p /\ w = wire_payload b p).
Proof.
  eapply accepts_iff.
  { unfold read_payload.
    apply accepts_then; [apply accepts_exact|intros].
    apply accepts_then; [apply (reads_le 8)|intros].
    apply accepts_then; [apply (reads_le 2)|intros].
    apply accepts_then; [apply reads_times, reads_string|intros].
    apply accepts_then; [apply (reads_le 2)|intros].
    apply accepts_then; [apply reads_times, reads_attr|intros].
    apply accepts_then; [apply (accepts_optional _ (fun j => length j = 16) id)|intros].
    { eapply accepts_iff; [apply accepts_exact|]. naive_solver. }
    apply accepts_then; [apply reads_i64|intros].
    apply accepts_then; [apply reads_i64|intros].
    apply accepts_then; [apply reads_string|intros].
    apply accepts_then; [apply (accepts_optional _ (fun j => length j = 16) id)|intros].
    { eapply accepts_iff; [apply accepts_exact|]. naive_solver. }
    apply accepts_then; [apply accepts_optional, reads_string|intros].
    apply accepts_then; [apply accepts_optional, reads_string|intros].
    apply accepts_ret. }
  intros p w. split.
  - intros (sid & ? & ? & -> & [-> Hsid] & fl & ? & ? & -> & [Hfl ->] &
      sc & ? & ? & -> & [Hsc ->] & scs & ? & ? & -> & [[Lsc Hscs] ->] &
      ac & ? & ? & -> & [Hac ->] & ats & ? & ? & -> & [[Lat Hats] ->] &
      jti & ? & ? & -> & [Hj (bj & Mj & ->)] & ia & ? & ? & -> & [Hia ->] &
      ex & ? & ? & -> & [Hex ->] & au & ? & ? & -> & [Hau ->] &
      se & ? & ? & -> & [Hse (bs & Ms & ->)] & de & ? & ? & -> & [Hde (bd & Md & ->)] &
      di & ? & ? & -> & [Hdi (bi & Mi & ->)] & -> & ->).
    change (256 ^ Z.of_nat 2)%Z with (2 ^ 16)%Z in *.
    split; [unfold payload_ok; simpl; split_and!; (done || lia)|].
    exists {| jti_byte := bj; session_byte := bs; device_byte := bd; did_byte := bi |}.
    split; [done|]. unfold wire_payload.
    cbn [sub_id flags scopes attrs dpop_jti iat exp aud session_id device_id did].
    cbn [jti_byte session_byte device_byte did_byte].
    rewrite Lsc, Lat, !Z2Nat.id, app_nil_r by lia. done.
  - intros [(Hsid & Hfl & Lsc & Hsc & Lat & Hat & Hj & Hia & Hex & Hau & Hse & Hde & Hdi)
      (b & (Mj & Ms & Md & Mi) & ->)].
    destruct p as [sid fl scs ats jti ia ex au se de di]. 
    unfold payload_ok, wire_payload in *.
    cbn [sub_id flags scopes attrs dpop_jti iat exp aud session_id device_id did] in *.
    assert (forall n, (Z.of_nat n < 2 ^ 16)%Z -> (0 <= Z.of_nat n < 256 ^ Z.of_nat 2)%Z) as Hn
      by (intros; simpl; lia).
    exists sid. eexists _, _. split; [reflexivity|]. split; [done|].
    exists fl. eexists _, _. split; [reflexivity|]. split; [done|].
    eexists _, _, _. split; [reflexivity|]. split; [split; [|reflexivity]; auto|].
    exists scs. eexists _, _. split; [reflexivity|]. rewrite !Nat2Z.id. split; [done|].
    eexists _, _, _. split; [reflexivity|]. split; [split; [|reflexivity]; auto|].
    exists ats. eexists _, _. split; [reflexivity|]. rewrite !Nat2Z.id. split; [done|].
    exists jti. eexists _, _. split; [reflexivity|]. split; [eauto|].
    exists ia. eexists _, _. split; [reflexivity|]. split; [done|].
    exists ex. eexists _, _. split; [reflexivity|]. split; [done|].
    exists au. eexists _, _. split; [reflexivity|]. split; [done|].
    exists se. eexists _, _. split; [reflexivity|]. split; [eauto|].
    exists de. eexists _, _. split; [reflexivity|]. split; [eauto|].
    exists di. eexists _, []. rewrite app_nil_r. split; [reflexivity|]. split; [eauto|]. done.
Qed.

(** C19: the payload parser accepts exactly the wire format: a payload is read from some
    bytes precisely when they begin with an encoding of it (any nonzero byte marks an
    optional field as present), and then every field is within its range and every string
    is valid UTF-8. *)
Theorem from_bytes_wire_format data p :
  from_bytes data = Ok p <->
  payload_ok p /\ exists b rest, presence_ok b p /\ data = wire_payload b p ++ rest.
Proof.
  unfold from_bytes. split.
  - intros H. destruct (read_payload data) as [[p' rest]|] eqn:E; simplify_eq.
    apply (accepts_sound _ _ accepts_read_payload) in E as (w & (Hp & b & Hb & ->) & ->). eauto.
  - intros (Hp & b & rest & Hb & ->).
    by rewrite (accepts_complete _ _ accepts_read_payload p (wire_payload b p) rest) by eauto.
Qed.

(** A truncated payload, cut anywhere, is reported as too short and never read as
    another payload. *)
Theorem from_bytes_truncated b p u :
  payload_ok p -> presence_ok b p -> strict_prefix u (wire_payload b p) ->
  from_bytes u = Err PayloadTooShort.
Proof.
  intros Hp Hb Hu. unfold from_bytes.
  by rewrite (accepts_short _ _ accepts_read_payload p (wire_payload b p) u) by eauto.
Qed.


(** ** Validation *)

(** What the crates provide: Z85, the NanoTDF header of [opentdf_protocol] with its size,
    the curve, the key agreement of [opentdf_kas], HKDF-SHA256 with the NanoTDF salt, and
    AES-256-GCM with the zero nonce. *)
Class TokenCrypto := {
  z85_decode : string -> result bytes string;
  Header : Type;
  header_read_from : bytes -> result Header string;
  ephemeral_public_key : Header -> bytes;
  serialized_size : Header -> nat;
  PublicKey : Type;
  SecretKey : Type;
  public_key_from_sec1_bytes : bytes -> result PublicKey string;
  custom_ecdh : SecretKey -> PublicKey -> result bytes string;
  hkdf_expand : bytes -> option bytes;
  aes_gcm_decrypt : bytes -> bytes -> option bytes;
}.

(** A header that was read is as long as it says. *)
Class TokenCryptoLaws `{!TokenCrypto} := {
  header_size_read : forall b h, header_read_from b = Ok h -> serialized_size h <= length b;
}.

Section Validate.
Context {crypto : TokenCrypto}.

(** From the shared secret on: the payload behind the header is cut out and decrypted. *)
Definition decrypt_payload (nanotdf_bytes : bytes) (header_size : nat) (aes_key : bytes) :
    outcome (result bytes NtdfTokenError) :=
  let! payload_data := slice nanotdf_bytes header_size (length nanotdf_bytes) in
  if length payload_data <? 3 + 16 then Done (Err PayloadTooShort) else
  let! b0 := index payload_data 0 in
  let! b1 := index payload_data 1 in
  let! b2 := index payload_data 2 in
  let payload_len :=
    Z.to_nat (Z.lor (Z.lor (Z.shiftl (b2z b0) 16) (Z.shiftl (b2z b1) 8)) (b2z b2)) in
  let encrypted_start := 3 in
  let encrypted_end := encrypted_start + payload_len in
  if length payload_data <? encrypted_end then Done (Err PayloadTooShort) else
  let! encrypted := slice payload_data encrypted_start encrypted_end in
  Done (ok_or DecryptionFailed (aes_gcm_decrypt aes_key encrypted)).

(** [now] is the clock's answer at step 10. *)
Definition validate_ntdf_token (auth_header : string) (kas_private_key : SecretKey)
    (expected_audience : string) (now : Z) : outcome (result NtdfTokenPayload NtdfTokenError) :=
  match strip_prefix "NTDF " auth_header with
  | None => Done (Err InvalidHeaderFormat)
  | Some z85_token =>
  match z85_decode z85_token with
  | Err e => Done (Err (Z85DecodeError e))
  | Ok nanotdf_bytes =>
  match header_read_from nanotdf_bytes with
  | Err e => Done (Err (InvalidNanoTdf ("Header parse error: " +:+ e)))
  | Ok header =>
  let ephemeral_key_bytes := ephemeral_public_key header in
  if length ephemeral_key_bytes <? 33 then
    Done (Err (InvalidNanoTdf ("Invalid ephemeral key size: " +:+
      display_Z (Z.of_nat (length ephemeral_key_bytes)) +:+ " (expected >= 33)")))
  else
  match public_key_from_sec1_bytes ephemeral_key_bytes with
  | Err e => Done (Err (InvalidNanoTdf ("Invalid ephemeral key: " +:+ e)))
  | Ok ephemeral =>
  match custom_ecdh kas_private_key ephemeral with
  | Err e => Done (Err (EcdhError e))
  | Ok shared_secret =>
  match hkdf_expand shared_secret with
  | None => Done (Err (InvalidNanoTdf "HKDF expansion failed"))
  | Some aes_key =>
  let! plaintext := decrypt_payload nanotdf_bytes (serialized_size header) aes_key in
  Done (
    let? plaintext := plaintext in
    let? payload := from_bytes plaintext in
    if (exp payload <=? now)%Z then Err (Expired (exp payload) now)
    else if negb (bool_decide (aud payload = expected_audience)) then
      Err (InvalidAudience expected_audience (aud payload))
    else Ok payload)
  end end end end end end.

(** A token that opens: the ciphertext [ct] behind the header, with its length in three
    bytes, decrypts to [pt] under the key agreed with the header's ephemeral key. *)
Definition opens (key : SecretKey) (auth : string) (pt : bytes) : Prop :=
  exists token data h pk secret aes hdr ct rest,
    strip_prefix "NTDF " auth = Some token /\ z85_decode token = Ok data /\
    header_read_from data = Ok h /\ 33 <= length (ephemeral_public_key h) /\
    public_key_from_sec1_bytes (ephemeral_public_key h) = Ok pk /\
    custom_ecdh key pk = Ok secret /\ hkdf_expand secret = Some aes /\
    data = hdr ++ be_bytes 3 (Z.of_nat (length ct)) ++ ct ++ rest /\
    length hdr = serialized_size h /\ (Z.of_nat (length ct) < 2 ^ 24)%Z /\
    16 <= length (ct ++ rest) /\ aes_gcm_decrypt aes ct = Some pt.

Lemma decrypt_payload_ok data n aes pt :
  decrypt_payload data n aes = Done (Ok pt) <->
  exists hdr ct rest, data = hdr ++ be_bytes 3 (Z.of_nat (length ct)) ++ ct ++ rest /\
    length hdr = n /\ (Z.of_nat (length ct) < 2 ^ 24)%Z /\ 16 <= length (ct ++ rest) /\
    aes_gcm_decrypt aes ct = Some pt.
Proof.
  unfold decrypt_payload. split.
  - intros H. destruct (slice data n (length data)) as [pd|] eqn:Es; [|done].
    apply slice_Done in Es as [[Hn _] Epd]. rewrite take_ge in Epd by (rewrite length_drop; lia).
    cbn [obind] in H. destruct (Nat.ltb_spec (length pd) (3 + 16)) as [|Hl]; [done|].
    destruct pd as [|b0 [|b1 [|b2 pd]]]; simpl in Hl; try lia.
    change (index _ 0) with (Done b0) in H. change (index (_ :: _) 1) with (Done b1) in H.
    change (index (_ :: _) 2) with (Done b2) in H. cbn [obind] in H. rewrite be_to_Z_3 in H.
    destruct (Nat.ltb_spec (length (b0 :: b1 :: b2 :: pd)) (3 + Z.to_nat (be_to_Z [b0; b1; b2])))
      as [|Hle]; [done|].
    rewrite slice_in_range in H by lia. cbn [obind] in H. injection H as H.
    apply ok_or_Ok in H. change (drop 3 (b0 :: b1 :: b2 :: pd)) with pd in H.
    replace (3 + Z.to_nat (be_to_Z [b0; b1; b2]) - 3) with (Z.to_nat (be_to_Z [b0; b1; b2])) in H by lia.
    pose proof (le_to_Z_range (reverse [b0; b1; b2])) as Hr.
    change (0 <= be_to_Z [b0; b1; b2] < 2 ^ 24)%Z in Hr.
    set (len := be_to_Z [b0; b1; b2]) in *. simpl in Hle.
    exists (take n data), (take (Z.to_nat len) pd), (drop (Z.to_nat len) pd).
    assert (length (take (Z.to_nat len) pd) = Z.to_nat len) as Lct by (rewrite length_take; lia).
    rewrite Lct, Z2Nat.id, take_drop, length_take by lia. split_and!; try lia.
    + assert (be_bytes 3 len = [b0; b1; b2]) as -> by apply (be_bytes_to_Z [b0; b1; b2]).
      simpl. by rewrite Epd, take_drop.
    + by rewrite Nat.sub_0_r, drop_0 in H.
  - intros (hdr & ct & rest & -> & <- & Hlen & H16 & Hd).
    set (len := be_bytes 3 (Z.of_nat (length ct))).
    assert (length len = 3) as L3 by apply length_be_bytes.
    rewrite slice_in_range by (rewrite length_app; lia).
    rewrite drop_app_length, take_ge by (rewrite !length_app; lia). cbn [obind].
    rewrite (proj2 (Nat.ltb_ge _ _)) by (rewrite length_app; lia).
    destruct len as [|b0 [|b1 [|b2 [|]]]] eqn:El; try done. cbn [app].
    change (index _ 0) with (Done b0). change (index (_ :: _) 1) with (Done b1).
    change (index (_ :: _) 2) with (Done b2). cbn [obind]. rewrite be_to_Z_3.
    assert (be_to_Z [b0; b1; b2] = Z.of_nat (length ct)) as ->.
    { rewrite <-El. apply be_to_Z_bytes_small. simpl. lia. }
    rewrite Nat2Z.id. rewrite (proj2 (Nat.ltb_ge _ _)) by (cbn [length]; rewrite length_app; lia).
    change (b0 :: b1 :: b2 :: ct ++ rest) with ([b0; b1; b2] ++ ct ++ rest).
    rewrite slice_app by (simpl; lia). cbn [obind]. by rewrite Hd.
Qed.

(** A token is accepted exactly when it opens to a well-formed payload that has not
    expired and is for the expected audience. *)
Theorem validate_ntdf_token_accepts auth key expected now p :
  validate_ntdf_token auth key expected now = Done (Ok p) <->
  exists pt, opens key auth pt /\ from_bytes pt = Ok p /\ (now < exp p)%Z /\ aud p = expected.
Proof.
  unfold validate_ntdf_token, opens. split.
  - intros H. destruct (strip_prefix _ _) as [token|]; [|done].
    destruct (z85_decode token) as [data|] eqn:E1; [|done].
    destruct (header_read_from data) as [h|] eqn:E2; [|done].
    destruct (Nat.ltb_spec (length (ephemeral_public_key h)) 33); [done|].
    destruct (public_key_from_sec1_bytes _) as [pk|] eqn:E3; [|done].
    destruct (custom_ecdh key pk) as [secret|] eqn:E4; [|done].
    destruct (hkdf_expand secret) as [aes|] eqn:E5; [|done].
    destruct (decrypt_payload _ _ _) as [[pt|]|] eqn:E6; try done.
    apply decrypt_payload_ok in E6 as (hdr & ct & rest & -> & ? & ? & ? & ?).
    cbn [obind rbind] in H. destruct (from_bytes pt) as [p'|] eqn:E7; [|done]. simpl in H.
    destruct (Z.leb_spec (exp p') now); [done|]. case_bool_decide; simplify_eq/=.
    exists pt. split_and!; try done.
    by exists token, (hdr ++ be_bytes 3 (Z.of_nat (length ct)) ++ ct ++ rest), h, pk, secret, aes,
      hdr, ct, rest.
  - intros (pt & (token & data & h & pk & secret & aes & hdr & ct & rest & -> & -> & -> & Hk &
      -> & -> & -> & Hd & Hh & Hl & H16 & Ha) & Hp & Hn & <-).
    rewrite (proj2 (Nat.ltb_ge _ _)) by lia.
    assert (decrypt_payload data (serialized_size h) aes = Done (Ok pt)) as ->.
    { apply decrypt_payload_ok. exists hdr, ct, rest. done. }
    cbn [obind rbind]. rewrite Hp. simpl. rewrite (proj2 (Z.leb_gt _ _)) by lia.
    by rewrite bool_decide_eq_true_2.
Qed.

(** Validation never panics, whatever the header, given that the NanoTDF crate's size
    of a header it read is at most what it was given. *)
Theorem validate_ntdf_token_total {laws : TokenCryptoLaws} auth key expected now :
  exists r, validate_ntdf_token auth key expected now = Done r.
Proof.
  unfold validate_ntdf_token. destruct (strip_prefix _ _) as [token|]; [|eauto].
  destruct (z85_decode token) as [data|]; [|eauto].
  destruct (header_read_from data) as [h|] eqn:E; [|eauto].
  destruct (_ <? _); [eauto|]. destruct (public_key_from_sec1_bytes _); [|eauto].
  destruct (custom_ecdh _ _); [|eauto]. destruct (hkdf_expand _) as [aes|]; [|eauto].
  assert (exists r, decrypt_payload data (serialized_size h) aes = Done r) as [r ->].
  { unfold decrypt_payload. apply header_size_read in E.
    rewrite slice_in_range by lia. cbn [obind]. set (pd := take _ _).
    destruct (Nat.ltb_spec (length pd) (3 + 16)) as [|Hl]; [eauto|].
    destruct pd as [|b0 [|b1 [|b2 pd]]]; simpl in Hl; try lia. cbn [index lookup].
    change (index _ 0) with (Done b0). change (index (_ :: _) 1) with (Done b1).
    change (index (_ :: _) 2) with (Done b2). cbn [obind].
    destruct (Nat.ltb_spec (length (b0 :: b1 :: b2 :: pd)) (3 +
      Z.to_nat (Z.lor (Z.lor (b2z b0 ≪ 16) (b2z b1 ≪ 8)) (b2z b2)))); [eauto|].
    rewrite slice_in_range by lia. simpl. eauto. }
  cbn [obind]. eauto.
Qed.
End Validate.

(** ** A concrete token

    Stand-ins for the crates: a four-byte header and a cipher whose ciphertext is the
    plaintext followed by a sixteen-byte tag. *)
#[export] Instance sample_token_crypto : TokenCrypto :=
  {| z85_decode := fun s => Ok (as_bytes s); Header := unit;
     header_read_from := fun b => if 4 <=? length b then Ok tt else Err "too short"%string;
     ephemeral_public_key := fun _ => replicate 33 x02; serialized_size := fun _ => 4;
     PublicKey := bytes; SecretKey := unit;
     public_key_from_sec1_bytes := fun b => Ok b;
     custom_ecdh := fun _ k => Ok (take 32 k); hkdf_expand := fun s => Some s;
     aes_gcm_decrypt := fun k c =>
       if bool_decide (drop (length c - 16) c = take 16 k) then Some (take (length c - 16) c)
       else None |}.

#[export] Instance sample_token_crypto_laws : TokenCryptoLaws.
Proof.
  split. intros b h. cbn. destruct b as [|? [|? [|? [|? b]]]]; simpl; intros; try discriminate; lia.
Defined.

Definition sample_payload : NtdfTokenPayload :=
  {| sub_id := replicate 16 x0a; flags := 0x91; scopes := ["openid"; "media"]%string;
     attrs := [(0, 42); (1, 2)]%Z; dpop_jti := Some (replicate 16 x0b); iat := 1000; exp := 2000;
     aud := "kas"; session_id := None; device_id := Some "tv"%string; did := None |}.
Definition sample_presence : presence :=
  {| jti_byte := x01; session_byte := x00; device_byte := x01; did_byte := x00 |}.

Lemma sample_payload_ok : payload_ok sample_payload.
Proof.
  unfold payload_ok, in_u64, in_i64, text_ok, opt_ok, attr_ok. simpl.
  split_and!; try done; repeat constructor; try done; intros; simplify_eq; done.
Defined.

Lemma sample_presence_ok : presence_ok sample_presence sample_payload.
Proof. unfold presence_ok, marks. simpl. naive_solver. Defined.

Definition sample_token : string :=
  "NTDF head" +:+ string_of_list_byte
    (be_bytes 3 (Z.of_nat (length (wire_payload sample_presence sample_payload) + 16)) ++
     wire_payload sample_presence sample_payload ++ replicate 16 x02).

Lemma sample_token_valid :
  validate_ntdf_token sample_token tt "kas" 1999 = Done (Ok sample_payload) /\
  validate_ntdf_token sample_token tt "kas" 2000 = Done (Err (Expired 2000 2000)).
Proof. split; vm_compute; reflexivity. Qed.

Lemma from_bytes_truncated_witness :
  from_bytes (take 40 (wire_payload sample_presence sample_payload)) = Err PayloadTooShort.
Proof.
  apply (from_bytes_truncated sample_presence sample_payload _ sample_payload_ok sample_presence_ok).
  exists (drop 40 (wire_payload sample_presence sample_payload)).
  split; [vm_compute; discriminate|]. symmetry. apply take_drop.
Defined.

Lemma validate_ntdf_token_total_witness :
  exists r, validate_ntdf_token sample_token tt "kas" 1999 = Done r.
Proof.
  exact (validate_ntdf_token_total (crypto := sample_token_crypto) sample_token tt "kas" 1999).
Defined.
