(* ===== verification/MediaPolicy.v ===== *)
(** * The media policy contract (src/src/bin/contracts/media_policy_contract.rs)

    A stateless decision over a user's entitlement, a content's metadata and a device.
    The order of the checks decides which error a refused request gets; the theorems say
    when access is granted, independently of that order, and which check refuses. *)
From S2P Require Import Prelude.

Inductive ContentSecurityLevel : Set := Audio | SD | HD | UHD.
Inductive HDCPRequirement : Set := NotRequired | Type0 | Type1.
Inductive LicenseType : Set := Streaming | Rental | Purchase | Subscription.
Inductive SubscriptionStatus : Set := Active | Expired | Suspended | Cancelled.

#[export] Instance license_type_dec : EqDecision LicenseType.
Proof. solve_decision. Defined.
#[export] Instance subscription_status_dec : EqDecision SubscriptionStatus.
Proof. solve_decision. Defined.

Record UserEntitlement := {
  user_id : bytes;
  subscription_status : SubscriptionStatus;
  subscription_tier : Z;
  max_concurrent_streams : Z;
  geo_region : bytes;
  allowed_regions : list bytes;
}.

Record RentalWindow := {
  purchase_timestamp : Z;
  first_play_timestamp : option Z;
  rental_duration_seconds : Z;
  playback_duration_seconds : Z;
}.

Record C2paManifestInfo := {
  is_valid : bool;
  creator : option bytes;
  ai_generated : option bool;
  edit_count : Z;
}.

Record ContentMetadata := {
  asset_id : bytes;
  security_level : ContentSecurityLevel;
  hdcp_requirement : HDCPRequirement;
  license_type : LicenseType;
  rental_window : option RentalWindow;
  c2pa_manifest : option C2paManifestInfo;
  require_c2pa : bool;
}.

Record DeviceCapabilities := {
  supports_hdcp_type_0 : bool;
  supports_hdcp_type_1 : bool;
  device_security_level : Z;
  is_virtual_machine : bool;
}.

Inductive Error : Set :=
| SubscriptionInactive
| SubscriptionTierInsufficient
| ConcurrencyLimitExceeded
| GeoRestrictionViolation
| RentalWindowExpired
| RentalNotStarted
| HDCPNotSupported
| SecurityLevelInsufficient
| VirtualMachineNotAllowed
| DeviceNotAuthorized
| C2paRequired
| C2paValidationFailed.

(** [matches!] on the level. *)
Definition is_uhd (l : ContentSecurityLevel) : bool :=
  match l with UHD => true | _ => false end.
Definition is_hd_or_uhd (l : ContentSecurityLevel) : bool :=
  match l with HD | UHD => true | _ => false end.

Definition validate_c2pa (content : ContentMetadata) : result unit Error :=
  if require_c2pa content && bool_decide (c2pa_manifest content = None) then Err C2paRequired
  else
    match c2pa_manifest content with
    | Some manifest => if negb (is_valid manifest) then Err C2paValidationFailed else Ok tt
    | None => Ok tt
    end.

Definition validate_subscription (entitlement : UserEntitlement) (content : ContentMetadata) :
    result unit Error :=
  if bool_decide (license_type content = Subscription) then
    if negb (bool_decide (subscription_status entitlement = Active)) then Err SubscriptionInactive
    else if is_uhd (security_level content) && (subscription_tier entitlement <? 2)%Z
    then Err SubscriptionTierInsufficient
    else Ok tt
  else Ok tt.

Definition validate_concurrency (entitlement : UserEntitlement) (current_active_streams : Z) :
    result unit Error :=
  if (max_concurrent_streams entitlement <=? current_active_streams)%Z
  then Err ConcurrencyLimitExceeded else Ok tt.

Definition validate_geo_access (entitlement : UserEntitlement) (client_geo_region : bytes) :
    result unit Error :=
  if negb (bool_decide (allowed_regions entitlement = [])) &&
     negb (bool_decide (client_geo_region ∈ allowed_regions entitlement))
  then Err GeoRestrictionViolation else Ok tt.

(** The differences are [i64]; they wrap around in a release build. *)
Definition validate_rental_window (rental : RentalWindow) (current_timestamp : Z) :
    result unit Error :=
  let elapsed_since_purchase := i64_wrap (current_timestamp - purchase_timestamp rental) in
  if (rental_duration_seconds rental <? elapsed_since_purchase)%Z then Err RentalWindowExpired
  else
    match first_play_timestamp rental with
    | Some first_play =>
      let elapsed_since_first_play := i64_wrap (current_timestamp - first_play) in
      if (playback_duration_seconds rental <? elapsed_since_first_play)%Z
      then Err RentalWindowExpired else Ok tt
    | None => Ok tt
    end.

Definition required_level (l : ContentSecurityLevel) : Z :=
  match l with Audio => 0 | SD => 1 | HD => 1 | UHD => 2 end.

Definition validate_device_security (content : ContentMetadata) (device : DeviceCapabilities) :
    result unit Error :=
  if is_virtual_machine device && is_hd_or_uhd (security_level content)
  then Err VirtualMachineNotAllowed
  else if (device_security_level device <? required_level (security_level content))%Z
  then Err SecurityLevelInsufficient
  else Ok tt.

Definition validate_hdcp (content : ContentMetadata) (device : DeviceCapabilities) :
    result unit Error :=
  match hdcp_requirement content with
  | NotRequired => Ok tt
  | Type0 => if negb (supports_hdcp_type_0 device) then Err HDCPNotSupported else Ok tt
  | Type1 => if negb (supports_hdcp_type_1 device) then Err HDCPNotSupported else Ok tt
  end.

Definition validate_access (entitlement : UserEntitlement) (content : ContentMetadata)
    (device : DeviceCapabilities) (current_active_streams : Z) (client_geo_region : bytes)
    (current_timestamp : Z) : result unit Error :=
  check validate_subscription entitlement content ;;
  check validate_concurrency entitlement current_active_streams ;;
  check validate_geo_access entitlement client_geo_region ;;
  check match rental_window content with
        | Some rental => validate_rental_window rental current_timestamp
        | None => Ok tt
        end ;;
  check validate_device_security content device ;;
  check validate_hdcp content device ;;
  check (if require_c2pa content || negb (bool_decide (c2pa_manifest content = None))
         then validate_c2pa content else Ok tt) ;;
  Ok tt.

(** ** Specification *)

(** A count of seconds since the epoch that fits the code's [i64]. *)
Definition timestamp (z : Z) : Prop := (0 <= z < 2 ^ 63)%Z.

Definition timestamps (content : ContentMetadata) (now : Z) : Prop :=
  timestamp now /\
  forall r, rental_window content = Some r ->
    timestamp (purchase_timestamp r) /\
    forall p, first_play_timestamp r = Some p -> timestamp p.

(** The conditions of the policy, each in the reals of the integers. *)
Definition subscribed (e : UserEntitlement) (c : ContentMetadata) : Prop :=
  license_type c = Subscription ->
  subscription_status e = Active /\ (security_level c = UHD -> 2 <= subscription_tier e)%Z.
Definition region_allowed (e : UserEntitlement) (region : bytes) : Prop :=
  allowed_regions e = [] \/ region ∈ allowed_regions e.
Definition rental_open (c : ContentMetadata) (now : Z) : Prop :=
  forall r, rental_window c = Some r ->
    (now <= purchase_timestamp r + rental_duration_seconds r)%Z /\
    forall p, first_play_timestamp r = Some p -> (now <= p + playback_duration_seconds r)%Z.
Definition device_trusted (c : ContentMetadata) (d : DeviceCapabilities) : Prop :=
  (is_virtual_machine d = true -> security_level c = Audio \/ security_level c = SD) /\
  (required_level (security_level c) <= device_security_level d)%Z.
Definition output_protected (c : ContentMetadata) (d : DeviceCapabilities) : Prop :=
  (hdcp_requirement c = Type0 -> supports_hdcp_type_0 d = true) /\
  (hdcp_requirement c = Type1 -> supports_hdcp_type_1 d = true).
Definition authentic (c : ContentMetadata) : Prop :=
  (require_c2pa c = true -> c2pa_manifest c <> None) /\
  forall m, c2pa_manifest c = Some m -> is_valid m = true.

Lemma validate_subscription_ok e c : validate_subscription e c = Ok tt <-> subscribed e c.
Proof.
  unfold validate_subscription, subscribed. case_bool_decide as Hl; [|naive_solver].
  case_bool_decide as Hs; simpl; [|naive_solver].
  destruct (Z.ltb_spec (subscription_tier e) 2), (security_level c) eqn:E; simpl;
    split; intros; try done; try (split; [done|intros; (done || lia)]).
  destruct H0 as [_ Ht]; [done|]. specialize (Ht eq_refl). lia.
Qed.

Lemma validate_concurrency_ok e n :
  validate_concurrency e n = Ok tt <-> (n < max_concurrent_streams e)%Z.
Proof.
  unfold validate_concurrency. destruct (Z.leb_spec (max_concurrent_streams e) n);
    split; (done || lia).
Qed.

Lemma validate_geo_access_ok e region :
  validate_geo_access e region = Ok tt <-> region_allowed e region.
Proof.
  unfold validate_geo_access, region_allowed. repeat case_bool_decide; simpl; naive_solver.
Qed.

Lemma elapsed_wrap a b : timestamp a -> timestamp b -> i64_wrap (a - b) = (a - b)%Z.
Proof. intros [] []. apply i64_wrap_id. unfold in_i64. lia. Qed.

Lemma validate_rental_window_ok c now :
  timestamps c now ->
  match rental_window c with
  | Some r => validate_rental_window r now
  | None => Ok tt
  end = Ok tt <-> rental_open c now.
Proof.
  intros [Hn Hr]. unfold rental_open. destruct (rental_window c) as [r|]; [|naive_solver].
  destruct (Hr r eq_refl) as [Hp Hf]. unfold validate_rental_window.
  rewrite elapsed_wrap by done.
  destruct (Z.ltb_spec (rental_duration_seconds r) (now - purchase_timestamp r)) as [H1|H1].
  { split; [done|]. intros H. destruct (H r eq_refl). lia. }
  destruct (first_play_timestamp r) as [p|] eqn:E.
  - rewrite elapsed_wrap by auto.
    destruct (Z.ltb_spec (playback_duration_seconds r) (now - p)) as [H2|H2]; split; try done.
    + intros H. destruct (H r eq_refl) as [_ H']. specialize (H' p E). lia.
    + intros _ r' [= <-]. split; [lia|]. intros p' Hp'. assert (p' = p) by congruence. lia.
  - split; [|done]. intros _ r' [= <-]. split; [lia|]. congruence.
Qed.

Lemma validate_device_security_ok c d :
  validate_device_security c d = Ok tt <-> device_trusted c d.
Proof.
  unfold validate_device_security, device_trusted.
  destruct (is_virtual_machine d), (security_level c); simpl;
    repeat match goal with |- context [(?a <? ?b)%Z] => destruct (Z.ltb_spec a b) end;
    split; intros; naive_solver lia.
Qed.

Lemma validate_hdcp_ok c d : validate_hdcp c d = Ok tt <-> output_protected c d.
Proof.
  unfold validate_hdcp, output_protected.
  destruct (hdcp_requirement c), (supports_hdcp_type_0 d), (supports_hdcp_type_1 d); simpl;
    naive_solver.
Qed.

Lemma validate_c2pa_ok c :
  (if require_c2pa c || negb (bool_decide (c2pa_manifest c = None))
   then validate_c2pa c else Ok tt) = Ok tt <-> authentic c.
Proof.
  unfold validate_c2pa, authentic.
  destruct (c2pa_manifest c) as [m|]; simpl.
  - rewrite orb_true_r, andb_false_r. destruct (is_valid m) eqn:E; simpl.
    + split; [|done]. intros _. split; [done|]. by intros ? [= <-].
    + split; [done|]. intros [_ H]. specialize (H m eq_refl). congruence.
  - destruct (require_c2pa c); simpl; naive_solver.
Qed.

(** C20: the media policy grants access exactly when the subscription, concurrency, region,
    rental-window, device, HDCP and C2PA conditions all hold, for timestamps that are
    seconds since the epoch. *)
Theorem validate_access_grants e c d streams region now :
  timestamps c now ->
  validate_access e c d streams region now = Ok tt <->
  subscribed e c /\ (streams < max_concurrent_streams e)%Z /\ region_allowed e region /\
  rental_open c now /\ device_trusted c d /\ output_protected c d /\ authentic c.
Proof.
  intros Ht. unfold validate_access.
  rewrite <-validate_subscription_ok, <-validate_concurrency_ok, <-validate_geo_access_ok,
    <-validate_rental_window_ok, <-validate_device_security_ok, <-validate_hdcp_ok,
    <-validate_c2pa_ok by done.
  repeat setoid_rewrite rbind_Ok. split.
  - intros ([] & ? & [] & ? & [] & ? & [] & ? & [] & ? & [] & ? & [] & ? & _). done.
  - intros (? & ? & ? & ? & ? & ? & ?). repeat (exists tt; split; [done|]). done.
Qed.

(** What each error says about a refused request; two of the errors are never given. *)
Definition violates (e : UserEntitlement) (c : ContentMetadata) (d : DeviceCapabilities)
    (streams : Z) (region : bytes) (now : Z) (err : Error) : Prop :=
  match err with
  | SubscriptionInactive => license_type c = Subscription /\ subscription_status e <> Active
  | SubscriptionTierInsufficient =>
      license_type c = Subscription /\ subscription_status e = Active /\
      security_level c = UHD /\ (subscription_tier e < 2)%Z
  | ConcurrencyLimitExceeded => (max_concurrent_streams e <= streams)%Z
  | GeoRestrictionViolation => ~ region_allowed e region
  | RentalWindowExpired => ~ rental_open c now
  | VirtualMachineNotAllowed =>
      is_virtual_machine d = true /\ (security_level c = HD \/ security_level c = UHD)
  | SecurityLevelInsufficient => (device_security_level d < required_level (security_level c))%Z
  | HDCPNotSupported => ~ output_protected c d
  | C2paRequired => require_c2pa c = true /\ c2pa_manifest c = None
  | C2paValidationFailed => exists m, c2pa_manifest c = Some m /\ is_valid m = false
  | RentalNotStarted | DeviceNotAuthorized => False
  end.

Lemma validate_rental_window_err r now err :
  validate_rental_window r now = Err err -> err = RentalWindowExpired.
Proof. unfold validate_rental_window. intros H. repeat case_match; by simplify_eq. Qed.

(** A refused request gets an error that names a condition it violates;
    [RentalNotStarted] and [DeviceNotAuthorized] are never returned. *)
Theorem validate_access_refuses e c d streams region now err :
  timestamps c now ->
  validate_access e c d streams region now = Err err ->
  violates e c d streams region now err.
Proof.
  intros Ht H. unfold validate_access in H.
  apply rbind_Err in H as [H|([] & _ & H)].
  { unfold validate_subscription in H. destruct (security_level c) eqn:El;
      repeat case_bool_decide; simpl in H; simplify_eq; try done.
    destruct (Z.ltb_spec (subscription_tier e) 2); simplify_eq. done. }
  apply rbind_Err in H as [H|([] & _ & H)].
  { unfold validate_concurrency in H. destruct (Z.leb_spec (max_concurrent_streams e) streams);
      by simplify_eq. }
  apply rbind_Err in H as [H|([] & _ & H)].
  { assert (err = GeoRestrictionViolation) as ->.
    { unfold validate_geo_access in H. by case_match; simplify_eq. }
    simpl. rewrite <-validate_geo_access_ok. congruence. }
  apply rbind_Err in H as [H|([] & _ & H)].
  { assert (err = RentalWindowExpired) as ->.
    { destruct (rental_window c); [by eapply validate_rental_window_err|done]. }
    simpl. rewrite <-(validate_rental_window_ok _ _ Ht). congruence. }
  apply rbind_Err in H as [H|([] & _ & H)].
  { unfold validate_device_security in H.
    destruct (is_virtual_machine d) eqn:Ev, (security_level c) eqn:El; simpl in H;
      repeat match type of H with context [(?a <? ?b)%Z] => destruct (Z.ltb_spec a b) end;
      simplify_eq; simpl; rewrite ?Ev, ?El; auto. }
  apply rbind_Err in H as [H|([] & _ & H)].
  { assert (err = HDCPNotSupported) as ->.
    { unfold validate_hdcp in H. by repeat case_match; simplify_eq. }
    simpl. rewrite <-validate_hdcp_ok. congruence. }
  apply rbind_Err in H as [H|([] & _ & H)]; [|done].
  unfold validate_c2pa in H. destruct (require_c2pa c) eqn:Er, (c2pa_manifest c) as [m|] eqn:Em;
    simpl in H; try (destruct (is_valid m) eqn:Ev; simpl in H); simplify_eq; simpl; eauto.
Qed.

(** A rental bought at the earliest representable time has long expired, yet the
    elapsed time wraps around to a negative number and the window counts as open. *)
Theorem rental_window_wraps :
  exists r now, in_i64 (purchase_timestamp r) /\ timestamp now /\
    (purchase_timestamp r + rental_duration_seconds r < now)%Z /\
    validate_rental_window r now = Ok tt.
Proof.
  exists {| purchase_timestamp := (- 2 ^ 63)%Z; first_play_timestamp := None;
            rental_duration_seconds := 172800; playback_duration_seconds := 86400 |}, 1700000000%Z.
  unfold in_i64, timestamp. simpl. split_and!; try lia. reflexivity.
Qed.

(** ** A concrete request *)

Definition sample_entitlement : UserEntitlement :=
  {| user_id := replicate 32 x01; subscription_status := Active; subscription_tier := 2;
     max_concurrent_streams := 2; geo_region := [x55; x53]; allowed_regions := [[x55; x53]] |}.
Definition sample_content : ContentMetadata :=
  {| asset_id := replicate 32 x02; security_level := UHD; hdcp_requirement := Type1;
     license_type := Subscription;
     rental_window := Some {| purchase_timestamp := 1000; first_play_timestamp := Some 1500%Z;
                              rental_duration_seconds := 2000; playback_duration_seconds := 600 |};
     c2pa_manifest := None; require_c2pa := false |}.
Definition sample_device : DeviceCapabilities :=
  {| supports_hdcp_type_0 := true; supports_hdcp_type_1 := true; device_security_level := 2;
     is_virtual_machine := false |}.

Lemma sample_timestamps now : timestamp now -> timestamps sample_content now.
Proof.
  intros. split; [done|]. intros r [= <-]. unfold timestamp. simpl. split; [lia|].
  intros p [= <-]. lia.
Defined.

Lemma validate_access_grants_witness :
  validate_access sample_entitlement sample_content sample_device 1 [x55; x53] 2000 = Ok tt /\
  rental_open sample_content 2000.
Proof.
  assert (timestamps sample_content 2000) as Ht by (apply sample_timestamps; split; lia).
  split; [reflexivity|].
  apply (validate_access_grants sample_entitlement sample_content sample_device 1 [x55; x53] 2000 Ht).
  reflexivity.
Defined.

Lemma validate_access_refuses_witness : ~ rental_open sample_content 2101.
Proof.
  apply (validate_access_refuses sample_entitlement sample_content sample_device 1 [x55; x53] 2101
    RentalWindowExpired); [apply sample_timestamps; split; lia|reflexivity].
Defined.
