(* ===== verification/C2paPolicy.v ===== *)
(** * The C2PA policy contract (src/src/bin/contracts/c2pa_policy_contract.rs)

    Decides access from a content's provenance manifest.  The decision carries a reason
    and an authenticity level besides the grant; the theorems tie the three together. *)
From S2P Require Import Prelude.

Inductive ValidationResult : Set := Valid | Invalid | Missing.
Inductive AuthenticityLevel : Set := Verified | Unverified | Suspicious.
Inductive AiDisclosurePolicy : Set := Required | Prohibited | Optional.

#[export] Instance validation_result_dec : EqDecision ValidationResult.
Proof. solve_decision. Defined.

Record C2paManifest := {
  validation_result : ValidationResult;
  creator : option bytes;
  ai_generated : option bool;
  edit_count : Z;
  timestamp : option Z;
  content_hash : bytes;
}.

Record ContentPolicy := {
  require_c2pa : bool;
  allowed_creators : list bytes;
  ai_disclosure_policy : AiDisclosurePolicy;
  max_edit_count : option Z;
  require_timestamp : bool;
}.

Inductive AccessDenialReason : Set :=
| Granted
| C2paRequired
| C2paValidationFailed
| CreatorNotAllowed
| AiContentProhibited
| AiDisclosureMissing
| TooManyEdits
| TimestampMissing
| InvalidManifest.

Record AccessDecision := {
  granted : bool;
  reason : AccessDenialReason;
  authenticity_level : AuthenticityLevel;
}.

Definition validate_c2pa_signature (manifest : C2paManifest) : result unit AccessDenialReason :=
  match validation_result manifest with
  | Valid => Ok tt
  | Invalid => Err C2paValidationFailed
  | Missing => Err InvalidManifest
  end.

Definition validate_creator (manifest : C2paManifest) (policy : ContentPolicy) :
    result unit AccessDenialReason :=
  if bool_decide (allowed_creators policy = []) then Ok tt
  else
    match creator manifest with
    | Some c =>
      if bool_decide (c ∈ allowed_creators policy) then Ok tt else Err CreatorNotAllowed
    | None => Err CreatorNotAllowed
    end.

Definition validate_ai_disclosure (manifest : C2paManifest) (policy : ContentPolicy) :
    result unit AccessDenialReason :=
  match ai_disclosure_policy policy with
  | Optional => Ok tt
  | Required =>
    if negb (bool_decide (ai_generated manifest = None)) then Ok tt else Err AiDisclosureMissing
  | Prohibited =>
    match ai_generated manifest with
    | Some true => Err AiContentProhibited
    | _ => Ok tt
    end
  end.

Definition validate_edit_count (manifest : C2paManifest) (policy : ContentPolicy) :
    result unit AccessDenialReason :=
  match max_edit_count policy with
  | Some max_edits => if (max_edits <? edit_count manifest)%Z then Err TooManyEdits else Ok tt
  | None => Ok tt
  end.

Definition validate_timestamp (manifest : C2paManifest) (policy : ContentPolicy) :
    result unit AccessDenialReason :=
  if require_timestamp policy && bool_decide (timestamp manifest = None)
  then Err TimestampMissing else Ok tt.

Definition decision (g : bool) (r : AccessDenialReason) (l : AuthenticityLevel) : AccessDecision :=
  {| granted := g; reason := r; authenticity_level := l |}.

Definition validate_access (manifest : option C2paManifest) (policy : ContentPolicy) :
    AccessDecision :=
  if require_c2pa policy && bool_decide (manifest = None) then
    decision false C2paRequired Unverified
  else
  match manifest with
  | None => decision true Granted Unverified
  | Some m =>
    match validate_c2pa_signature m with
    | Err r => decision false r Suspicious
    | Ok _ =>
    match validate_creator m policy with
    | Err r => decision false r Verified
    | Ok _ =>
    match validate_ai_disclosure m policy with
    | Err r => decision false r Verified
    | Ok _ =>
    match validate_edit_count m policy with
    | Err r => decision false r Verified
    | Ok _ =>
    match validate_timestamp m policy with
    | Err r => decision false r Verified
    | Ok _ => decision true Granted Verified
    end end end end end
  end.

Definition is_authentic (manifest : option C2paManifest) : bool :=
  match manifest with
  | Some m => bool_decide (validation_result m = Valid)
  | None => false
  end.

Definition get_authenticity_level (manifest : option C2paManifest) : AuthenticityLevel :=
  match manifest with
  | Some m =>
    match validation_result m with
    | Valid => Verified
    | Invalid => Suspicious
    | Missing => Unverified
    end
  | None => Unverified
  end.

(** ** Specification *)

(** A valid manifest meets a policy. *)
Definition meets (m : C2paManifest) (p : ContentPolicy) : Prop :=
  validation_result m = Valid /\
  (allowed_creators p = [] \/ exists c, creator m = Some c /\ c ∈ allowed_creators p) /\
  match ai_disclosure_policy p with
  | Optional => True
  | Required => ai_generated m <> None
  | Prohibited => ai_generated m <> Some true
  end /\
  (forall max, max_edit_count p = Some max -> (edit_count m <= max)%Z) /\
  (require_timestamp p = true -> timestamp m <> None).

Lemma validate_creator_ok m p :
  validate_creator m p = Ok tt <->
  allowed_creators p = [] \/ exists c, creator m = Some c /\ c ∈ allowed_creators p.
Proof.
  unfold validate_creator. case_bool_decide as H; [naive_solver|].
  destruct (creator m) as [c|]; [case_bool_decide|]; naive_solver.
Qed.

Lemma validate_ai_disclosure_ok m p :
  validate_ai_disclosure m p = Ok tt <->
  match ai_disclosure_policy p with
  | Optional => True
  | Required => ai_generated m <> None
  | Prohibited => ai_generated m <> Some true
  end.
Proof.
  unfold validate_ai_disclosure.
  destruct (ai_disclosure_policy p), (ai_generated m) as [[]|]; simpl; naive_solver.
Qed.

Lemma validate_edit_count_ok m p :
  validate_edit_count m p = Ok tt <->
  forall max, max_edit_count p = Some max -> (edit_count m <= max)%Z.
Proof.
  unfold validate_edit_count. destruct (max_edit_count p) as [max|]; [|naive_solver].
  destruct (Z.ltb_spec max (edit_count m)); split; try done.
  - intros H'. specialize (H' max eq_refl). lia.
  - intros _ ? [= <-]. done.
Qed.

Lemma validate_timestamp_ok m p :
  validate_timestamp m p = Ok tt <-> (require_timestamp p = true -> timestamp m <> None).
Proof.
  unfold validate_timestamp. destruct (require_timestamp p), (timestamp m); simpl; naive_solver.
Qed.

(** Without a manifest access is granted exactly when none is required; with one, it is
    granted exactly when the manifest is valid and meets the policy on creators, AI
    disclosure, edits and timestamps. *)
Theorem c2pa_access_grants manifest policy :
  granted (validate_access manifest policy) = true <->
  match manifest with
  | None => require_c2pa policy = false
  | Some m => meets m policy
  end.
Proof.
  unfold validate_access. destruct manifest as [m|]; [|by destruct (require_c2pa policy)].
  rewrite andb_false_r by done. unfold meets.
  rewrite <-validate_creator_ok, <-validate_ai_disclosure_ok, <-validate_edit_count_ok,
    <-validate_timestamp_ok.
  unfold validate_c2pa_signature. destruct (validation_result m); simpl; [|naive_solver..].
  destruct (validate_creator m policy) as [[]|]; simpl; [|naive_solver].
  destruct (validate_ai_disclosure m policy) as [[]|]; simpl; [|naive_solver].
  destruct (validate_edit_count m policy) as [[]|]; simpl; [|naive_solver].
  destruct (validate_timestamp m policy) as [[]|]; simpl; naive_solver.
Qed.

Lemma denials_not_granted m p r :
  validate_creator m p = Err r \/ validate_ai_disclosure m p = Err r \/
  validate_edit_count m p = Err r \/ validate_timestamp m p = Err r -> r <> Granted.
Proof.
  unfold validate_creator, validate_ai_disclosure, validate_edit_count, validate_timestamp.
  intros H. repeat case_match; naive_solver.
Qed.

(** The three parts of a decision agree: access is granted exactly when the reason is
    [Granted]; the level is [Verified] exactly when the manifest is authentic; and it is
    the level [get_authenticity_level] reports, except that a manifest marked [Missing],
    which that method calls unverified, is called suspicious by the decision. *)
Theorem c2pa_decision_consistent manifest policy :
  let d := validate_access manifest policy in
  (granted d = true <-> reason d = Granted) /\
  (authenticity_level d = Verified <-> is_authentic manifest = true) /\
  (authenticity_level d = get_authenticity_level manifest \/
   exists m, manifest = Some m /\ validation_result m = Missing /\
     authenticity_level d = Suspicious /\ get_authenticity_level manifest = Unverified).
Proof.
  unfold validate_access. destruct manifest as [m|]; simpl.
  - rewrite andb_false_r. unfold validate_c2pa_signature.
    destruct (validation_result m) eqn:Ev; simpl; [|naive_solver|].
    + pose proof (denials_not_granted m policy) as Hr.
      repeat case_match; simpl; split_and!; try done; try naive_solver;
        (split; [done|]; intros ->; exfalso; eapply Hr; [|done]; eauto).
    + split_and!; [naive_solver..|]. right. eauto 10.
  - destruct (require_c2pa policy); simpl; naive_solver.
Qed.
