(* ===== verification/ContentRating.v ===== *)
(** * The content rating contract (src/src/bin/contracts/content_rating.rs)

    Which ratings an age group may see. *)
From S2P Require Import Prelude.

Inductive RatingLevel : Set := Unused | NoneLevel | Mild | Moderate | Severe.

Record Rating := {
  violent : RatingLevel;
  sexual : RatingLevel;
  profane : RatingLevel;
  substance : RatingLevel;
  hate : RatingLevel;
  harm : RatingLevel;
  mature : RatingLevel;
  bully : RatingLevel;
}.

Inductive AgeLevel : Set := Kids | Teens | Adults.

Inductive Error : Set :=
| ViolentContentTooHigh
| SexualContentNotAllowed
| ProfaneContentNotAllowed
| SubstanceContentNotAllowed
| HateContentNotAllowed
| HarmContentNotAllowed
| MatureContentNotAllowed
| BullyingContentNotAllowed.

(** The [matches!] patterns of the two validators. *)
Definition is_none (l : RatingLevel) : bool := match l with NoneLevel => true | _ => false end.
Definition is_none_or_mild (l : RatingLevel) : bool :=
  match l with NoneLevel | Mild => true | _ => false end.
Definition is_moderate_or_severe (l : RatingLevel) : bool :=
  match l with Moderate | Severe => true | _ => false end.

Definition validate_kids_content (rating : Rating) : result unit Error :=
  if negb (is_none_or_mild (violent rating)) then Err ViolentContentTooHigh
  else if negb (is_none (sexual rating)) then Err SexualContentNotAllowed
  else if negb (is_none (profane rating)) then Err ProfaneContentNotAllowed
  else if negb (is_none (substance rating)) then Err SubstanceContentNotAllowed
  else if negb (is_none (hate rating)) then Err HateContentNotAllowed
  else if negb (is_none (harm rating)) then Err HarmContentNotAllowed
  else if negb (is_none (mature rating)) then Err MatureContentNotAllowed
  else if negb (is_none (bully rating)) then Err BullyingContentNotAllowed
  else Ok tt.

Definition validate_teens_content (rating : Rating) : result unit Error :=
  if is_moderate_or_severe (violent rating) then Err ViolentContentTooHigh
  else if is_moderate_or_severe (sexual rating) then Err SexualContentNotAllowed
  else if is_moderate_or_severe (profane rating) then Err ProfaneContentNotAllowed
  else if negb (is_none (substance rating)) then Err SubstanceContentNotAllowed
  else if negb (is_none (hate rating)) then Err HateContentNotAllowed
  else if negb (is_none (harm rating)) then Err HarmContentNotAllowed
  else if is_moderate_or_severe (mature rating) then Err MatureContentNotAllowed
  else if negb (is_none (bully rating)) then Err BullyingContentNotAllowed
  else Ok tt.

Definition validate_content (age_level : AgeLevel) (rating : Rating) : result unit Error :=
  match age_level with
  | Kids => validate_kids_content rating
  | Teens => validate_teens_content rating
  | Adults => Ok tt
  end.

Definition check_content (age_level : AgeLevel) (rating : Rating) : bool :=
  is_ok (validate_content age_level rating).

(** ** Properties *)

(** The discriminants of the levels. *)
Definition level (l : RatingLevel) : Z :=
  match l with Unused => 0 | NoneLevel => 1 | Mild => 2 | Moderate => 3 | Severe => 4 end.

Definition categories : list (Rating -> RatingLevel) :=
  [violent; sexual; profane; substance; hate; harm; mature; bully].

(** [r] is rated no higher than [r'] in every category. *)
Definition milder (r r' : Rating) : Prop :=
  forall f, f ∈ categories -> (level (f r) <= level (f r'))%Z.
Definition rated (r : Rating) : Prop := forall f, f ∈ categories -> f r <> Unused.

Lemma check_kids r :
  check_content Kids r =
  is_none_or_mild (violent r) && is_none (sexual r) && is_none (profane r) &&
  is_none (substance r) && is_none (hate r) && is_none (harm r) && is_none (mature r) &&
  is_none (bully r).
Proof.
  unfold check_content. simpl. unfold validate_kids_content.
  by destruct (is_none_or_mild _), (is_none (sexual r)), (is_none (profane r)),
    (is_none (substance r)), (is_none (hate r)), (is_none (harm r)), (is_none (mature r)),
    (is_none (bully r)).
Qed.

Lemma check_teens r :
  check_content Teens r =
  negb (is_moderate_or_severe (violent r)) && negb (is_moderate_or_severe (sexual r)) &&
  negb (is_moderate_or_severe (profane r)) && is_none (substance r) && is_none (hate r) &&
  is_none (harm r) && negb (is_moderate_or_severe (mature r)) && is_none (bully r).
Proof.
  unfold check_content. simpl. unfold validate_teens_content.
  by destruct (is_moderate_or_severe (violent r)), (is_moderate_or_severe (sexual r)),
    (is_moderate_or_severe (profane r)), (is_none (substance r)), (is_none (hate r)),
    (is_none (harm r)), (is_moderate_or_severe (mature r)), (is_none (bully r)).
Qed.

(** What a milder level passes. *)
Lemma is_none_milder l l' :
  (level l <= level l')%Z -> l <> Unused -> is_none l' = true -> is_none l = true.
Proof. destruct l, l'; simpl; (done || lia). Qed.
Lemma is_none_or_mild_milder l l' :
  (level l <= level l')%Z -> l <> Unused -> is_none_or_mild l' = true -> is_none_or_mild l = true.
Proof. destruct l, l'; simpl; (done || lia). Qed.
Lemma not_moderate_milder l l' :
  (level l <= level l')%Z -> negb (is_moderate_or_severe l') = true ->
  negb (is_moderate_or_severe l) = true.
Proof. destruct l, l'; simpl; (done || lia). Qed.

(** The age groups are ordered and so are the levels: what is allowed for kids is
    allowed for teens, everything is allowed for adults, and a rating that is nowhere
    higher than an allowed one (and rates every category) is allowed. *)
Theorem content_rating_monotone r r' age :
  (check_content Kids r = true -> check_content Teens r = true) /\
  check_content Adults r = true /\
  (milder r r' -> rated r -> check_content age r' = true -> check_content age r = true).
Proof.
  split_and!; [|done|].
  - rewrite check_kids, check_teens, !andb_true_iff. intros H. destruct_and? H.
    split_and!; try done;
      by match goal with H : _ (?f r) = true |- negb (is_moderate_or_severe (?f r)) = true =>
           destruct (f r) end.
  - intros Hm Hr.
    assert (forall f, f ∈ categories -> is_none (f r') = true -> is_none (f r) = true) as Hn.
    { intros f Hf. apply is_none_milder; auto. }
    assert (forall f, f ∈ categories -> is_none_or_mild (f r') = true ->
      is_none_or_mild (f r) = true) as Ho.
    { intros f Hf. apply is_none_or_mild_milder; auto. }
    assert (forall f, f ∈ categories -> negb (is_moderate_or_severe (f r')) = true ->
      negb (is_moderate_or_severe (f r)) = true) as Hs.
    { intros f Hf. apply not_moderate_milder; auto. }
    destruct age; [rewrite !check_kids|rewrite !check_teens|done]; rewrite !andb_true_iff;
      intros Hc; destruct_and? Hc; split_and!;
      first [apply Hn|apply Ho|apply Hs]; (done || (unfold categories; rewrite !elem_of_cons; tauto)).
Qed.

(** A category that was never rated is refused for kids but passes for teens in four of
    the eight categories. *)
Theorem unrated_content r :
  violent r = Unused -> sexual r = Unused -> profane r = Unused -> mature r = Unused ->
  substance r = NoneLevel -> hate r = NoneLevel -> harm r = NoneLevel -> bully r = NoneLevel ->
  validate_content Kids r = Err ViolentContentTooHigh /\ validate_content Teens r = Ok tt.
Proof.
  intros H1 H2 H3 H4 H5 H6 H7 H8. simpl. unfold validate_kids_content, validate_teens_content.
  by rewrite H1, H2, H3, H4, H5, H6, H7, H8.
Qed.

Definition unrated : Rating :=
  {| violent := Unused; sexual := Unused; profane := Unused; substance := NoneLevel;
     hate := NoneLevel; harm := NoneLevel; mature := Unused; bully := NoneLevel |}.

Lemma unrated_content_witness :
  validate_content Kids unrated = Err ViolentContentTooHigh /\
  validate_content Teens unrated = Ok tt.
Proof. apply (unrated_content unrated); reflexivity. Defined.
