(* ===== verification/Contracts.v ===== *)
(** * The small contracts

    The attribute check (src/src/bin/contracts/contract_simple_abac.rs), the geofence of
    the backend (src/src/bin/contracts/geo_fence_contract.rs, in [f64]) and of the chain
    (src/etc/contracts/geo_fence_contract/lib.rs, in [i64]), and the timestamp validator
    (src/etc/contracts/timestamp_validator/lib.rs). *)
From Stdlib Require Import SpecFloat.
From S2P Require Import Prelude.

(** ** Attributes *)

Definition check_access (claim attribute : string) : bool :=
  if bool_decide (claim = "Main"%string) then true
  else if bool_decide (claim = "Alt"%string) then
    if bool_decide (attribute = "North America"%string) then false
    else if bool_decide (attribute = "Europe"%string) then false
    else true
  else if bool_decide (claim = "Private"%string) then false
  else false.

(** The attribute check fails closed: only the claims [Main], and [Alt] outside North
    America and Europe, have access. *)
Lemma check_access_spec claim attribute :
  check_access claim attribute = true <->
  claim = "Main"%string \/
  (claim = "Alt"%string /\ attribute <> "North America"%string /\ attribute <> "Europe"%string).
Proof. unfold check_access. repeat case_bool_decide; naive_solver. Qed.

(** ** Geofences

    [f64] values are the binary floating-point numbers of the Standard Library's
    specification; [>=] and [<=] are false when an operand is not a number. *)
Record Coordinate3D (num : Type) := {
  latitude : num;
  longitude : num;
  altitude : num;
}.
Arguments latitude {num}.
Arguments longitude {num}.
Arguments altitude {num}.

Record Geofence3D (num : Type) := {
  min_latitude : num;
  max_latitude : num;
  min_longitude : num;
  max_longitude : num;
  min_altitude : num;
  max_altitude : num;
}.
Arguments min_latitude {num}.
Arguments max_latitude {num}.
Arguments min_longitude {num}.
Arguments max_longitude {num}.
Arguments min_altitude {num}.
Arguments max_altitude {num}.

(** The body is the same for both number types. *)
Definition is_within {num} (le : num -> num -> bool) (geofence : Geofence3D num)
    (coordinate : Coordinate3D num) : bool :=
  le (min_latitude geofence) (latitude coordinate) &&
  le (latitude coordinate) (max_latitude geofence) &&
  le (min_longitude geofence) (longitude coordinate) &&
  le (longitude coordinate) (max_longitude geofence) &&
  le (min_altitude geofence) (altitude coordinate) &&
  le (altitude coordinate) (max_altitude geofence).

Definition is_within_geofence : Geofence3D spec_float -> Coordinate3D spec_float -> bool :=
  is_within SFleb.

Definition is_within_geofence_i64 : Geofence3D Z -> Coordinate3D Z -> bool :=
  is_within Z.leb.

Definition not_a_number (x : spec_float) : Prop := x = S754_nan.

Lemma SFleb_nan_r x : SFleb x S754_nan = false.
Proof. by destruct x. Qed.
Lemma SFleb_nan_l x : SFleb S754_nan x = false.
Proof. by destruct x. Qed.

(** The geofence of the backend fails closed on floating-point input: a coordinate or a
    bound that is not a number is outside every fence. *)
Theorem geofence_rejects_nan g c :
  not_a_number (latitude c) \/ not_a_number (longitude c) \/ not_a_number (altitude c) \/
  not_a_number (min_latitude g) \/ not_a_number (max_latitude g) \/
  not_a_number (min_longitude g) \/ not_a_number (max_longitude g) \/
  not_a_number (min_altitude g) \/ not_a_number (max_altitude g) ->
  is_within_geofence g c = false.
Proof.
  unfold not_a_number, is_within_geofence, is_within. intros H.
  repeat (destruct H as [->|H]); [..|rewrite H]; rewrite ?SFleb_nan_r, ?SFleb_nan_l;
    by rewrite ?andb_false_r, ?andb_false_l.
Qed.

(** The integers a double represents exactly. *)
Definition double (z : Z) : spec_float := binary_normalize 53 1024 z 0 false.

(** The geofence of the chain is the box of the six bounds, borders included. *)
Theorem geofence_i64_is_box g c :
  is_within_geofence_i64 g c = true <->
  (min_latitude g <= latitude c <= max_latitude g)%Z /\
  (min_longitude g <= longitude c <= max_longitude g)%Z /\
  (min_altitude g <= altitude c <= max_altitude g)%Z.
Proof.
  unfold is_within_geofence_i64, is_within. rewrite !andb_true_iff, !Z.leb_le. lia.
Qed.

(** ** Timestamps *)

Inductive TimestampError : Set := TooEarly | TooLate.

Definition is_timestamp_valid (timestamp start end_ : Z) : bool :=
  (start <=? timestamp)%Z && (timestamp <=? end_)%Z.

Definition validate_with_error (timestamp start end_ : Z) : result unit TimestampError :=
  if (timestamp <? start)%Z then Err TooEarly
  else if (end_ <? timestamp)%Z then Err TooLate
  else Ok tt.

(** The two timestamp messages agree, and the error says on which side the timestamp
    is of a non-empty window. *)
Theorem timestamp_messages_agree t start end_ :
  (is_timestamp_valid t start end_ = true <-> validate_with_error t start end_ = Ok tt) /\
  (validate_with_error t start end_ = Err TooEarly <-> (t < start)%Z) /\
  (validate_with_error t start end_ = Err TooLate <-> (start <= t /\ end_ < t)%Z).
Proof.
  unfold is_timestamp_valid, validate_with_error.
  destruct (Z.ltb_spec t start), (Z.leb_spec start t), (Z.leb_spec t end_), (Z.ltb_spec end_ t);
    try lia; simpl; naive_solver lia.
Qed.

Definition sample_fence : Geofence3D spec_float :=
  {| min_latitude := double (-10); max_latitude := double 10; min_longitude := double 0;
     max_longitude := double 20; min_altitude := double 0; max_altitude := double 100 |}.

Lemma geofence_rejects_nan_witness :
  is_within_geofence sample_fence
    {| latitude := double 5; longitude := double 20; altitude := double 0 |} = true /\
  is_within_geofence sample_fence
    {| latitude := S754_nan; longitude := double 20; altitude := double 0 |} = false.
Proof.
  split; [vm_compute; reflexivity|].
  apply (geofence_rejects_nan sample_fence
    {| latitude := S754_nan; longitude := double 20; altitude := double 0 |}).
  left. reflexivity.
Defined.
