(* ===== verification/CborProtocol.v ===== *)
(** * The CBOR messages (src/src/modules/cbor_protocol.rs)

    The requests and responses behind the message type 0x08.  The encoding is ciborium's and
    serde's, given as the class [CborCrates]; the two helper modules for byte fields are
    translated over the values of that class. *)
From S2P Require Import Prelude Services NanoTdf SessionManager Crypto Chain MediaMetrics MediaApi.

Definition CBOR_MESSAGE_TYPE : byte := x08.

Record ChainValidation := {
  cv_session_id : bytes;
  cv_header_hash : bytes;
  cv_signature : bytes;
  cv_nonce : Z;
  cv_algorithm : string;
}.

Definition default_algorithm : string := "ES256".

Inductive EntityType : Set :=
| Unused | StreamProfile | AccountProfile | Server.

Inductive AttributeType : Set :=
| UnusedAttribute | Time | Location.

Inductive CborRequest : Set :=
| KeyExchange (public_key : bytes)
| ChainRewrap (header : bytes) (chain : ChainValidation)
| MediaKeyRequest (session_id user_id asset_id : string) (segment_index : option Z)
    (client_public_key : option string) (nanotdf_header spc_data : option bytes)
    (chain : ChainValidation)
| UserEvent (source_type target_type : EntityType) (source_id target_id : bytes)
    (attribute_types : option (list AttributeType)) (entity_type : option EntityType)
| CacheEvent (target_id payload : bytes) (ttl : option Z) (one_time_access : option bool)
| RouteEvent (target_type : EntityType) (target_id : bytes) (source_type : EntityType)
    (source_id payload : bytes) (attribute_type : option AttributeType)
    (entity_type : option EntityType).

Inductive CborError : Set :=
| DecodeError (detail : string)
| EncodeError (detail : string)
| InvalidMessageType
| MissingField (field : string).

Definition cbor_error_text (e : CborError) : string :=
  match e with
  | DecodeError d => "Failed to decode CBOR: " +:+ d
  | EncodeError d => "Failed to encode CBOR: " +:+ d
  | InvalidMessageType => "Invalid message type"
  | MissingField f => "Missing required field: " +:+ f
  end.

Section Responses.
Context {crates : MediaCrates}.

Inductive CborResponse :=
| KeyExchangeResponse (kas_public_key session_salt : bytes)
| CborRewrappedKey (ephemeral_key nonce wrapped_dek : bytes)
| CborMediaKeyResponse (session_public_key wrapped_key status : string)
    (metadata : option JsonValue)
| CborErrorResponse (code message : string) (details : option JsonValue).

Definition cbor_error (code message : string) : CborResponse :=
  CborErrorResponse code message None.

Definition error_with_details (code message : string) (details : JsonValue) : CborResponse :=
  CborErrorResponse code message (Some details).
End Responses.

(** What ciborium and serde provide.  [byte_buf] reads a value as serde_bytes does and
    [cbor_string] as a string; [option_byte_buf] reads an optional byte field. *)
Class CborCrates `{!MediaCrates} := {
  from_reader : bytes -> result CborRequest string;
  into_writer : CborResponse -> result bytes string;
  CborValue : Type;
  serialize_bytes : bytes -> CborValue;
  serialize_none : CborValue;
  byte_buf : CborValue -> option bytes;
  cbor_string : CborValue -> option string;
  option_byte_buf : CborValue -> result (option bytes) string;
}.

(** Byte fields are read as they were written, and the tag that serde writes into a response
    tells a rewrapped key from the other responses. *)
Class CborCratesLaws `{!MediaCrates, !CborCrates} := {
  byte_buf_bytes : forall b, byte_buf (serialize_bytes b) = Some b;
  option_byte_buf_bytes : forall b, option_byte_buf (serialize_bytes b) = Ok (Some b);
  option_byte_buf_none : option_byte_buf serialize_none = Ok None;
  rewrapped_key_tag : forall r k n w b,
    into_writer r = Ok b -> into_writer (CborRewrappedKey k n w) = Ok b ->
    exists k' n' w', r = CborRewrappedKey k' n' w';
}.

Section Codec.
Context {prims : Primitives} {crates : MediaCrates} {cbor : CborCrates}.

Definition cbor_decode (data : bytes) : result CborRequest CborError :=
  map_err DecodeError (from_reader data).

Definition cbor_encode (r : CborResponse) : result bytes CborError :=
  map_err EncodeError (into_writer r).

Definition hex_bytes_serialize (b : bytes) : CborValue := serialize_bytes b.

(** The untagged enum [BytesOrHex] tries its variants in order. *)
Definition hex_bytes_deserialize (v : CborValue) : result bytes string :=
  match byte_buf v with
  | Some b => Ok b
  | None =>
    match cbor_string v with
    | Some s => map_err (fun e => "invalid hex: " +:+ e) (hex_decode s)
    | None => Err "data did not match any variant of untagged enum BytesOrHex"%string
    end
  end.

Definition option_bytes_serialize (value : option bytes) : CborValue :=
  match value with
  | Some b => serialize_bytes b
  | None => serialize_none
  end.

Definition option_bytes_deserialize (v : CborValue) : result (option bytes) string := option_byte_buf v.

Context {cbor_laws : CborCratesLaws}.

(** The byte fields survive the trip through their helper modules. *)
Lemma hex_bytes_roundtrip b : hex_bytes_deserialize (hex_bytes_serialize b) = Ok b.
Proof. unfold hex_bytes_deserialize, hex_bytes_serialize. by rewrite byte_buf_bytes. Qed.

Lemma option_bytes_roundtrip o : option_bytes_deserialize (option_bytes_serialize o) = Ok o.
Proof.
  destruct o; [apply option_byte_buf_bytes|apply option_byte_buf_none].
Qed.
End Codec.
