(* ===== verification/WebSocket.v ===== *)
(** * The WebSocket server (src/src/bin/main.rs)

    One connection: the upgrade, the messages a client sends, the handlers they reach and
    the messages NATS pushes.  A handler is awaited before the next message is read, so the
    state of a connection is passed along; the services are events.  The crates the handlers
    call beyond those of the media API are the class [WsCrates]. *)
From S2P Require Import NtdfToken.
From S2P Require Import Prelude Services ContentRating Contracts.
From S2P Require Import NanoTdf SessionManager Crypto Chain MediaMetrics MediaApi HttpRewrap.
From S2P Require Import CborProtocol.

(** ** Data *)

Definition MAX_NANOTDF_SIZE : Z := 16 * 1024 * 1024.
Definition MAX_EVENT_SIZE : Z := 2000.

Inductive MessageType : Set :=
| PublicKeyType | KasPublicKey | Rewrap | RewrappedKey | Nats | EventType | Cbor | ErrorType.

Definition message_code (t : MessageType) : byte :=
  match t with
  | PublicKeyType => x01
  | KasPublicKey => x02
  | Rewrap => x03
  | RewrappedKey => x04
  | Nats => x05
  | EventType => x06
  | Cbor => x08
  | ErrorType => xff
  end.

Definition from_u8 (value : byte) : option MessageType :=
  match value with
  | x01 => Some PublicKeyType
  | x02 => Some KasPublicKey
  | x03 => Some Rewrap
  | x04 => Some RewrappedKey
  | x05 => Some Nats
  | x06 => Some EventType
  | x08 => Some Cbor
  | xff => Some ErrorType
  | _ => None
  end.

(** The messages of tungstenite and of axum; [Control] are pings and pongs. *)
Inductive Message : Set :=
| Binary (data : bytes)
| Text (text : string)
| Close
| Control.

Record WsError := {
  error_type : string;
  error_message : string;
  error_details : option string;
}.

Definition invalid_format (msg : string) : WsError :=
  {| error_type := "invalid_format"; error_message := msg; error_details := None |}.
Definition ws_policy_denied (msg : string) : WsError :=
  {| error_type := "policy_denied"; error_message := msg; error_details := None |}.
Definition crypto_error (msg : string) : WsError :=
  {| error_type := "crypto_error"; error_message := msg; error_details := None |}.
Definition server_error (msg : string) : WsError :=
  {| error_type := "server_error"; error_message := msg; error_details := None |}.

Record Claims := {
  sub : string;
  age : string;
}.

(** [outgoing_tx] is what was sent on the unbounded channel; [outgoing_closed] that its
    receiver is gone. *)
Record ConnectionState := {
  salt_lock : option bytes;
  shared_secret_lock : option bytes;
  claims_lock : option Claims;
  ntdf_claims_lock : option NtdfTokenPayload;
  outgoing_tx : list Message;
  outgoing_closed : bool;
}.

Definition new_connection : ConnectionState :=
  {| salt_lock := None; shared_secret_lock := None; claims_lock := None;
     ntdf_claims_lock := None; outgoing_tx := []; outgoing_closed := false |}.

Definition new_with_ntdf_claims (ntdf_claims : NtdfTokenPayload) : ConnectionState :=
  {| salt_lock := None; shared_secret_lock := None; claims_lock := None;
     ntdf_claims_lock := Some ntdf_claims; outgoing_tx := []; outgoing_closed := false |}.

Definition set_shared_secret (c : ConnectionState) (s : bytes) : ConnectionState :=
  {| salt_lock := salt_lock c; shared_secret_lock := Some s; claims_lock := claims_lock c;
     ntdf_claims_lock := ntdf_claims_lock c; outgoing_tx := outgoing_tx c;
     outgoing_closed := outgoing_closed c |}.
Definition set_salt (c : ConnectionState) (s : bytes) : ConnectionState :=
  {| salt_lock := Some s; shared_secret_lock := shared_secret_lock c; claims_lock := claims_lock c;
     ntdf_claims_lock := ntdf_claims_lock c; outgoing_tx := outgoing_tx c;
     outgoing_closed := outgoing_closed c |}.
Definition set_claims (c : ConnectionState) (cl : Claims) : ConnectionState :=
  {| salt_lock := salt_lock c; shared_secret_lock := shared_secret_lock c; claims_lock := Some cl;
     ntdf_claims_lock := ntdf_claims_lock c; outgoing_tx := outgoing_tx c;
     outgoing_closed := outgoing_closed c |}.

(** [outgoing_tx.send] *)
Definition send (c : ConnectionState) (m : Message) : result ConnectionState string :=
  if outgoing_closed c then Err "channel closed"%string
  else Ok {| salt_lock := salt_lock c; shared_secret_lock := shared_secret_lock c;
             claims_lock := claims_lock c; ntdf_claims_lock := ntdf_claims_lock c;
             outgoing_tx := outgoing_tx c ++ [m]; outgoing_closed := false |}.

Record KasKeys := {
  kas_public_key : bytes;
  kas_private_key : bytes;
}.

Record ServerSettings := {
  port : Z;
  tls_enabled : bool;
  tls_cert_path : string;
  tls_key_path : string;
  kas_key_path : string;
  enable_timing_logs : bool;
  nats_url : string;
  nats_subject : string;
  redis_url : string;
  jwt_validation_disabled : bool;
  jwt_public_key_path : option string;
  s3_bucket : string;
  chain_rpc_url : option string;
  ntdf_expected_audience : string;
}.

(** The clients of Redis and S3 are events. *)
Record ServerState := {
  settings : ServerSettings;
  ws_chain_validator : option SessionValidator;
}.

(** ** NATS messages *)

Record NATSMessage := { nats_data : bytes }.

Definition nats_message_new (data : bytes) : result NATSMessage string :=
  if (MAX_NANOTDF_SIZE <? Z.of_nat (length data))%Z then
    Err "NanoTDF message exceeds maximum size"%string
  else Ok {| nats_data := data |}.

Definition send_to_nats (m : NATSMessage) (subject : string) : io (result unit string) :=
  trigger (NatsPublish subject (nats_data m)).

(** ** FlatBuffers

    The tables of the schemas, with the fields the handlers read.  The codes are the
    constants of the generated code. *)
Definition Action_store : Z := 6.

Record UserEventTable := { ue_target_id : option bytes }.
Record CacheEventTable := {
  ce_target_id : option bytes;
  ce_target_payload : option bytes;
  ce_ttl : Z;
}.
Record RouteEventTable := { re_target_id : option bytes }.

Inductive EventData :=
| NONE
| UserEventData (t : option UserEventTable)
| CacheEventData (t : option CacheEventTable)
| RouteEventData (t : option RouteEventTable)
| UnknownData (code : Z).

Record Event := {
  event_action : Z;
  event_data : EventData;
}.

Definition data_as_cache_event (e : Event) : option CacheEventTable :=
  match event_data e with CacheEventData t => t | _ => None end.

Record FbRating := {
  fb_violent : Z;
  fb_sexual : Z;
  fb_profane : Z;
  fb_substance : Z;
  fb_hate : Z;
  fb_harm : Z;
  fb_mature : Z;
  fb_bully : Z;
}.
Record FbMetadata := { fb_rating : option FbRating }.

Definition convert_rating_level (level : Z) : RatingLevel :=
  match level with
  | 0 => ContentRating.Unused
  | 1 => NoneLevel
  | 2 => Mild
  | 3 => Moderate
  | 4 => Severe
  | _ => ContentRating.Unused
  end%Z.

Definition convert_rating (r : FbRating) : Rating :=
  {| violent := convert_rating_level (fb_violent r);
     sexual := convert_rating_level (fb_sexual r);
     profane := convert_rating_level (fb_profane r);
     substance := convert_rating_level (fb_substance r);
     hate := convert_rating_level (fb_hate r);
     harm := convert_rating_level (fb_harm r);
     mature := convert_rating_level (fb_mature r);
     bully := convert_rating_level (fb_bully r) |}.

(** ** What the crates provide *)

Class WsCrates `{!MediaCrates, !TokenCrypto} := {
  secret_key_from_bytes : bytes -> result MediaApi.SecretKey string;
  token_key_from_bytes : bytes -> result NtdfToken.SecretKey string;
  to_encoded_point : MediaApi.PublicKey -> bytes;
  hkdf_sha256 : bytes -> bytes -> bytes -> option bytes;
  error_to_vec : WsError -> result bytes string;
  json_error : string -> string -> string;
  root_event : bytes -> result Event string;
  root_as_metadata : bytes -> result FbMetadata string;
  bs58_encode : bytes -> string;
  JwtKey : Type;
  jwt_from_rsa_pem : string -> result JwtKey string;
  jwt_from_ec_pem : string -> result JwtKey string;
  jwt_decode_claims : Z -> list string -> string -> JwtKey -> result Claims string;
  jwt_insecure_claims : string -> result Claims string;
}.

(** ** Handlers with early returns

    [Err m] is [return m]. *)
Definition returning (m : handler (option Message) (option Message)) :
    io (outcome (option Message)) :=
  bind m (fun o => Ret (match o with
                        | Done (Ok r) => Done r
                        | Done (Err r) => Done r
                        | Panic => Panic
                        end)).

Definition return_if {E} (b : bool) (e : E) : handler unit E :=
  pure (if b then Err e else Ok tt).

Section WebSocket.
Context {prims : Primitives} {crates : MediaCrates} {tokens : TokenCrypto}.
Context {ws : WsCrates} {cbor : CborCrates}.

(** The static [KAS_KEYS], set once at start-up. *)
Variable KAS_KEYS : option KasKeys.

Definition get_kas_public_key : option bytes := kas_public_key <$> KAS_KEYS.
Definition get_kas_private_key_bytes : option bytes := kas_private_key <$> KAS_KEYS.

(** ** Errors *)

(** The literal of [unwrap_or_else]. *)
Definition serialize_failure : bytes :=
  let q := String "034" EmptyString in
  as_bytes ("{" +:+ q +:+ "error_type" +:+ q +:+ ":" +:+ q +:+ "server_error" +:+ q +:+ "," +:+
            q +:+ "message" +:+ q +:+ ":" +:+ q +:+ "Failed to serialize error" +:+ q +:+ "}").

Definition to_message (e : WsError) : Message :=
  let json_payload := default serialize_failure (ok (error_to_vec e)) in
  Binary (message_code ErrorType :: json_payload).

Definition cbor_error_response (code message : string) : Message :=
  match cbor_encode (cbor_error code message) with
  | Ok cbor_bytes => Binary (CBOR_MESSAGE_TYPE :: cbor_bytes)
  | Err _ => Text (json_error code message)
  end.

(** A response as a message; an encoding error is answered with an error. *)
Definition cbor_message (r : CborResponse) : Message :=
  match cbor_encode r with
  | Ok cbor_bytes => Binary (CBOR_MESSAGE_TYPE :: cbor_bytes)
  | Err _ => cbor_error_response "internal_error" "Failed to encode response"
  end.

(** ** Tokens *)

Definition verify_token (token : string) (s : ServerSettings) : io (result Claims string) :=
  if jwt_validation_disabled s then Ret (jwt_insecure_claims token)
  else
  let*? public_key_path := Ret (ok_or "InvalidKeyFormat"%string (jwt_public_key_path s)) in
  let*? public_key_pem :=
    await_map_err (fun _ => "InvalidKeyFormat"%string) (trigger (Os (ReadToString public_key_path))) in
  let*? key :=
    Ret (if contains "BEGIN RSA PUBLIC KEY" public_key_pem || contains "BEGIN PUBLIC KEY" public_key_pem
         then let? k := jwt_from_rsa_pem public_key_pem in Ok (k, ["RS256"; "RS384"; "RS512"]%string)
         else if contains "BEGIN EC PUBLIC KEY" public_key_pem
         then let? k := jwt_from_ec_pem public_key_pem in Ok (k, ["ES256"; "ES384"]%string)
         else Err "InvalidKeyFormat"%string) in
  let* now := trigger Now in
  Ret (jwt_decode_claims now key.2 token key.1).

(** ** Key agreement *)

Definition handle_public_key (c : ConnectionState) (payload : bytes) :
    io (outcome (ConnectionState * option Message)) :=
  if bool_decide (is_Some (shared_secret_lock c)) then Ret (Done (c, None))
  else if negb (length payload =? 33) then
    Ret (Done (c, Some (to_message (invalid_format
      ("Invalid public key size: " +:+ display_nat (length payload) +:+
       " bytes (expected 33 for compressed P-256)")))))
  else
  match MediaApi.from_sec1_bytes payload with
  | Err e => Ret (Done (c, Some (to_message (crypto_error ("Invalid P-256 public key: " +:+ e)))))
  | Ok client_public_key =>
    let* rng := trigger Random in
    let server_private_key := ephemeral_random rng in
    let server_public_key := ephemeral_public server_private_key in
    let shared_secret_bytes := diffie_hellman server_private_key client_public_key in
    let c := set_shared_secret c shared_secret_bytes in
    let* salt := trigger Random in
    let c := set_salt c salt in
    Ret (Done (c, Some (Binary (message_code PublicKeyType ::
                                to_encoded_point server_public_key ++ salt))))
  end.

Definition handle_kas_public_key : option Message :=
  match get_kas_public_key with
  | Some kas_public_key_bytes => Some (Binary (message_code KasPublicKey :: kas_public_key_bytes))
  | None => None
  end.

Definition handle_cbor_key_exchange (c : ConnectionState) (public_key : bytes) :
    io (outcome (ConnectionState * option Message)) :=
  if bool_decide (is_Some (shared_secret_lock c)) then Ret (Done (c, None))
  else if negb (length public_key =? 33) && negb (length public_key =? 65) then
    Ret (Done (c, Some (cbor_error_response "invalid_format"
      ("Invalid public key size: " +:+ display_nat (length public_key) +:+
       " bytes (expected 33 or 65 for P-256)"))))
  else
  match MediaApi.from_sec1_bytes public_key with
  | Err _ => Ret (Done (c, Some (cbor_error_response "invalid_format" "Invalid P-256 public key")))
  | Ok client_public_key =>
    let* rng := trigger Random in
    let server_ephemeral_secret := ephemeral_random rng in
    let server_ephemeral_public := ephemeral_public server_ephemeral_secret in
    let shared_secret := diffie_hellman server_ephemeral_secret client_public_key in
    let* session_salt := trigger Random in
    match hkdf_sha256 session_salt shared_secret (as_bytes "arkavo-session-key") with
    | None => Ret Panic
    | Some session_key =>
      Ret (Done (set_shared_secret c session_key,
                 Some (cbor_message (KeyExchangeResponse (to_encoded_point server_ephemeral_public)
                                       session_salt))))
    end
  end.

(** ** Rewrap *)

Definition GEO_FENCE_CONTRACT : string := "5H6sLwXKBv3cdm5VVRxrvA8p5cux2Rrni5CQ4GRyYKo4b9B4".
Definition CONTENT_RATING_CONTRACT : string := "5HKLo6CKbt1Z5dU4wZ3MiufeZzjM6JGwKUWUQ6a91fmuA6RB".
Definition SIMPLE_ABAC_CONTRACT : string := "5Cqk3ERPToSMuY8UoKJtcmo4fs1iVyQpq6ndzWzpzWezAF1W".

Definition refuse (e : WsError) : option Message := Some (to_message e).

Definition parse_header_message (payload : bytes) : handler Header (option Message) :=
  Ret (let! r := parse_header (new payload) in
       Done (map_err (fun e => refuse (invalid_format ("Invalid NanoTDF header: " +:+
                                                       parsing_error_text e))) r.1)).

(** The contract of a policy and its metadata. *)
Definition policy_contract (p : Policy) :
    result (option ResourceLocator * option FbMetadata) (option Message) :=
  match policy_type p with
  | Remote =>
    match get_locator p with
    | Some loc =>
      if bool_decide (protocol_enum loc = Http) || bool_decide (protocol_enum loc = Https) then
        Err (refuse (invalid_format "Remote policy fetching via HTTP/HTTPS not yet implemented"))
      else Ok (Some loc, None)
    | None => Ok (None, None)
    end
  | Embedded =>
    match policy_body p with
    | Some body =>
      match root_as_metadata body with
      | Ok meta =>
        Ok (if bool_decide (is_Some (fb_rating meta))
            then Some {| protocol_enum := SharedResource; locator_body := CONTENT_RATING_CONTRACT |}
            else None, Some meta)
      | Err e => Err (refuse (invalid_format ("Invalid embedded policy metadata: " +:+ e)))
      end
    | None => Ok (None, None)
    end
  end.

(** The size a signature or a tag of the header's binding must have. *)
Definition expected_binding_size (m : ECCAndBindingMode) : nat :=
  if use_ecdsa_binding m then
    match ephemeral_ecc_params_enum m with
    | Secp256r1 | Secp256k1 => 64
    | Secp384r1 => 96
    | Secp521r1 => 132
    end
  else 16.

Definition verify_binding (header : Header) : result unit (option Message) :=
  match get_binding (get_policy header) with
  | Some binding_bytes =>
    let ecc_mode := get_ecc_mode header in
    let expected_size := expected_binding_size ecc_mode in
    if negb (length binding_bytes =? expected_size) then
      if use_ecdsa_binding ecc_mode then
        Err (refuse (invalid_format ("Invalid policy binding signature size: " +:+
               display_nat (length binding_bytes) +:+ " bytes (expected " +:+
               display_nat expected_size +:+ ")")))
      else
        Err (refuse (invalid_format ("Invalid policy binding GMAC tag size: " +:+
               display_nat (length binding_bytes) +:+ " bytes (expected 16)")))
    else Ok tt
  | None => Ok tt
  end.

Definition age_level_text (a : AgeLevel) : string :=
  match a with Kids => "Kids" | Teens => "Teens" | Adults => "Adults" end.

(** The answer when the geofence contract applies; [policy_body] is [None] in the code. *)
Definition geofence_answer (policy_body : option bytes) : option Message :=
  match policy_body with
  | Some body =>
    if 48 <=? length body then
      refuse (invalid_format
        "Geofence validation requires location fields in JWT claims (feature incomplete)")
    else refuse (invalid_format "Geofence policy body must contain 48 bytes (6 f64 values)")
  | None => refuse (invalid_format "Geofence policy requires body data")
  end.

Definition evaluate_contract (claims : option Claims) (locator : option ResourceLocator)
    (metadata : option FbMetadata) : result unit (option Message) :=
  match locator with
  | Some loc =>
    if bool_decide (protocol_enum loc = SharedResource) &&
       negb (bool_decide (locator_body loc = ""%string)) then
      let verified_age := (fun c => bool_decide (age c = "Verified 18+"%string)) <$> claims in
      if contains GEO_FENCE_CONTRACT (locator_body loc) then Err (geofence_answer None)
      else if contains CONTENT_RATING_CONTRACT (locator_body loc) then
        let age_level := if default false verified_age then Adults else Kids in
        match metadata with
        | None => Err None
        | Some meta =>
          match fb_rating meta with
          | None => Err None
          | Some rating_data =>
            if negb (check_content age_level (convert_rating rating_data)) then
              Err (refuse (ws_policy_denied ("Content not suitable for age level: " +:+
                                             age_level_text age_level)))
            else Ok tt
          end
        end
      else if contains SIMPLE_ABAC_CONTRACT (locator_body loc) then
        match claims with
        | Some cl =>
          if negb (check_access (sub cl) (locator_body loc)) then
            Err (refuse (ws_policy_denied "Access denied by attribute-based access control policy"))
          else Ok tt
        | None => Ok tt
        end
      else Ok tt
    else Ok tt
  | None => Ok tt
  end.

Definition kas_secret_key (b : bytes) : option MediaApi.SecretKey :=
  if negb (length b =? 32) then None else ok (secret_key_from_bytes b).

Definition dek_salt_of (data : bytes) : bytes :=
  match detect_nanotdf_version data with
  | Some version => compute_nanotdf_salt version
  | None => compute_nanotdf_salt V12
  end.

Definition handle_rewrap (c : ConnectionState) (payload : bytes) : io (outcome (option Message)) :=
  returning (
  let+ _ := return_if (MAX_NANOTDF_SIZE <? Z.of_nat (length payload))%Z
    (refuse (invalid_format ("Rewrap request exceeds maximum size: " +:+
       display_nat (length payload) +:+ " bytes (max: " +:+ display_Z MAX_NANOTDF_SIZE +:+
       " bytes)"))) in
  let+ session_shared_secret :=
    pure (ok_or (refuse (invalid_format "Session not established - perform key agreement first"))
            (shared_secret_lock c)) in
  let+ header := parse_header_message payload in
  let tdf_ephemeral_key_bytes := get_ephemeral_key header in
  let+ _ := return_if (negb (length tdf_ephemeral_key_bytes =? 33))
    (refuse (invalid_format ("Invalid ephemeral key size: " +:+
       display_nat (length tdf_ephemeral_key_bytes) +:+ " bytes"))) in
  let+ (locator, metadata) := pure (policy_contract (get_policy header)) in
  let+ _ := pure (verify_binding header) in
  let+ _ := pure (evaluate_contract (claims_lock c) locator metadata) in
  let+ tdf_ephemeral_public_key :=
    pure (map_err (fun _ => None) (MediaApi.from_sec1_bytes tdf_ephemeral_key_bytes)) in
  match get_kas_private_key_bytes with
  | None => Ret Panic
  | Some kas_private_key_bytes =>
    let+ kas_private_key := pure (ok_or None (kas_secret_key kas_private_key_bytes)) in
    let+ dek_shared_secret_bytes :=
      pure (map_err (fun _ => None) (MediaApi.custom_ecdh kas_private_key tdf_ephemeral_public_key)) in
    let dek_salt := dek_salt_of payload in
    let session_salt := compute_nanotdf_salt V12 in
    let+ rng := perform (trigger Random) in
    let+ (nonce_vec, wrapped_dek) :=
      pure (map_err (fun e => refuse (crypto_error ("Failed to rewrap key: " +:+ e)))
              (rewrap_dek rng dek_shared_secret_bytes session_shared_secret dek_salt session_salt [])) in
    pure (Ok (Some (Binary (message_code RewrappedKey ::
                            tdf_ephemeral_key_bytes ++ nonce_vec ++ wrapped_dek))))
  end).

(** ** Rewrap with a chain session, over CBOR *)

(** Code and message for a request the validator refused. *)
Definition chain_rewrap_error (e : ValidationError) : string * string :=
  match e with
  | SessionNotFound session_id => ("policy_denied", "Session not found: " +:+ session_id)
  | SessionExpired expired_at current =>
      ("policy_denied", "Session expired at block " +:+ display_Z expired_at +:+ " (current: " +:+
                        display_Z current +:+ ")")
  | SessionRevoked => ("policy_denied", "Session has been revoked")
  | SignatureInvalid reason => ("authentication_failed", "Invalid signature: " +:+ reason)
  | NonceReplay => ("authentication_failed", "Nonce already used (replay attack detected)")
  | ScopeMismatch resource_id =>
      ("policy_denied", "Resource " +:+ resource_id +:+ " not in session scope")
  | HeaderHashMismatch client server =>
      ("authentication_failed", "Header hash mismatch: client=" +:+ client +:+ ", server=" +:+ server)
  | ChainFailure e => ("internal_error", "Chain query failed: " +:+ chain_error_text e)
  | CryptoFailure e => ("internal_error", "Crypto error: " +:+ e)
  end%string.

Definition cbor_refuse (code message : string) : option Message :=
  Some (cbor_error_response code message).

(** The validation request, after the checks on the session id and the header hash. *)
Definition chain_rewrap_request (header : bytes) (chain : ChainValidation) :
    result ChainValidationRequest (option Message) :=
  check (if negb (length (cv_session_id chain) =? 32) then
           Err (cbor_refuse "invalid_request" "chain.session_id must be 32 bytes")
         else Ok tt) ;;
  let server_header_hash := sha256 header in
  check (if negb (length (cv_header_hash chain) =? 32) then
           Err (cbor_refuse "invalid_request" "header_hash must be exactly 32 bytes")
         else Ok tt) ;;
  check (if negb (bool_decide (cv_header_hash chain = server_header_hash)) then
           Err (cbor_refuse "authentication_failed"
                  "header_hash does not match actual header content")
         else Ok tt) ;;
  Ok {| req_session_id := hex_encode (cv_session_id chain); req_header_hash := server_header_hash;
        req_resource_id := hex_encode server_header_hash; req_signature := cv_signature chain;
        req_algorithm := cv_algorithm chain; req_nonce := cv_nonce chain |}.

(** Steps 3 to 5: the rewrap of a header for a session. *)
Definition cbor_rewrap (header session_shared_secret : bytes) :
    handler (option Message) (option Message) :=
  let+ parsed_header :=
    Ret (let! r := parse_header (new header) in
         Done (map_err (fun e => cbor_refuse "invalid_format"
                                   ("Invalid NanoTDF header: " +:+ parsing_error_text e)) r.1)) in
  let tdf_ephemeral_key_bytes := get_ephemeral_key parsed_header in
  let+ _ := return_if (negb (length tdf_ephemeral_key_bytes =? 33))
    (cbor_refuse "invalid_format" ("Invalid ephemeral key size: " +:+
       display_nat (length tdf_ephemeral_key_bytes) +:+ " bytes")) in
  let+ tdf_ephemeral_public_key :=
    pure (map_err (fun _ => cbor_refuse "invalid_format" "Invalid TDF ephemeral public key")
            (MediaApi.from_sec1_bytes tdf_ephemeral_key_bytes)) in
  let+ kas_private_key_bytes :=
    pure (ok_or (cbor_refuse "internal_error" "KAS private key not configured")
            get_kas_private_key_bytes) in
  let+ kas_private_key :=
    pure (ok_or (cbor_refuse "internal_error" "Invalid KAS private key")
            (kas_secret_key kas_private_key_bytes)) in
  let+ dek_shared_secret_bytes :=
    pure (map_err (fun e => cbor_refuse "internal_error" ("Key agreement failed: " +:+ e))
            (MediaApi.custom_ecdh kas_private_key tdf_ephemeral_public_key)) in
  let dek_salt := dek_salt_of header in
  let session_salt := compute_nanotdf_salt V12 in
  let+ rng := perform (trigger Random) in
  let+ (nonce_vec, wrapped_dek) :=
    pure (map_err (fun e => cbor_refuse "internal_error" ("Failed to rewrap key: " +:+ e))
            (rewrap_dek rng dek_shared_secret_bytes session_shared_secret dek_salt session_salt [])) in
  pure (Ok (Some (cbor_message (CborRewrappedKey tdf_ephemeral_key_bytes nonce_vec wrapped_dek)))).

Definition handle_chain_rewrap (st : ServerState) (c : ConnectionState) (header : bytes)
    (chain : ChainValidation) : io (outcome (option Message)) :=
  returning (
  let+ session_shared_secret :=
    pure (ok_or (cbor_refuse "invalid_request"
                   "Session not established - perform key agreement first")
            (shared_secret_lock c)) in
  let+ validator :=
    pure (ok_or (cbor_refuse "internal_error" "Chain validation not configured on server")
            (ws_chain_validator st)) in
  let+ validation_request := pure (chain_rewrap_request header chain) in
  let+ _ :=
    call (await_map_err (fun e => let '(code, message) := chain_rewrap_error e in
                                  cbor_refuse code message)
            (validator validation_request)) in
  cbor_rewrap header session_shared_secret).

Definition keep (c : ConnectionState) (m : io (outcome (option Message))) :
    io (outcome (ConnectionState * option Message)) :=
  let* o := m in Ret (let! r := o in Done (c, r)).

Definition handle_cbor_message (st : ServerState) (c : ConnectionState) (payload : bytes) :
    io (outcome (ConnectionState * option Message)) :=
  match cbor_decode payload with
  | Err e =>
    Ret (Done (c, cbor_refuse "invalid_format" ("Failed to decode CBOR: " +:+ cbor_error_text e)))
  | Ok (ChainRewrap header chain) => keep c (handle_chain_rewrap st c header chain)
  | Ok (KeyExchange public_key) => handle_cbor_key_exchange c public_key
  | Ok (CborProtocol.MediaKeyRequest _ _ _ _ _ _ _ _) =>
    Ret (Done (c, cbor_refuse "not_implemented"
                    "Media key requests should use HTTP API /media/v1/key-request"))
  | Ok (CborProtocol.UserEvent _ _ _ _ _ _)
  | Ok (CborProtocol.CacheEvent _ _ _ _)
  | Ok (CborProtocol.RouteEvent _ _ _ _ _ _ _) =>
    Ret (Done (c, cbor_refuse "not_implemented"
                    "Event types not yet implemented in CBOR protocol"))
  end.

(** ** NATS *)

Definition handle_nats_publish (s : ServerSettings) (payload : bytes) :
    io (outcome (option Message)) :=
  match nats_message_new payload with
  | Ok nanotdf_msg =>
    let* client := trigger NatsClient in
    if client : bool then
      let* _ := send_to_nats nanotdf_msg (nats_subject s) in Ret (Done None)
    else Ret (Done None)
  | Err _ => Ret (Done None)
  end.

(** A message of a subscription; an error of [send] is logged by the caller. *)
Definition handle_nats (payload : bytes) (c : ConnectionState) : outcome (result ConnectionState string) :=
  let! prefix := slice payload 0 3 in
  let message_type := if bool_decide (prefix = [x4c; x31; x4c]) then Nats else EventType in
  Done (send c (Binary (message_code message_type :: payload))).

(** One turn of the loop of [handle_nats_subscription], as NATS answers it: no client, a
    failing subscription, or a subscription that delivers messages and ends. *)
Inductive subscription_turn : Set :=
| no_client
| subscribe_failed
| delivered (messages : list bytes).

Fixpoint deliver (messages : list bytes) (c : ConnectionState) : outcome ConnectionState :=
  match messages with
  | [] => Done c
  | msg :: messages =>
    let! r := handle_nats msg c in
    deliver messages (match r with Ok c' => c' | Err _ => c end)
  end.

(** The loop over the turns so far; [Panic] ends the task, and with it the subscription. *)
Fixpoint handle_nats_subscription (turns : list subscription_turn) (c : ConnectionState) :
    outcome ConnectionState :=
  match turns with
  | [] => Done c
  | (no_client | subscribe_failed) :: turns => handle_nats_subscription turns c
  | delivered messages :: turns =>
    let! c := deliver messages c in handle_nats_subscription turns c
  end.

(** ** Events *)

Definition redis_key (id : bytes) : string := string_of_list_byte id.

(** [redis_conn.get::<_, Vec<u8>>]: a missing key is the empty vector. *)
Definition redis_get_vec (id : bytes) : io (result bytes RedisError) :=
  let* r := trigger (Redis (GET (redis_key id))) in
  Ret (let? v := r in Ok (as_bytes (default ""%string v))).

Definition event_message (data : bytes) : Message := Binary (message_code EventType :: data).

Definition store_event (s : ServerSettings) (e : Event) : handler unit (option Message) :=
  if bool_decide (event_action e = Action_store) then
    match data_as_cache_event e with
    | Some {| ce_target_id := Some target_id; ce_target_payload := Some target_payload |} =>
      let s3_key := bs58_encode target_id +:+ "/data" in
      let+ r := perform (trigger (PutObject (s3_bucket s) s3_key target_payload)) in
      match r with
      | Ok _ => pure (Err (Some (event_message (as_bytes "Successfully stored"))))
      | Err _ => pure (Err None)
      end
    | _ => pure (Ok tt)
    end
  else pure (Ok tt).

Definition user_event (user_event : option UserEventTable) : handler (option bytes) (option Message) :=
  match user_event with
  | None => pure (Err None)
  | Some user_event =>
    match ue_target_id user_event with
    | None => Ret Panic
    | Some target_id =>
      let+ data := call (await_map_err (fun _ => None) (redis_get_vec target_id)) in
      match data with
      | [] => pure (Err None)
      | _ => pure (Ok (Some data))
      end
    end
  end.

Definition cache_event (cache_event : option CacheEventTable) :
    handler (option bytes) (option Message) :=
  match cache_event with
  | None => pure (Ok None)
  | Some cache_event =>
    let+ target_payload := pure (ok_or None (ce_target_payload cache_event)) in
    let+ _ :=
      match ce_target_id cache_event with
      | Some target_id =>
        let value := redis_key target_payload in
        if (0 <? ce_ttl cache_event)%Z then
          call (await_map_err (fun _ => None)
                  (trigger (Redis (SETEX (redis_key target_id) value (ce_ttl cache_event)))))
        else
          call (await_map_err (fun _ => None) (trigger (Redis (SET (redis_key target_id) value))))
      | None => if (0 <? ce_ttl cache_event)%Z then pure (Err None) else pure (Ok tt)
      end in
    pure (Ok (Some target_payload))
  end.

Definition route_event (payload : bytes) (route_event : option RouteEventTable) :
    handler (option bytes) (option Message) :=
  match route_event with
  | None => pure (Ok None)
  | Some route_event =>
    match re_target_id route_event with
    | None => pure (Err None)
    | Some target_id =>
      let subject := "profile." +:+ bs58_encode target_id in
      let+ nats_message := pure (map_err (fun _ => None) (nats_message_new payload)) in
      let+ client := perform (trigger NatsClient) in
      if client : bool then
        let+ _ := perform (send_to_nats nats_message subject) in pure (Err None)
      else pure (Err None)
    end
  end.

Definition handle_event (st : ServerState) (payload : bytes) : io (outcome (option Message)) :=
  returning (
  let+ _ := return_if (MAX_EVENT_SIZE <? Z.of_nat (length payload))%Z None in
  let+ e := pure (map_err (fun _ => None) (root_event payload)) in
  let+ _ := store_event (settings st) e in
  let+ _ := call (await_map_err (fun _ => None) (trigger Connect)) in
  let+ data :=
    match event_data e with
    | UserEventData t => user_event t
    | CacheEventData t => cache_event t
    | RouteEventData t => route_event payload t
    | NONE | UnknownData _ => pure (Ok None)
    end in
  pure (Ok (Some (event_message (match data with
                                 | Some data => data
                                 | None => as_bytes "Event not found"
                                 end))))).

(** ** Dispatch *)

Definition handle_binary_message (st : ServerState) (c : ConnectionState) (data : bytes) :
    io (outcome (ConnectionState * option Message)) :=
  match data with
  | [] => Ret (Done (c, None))
  | tag :: payload =>
    match from_u8 tag with
    | Some PublicKeyType => handle_public_key c payload
    | Some KasPublicKey => Ret (Done (c, handle_kas_public_key))
    | Some Rewrap => keep c (handle_rewrap c payload)
    | Some RewrappedKey => Ret (Done (c, None))
    | Some Nats => keep c (handle_nats_publish (settings st) payload)
    | Some EventType => keep c (handle_event st payload)
    | Some Cbor => handle_cbor_message st c payload
    | Some ErrorType => Ret (Done (c, None))
    | None => Ret (Done (c, None))
    end
  end.

(** ** Connections *)

(** A connection and the subject of its [public_id_nats_task]. *)
Record WsConnection := {
  connection_state : ConnectionState;
  public_id_nats_task : option string;
}.

Definition with_state (w : WsConnection) (c : ConnectionState) : WsConnection :=
  {| connection_state := c; public_id_nats_task := public_id_nats_task w |}.

(** The answer goes to the outgoing channel; an error of [send] is ignored. *)
Definition respond (c : ConnectionState) (r : option Message) : ConnectionState :=
  match r with
  | Some m => match send c m with Ok c' => c' | Err _ => c end
  | None => c
  end.

Definition on_token (st : ServerState) (token : string) (w : WsConnection) : io WsConnection :=
  let* r := verify_token token (settings st) in
  Ret (match r with
       | Ok claims => {| connection_state := set_claims (connection_state w) claims;
                         public_id_nats_task := Some ("profile." +:+ sub claims) |}
       | Err _ => w
       end).

Fixpoint message_loop (st : ServerState) (on_text : string -> WsConnection -> io WsConnection)
    (incoming : list (result Message string)) (w : WsConnection) : io (outcome WsConnection) :=
  match incoming with
  | [] | Err _ :: _ | Ok Close :: _ => Ret (Done w)
  | Ok (Text token) :: incoming =>
    let* w := on_text token w in message_loop st on_text incoming w
  | Ok (Binary data) :: incoming =>
    let* o := handle_binary_message st (connection_state w) data in
    match o with
    | Panic => Ret Panic
    | Done (c, response) => message_loop st on_text incoming (with_state w (respond c response))
    end
  | Ok Control :: incoming => message_loop st on_text incoming w
  end.

Definition handle_websocket_axum (st : ServerState) (incoming : list (result Message string)) :
    io (outcome WsConnection) :=
  message_loop st (on_token st) incoming
    {| connection_state := new_connection; public_id_nats_task := None |}.

Definition sub_id_hex (p : NtdfTokenPayload) : string := hex_encode (sub_id p).

Definition handle_websocket_axum_with_ntdf (st : ServerState) (ntdf_claims : NtdfTokenPayload)
    (incoming : list (result Message string)) : io (outcome WsConnection) :=
  message_loop st (fun _ w => Ret w) incoming
    {| connection_state := new_with_ntdf_claims ntdf_claims;
       public_id_nats_task := Some ("profile." +:+ sub_id_hex ntdf_claims) |}.

(** ** The upgrade *)

Inductive Upgrade :=
| Upgraded (claims : option NtdfTokenPayload)
| Rejected (status : Z) (body : string).

Definition token_error_text (e : NtdfTokenError) : string :=
  match e with
  | InvalidHeaderFormat => "Invalid authorization header format"
  | Z85DecodeError d => "Z85 decoding failed: " +:+ d
  | InvalidNanoTdf d => "Invalid NanoTDF format: " +:+ d
  | EcdhError d => "ECDH key agreement failed: " +:+ d
  | DecryptionFailed => "AES-GCM decryption failed"
  | PayloadTooShort => "Payload too short"
  | InvalidPayload d => "Invalid payload: " +:+ d
  | NtdfToken.Expired exp now => "Token expired: exp=" +:+ display_Z exp +:+ ", now=" +:+ display_Z now
  | InvalidAudience expected got =>
      "Invalid audience: expected=" +:+ expected +:+ ", got=" +:+ got
  end.

(** [authorization] is the header, where it is present and its value is text. *)
Definition ws_handler (s : ServerSettings) (authorization : option string) : io (outcome Upgrade) :=
  match authorization with
  | Some auth_str =>
    if starts_with "NTDF " auth_str then
      match get_kas_private_key_bytes with
      | Some kas_key_bytes =>
        if negb (length kas_key_bytes =? 32) then
          Ret (Done (Rejected 500 "Server configuration error"))
        else
        match token_key_from_bytes kas_key_bytes with
        | Err _ => Ret (Done (Rejected 500 "Server configuration error"))
        | Ok kas_private_key =>
          let* now := trigger Now in
          Ret (let! r := validate_ntdf_token auth_str kas_private_key (ntdf_expected_audience s) now in
               Done (match r with
                     | Ok claims => Upgraded (Some claims)
                     | Err e => Rejected 401 ("Invalid NTDF token: " +:+ token_error_text e)
                     end))
        end
      | None => Ret (Done (Rejected 500 "Server not ready"))
      end
    else Ret (Done (Upgraded None))
  | None => Ret (Done (Upgraded None))
  end.
End WebSocket.
