(* ===== verification/WebSocketSample.v ===== *)
(** * A concrete deployment of the WebSocket server

    Executable stand-ins for the crates of [WsCrates] and [CborCrates], keys, and NanoTDF
    headers with the policies the examples need. *)
From S2P Require Import NtdfToken.
From S2P Require Import Prelude Services SimWorld.
From S2P Require Import NanoTdf SessionManager SessionCodec Crypto Chain CryptoSample.
From S2P Require Import MediaMetrics MediaApi MediaSample HttpRewrap CborProtocol WebSocket.

(** Events: a tag, and for a cached object the length of its id. *)
Definition sample_root_event (b : bytes) : result Event string :=
  match b with
  | x01 :: id => Ok {| event_action := 1; event_data := UserEventData (Some {| ue_target_id := Some id |}) |}
  | x02 :: n :: r =>
    let n := Z.to_nat (b2z n) in
    Ok {| event_action := 5; event_data := CacheEventData (Some
            {| ce_target_id := Some (take n r); ce_target_payload := Some (drop n r); ce_ttl := 60 |}) |}
  | [x03] => Ok {| event_action := 1; event_data := UserEventData (Some {| ue_target_id := None |}) |}
  | x04 :: id => Ok {| event_action := 7; event_data := RouteEventData (Some {| re_target_id := Some id |}) |}
  | _ => Err "invalid flatbuffer"%string
  end.

Definition flat_rating (l : Z) : FbRating :=
  {| fb_violent := l; fb_sexual := l; fb_profane := l; fb_substance := l; fb_hate := l;
     fb_harm := l; fb_mature := l; fb_bully := l |}.

#[export] Instance sample_ws : WsCrates :=
  {| secret_key_from_bytes := fun b => Ok b : result MediaApi.SecretKey string;
     token_key_from_bytes := fun _ => Ok tt : result NtdfToken.SecretKey string;
     to_encoded_point := fun k : bytes => k;
     hkdf_sha256 := fun salt ikm info => Some (salt ++ ikm);
     error_to_vec := fun e => Ok (as_bytes (error_type e +:+ ": " +:+ error_message e));
     json_error := fun code message => code +:+ ": " +:+ message;
     root_event := sample_root_event;
     root_as_metadata := fun b =>
       match b with
       | [] => Ok {| fb_rating := None |}
       | [l] => Ok {| fb_rating := Some (flat_rating (b2z l)) |}
       | _ => Err "invalid flatbuffer"%string
       end;
     bs58_encode := sample_hex_encode;
     JwtKey := string; jwt_from_rsa_pem := fun pem => Ok pem; jwt_from_ec_pem := fun pem => Ok pem;
     jwt_decode_claims := fun now _ token _ =>
       if (now <? 1000)%Z then Ok {| sub := token; age := "" |} else Err "ExpiredSignature"%string;
     jwt_insecure_claims := fun token => Ok {| sub := token; age := "Verified 18+" |} |}.

(** The chain data of a request for [header], signed for the session of [CryptoSample]. *)
Definition sample_chain (header : bytes) : ChainValidation :=
  {| cv_session_id := sample_id; cv_header_hash := sha256 header;
     cv_signature := sha256 (sample_id ++ sha256 header ++ u64_le 7) ++ take 32 sample_key;
     cv_nonce := 7; cv_algorithm := default_algorithm |}.

#[export] Instance sample_cbor : CborCrates :=
  {| from_reader := fun b =>
       match b with
       | x01 :: pk => Ok (KeyExchange pk)
       | x02 :: header => Ok (ChainRewrap header (sample_chain header))
       | _ => Err "unexpected type"%string
       end;
     into_writer := fun r =>
       match r with
       | KeyExchangeResponse k s => Ok (x01 :: k ++ s)
       | CborRewrappedKey k n d => Ok (x02 :: k ++ n ++ d)
       | CborMediaKeyResponse _ _ _ _ => Ok [x03]
       | CborErrorResponse code message _ => Ok (x04 :: as_bytes (code +:+ ": " +:+ message))
       end;
     CborValue := option (bytes + string);
     serialize_bytes := fun b => Some (inl b); serialize_none := None;
     byte_buf := fun v => match v with Some (inl b) => Some b | Some (inr s) => Some (as_bytes s) | None => None end;
     cbor_string := fun v => match v with Some (inr s) => Some s | _ => None end;
     option_byte_buf := fun v => match v with Some (inl b) => Ok (Some b) | Some (inr s) => Ok (Some (as_bytes s)) | None => Ok None end |}.

#[export] Instance sample_cbor_laws : CborCratesLaws.
Proof. split; [done|done|done|]. intros [] k n w b [= <-] [=]; eauto. Defined.

Definition sample_keys : option KasKeys :=
  Some {| kas_public_key := replicate 33 x02; kas_private_key := replicate 32 x09 |}.

Definition sample_settings : ServerSettings :=
  {| port := 8080; tls_enabled := false; tls_cert_path := ""; tls_key_path := "";
     kas_key_path := "kas.pem"; enable_timing_logs := false; nats_url := "nats://localhost:4222";
     nats_subject := "nanotdf.messages"; redis_url := "redis://localhost:6379";
     jwt_validation_disabled := true; jwt_public_key_path := None; s3_bucket := "bucket";
     chain_rpc_url := Some "ws://node"; ntdf_expected_audience := "kas" |}.

Definition sample_server : ServerState :=
  {| settings := sample_settings;
     ws_chain_validator := Some (validate sample_secret "ws://node") |}.

(** A NanoTDF header with the mode byte [ecc], a policy and a binding of [n] bytes. *)
Definition ws_header (ecc : byte) (policy : bytes) (n : nat) : bytes :=
  [x4c; x31; x4c] ++ locator_wire kas_locator ++ [ecc; x00] ++ policy ++
  replicate n xb5 ++ replicate 33 x02.

Definition remote_policy (protocol : ProtocolEnum) (body : string) : bytes :=
  x00 :: locator_wire {| protocol_enum := protocol; locator_body := body |}.
Definition embedded_policy (body : bytes) : bytes :=
  x01 :: be_bytes 2 (Z.of_nat (length body)) ++ body.

Definition abac_header : bytes := ws_header x80 (remote_policy SharedResource SIMPLE_ABAC_CONTRACT) 64.
Definition gmac_header : bytes := ws_header x00 (remote_policy Wss "kas.example.com") 8.

(** Connections with a session secret. *)
Definition agreed (claims : option Claims) : ConnectionState :=
  {| salt_lock := None; shared_secret_lock := Some [x0a]; claims_lock := claims;
     ntdf_claims_lock := None; outgoing_tx := []; outgoing_closed := false |}.
