(* ===== verification/WebSocketProps.v ===== *)
(** * Correctness of the WebSocket server

    When a key leaves over a connection, what the contracts of a policy then allowed, that a
    session secret is agreed once, when a connection panics, what NATS delivers, and what an
    event may write. *)
From S2P Require Import NtdfToken.
From S2P Require Import Prelude Services SimWorld ContentRating Contracts.
From S2P Require Import NanoTdf SessionManager SessionCodec SessionProps Crypto Chain CryptoSample.
From S2P Require Import ChainProps.
From S2P Require Import MediaMetrics MediaApi MediaSample MediaApiProps HttpRewrap CborProtocol.
From S2P Require Import WebSocket WebSocketSample.

(** ** Early returns *)

Section Errors.
Context {A B E : Type} (P : E -> Prop).
Implicit Types tr : list (answer (event CachedEntry)).

(** Whatever a handler returns early is in [P]. *)
Definition errors (m : handler A E) : Prop := forall tr e, path m tr (Done (Err e)) -> P e.

Lemma errors_pure (r : result A E) : (forall e, r = Err e -> P e) -> errors (pure r).
Proof. intros H tr e [_ [= <-]]%path_pure. auto. Qed.
Lemma errors_perform (m : prog (event CachedEntry) A) : errors (perform m).
Proof. by intros tr e (? & ? & _)%path_perform. Qed.
Lemma errors_call (m : prog (event CachedEntry) (result A E)) :
  (forall tr e, path m tr (Err e) -> P e) -> errors (call m).
Proof. intros H tr e (? & [= <-] & ?)%path_call. eauto. Qed.
Lemma errors_ret (o : outcome (result A E)) :
  (forall e, o = Done (Err e) -> P e) -> errors (Ret o).
Proof. intros H tr e [_ Ho]%path_ret. auto. Qed.
Lemma errors_map_err {F} (f : F -> E) (r : result A F) :
  (forall x, P (f x)) -> errors (pure (map_err f r)).
Proof. intros H. apply errors_pure. destruct r; by intros ? [= <-]. Qed.
Lemma errors_ok_or e (o : option A) : P e -> errors (pure (ok_or e o)).
Proof. intros H. apply errors_pure. destruct o; by intros ? [= <-]. Qed.
End Errors.

Lemma errors_return_if {E} (P : E -> Prop) b e : P e -> errors P (return_if b e).
Proof. intros He. apply errors_pure. destruct b; by intros ? [= <-]. Qed.

Lemma path_hbind_err {A B E} (m : handler A E) (k : A -> handler B E)
    (tr : list (answer (event CachedEntry))) e :
  path (hbind m k) tr (Done (Err e)) <->
  path m tr (Done (Err e)) \/
  exists a tr1 tr2, tr = tr1 ++ tr2 /\ path m tr1 (Done (Ok a)) /\ path (k a) tr2 (Done (Err e)).
Proof.
  unfold hbind. rewrite path_bind. split.
  - intros ([[a|e']|] & tr1 & tr2 & -> & H1 & H2);
      [right; by exists a, tr1, tr2| |by destruct tr2].
    left. apply path_ret in H2 as [-> [= ->]]. by rewrite app_nil_r.
  - intros [H|(a & tr1 & tr2 & -> & H1 & H2)]; [|by exists (Done (Ok a)), tr1, tr2].
    exists (Done (Err e)), tr, []. by rewrite app_nil_r.
Qed.

Lemma errors_hbind {A B E} (P : E -> Prop) (m : handler A E) (k : A -> handler B E) :
  errors P m -> (forall a, errors P (k a)) -> errors P (hbind m k).
Proof. intros Hm Hk tr e [H|(a & ? & ? & _ & _ & H)]%path_hbind_err; [by eapply Hm|by eapply Hk]. Qed.

(** Walks a handler step by step, to what it returns early. *)
Ltac errors_walk :=
  repeat match goal with
  | |- errors _ (hbind _ _) => apply errors_hbind; [|intros ?]
  | |- errors _ (perform _) => apply errors_perform
  | |- errors _ (return_if _ _) => apply errors_return_if; by auto with backend
  | |- errors _ (pure (Ok _)) => by apply errors_pure
  | |- errors _ (pure (map_err _ _)) =>
      apply errors_map_err; intros ?; cbv beta; by auto with backend
  | |- errors _ (pure (ok_or _ _)) => apply errors_ok_or; by auto with backend
  | |- errors _ (pure (Err _)) => apply errors_pure; intros ? [= <-]; by auto with backend
  | |- errors _ (pure _) => apply errors_pure; intros ? ?; by eauto with backend
  | |- errors _ (Ret Panic) => by apply errors_ret
  | |- errors _ (let '(_, _) := ?x in _) => destruct x
  | |- errors _ (match ?x with _ => _ end) => destruct x
  | |- errors _ _ => by auto with backend
  end.

Lemma path_returning m (tr : list (answer (event CachedEntry))) r :
  path (returning m) tr (Done r) <-> path m tr (Done (Ok r)) \/ path m tr (Done (Err r)).
Proof.
  unfold returning. rewrite path_bind. split.
  - intros ([[r'|r']|] & tr1 & tr2 & -> & H1 & [-> H2]%path_ret); simplify_eq;
      rewrite app_nil_r; auto.
  - intros [H|H]; [exists (Done (Ok r)), tr, []|exists (Done (Err r)), tr, []];
      by rewrite app_nil_r.
Qed.

Lemma path_returning_panic m (tr : list (answer (event CachedEntry))) :
  path (returning m) tr Panic <-> path m tr Panic.
Proof.
  unfold returning. rewrite path_bind. split.
  - intros ([[r'|r']|] & tr1 & tr2 & -> & H1 & [-> H2]%path_ret); simplify_eq.
    by rewrite app_nil_r.
  - intros H. exists Panic, tr, []. by rewrite app_nil_r.
Qed.

Lemma path_keep c m (tr : list (answer (event CachedEntry))) o :
  path (keep c m) tr o <->
  exists o', path m tr o' /\ o = match o' with Done r => Done (c, r) | Panic => Panic end.
Proof.
  unfold keep. rewrite path_bind. split.
  - intros (o' & tr1 & tr2 & -> & H1 & [-> H2]%path_ret). rewrite app_nil_r.
    exists o'. split; [done|]. by destruct o'.
  - intros (o' & H & ->). exists o', tr, []. rewrite app_nil_r. by destruct o'.
Qed.

Lemma path_return_if {E} b (e : E) (tr : list (answer (event CachedEntry))) u :
  path (return_if b e) tr (Done (Ok u)) <-> tr = [] /\ b = false.
Proof. unfold return_if. rewrite path_pure. destruct u, b; naive_solver. Qed.

(** The answer that carries a key. *)
Abbreviation key_answer d := (Done (Some (Binary (message_code RewrappedKey :: d)))).

Section Rewrap.
Context {prims : Primitives} {crates : MediaCrates} {tokens : TokenCrypto}.
Context {ws : WsCrates} {cbor : CborCrates}.
Implicit Types (tr : list (answer (event CachedEntry))) (c : ConnectionState) (K : option KasKeys).

(** ** What the contracts of a policy allow *)

(** A remote policy: never fetched over HTTP; a contract on the chain is neither the geofence
    nor the content rating contract, and the attribute contract is asked only about a client
    with claims. *)
Definition remote_permits (claims : option Claims) (loc : ResourceLocator) : Prop :=
  protocol_enum loc <> Http /\ protocol_enum loc <> Https /\
  (protocol_enum loc = SharedResource ->
   contains GEO_FENCE_CONTRACT (locator_body loc) = false /\
   contains CONTENT_RATING_CONTRACT (locator_body loc) = false /\
   (contains SIMPLE_ABAC_CONTRACT (locator_body loc) = true ->
    forall cl, claims = Some cl -> sub cl = "Main"%string \/ sub cl = "Alt"%string)).

(** An embedded policy: metadata whose rating, if any, suits the client's age. *)
Definition embedded_permits (claims : option Claims) (body : bytes) : Prop :=
  exists meta, root_as_metadata body = Ok meta /\
    forall r, fb_rating meta = Some r ->
      (exists cl, claims = Some cl /\ age cl = "Verified 18+"%string) \/
      check_content Kids (convert_rating r) = true.

Definition permits (claims : option Claims) (p : Policy) : Prop :=
  match policy_type p with
  | Remote => forall loc, remote p = Some loc -> remote_permits claims loc
  | Embedded => forall body, policy_body p = Some body -> embedded_permits claims body
  end.

(** The body of the attribute contract's locator is never the name of a region. *)
Lemma abac_attribute cl body :
  contains SIMPLE_ABAC_CONTRACT body = true ->
  check_access cl body = true <-> cl = "Main"%string \/ cl = "Alt"%string.
Proof.
  intros Hb. rewrite check_access_spec.
  assert (body <> "North America"%string) by (by intros ->).
  assert (body <> "Europe"%string) by (by intros ->). naive_solver.
Qed.

Lemma evaluate_remote claims loc :
  protocol_enum loc <> Http -> protocol_enum loc <> Https ->
  evaluate_contract claims (Some loc) None = Ok tt <-> remote_permits claims loc.
Proof.
  intros H1 H2. unfold evaluate_contract, remote_permits.
  destruct (bool_decide_reflect (protocol_enum loc = SharedResource)) as [Hp|Hp]; simpl;
    [|naive_solver].
  destruct (bool_decide_reflect (locator_body loc = EmptyString)) as [Hb|Hb]; simpl.
  { rewrite Hb. split; [|done]. intros _. by split_and!. }
  destruct (contains GEO_FENCE_CONTRACT _) eqn:EG; [naive_solver|].
  destruct (contains CONTENT_RATING_CONTRACT _) eqn:ER; [naive_solver|].
  destruct (contains SIMPLE_ABAC_CONTRACT _) eqn:EA; [|naive_solver].
  destruct claims as [cl|]; [|naive_solver].
  pose proof (abac_attribute (sub cl) _ EA) as Ha.
  destruct (check_access _ _); simpl; naive_solver.
Qed.

Lemma evaluate_rating claims meta r :
  fb_rating meta = Some r ->
  evaluate_contract claims
    (Some {| protocol_enum := SharedResource; locator_body := CONTENT_RATING_CONTRACT |})
    (Some meta) = Ok tt <->
  (exists cl, claims = Some cl /\ age cl = "Verified 18+"%string) \/
  check_content Kids (convert_rating r) = true.
Proof.
  intros Hr. unfold evaluate_contract.
  cbn [protocol_enum locator_body]. rewrite bool_decide_true by done.
  change (contains GEO_FENCE_CONTRACT CONTENT_RATING_CONTRACT) with false.
  change (contains CONTENT_RATING_CONTRACT CONTENT_RATING_CONTRACT) with true.
  rewrite bool_decide_false by done. cbn -[check_content]. rewrite Hr.
  assert (forall x, check_content Adults x = true) as Hadult by done.
  destruct claims as [cl|]; cbn -[check_content].
  - case_bool_decide as Ha; [rewrite Hadult; cbn; naive_solver|].
    destruct (check_content Kids _); cbn; naive_solver.
  - destruct (check_content Kids _); cbn; naive_solver.
Qed.

Lemma policy_permitted claims p :
  (exists loc meta, policy_contract p = Ok (loc, meta) /\ evaluate_contract claims loc meta = Ok tt) <->
  permits claims p.
Proof.
  unfold policy_contract, permits, get_locator. destruct (policy_type p).
  - destruct (remote p) as [loc|]; [|by naive_solver].
    destruct (bool_decide_reflect (protocol_enum loc = Http)) as [H1|H1]; simpl;
      [unfold remote_permits; naive_solver|].
    destruct (bool_decide_reflect (protocol_enum loc = Https)) as [H2|H2]; simpl;
      [unfold remote_permits; naive_solver|].
    pose proof (evaluate_remote claims loc H1 H2). naive_solver.
  - destruct (policy_body p) as [body|]; [|by naive_solver]. unfold embedded_permits.
    destruct (root_as_metadata body) as [meta|e] eqn:Em.
    2: { split; [by intros (? & ? & [=] & _)|]. intros H.
         destruct (H body eq_refl) as (meta & Hm & _). congruence. }
    transitivity (forall r, fb_rating meta = Some r ->
      (exists cl, claims = Some cl /\ age cl = "Verified 18+"%string) \/
      check_content Kids (convert_rating r) = true);
      [|split; [intros H ? [= <-]; by exists meta|];
        intros H; destruct (H body eq_refl) as (m & Hm & Hr); rewrite Em in Hm; by injection Hm as <-].
    destruct (fb_rating meta) as [r|] eqn:Er.
    + pose proof (evaluate_rating claims meta r Er) as Hr. rewrite bool_decide_true by eauto.
      split; [intros (? & ? & [= <- <-] & H) ? [= <-]; by apply Hr|].
      intros H. eexists _, _. split; [done|]. apply Hr. by apply H.
    + rewrite bool_decide_false by (by intros []). split; [done|]. intros _. by eexists _, _.
Qed.

(** ** Keys over the binary protocol *)

(** [payload] is a NanoTDF, within the size limit, whose policy permits the client's claims
    and whose binding is a signature; [d] is its ephemeral key and its data key rewrapped
    with the session secret of the connection. *)
Definition rewraps K c (payload rng d : bytes) : Prop :=
  exists secret h w rest pk kb key dek nonce wrapped,
    (Z.of_nat (length payload) <= MAX_NANOTDF_SIZE)%Z /\ shared_secret_lock c = Some secret /\
    payload = w ++ rest /\ header_wire h w /\
    use_ecdsa_binding (ecc_mode h) = true /\ permits (claims_lock c) (policy h) /\
    MediaApi.from_sec1_bytes (ephemeral_key h) = Ok pk /\
    get_kas_private_key_bytes K = Some kb /\ kas_secret_key kb = Some key /\
    MediaApi.custom_ecdh key pk = Ok dek /\
    rewrap_dek rng dek secret (dek_salt_of payload) (compute_nanotdf_salt V12) [] = Ok (nonce, wrapped) /\
    d = ephemeral_key h ++ nonce ++ wrapped.

(** The sizes the parser reads and the handler expects agree for signatures only. *)
Lemma verify_binding_wire h w :
  header_wire h w -> verify_binding h = Ok tt <-> use_ecdsa_binding (ecc_mode h) = true.
Proof.
  intros [ecc sym w' b Hp Hb Hl He]. unfold verify_binding, get_binding, get_policy, get_ecc_mode.
  rewrite Hb, Hl. unfold binding_size, expected_binding_size.
  destruct (use_ecdsa_binding _); [|done]. by destruct (ephemeral_ecc_params_enum _).
Qed.

(** Not a rewrapped key. *)
Definition no_key (r : option Message) : Prop :=
  forall d, r <> Some (Binary (message_code RewrappedKey :: d)).

Lemma no_key_refuse e : no_key (refuse e).
Proof. done. Qed.
Lemma no_key_none : no_key None.
Proof. done. Qed.
#[local] Hint Resolve no_key_refuse no_key_none : backend.

Lemma policy_contract_err p e : policy_contract p = Err e -> no_key e.
Proof. unfold policy_contract. intros H. repeat case_match; simplify_eq; auto with backend. Qed.
Lemma verify_binding_err h e : verify_binding h = Err e -> no_key e.
Proof. unfold verify_binding. intros H. repeat case_match; simplify_eq; auto with backend. Qed.
Lemma evaluate_contract_err claims l m e : evaluate_contract claims l m = Err e -> no_key e.
Proof.
  unfold evaluate_contract, geofence_answer. intros H.
  repeat case_match; simplify_eq; auto with backend.
Qed.
#[local] Hint Resolve policy_contract_err verify_binding_err evaluate_contract_err : backend.

Lemma parse_header_message_err payload : errors no_key (parse_header_message payload).
Proof.
  apply errors_ret. intros e. destruct (parse_header _) as [[[h|pe] q]|]; simpl; try done.
  intros [= <-]. apply no_key_refuse.
Qed.

Lemma parse_header_message_ok payload tr h :
  path (parse_header_message payload) tr (Done (Ok h)) <->
  tr = [] /\ exists w rest, payload = w ++ rest /\ header_wire h w.
Proof.
  unfold parse_header_message. rewrite path_ret. split; intros [-> H]; split; try done.
  - destruct (parse_header _) as [[[h'|e] q]|] eqn:Ep; simpl in H; simplify_eq.
    apply consumes_header in Ep as (w & rest & Hw & _ & Hwire). eauto.
  - destruct H as (w & rest & -> & Hw). pose proof (parses_header h w Hw [] rest) as Hp.
    simpl in Hp. unfold new. by rewrite Hp.
Qed.

#[local] Hint Resolve parse_header_message_err : backend.

Lemma path_returning_key m tr d :
  errors no_key m ->
  path (returning m) tr (Done (Some (Binary (message_code RewrappedKey :: d)))) <->
  path m tr (Done (Ok (Some (Binary (message_code RewrappedKey :: d))))).
Proof.
  intros He. rewrite path_returning. split; [|by left]. intros [H|H]; [done|].
  by destruct (He _ _ H d).
Qed.

Lemma path_hbind_silent {A B E} a (m : handler A E) (k : A -> handler B E) tr (b : B) :
  path m [] (Done (Ok a)) -> path (k a) tr (Done (Ok b)) -> path (hbind m k) tr (Done (Ok b)).
Proof. intros Hm Hk. apply path_hbind. by exists a, [], tr. Qed.

Lemma handle_rewrap_sound K c payload tr d :
  path (handle_rewrap K c payload) tr (key_answer d) ->
  exists rng, tr = [answered Random rng] /\ rewraps K c payload rng d.
Proof.
  unfold handle_rewrap. rewrite path_returning_key by errors_walk. intros H.
  apply path_hbind in H as (? & ? & ? & -> & [-> Hsize]%path_return_if & H).
  apply path_hbind in H as (secret & ? & ? & -> & [-> [= Hs]]%path_pure & H).
  apply path_hbind in H as (h & ? & ? & -> & [-> (w & rest & Hw & Hwire)]%parse_header_message_ok & H).
  apply path_hbind in H as (? & ? & ? & -> & [-> Hlen]%path_return_if & H).
  apply path_hbind in H as ([loc meta] & ? & ? & -> & [-> [= Hp]]%path_pure & H).
  apply path_hbind in H as (? & ? & ? & -> & [-> [= Hb]]%path_pure & H).
  apply path_hbind in H as (? & ? & ? & -> & [-> [= Hc]]%path_pure & H).
  apply path_hbind in H as (pk & ? & ? & -> & [-> [= Hpk]]%path_pure & H).
  destruct (get_kas_private_key_bytes K) as [kb|] eqn:EK; [|by apply path_ret in H as []].
  handler_inv. match goal with x : bytes * bytes |- _ => destruct x end. handler_inv.
  eexists. split; [reflexivity|].
  exists secret, h, w, rest, pk, kb. do 4 eexists. split_and!; try done.
  + by apply Z.ltb_ge.
  + apply (verify_binding_wire h w Hwire). by destruct x1.
  + apply policy_permitted. exists loc, meta. split; [done|]. by destruct x2.
Qed.

Lemma handle_rewrap_complete K c payload rng d :
  rewraps K c payload rng d ->
  path (handle_rewrap K c payload) [answered Random rng] (key_answer d).
Proof.
  unfold handle_rewrap. rewrite path_returning_key by errors_walk.
  intros (secret & h & w & rest & pk & kb & key & dek & nonce & wrapped & Hsize & Hs &
    Hw & Hwire & Hb & Hp & Hpk & HK & Hkey & Hdek & Hr & ->).
  apply (verify_binding_wire h w Hwire) in Hb.
  apply policy_permitted in Hp as (loc & meta & Hp & Hc).
  apply (path_hbind_silent tt); [apply path_return_if; split; [done|by apply Z.ltb_ge]|].
  apply (path_hbind_silent secret); [by rewrite Hs|].
  apply (path_hbind_silent h); [apply parse_header_message_ok; eauto|].
  unfold get_policy, get_ephemeral_key.
  apply (path_hbind_silent tt);
    [apply path_return_if; split; [done|]; by destruct Hwire as [? ? ? ? _ _ _ ->]|].
  apply (path_hbind_silent (loc, meta)); [by rewrite Hp|].
  apply (path_hbind_silent tt); [by rewrite Hb|].
  apply (path_hbind_silent tt); [by rewrite Hc|].
  apply (path_hbind_silent pk); [by rewrite Hpk|]. rewrite HK.
  apply (path_hbind_silent key); [by rewrite Hkey|].
  apply (path_hbind_silent dek); [by rewrite Hdek|].
  simpl. exists rng. split; [done|]. by rewrite Hr.
Qed.

(** C15: over the binary protocol a rewrapped key is answered exactly when the connection has
    a session secret and the payload is a NanoTDF within the size limit whose policy permits
    the client's claims and whose binding has the form of a signature; the answer is then
    its ephemeral key and its data key rewrapped for the session. *)
Theorem ws_rewrap_exact K c payload tr d :
  path (handle_rewrap K c payload) tr (key_answer d) <->
  exists rng, tr = [answered Random rng] /\ rewraps K c payload rng d.
Proof.
  split; [apply handle_rewrap_sound|]. intros (rng & -> & H). by apply handle_rewrap_complete.
Qed.

Lemma header_wire_unique h1 h2 w1 w2 r1 r2 :
  header_wire h1 w1 -> header_wire h2 w2 -> w1 ++ r1 = w2 ++ r2 -> h1 = h2.
Proof.
  intros H1 H2 E. pose proof (parses_header h1 w1 H1 [] r1) as P1.
  pose proof (parses_header h2 w2 H2 [] r2) as P2. simpl in *. rewrite E in P1. congruence.
Qed.

(** A NanoTDF with a GMAC binding is never rewrapped over the binary protocol: the parser
    reads eight bytes of tag where the handler expects sixteen, and a request that is
    otherwise in order is refused for the size of its tag. *)
Theorem ws_gmac_refused K c payload h w rest :
  payload = w ++ rest -> header_wire h w -> use_ecdsa_binding (ecc_mode h) = false ->
  (forall tr d, ~ path (handle_rewrap K c payload) tr (key_answer d)) /\
  ((Z.of_nat (length payload) <= MAX_NANOTDF_SIZE)%Z -> is_Some (shared_secret_lock c) ->
   permits (claims_lock c) (policy h) ->
   handle_rewrap K c payload = Ret (Done (refuse (invalid_format
     "Invalid policy binding GMAC tag size: 8 bytes (expected 16)")))).
Proof.
  intros -> Hw Hb. split.
  - intros tr d (rng & _ & secret & h' & w' & rest' & pk & kb & key & dek & nonce & wrapped & _ & _ &
      E & Hw' & Hb' & _)%handle_rewrap_sound.
    rewrite (header_wire_unique h h' w w' rest rest') in Hb by done. congruence.
  - intros Hsize [secret Hs] (loc & meta & Hp & _)%policy_permitted. unfold handle_rewrap.
    unfold return_if, parse_header_message. rewrite (proj2 (Z.ltb_ge _ _)) by done. rewrite Hs.
    pose proof (parses_header h w Hw [] rest) as Hparse. simpl in Hparse. unfold new. rewrite Hparse.
    cbn [ok_or pure hbind bind obind fst map_err]. unfold get_ephemeral_key, get_policy.
    destruct Hw as [ecc sym w' b _ Hbind Hl He]. rewrite He, Hp.
    unfold verify_binding, get_binding, get_policy, get_ecc_mode. rewrite Hbind, Hl.
    unfold binding_size, expected_binding_size. by rewrite Hb.
Qed.

(** ** Keys over CBOR *)

(** [m] answers with an error. *)
Definition cbor_error_answer (m : option Message) : Prop :=
  m = None \/ exists code text, m = cbor_refuse code text.

Lemma cbor_refuse_error code text : cbor_error_answer (cbor_refuse code text).
Proof. right. eauto. Qed.
#[local] Hint Resolve cbor_refuse_error : backend.

(** [m] carries the ephemeral key of a header and its data key rewrapped for [secret]. *)
Definition cbor_rewrapped K (header secret : bytes) (m : option Message) : Prop :=
  exists h w rest pk kb key dek rng nonce wrapped,
    header = w ++ rest /\ header_wire h w /\
    MediaApi.from_sec1_bytes (ephemeral_key h) = Ok pk /\
    get_kas_private_key_bytes K = Some kb /\ kas_secret_key kb = Some key /\
    MediaApi.custom_ecdh key pk = Ok dek /\
    rewrap_dek rng dek secret (dek_salt_of header) (compute_nanotdf_salt V12) [] = Ok (nonce, wrapped) /\
    m = Some (cbor_message (CborRewrappedKey (ephemeral_key h) nonce wrapped)).

Lemma cbor_rewrap_sound K header secret tr m :
  path (cbor_rewrap K header secret) tr (Done (Ok m)) -> cbor_rewrapped K header secret m.
Proof.
  unfold cbor_rewrap. intros H.
  apply path_hbind in H as (h & ? & ? & -> & [-> Hp]%path_ret & H).
  destruct (parse_header _) as [[[h'|e] q]|] eqn:Ep; simpl in Hp; simplify_eq.
  apply consumes_header in Ep as (w & rest & Hw & _ & Hwire). simpl in Hw.
  apply path_hbind in H as (? & ? & ? & -> & [-> Hlen]%path_return_if & H).
  handler_inv. match goal with x : bytes * bytes |- _ => destruct x end. handler_inv.
  exists h, w, rest. do 7 eexists. by split_and!.
Qed.

Lemma cbor_rewrap_errors K header secret : errors cbor_error_answer (cbor_rewrap K header secret).
Proof.
  unfold cbor_rewrap. apply errors_hbind; [|intros h]; [|errors_walk].
  apply errors_ret. intros e. destruct (parse_header _) as [[[h|pe] q]|]; simpl; try done.
  intros [= <-]. auto with backend.
Qed.

Lemma chain_rewrap_request_binds {plaws : PrimitivesLaws} header chain req :
  chain_rewrap_request header chain = Ok req ->
  req_header_hash req = sha256 header /\ cv_header_hash chain = sha256 header /\
  hex_decode (req_session_id req) = Ok (cv_session_id chain) /\ req_nonce req = cv_nonce chain.
Proof.
  unfold chain_rewrap_request. intros Hr. inv_result.
  repeat (split_if; simpl in *; inv_result). simpl. reflect_bools.
  split_and!; try done. apply hex_roundtrip.
Qed.

Lemma chain_rewrap_request_errors header chain :
  errors cbor_error_answer (pure (chain_rewrap_request header chain)).
Proof.
  apply errors_pure. intros e. unfold chain_rewrap_request.
  intros H.
  repeat match goal with
  | H : rbind _ _ = Err _ |- _ => apply rbind_Err in H
  | H : _ \/ _ |- _ => destruct H as [H|(? & _ & H)]
  | H : (if ?b then _ else _) = Err _ |- _ => destruct b
  end; simplify_eq; auto with backend.
Qed.
#[local] Hint Resolve cbor_rewrap_errors chain_rewrap_request_errors : backend.

(** A chain session in force: it is the one the request names, its scope is the hash of the
    header, and the request's nonce was fresh. *)
Definition chain_rewrap_authorized {scale : Scale} secret (header : bytes) (chain : ChainValidation) tr : Prop :=
  exists req s tr', tr' ⊆ tr /\ chain_rewrap_request header chain = Ok req /\
    justified secret req s tr' /\ scope_id (grant s) = sha256 header /\
    hex_decode (req_session_id req) = Ok (cv_session_id chain) /\ req_nonce req = cv_nonce chain.

(** C16: over CBOR a key is rewrapped only on a connection with a session secret and under a
    chain session in force that the request names, for the hash of the header whose key it
    is, with a fresh nonce; every other answer is an error. *)
Theorem ws_chain_rewrap_release {plaws : PrimitivesLaws} {scale : Scale} secret url K st c header chain tr m :
  ws_chain_validator st = Some (validate secret url) ->
  path (handle_chain_rewrap K st c header chain) tr (Done m) ->
  cbor_error_answer m \/
  exists ss, shared_secret_lock c = Some ss /\ chain_rewrap_authorized secret header chain tr /\
    cbor_rewrapped K header ss m.
Proof.
  intros Hv. unfold handle_chain_rewrap. rewrite path_returning. intros [H|H].
  - right.
    apply path_hbind in H as (ss & ? & ? & -> & [-> [= Hs]]%path_pure & H).
    apply path_hbind in H as (v & ? & ? & -> & [-> [= Hvv]]%path_pure & H).
    apply path_hbind in H as (req & ? & ? & -> & [-> [= Hr]]%path_pure & H).
    apply path_hbind in H as (s & t1 & t2 & -> & (? & [= <-] & Hval%path_map_err)%path_call & H).
    symmetry in Hs, Hvv. apply ok_or_Ok in Hs, Hvv. rewrite Hv in Hvv. simplify_eq.
    apply validate_justified in Hval. apply cbor_rewrap_sound in H.
    destruct (chain_rewrap_request_binds header chain req) as (Hh & _ & Hid & Hn); [done|].
    exists ss. split_and!; [done| |done]. exists req, s, t1. split_and!; try done; [set_solver|].
    destruct Hval as (id & _ & _ & _ & _ & _ & _ & Hscope & _). by rewrite <-Hscope.
  - left. revert H.
    match goal with |- path ?b _ _ -> _ => enough (errors cbor_error_answer b) as He end;
      [apply He|].
    errors_walk. apply errors_call. intros tr' e. unfold await_map_err. rewrite path_bind.
    intros ([?|e'] & ? & ? & _ & _ & [_ H]%path_ret); [done|].
    injection H as <-. destruct (chain_rewrap_error e'). auto with backend.
Qed.

(** ** The session secret *)

(** Neither a rewrapped key of the binary protocol nor one of the CBOR protocol. *)
Definition key_free (r : option Message) : Prop :=
  no_key r /\
  forall k n w b, cbor_encode (CborRewrappedKey k n w) = Ok b ->
    r <> Some (Binary (CBOR_MESSAGE_TYPE :: b)).

(** What a message may do to the connection: a session secret that is there stays, and
    without one nothing that is answered is a key; nothing is sent yet. *)
Definition keeps_secret c c' (r : option Message) : Prop :=
  (forall s, shared_secret_lock c = Some s -> shared_secret_lock c' = Some s) /\
  (key_free r \/ is_Some (shared_secret_lock c)) /\ outgoing_tx c' = outgoing_tx c.

Lemma key_free_none : key_free None.
Proof. by split. Qed.
Lemma key_free_text text : key_free (Some (Text text)).
Proof. by split. Qed.
Lemma key_free_binary tag d :
  tag <> message_code RewrappedKey -> tag <> CBOR_MESSAGE_TYPE -> key_free (Some (Binary (tag :: d))).
Proof. intros H1 H2. split; [intros d'|intros k n w b _]; congruence. Qed.
Lemma key_free_message e : key_free (Some (to_message e)).
Proof. by apply key_free_binary. Qed.
Lemma key_free_event d : key_free (Some (event_message d)).
Proof. by apply key_free_binary. Qed.
#[local] Hint Resolve key_free_none key_free_event key_free_message : backend.

(** The tag of a response tells that it is no key. *)
Lemma key_free_response {claws : CborCratesLaws} r b :
  (forall k n w, r <> CborRewrappedKey k n w) -> cbor_encode r = Ok b ->
  key_free (Some (Binary (CBOR_MESSAGE_TYPE :: b))).
Proof.
  unfold cbor_encode. intros Hr Hb%map_err_Ok. split; [by intros d|].
  intros k n w b' Hk%map_err_Ok [= <-].
  destruct (rewrapped_key_tag r k n w b Hb Hk) as (k' & n' & w' & ->). by eapply Hr.
Qed.

Lemma key_free_cbor_error {claws : CborCratesLaws} code text :
  key_free (Some (cbor_error_response code text)).
Proof.
  unfold cbor_error_response. case_match eqn:E; [by eapply key_free_response; [|exact E]|apply key_free_text].
Qed.

Lemma key_free_cbor_message {claws : CborCratesLaws} r :
  (forall k n w, r <> CborRewrappedKey k n w) -> key_free (Some (cbor_message r)).
Proof.
  intros Hr. unfold cbor_message.
  case_match eqn:E; [by eapply key_free_response; [|exact E]|apply key_free_cbor_error].
Qed.

Lemma keeps_same c r : key_free r -> keeps_secret c c r.
Proof. intros H. unfold keeps_secret. split_and!; [done|by left|done]. Qed.

Lemma handle_public_key_keeps c payload tr c' r :
  path (handle_public_key c payload) tr (Done (c', r)) -> keeps_secret c c' r.
Proof.
  unfold handle_public_key. intros H.
  case_bool_decide as Hs; [apply path_ret in H as [_ [= <- <-]]; apply keeps_same, key_free_none|].
  destruct (negb _); [apply path_ret in H as [_ [= <- <-]]; apply keeps_same, key_free_message|].
  destruct (from_sec1_bytes payload);
    [|apply path_ret in H as [_ [= <- <-]]; apply keeps_same, key_free_message].
  handler_inv. split_and!; [|left; by apply key_free_binary|done]. intros s E. by destruct Hs.
Qed.

Lemma handle_cbor_key_exchange_keeps {claws : CborCratesLaws} c pk tr c' r :
  path (handle_cbor_key_exchange c pk) tr (Done (c', r)) -> keeps_secret c c' r.
Proof.
  unfold handle_cbor_key_exchange. intros H.
  case_bool_decide as Hs; [apply path_ret in H as [_ [= <- <-]]; apply keeps_same, key_free_none|].
  destruct (_ && _); [apply path_ret in H as [_ [= <- <-]]; apply keeps_same, key_free_cbor_error|].
  destruct (from_sec1_bytes pk);
    [|apply path_ret in H as [_ [= <- <-]]; apply keeps_same, key_free_cbor_error].
  handler_inv.
  match goal with H : path (match ?x with _ => _ end) _ _ |- _ => destruct x end; handler_inv.
  split_and!; [intros s E; by destruct Hs|left; by apply key_free_cbor_message|done].
Qed.

(** Without a session secret a chain rewrap is refused. *)
Lemma handle_chain_rewrap_key_free {claws : CborCratesLaws} K st c header chain tr r :
  path (handle_chain_rewrap K st c header chain) tr (Done r) ->
  key_free r \/ is_Some (shared_secret_lock c).
Proof.
  destruct (shared_secret_lock c) as [ss|] eqn:Es; [by right; eauto|]. intros H. left.
  unfold handle_chain_rewrap in H. rewrite Es in H. apply path_ret in H as [_ [= <-]].
  apply key_free_cbor_error.
Qed.

Lemma handle_nats_publish_none s payload tr r :
  path (handle_nats_publish s payload) tr (Done r) -> r = None.
Proof.
  unfold handle_nats_publish. intros H. destruct (nats_message_new payload); [|by handler_inv].
  apply path_bind in H as ([] & ? & ? & -> & _ & H); handler_inv; done.
Qed.

Lemma handle_event_key_free st payload tr r :
  path (handle_event st payload) tr (Done r) -> key_free r.
Proof.
  unfold handle_event. rewrite path_returning. intros [H|H].
  - do 5 apply path_hbind in H as (? & ? & ? & -> & _ & H). handler_inv. apply key_free_event.
  - revert H. match goal with |- path ?b _ _ -> _ => enough (errors key_free b) as He end; [apply He|].
    assert (forall A (m : prog (event CachedEntry) (result A RedisError)),
      errors key_free (call (await_map_err (fun _ => None) m))) as Hcall.
    { intros A m. apply errors_call. intros tr' e. unfold await_map_err. rewrite path_bind.
      intros ([?|?] & ? & ? & _ & _ & [_ [= <-]]%path_ret). apply key_free_none. }
    unfold store_event, user_event, cache_event, route_event.
    repeat (errors_walk; try apply Hcall).
Qed.

Lemma handle_rewrap_key_free K c payload tr r :
  path (handle_rewrap K c payload) tr (Done r) -> key_free r \/ is_Some (shared_secret_lock c).
Proof.
  destruct (shared_secret_lock c) as [ss|] eqn:Es; [by right; eauto|]. intros H. left.
  unfold handle_rewrap in H. rewrite Es in H. unfold return_if in H.
  destruct (_ <? _)%Z; apply path_ret in H as [_ [= <-]]; apply key_free_message.
Qed.

Lemma handle_binary_message_keeps {claws : CborCratesLaws} K st c data tr c' r :
  path (handle_binary_message K st c data) tr (Done (c', r)) -> keeps_secret c c' r.
Proof.
  assert (forall m, (forall tr r, path m tr (Done r) -> key_free r \/ is_Some (shared_secret_lock c)) ->
    path (keep c m) tr (Done (c', r)) -> keeps_secret c c' r) as Hkeep.
  { intros m Hm ([r'|] & H & Ho)%path_keep; [|done]. injection Ho as <- <-.
    split_and!; [done|by eapply Hm|done]. }
  unfold handle_binary_message. intros H.
  destruct data as [|tag payload]; [handler_inv; apply keeps_same, key_free_none|].
  destruct (from_u8 tag) as [[]|]; try (handler_inv; apply keeps_same, key_free_none).
  - by eapply handle_public_key_keeps.
  - handler_inv. apply keeps_same. unfold handle_kas_public_key.
    case_match; [by apply key_free_binary|apply key_free_none].
  - revert H. apply Hkeep. intros. by eapply handle_rewrap_key_free.
  - revert H. apply Hkeep. intros tr' r' Hr. left. apply handle_nats_publish_none in Hr as ->.
    apply key_free_none.
  - revert H. apply Hkeep. intros tr' r' Hr. left. by eapply handle_event_key_free.
  - unfold handle_cbor_message in H.
    destruct (cbor_decode payload) as [[]|]; try (handler_inv; apply keeps_same, key_free_cbor_error).
    + by eapply handle_cbor_key_exchange_keeps.
    + revert H. apply Hkeep. intros. by eapply handle_chain_rewrap_key_free.
Qed.

(** Nothing that was sent is a key. *)
Definition keyless c : Prop := Forall (fun m => key_free (Some m)) (outgoing_tx c).

(** The secret of [c] is still that of [c'], and a connection without one has sent no key. *)
Definition same_session c c' : Prop :=
  (forall s, shared_secret_lock c = Some s -> shared_secret_lock c' = Some s) /\
  (shared_secret_lock c' = None -> keyless c -> keyless c').

Lemma same_session_trans c1 c2 c3 :
  same_session c1 c2 -> same_session c2 c3 -> same_session c1 c3.
Proof.
  intros [H1 K1] [H2 K2]. split; [auto|]. intros H3 Hk. apply K2; [done|]. apply K1; [|done].
  destruct (shared_secret_lock c2) eqn:E; [|done]. rewrite (H2 _ eq_refl) in H3. done.
Qed.

Lemma respond_session c c' r : keeps_secret c c' r -> same_session c (respond c' r).
Proof.
  intros (Hs & Hk & Ho). unfold respond, send, same_session, keyless.
  destruct r as [m|]; [destruct (outgoing_closed c')|]; simpl; rewrite ?Ho; try by split.
  split; [done|]. intros Hn Hc. apply Forall_app. split; [done|]. constructor; [|done].
  destruct Hk as [Hk|[s Es]]; [done|]. rewrite (Hs _ Es) in Hn. done.
Qed.

Lemma message_loop_session {claws : CborCratesLaws} K st on_text incoming w tr w' :
  (forall text w1 tr1 w2, path (on_text text w1) tr1 w2 ->
     same_session (connection_state w1) (connection_state w2)) ->
  path (message_loop K st on_text incoming w) tr (Done w') ->
  same_session (connection_state w) (connection_state w').
Proof.
  intros Ht. revert w tr. induction incoming as [|[m|e] incoming IH]; intros w tr H.
  - apply path_ret in H as [_ [= <-]]. by split.
  - destruct m as [data|text| |]; simpl in H.
    + apply path_bind in H as ([[c r]|] & ? & ? & -> & Hm & H); [|by handler_inv].
      apply handle_binary_message_keeps, respond_session in Hm.
      eapply same_session_trans; [exact Hm|]. by eapply (IH (with_state w (respond c r))).
    + apply path_bind in H as (w1 & ? & ? & -> & Hw & H).
      eapply same_session_trans; [by eapply Ht|by eapply IH].
    + apply path_ret in H as [_ [= <-]]. by split.
    + by eapply IH.
  - apply path_ret in H as [_ [= <-]]. by split.
Qed.

Lemma on_token_session st text w tr w' :
  path (on_token st text w) tr w' -> same_session (connection_state w) (connection_state w').
Proof.
  unfold on_token. intros ([cl|e] & ? & ? & -> & _ & [_ <-]%path_ret)%path_bind; by split.
Qed.

(** C18: the secret of a WebSocket session is agreed once and never replaced, whatever the
    client sends, in both message loops (with and without an NTDF token), and a key is sent
    only after the agreement: a connection without a session secret has sent no rewrapped
    key, neither in the binary protocol nor over CBOR. *)
Theorem ws_session_secret {claws : CborCratesLaws} K st incoming on_text w tr w' :
  on_text = on_token st \/ on_text = (fun _ w => Ret w) ->
  path (message_loop K st on_text incoming w) tr (Done w') ->
  same_session (connection_state w) (connection_state w').
Proof.
  intros [->| ->]; apply message_loop_session; intros text w1 tr1 w2 H.
  - by eapply on_token_session.
  - apply path_ret in H as [_ <-]. by split.
Qed.

(** ** Panics *)

Lemma parse_header_cut payload : parse_header (new payload) = Panic -> cut_header payload.
Proof.
  intros (w & r & Hw & h & ecc & sym & Hp & Ht)%panics_header. by exists h, ecc, sym, w, r.
Qed.

(** An event that names no target although its type needs one. *)
Definition targetless (payload : bytes) : Prop :=
  exists e t, root_event payload = Ok e /\ event_data e = UserEventData (Some t) /\ ue_target_id t = None.

Lemma handle_rewrap_panic K c payload tr :
  path (handle_rewrap K c payload) tr Panic ->
  is_Some (shared_secret_lock c) /\ (cut_header payload \/ K = None).
Proof.
  unfold handle_rewrap. rewrite path_returning_panic. intros H.
  apply path_hbind_panic in H as [H|(? & ? & ? & -> & _ & H)]; [no_panic H|].
  apply path_hbind_panic in H as [H|(s & ? & ? & -> & [-> [= Hs]]%path_pure & H)]; [no_panic H|].
  symmetry in Hs. apply ok_or_Ok in Hs. split; [eauto|].
  apply path_hbind_panic in H as [H|(h & ? & ? & -> & _ & H)].
  { left. apply path_ret in H as [_ H]. destruct (parse_header _) eqn:E; [done|].
    by apply parse_header_cut. }
  apply path_hbind_panic in H as [H|(? & ? & ? & -> & _ & H)]; [no_panic H|].
  apply path_hbind_panic in H as [H|([] & ? & ? & -> & _ & H)]; [no_panic H|].
  do 3 (apply path_hbind_panic in H as [H|(? & ? & ? & -> & _ & H)]; [no_panic H|]).
  right. unfold get_kas_private_key_bytes in H. destruct K as [kk|]; [|done]. exfalso. simpl in H.
  do 4 (apply path_hbind_panic in H as [H|(? & ? & ? & -> & _ & H)]; [no_panic H|]).
  match type of H with path (let '(_, _) := ?x in _) _ _ => destruct x end. no_panic H.
Qed.

Lemma cbor_rewrap_panic K header ss tr : path (cbor_rewrap K header ss) tr Panic -> cut_header header.
Proof.
  unfold cbor_rewrap. intros H.
  apply path_hbind_panic in H as [H|(h & ? & ? & -> & _ & H)].
  { apply path_ret in H as [_ H]. destruct (parse_header _) eqn:E; [done|].
    by apply parse_header_cut. }
  exfalso. do 7 (apply path_hbind_panic in H as [H|(? & ? & ? & -> & _ & H)]; [no_panic H|]).
  match type of H with path (let '(_, _) := ?x in _) _ _ => destruct x end. no_panic H.
Qed.

Lemma handle_chain_rewrap_panic K st c header chain tr :
  path (handle_chain_rewrap K st c header chain) tr Panic -> cut_header header.
Proof.
  unfold handle_chain_rewrap. rewrite path_returning_panic. intros H.
  do 4 (apply path_hbind_panic in H as [H|(? & ? & ? & -> & _ & H)]; [no_panic H|]).
  by eapply cbor_rewrap_panic.
Qed.

Lemma handle_event_panic st payload tr : path (handle_event st payload) tr Panic -> targetless payload.
Proof.
  unfold handle_event. rewrite path_returning_panic. intros H.
  apply path_hbind_panic in H as [H|(? & ? & ? & -> & _ & H)]; [no_panic H|].
  apply path_hbind_panic in H as [H|(e & ? & ? & -> & [-> [= He]]%path_pure & H)]; [no_panic H|].
  symmetry in He. apply map_err_Ok in He.
  apply path_hbind_panic in H as [H|(? & ? & ? & -> & _ & H)].
  { exfalso. unfold store_event in H. repeat case_match; try no_panic H.
    apply path_hbind_panic in H as [H|([] & ? & ? & -> & _ & H)]; no_panic H. }
  apply path_hbind_panic in H as [H|(? & ? & ? & -> & _ & H)]; [no_panic H|].
  apply path_hbind_panic in H as [H|(? & ? & ? & -> & _ & H)]; [|no_panic H].
  exists e. destruct (event_data e) as [|[t|]|[t|]|[t|]|] eqn:Ed; try (exfalso; no_panic H).
  - exists t. simpl in H. destruct (ue_target_id t) eqn:Et; [|done]. exfalso.
    apply path_hbind_panic in H as [H|(? & ? & ? & -> & _ & H)]; [no_panic H|].
    case_match; no_panic H.
  - exfalso. unfold cache_event in H.
    apply path_hbind_panic in H as [H|(? & ? & ? & -> & _ & H)]; [no_panic H|].
    apply path_hbind_panic in H as [H|(? & ? & ? & -> & _ & H)]; [|no_panic H].
    repeat case_match; no_panic H.
  - exfalso. unfold route_event in H. case_match; [|no_panic H].
    do 2 (apply path_hbind_panic in H as [H|(? & ? & ? & -> & _ & H)]; [no_panic H|]).
    case_match; [|no_panic H].
    apply path_hbind_panic in H as [H|(? & ? & ? & -> & _ & H)]; no_panic H.
Qed.

Lemma handle_key_exchange_panic c pk tr :
  path (handle_cbor_key_exchange c pk) tr Panic ->
  exists salt secret, hkdf_sha256 salt secret (as_bytes "arkavo-session-key") = None.
Proof.
  unfold handle_cbor_key_exchange. intros H.
  repeat (case_match; [by apply path_ret in H as []|]).
  destruct (from_sec1_bytes pk); [|by apply path_ret in H as []]. handler_inv.
  match goal with H : path (match ?x with _ => _ end) _ _ |- _ => destruct x eqn:? end; handler_inv.
  eauto.
Qed.

(** A binary message panics the task of its connection only if it is a rewrap request
    whose header ends inside its policy binding, or one that comes before the server has its
    keys; or a user event without a target; or a chain rewrap with such a header; or a key
    exchange whose key derivation fails. *)
Theorem ws_message_panics K st c data tr :
  path (handle_binary_message K st c data) tr Panic ->
  exists tag payload, data = tag :: payload /\
    ((from_u8 tag = Some Rewrap /\ is_Some (shared_secret_lock c) /\ (cut_header payload \/ K = None)) \/
     (from_u8 tag = Some EventType /\ targetless payload) \/
     (from_u8 tag = Some Cbor /\ exists header chain,
        cbor_decode payload = Ok (ChainRewrap header chain) /\ cut_header header) \/
     (from_u8 tag = Some Cbor /\ exists salt secret,
        hkdf_sha256 salt secret (as_bytes "arkavo-session-key") = None)).
Proof.
  assert (forall m, path (keep c m) tr Panic -> path m tr Panic) as Hkeep.
  { intros m ([r|] & H & Ho)%path_keep; [discriminate Ho|done]. }
  unfold handle_binary_message. intros H.
  destruct data as [|tag payload]; [by handler_inv|]. exists tag, payload. split; [done|].
  destruct (from_u8 tag) as [[]|]; try by handler_inv.
  - exfalso. unfold handle_public_key in H.
    repeat (case_match; [by apply path_ret in H as []|]).
    destruct (from_sec1_bytes payload); by handler_inv.
  - apply Hkeep, handle_rewrap_panic in H. auto.
  - exfalso. apply Hkeep in H. unfold handle_nats_publish in H. case_match; [|by handler_inv].
    apply path_bind in H as ([] & ? & ? & -> & _ & H); by handler_inv.
  - apply Hkeep, handle_event_panic in H. auto.
  - unfold handle_cbor_message in H.
    destruct (cbor_decode payload) as [[]|] eqn:Ed; try by handler_inv.
    + apply handle_key_exchange_panic in H. eauto 10.
    + apply Hkeep, handle_chain_rewrap_panic in H. eauto 10.
Qed.

(** The attribute contract of a remote policy restrains only clients that present a
    token: without claims the contract lets the request pass, while a token is refused
    unless its subject is [Main] or [Alt], whatever region the policy means. *)
Theorem ws_abac_without_claims loc :
  protocol_enum loc = SharedResource -> contains SIMPLE_ABAC_CONTRACT (locator_body loc) = true ->
  contains GEO_FENCE_CONTRACT (locator_body loc) = false ->
  contains CONTENT_RATING_CONTRACT (locator_body loc) = false ->
  evaluate_contract None (Some loc) None = Ok tt /\
  forall cl, evaluate_contract (Some cl) (Some loc) None = Ok tt <->
    sub cl = "Main"%string \/ sub cl = "Alt"%string.
Proof.
  intros Hp Ha Hg Hr.
  assert (protocol_enum loc <> Http /\ protocol_enum loc <> Https) as [H1 H2] by (by rewrite Hp).
  split; [|intros cl]; rewrite evaluate_remote by done; unfold remote_permits; naive_solver.
Qed.
End Rewrap.

(** ** In the simulated world *)

Definition ws_world : sim CachedEntry := media_world TDF3 abac_header.

(** The key of [abac_header], rewrapped for the secret of [agreed]. *)
Definition abac_key : bytes :=
  replicate 33 x02 ++ [x05] ++ (replicate 32 x09 ++ replicate 33 x02) ++ [x0a].

(** The client without a token gets the key; the one with a private subject does not. *)
Lemma ws_rewrap_runs :
  answer_of (handle_rewrap sample_keys (agreed None) abac_header) ws_world = key_answer abac_key /\
  answer_of (handle_rewrap sample_keys (agreed (Some {| sub := "Private"; age := "" |})) abac_header)
    ws_world =
  Done (refuse (ws_policy_denied "Access denied by attribute-based access control policy")).
Proof. split; vm_compute; reflexivity. Qed.

Lemma ws_abac_without_claims_witness :
  evaluate_contract None
    (Some {| protocol_enum := SharedResource; locator_body := SIMPLE_ABAC_CONTRACT |}) None = Ok tt.
Proof.
  apply (ws_abac_without_claims
    {| protocol_enum := SharedResource; locator_body := SIMPLE_ABAC_CONTRACT |}); reflexivity.
Defined.

(** The header [parse_header] reads from [gmac_header], which is all of it. *)
Definition gmac_parsed : Header :=
  {| magic_number := [x4c; x31]; version := [x4c]; kas := kas_locator;
     ecc_mode := {| use_ecdsa_binding := false; ephemeral_ecc_params_enum := Secp256r1 |};
     payload_sig_mode := symmetric_and_payload_config_of x00;
     policy := {| policy_type := Remote; policy_body := None;
                  remote := Some {| protocol_enum := Wss; locator_body := "kas.example.com" |};
                  binding := Some (replicate 8 xb5) |};
     ephemeral_key := replicate 33 x02 |}.

Lemma gmac_wire : exists w rest, gmac_header = w ++ rest /\ header_wire gmac_parsed w.
Proof.
  destruct (consumes_header (new gmac_header) gmac_parsed
    {| data := gmac_header; position := length gmac_header |}) as (w & rest & Hw & _ & H).
  - vm_compute. reflexivity.
  - by exists w, rest.
Qed.

Lemma ws_gmac_refused_witness :
  handle_rewrap sample_keys (agreed None) gmac_header =
  Ret (Done (refuse (invalid_format "Invalid policy binding GMAC tag size: 8 bytes (expected 16)"))).
Proof.
  destruct gmac_wire as (w & rest & Hw & Hwire).
  apply (ws_gmac_refused sample_keys (agreed None) gmac_header gmac_parsed w rest Hw Hwire eq_refl).
  - vm_compute. discriminate.
  - by exists [x0a].
  - intros loc [= <-]. by split_and!.
Defined.

Lemma ws_chain_rewrap_release_witness :
  exists tr m, cbor_error_answer m \/
    exists ss, shared_secret_lock (agreed None) = Some ss /\
      chain_rewrap_authorized sample_secret abac_header (sample_chain abac_header) tr /\
      cbor_rewrapped sample_keys abac_header ss m.
Proof.
  destruct (answer_path (handle_chain_rewrap sample_keys sample_server (agreed None) abac_header
    (sample_chain abac_header)) ws_world
    (Done (Some (Binary (x08 :: x02 :: abac_key))))) as [tr Htr].
  - vm_compute. reflexivity.
  - exists tr, (Some (Binary (x08 :: x02 :: abac_key))).
    apply (ws_chain_rewrap_release sample_secret "ws://node" sample_keys sample_server (agreed None)
      abac_header (sample_chain abac_header)); [reflexivity|exact Htr].
Defined.

(** A client agrees on a secret, twice, and asks for a key. *)
Definition ws_session : list (result Message string) :=
  [Ok (Binary (x01 :: replicate 33 x03)); Ok (Text "Alt"); Ok (Binary (x01 :: replicate 33 x04));
   Ok (Binary (x03 :: abac_header)); Ok Close].

Definition ws_after : WsConnection :=
  default {| connection_state := new_connection; public_id_nats_task := None |}
    (match answer_of (handle_websocket_axum sample_keys sample_server ws_session) ws_world with
     | Done w => Some w | Panic => None end).

Lemma ws_session_secret_witness :
  length (outgoing_tx (connection_state ws_after)) = 2 /\
  same_session new_connection (connection_state ws_after).
Proof.
  split; [vm_compute; reflexivity|].
  destruct (answer_path (handle_websocket_axum sample_keys sample_server ws_session) ws_world
    (Done ws_after)) as [tr Htr].
  - vm_compute. reflexivity.
  - exact (ws_session_secret sample_keys sample_server ws_session _
      {| connection_state := new_connection; public_id_nats_task := None |} tr ws_after (or_introl eq_refl) Htr).
Defined.

Lemma ws_message_panics_witness :
  exists tag payload, [message_code EventType; x03] = tag :: payload /\
    ((from_u8 tag = Some Rewrap /\ is_Some (shared_secret_lock (agreed None)) /\
      (cut_header payload \/ sample_keys = None)) \/
     (from_u8 tag = Some EventType /\ targetless payload) \/
     (from_u8 tag = Some Cbor /\ exists header chain,
        cbor_decode payload = Ok (ChainRewrap header chain) /\ cut_header header) \/
     (from_u8 tag = Some Cbor /\ exists salt secret,
        hkdf_sha256 salt secret (as_bytes "arkavo-session-key") = None)).
Proof.
  destruct (answer_path (handle_binary_message sample_keys sample_server (agreed None)
    [message_code EventType; x03]) ws_world Panic) as [tr Htr].
  - vm_compute. reflexivity.
  - exact (ws_message_panics sample_keys sample_server (agreed None) [message_code EventType; x03]
      tr Htr).
Defined.
