(* ===== verification/WebSocketEvents.v ===== *)
(** * NATS, events and the upgrade of a WebSocket connection

    What a subscription forwards and when it dies, what events store and read, and who is
    let in. *)
From S2P Require Import NtdfToken.
From S2P Require Import Prelude Services SimWorld.
From S2P Require Import NanoTdf SessionManager SessionCodec SessionProps Crypto Chain CryptoSample.
From S2P Require Import MediaMetrics MediaApi MediaSample MediaApiProps HttpRewrap CborProtocol.
From S2P Require Import WebSocket WebSocketSample WebSocketProps.

Section Events.
Context {prims : Primitives} {crates : MediaCrates} {tokens : TokenCrypto}.
Context {ws : WsCrates} {cbor : CborCrates}.
Implicit Types (tr : list (answer (event CachedEntry))) (c : ConnectionState) (K : option KasKeys).

(** ** What NATS delivers *)

Definition turn_messages (t : subscription_turn) : list bytes :=
  match t with delivered messages => messages | _ => [] end.

(** A message as it is forwarded: a NanoTDF by its magic number, an event otherwise. *)
Definition forwarded (payload : bytes) : Message :=
  Binary (message_code (if bool_decide (take 3 payload = [x4c; x31; x4c]) then Nats else EventType)
          :: payload).

Definition with_outgoing c (ms : list Message) : ConnectionState :=
  {| salt_lock := salt_lock c; shared_secret_lock := shared_secret_lock c;
     claims_lock := claims_lock c; ntdf_claims_lock := ntdf_claims_lock c;
     outgoing_tx := outgoing_tx c ++ ms; outgoing_closed := outgoing_closed c |}.

Lemma handle_nats_short payload c : length payload < 3 -> handle_nats payload c = Panic.
Proof. intros H. unfold handle_nats. by rewrite slice_panics. Qed.

Lemma handle_nats_long payload c :
  3 <= length payload -> outgoing_closed c = false ->
  handle_nats payload c = Done (Ok (with_outgoing c [forwarded payload])).
Proof.
  intros Hl Hc. unfold handle_nats. rewrite slice_in_range by lia. unfold send, with_outgoing.
  simpl. by rewrite Hc.
Qed.

Lemma deliver_short messages c :
  Exists (fun m => length m < 3) messages -> deliver messages c = Panic.
Proof.
  intros H. revert c. induction H as [m ms H|m ms _ IH]; intros c; simpl.
  - by rewrite handle_nats_short.
  - destruct (handle_nats m c) as [r|]; simpl; [apply IH|done].
Qed.

Lemma with_outgoing_app c ms ms' :
  with_outgoing (with_outgoing c ms) ms' = with_outgoing c (ms ++ ms').
Proof. unfold with_outgoing. simpl. by rewrite app_assoc. Qed.

Lemma with_outgoing_nil c : with_outgoing c [] = c.
Proof. destruct c. unfold with_outgoing. simpl. by rewrite app_nil_r. Qed.

Lemma deliver_long messages c :
  Forall (fun m => 3 <= length m) messages -> outgoing_closed c = false ->
  deliver messages c = Done (with_outgoing c (forwarded <$> messages)).
Proof.
  intros H. revert c. induction H as [|m ms Hm _ IH]; intros c Hc; simpl.
  - by rewrite with_outgoing_nil.
  - rewrite handle_nats_long by done. simpl. rewrite IH by done. by rewrite with_outgoing_app.
Qed.

Lemma subscription_short turns c :
  Exists (fun m => length m < 3) (turns ≫= turn_messages) -> handle_nats_subscription turns c = Panic.
Proof.
  revert c. induction turns as [|t turns IH]; intros c H; [by inversion H|].
  change ((t :: turns) ≫= turn_messages) with (turn_messages t ++ (turns ≫= turn_messages)) in H.
  apply Exists_app in H. destruct t as [| |messages]; simpl in *.
  1, 2: apply IH; by destruct H as [H%Exists_nil|].
  destruct H as [H|H]; [by rewrite deliver_short|].
  destruct (deliver messages c); simpl; [by apply IH|done].
Qed.

(** A NATS subscription forwards the messages of its subject to the client, in order and
    tagged by their kind, through failed and repeated subscriptions, until a message shorter
    than three bytes arrives; such a message panics the task. *)
Theorem nats_subscription_delivers turns c :
  outgoing_closed c = false ->
  (Forall (fun m => 3 <= length m) (turns ≫= turn_messages) ->
   handle_nats_subscription turns c =
     Done (with_outgoing c (forwarded <$> (turns ≫= turn_messages)))) /\
  (~ Forall (fun m => 3 <= length m) (turns ≫= turn_messages) ->
   handle_nats_subscription turns c = Panic).
Proof.
  intros Hc. split.
  - revert c Hc. induction turns as [|t turns IH]; intros c Hc H.
    { simpl. by rewrite with_outgoing_nil. }
    change ((t :: turns) ≫= turn_messages) with (turn_messages t ++ (turns ≫= turn_messages)) in *.
    apply Forall_app in H as [H1 H2]. destruct t as [| |messages]; simpl in *; [by apply IH..|].
    rewrite deliver_long by done. simpl. rewrite IH by done.
    by rewrite with_outgoing_app, <-fmap_app.
  - intros H. apply subscription_short.
    apply (not_Forall_Exists _ _) in H. eapply Exists_impl; [|exact H].
    intros m Hm. unfold compose in Hm. lia.
Qed.

(** One client can silence all others: the server publishes a message of type 0x05 with
    fewer than three bytes of payload on the common subject, and the subscription task of
    every connection that receives it panics, after which that client is sent nothing more
    from its subject. *)
Theorem nats_short_message_silences K st c payload :
  length payload < 3 ->
  path (handle_binary_message K st c (message_code Nats :: payload))
    [answered NatsClient true;
     answered (NatsPublish (nats_subject (settings st)) payload) (Ok tt)] (Done (c, None)) /\
  forall c' turns, payload ∈ (turns ≫= turn_messages) -> handle_nats_subscription turns c' = Panic.
Proof.
  intros Hl. split.
  - unfold handle_binary_message. change (from_u8 (message_code Nats)) with (Some Nats).
    apply path_keep. exists (Done None). split; [|done].
    unfold handle_nats_publish, nats_message_new.
    rewrite (proj2 (Z.ltb_ge _ _)) by (unfold MAX_NANOTDF_SIZE; lia).
    simpl. exists true. split; [done|]. by exists (Ok tt).
  - intros c0 turns H. apply subscription_short. apply Exists_exists. exists payload.
    split; [by apply list_elem_of_In|done].
Qed.

(** ** Who is let in *)

(** The token of an authorization header was validated with the server's key. *)
Definition token_accepted K (s : ServerSettings) (auth : string) (now : Z)
    (claims : NtdfTokenPayload) : Prop :=
  exists kb key, get_kas_private_key_bytes K = Some kb /\ length kb = 32 /\
    token_key_from_bytes kb = Ok key /\
    validate_ntdf_token auth key (ntdf_expected_audience s) now = Done (Ok claims).

(** A connection is upgraded with claims exactly when its authorization header is an NTDF
    token that validates for the server's key and audience at the time of the request, and
    without claims exactly when the header is absent or of another kind; any other request is
    rejected. *)
Theorem ws_upgrade_exact K s auth tr claims :
  path (ws_handler K s auth) tr (Done (Upgraded claims)) <->
  match auth with
  | Some a =>
    if starts_with "NTDF " a
    then exists now cl, claims = Some cl /\ tr = [answered Now now] /\ token_accepted K s a now cl
    else tr = [] /\ claims = None
  | None => tr = [] /\ claims = None
  end.
Proof.
  unfold ws_handler, token_accepted. destruct auth as [a|]; [|rewrite path_ret; naive_solver].
  destruct (starts_with "NTDF " a); [|rewrite path_ret; naive_solver].
  destruct (get_kas_private_key_bytes K) as [kb|].
  2: { rewrite path_ret. split; [by intros [_ [=]]|]. by intros (? & ? & _ & _ & ? & ? & [=] & _). }
  destruct (Nat.eqb_spec (length kb) 32) as [L|L]; cbn [negb].
  2: { rewrite path_ret. split; [by intros [_ [=]]|].
       by intros (? & ? & _ & _ & ? & ? & [= <-] & ? & _). }
  destruct (token_key_from_bytes kb) as [key|e] eqn:Ek.
  2: { rewrite path_ret. split; [by intros [_ [=]]|].
       intros (? & ? & _ & _ & ? & ? & [= <-] & _ & ? & _). congruence. }
  rewrite path_bind. split.
  - intros (now & t1 & t2 & -> & ->%path_trigger & [-> H]%path_ret).
    destruct (validate_ntdf_token a key _ now) as [[cl|e]|] eqn:Ev; simpl in H; simplify_eq.
    exists now, cl. split_and!; [done|done|]. by exists kb, key.
  - intros (now & cl & -> & -> & kb' & key' & [= <-] & _ & Hk & Hv). rewrite Hk in Ek. simplify_eq.
    exists now, [answered Now now], []. split_and!; [done|by apply path_trigger|].
    apply path_ret. by rewrite Hv.
Qed.

(** With validation enabled, claims come from a token that verifies under the configured key,
    with the algorithms of the key's kind, at the time of the request. *)
Lemma verify_token_sound s token tr claims :
  jwt_validation_disabled s = false -> path (verify_token token s) tr (Ok claims) ->
  exists file pem key algorithms now,
    jwt_public_key_path s = Some file /\ answered (Os (ReadToString file)) (Ok pem) ∈ tr /\
    (jwt_from_rsa_pem pem = Ok key \/ jwt_from_ec_pem pem = Ok key) /\
    answered Now now ∈ tr /\ jwt_decode_claims now algorithms token key = Ok claims.
Proof.
  intros Hd. unfold verify_token. rewrite Hd. intros H.
  apply path_bind_ok in H as (file & ? & ? & -> & [-> Hf%ok_or_Ok]%path_ret & H).
  apply path_bind_ok in H as (pem & ? & ? & -> & Hp%path_map_err & H).
  apply path_trigger in Hp as ->.
  apply path_bind_ok in H as ([key algs] & ? & ? & -> & [-> Hk]%path_ret & H).
  apply path_bind in H as (now & ? & ? & -> & ->%path_trigger & [-> H]%path_ret).
  exists file, pem, key, algs, now. split_and!; [done|set_solver| |set_solver|done].
  repeat case_match; inv_result; eauto.
Qed.

(** ** What an event reads and writes *)

Context {W : Type} `{!World CachedEntry W, !WorldLaws CachedEntry W}.
Implicit Types (w : W) (st : ServerState).

(** The payload is an event that caches [data] under [id] for [ttl] seconds. *)
Definition caches (payload id data : bytes) (ttl : Z) : Prop :=
  (0 < ttl)%Z /\ exists action t,
    root_event payload = Ok {| event_action := action; event_data := CacheEventData (Some t) |} /\
    action <> Action_store /\ ce_target_id t = Some id /\ ce_target_payload t = Some data /\
    ce_ttl t = ttl.

(** The payload is an event that asks for [id]. *)
Definition asks_for (payload id : bytes) : Prop :=
  exists action t,
    root_event payload = Ok {| event_action := action; event_data := UserEventData (Some t) |} /\
    ue_target_id t = Some id.

Lemma cache_event_writes st payload id data ttl w m w1 :
  caches payload id data ttl -> run (handle_event st payload) w = (Done (Some m), w1) ->
  m = event_message data /\
  view w1 = <[redis_key id := Entry (RStr (redis_key data)) (Some (clock w1 + ttl)%Z)]> (view w).
Proof.
  intros (Httl & action & t & He & Ha & Hid & Hdata & <-) H. revert H.
  unfold handle_event. rewrite He. unfold return_if, store_event.
  destruct (_ <? _)%Z; [done|]. cbn [pure hbind bind map_err event_action event_data].
  rewrite bool_decide_false by done. unfold cache_event. rewrite Hid, Hdata.
  rewrite (proj2 (Z.ltb_lt _ _)) by done. cbn -[exec redis_key].
  destruct (exec Connect w) as [[u|e] w0] eqn:Ec; [|done]. cbn -[exec redis_key].
  destruct (exec (Redis _) w0) as [[u'|e] w2] eqn:Er; [|done]. cbn. intros [= <- <-].
  split; [done|]. apply redis_ok in Er. simpl in Er. rewrite Er.
  by rewrite (view_frame _ Connect w _ w0 eq_refl Ec).
Qed.

Lemma user_event_reads st payload id w m w1 :
  asks_for payload id -> run (handle_event st payload) w = (Done (Some m), w1) ->
  exists v, m = event_message (as_bytes v) /\ live (clock w1) (view w) (redis_key id) = Some (RStr v).
Proof.
  intros (action & t & He & Hid) H. revert H.
  unfold handle_event. rewrite He. unfold return_if, store_event.
  destruct (_ <? _)%Z; [done|]. unfold data_as_cache_event.
  cbn [pure hbind bind map_err event_action event_data].
  match goal with |- context [if ?b then ?x else ?x] =>
    replace (if b then x else x) with x by (by destruct b) end.
  unfold user_event. rewrite Hid. cbn -[exec redis_key as_bytes].
  destruct (exec Connect w) as [[u|e] w0] eqn:Ec; [|done]. cbn -[exec redis_key as_bytes].
  destruct (exec (Redis _) w0) as [[v|e] w2] eqn:Er; [|done]. cbn -[as_bytes].
  apply redis_ok in Er as [_ Hr]. rewrite (view_frame _ Connect w _ w0 eq_refl Ec) in Hr.
  destruct (live (clock w2) (view w) (redis_key id)) as [[s|]|] eqn:El; [|done|].
  - subst v. cbn -[as_bytes]. destruct (as_bytes s) eqn:Es; cbn; [done|]. intros [= <- <-].
    exists s. by rewrite El, Es.
  - by subst v.
Qed.

(** An object cached by an event is answered, byte for byte, to an event that asks for
    its id, and only while its time to live lasts. *)
Theorem event_cache_roundtrip st p1 p2 id data ttl w m1 w1 w1' m2 w2 :
  caches p1 id data ttl -> asks_for p2 id ->
  run (handle_event st p1) w = (Done (Some m1), w1) -> view w1' = view w1 ->
  run (handle_event st p2) w1' = (Done (Some m2), w2) ->
  m1 = event_message data /\ m2 = event_message data /\ (clock w2 < clock w1 + ttl)%Z.
Proof.
  intros Hc Ha [-> Hv]%(cache_event_writes _ _ _ _ _ _ _ _ Hc) Hv'
    (v & -> & Hl)%(user_event_reads _ _ _ _ _ _ Ha).
  rewrite Hv', Hv, live_insert in Hl. unfold alive in Hl. simpl in Hl.
  destruct (Z.ltb_spec (clock w2) (clock w1 + ttl)); simplify_eq. split_and!; try done.
  unfold redis_key, as_bytes. by rewrite list_byte_of_string_of_list_byte.
Qed.

(** Events share the keyspace of the playback sessions: a client of the WebSocket that
    caches a session record under the key of a session id makes the session manager answer
    that record, with whatever user, asset and protocol it names. *)
Theorem event_forges_session {json : SessionJson} st payload id j s ttl w m w1 w1' r w2 :
  caches payload (as_bytes (session_key id)) (as_bytes j) ttl -> from_str j = Ok s ->
  run (handle_event st payload) w = (Done (Some m), w1) -> view w1' = view w1 ->
  run (get_session id) w1' = (Ok r, w2) -> (clock w2 < clock w1 + ttl)%Z -> r = Some s.
Proof.
  intros Hc Hj [_ Hv]%(cache_event_writes _ _ _ _ _ _ _ _ Hc) Hv'
    (Ht & _ & j' & Hr & Hj')%get_session_ok Hlt.
  unfold reads in Hr. rewrite Hv', Hv in Hr. unfold redis_key, as_bytes in Hr.
  rewrite !string_of_list_byte_of_string, live_insert in Hr. unfold alive in Hr. simpl in Hr.
  rewrite (proj2 (Z.ltb_lt _ _)) in Hr by done. subst j'. destruct Hj' as (s' & Hs' & ->). congruence.
Qed.
End Events.

(** ** In the simulated world *)

Definition ws_sim : sim CachedEntry := media_world TDF3 abac_header.

Lemma nats_subscription_delivers_witness :
  handle_nats_subscription [no_client; delivered [[x4c; x31; x4c; x01]]; delivered [[x00; x01; x02]]]
    new_connection =
  Done (with_outgoing new_connection [Binary [x05; x4c; x31; x4c; x01]; Binary [x06; x00; x01; x02]]).
Proof.
  apply (nats_subscription_delivers
    [no_client; delivered [[x4c; x31; x4c; x01]]; delivered [[x00; x01; x02]]] new_connection eq_refl).
  repeat constructor.
Defined.

Lemma nats_short_message_silences_witness :
  handle_nats_subscription [delivered [[x4c; x31; x4c; x01]; []]; delivered [[x00; x01; x02]]]
    new_connection = Panic.
Proof.
  apply (nats_short_message_silences sample_keys sample_server new_connection [] (Nat.lt_0_succ 2)).
  set_solver.
Defined.

(** An object is cached and asked for. *)
Definition cache_message : bytes := [x02; x01; x41; x68; x69].
Definition cached_world : sim CachedEntry := snd (run (handle_event sample_server cache_message) ws_sim).

Lemma event_cache_roundtrip_witness :
  event_message [x68; x69] = event_message [x68; x69] /\
  event_message [x68; x69] = event_message [x68; x69] /\
  (clock (snd (run (handle_event sample_server [x01; x41]) cached_world)) < clock cached_world + 60)%Z.
Proof.
  apply (event_cache_roundtrip sample_server cache_message [x01; x41] [x41] [x68; x69] 60 ws_sim
    (event_message [x68; x69]) cached_world cached_world (event_message [x68; x69])).
  - split; [reflexivity|]. exists 5%Z. eexists. split_and!; [reflexivity|discriminate|reflexivity..].
  - exists 1%Z. eexists. split; reflexivity.
  - vm_compute. reflexivity.
  - reflexivity.
  - vm_compute. reflexivity.
Defined.

(** A session of another user, written by an event of the WebSocket. *)
Definition forged : PlaybackSession := sample_session "f" "mallory".
Definition forged_json : string := tree_text (session_tree forged).
Definition forge_message : bytes :=
  x02 :: z2b (Z.of_nat (length (as_bytes (session_key "f")))) ::
  as_bytes (session_key "f") ++ as_bytes forged_json.
Definition forged_world : sim CachedEntry := snd (run (handle_event sample_server forge_message) ws_sim).

Lemma event_forges_session_witness : Some forged = Some forged.
Proof.
  apply (event_forges_session sample_server forge_message "f" forged_json forged 60 ws_sim
    (event_message (as_bytes forged_json)) forged_world forged_world (Some forged)
    (snd (run (get_session "f") forged_world))).
  - split; [reflexivity|]. exists 5%Z. eexists. split_and!; [reflexivity|discriminate|reflexivity..].
  - vm_compute. reflexivity.
  - vm_compute. reflexivity.
  - reflexivity.
  - vm_compute. reflexivity.
  - vm_compute. reflexivity.
Defined.
