(* ===== verification/SchemaEvents.v ===== *)
(** * Events and metadata read with the generated code

    The reading of events and ratings that the WebSocket server leaves to the schemas
    ([root_event] and [root_as_metadata] of its crates), done with the generated accessors,
    and an implementation of the flatbuffers crate on trees. *)
From S2P Require Import Prelude FlatBuffers EntitySchema EventSchema MetadataSchema FlatBuffersProps.
From S2P Require NtdfToken MediaApi WebSocket WebSocketSample.
From stdpp Require Import list.

#[local] Open Scope string_scope.
#[local] Open Scope Z_scope.
#[local] Open Scope list_scope.
#[local] Open Scope rust_scope.

Section Reading.
Context {crate : FlatBuffers}.

(** Answers of accessors as Rust values: a vector of bytes, and a scalar. *)
Definition vector_bytes (v : option (FbVal Table)) : option bytes :=
  match v with Some (Nums l) => Some (z2b <$> l) | _ => None end.
Definition scalar (v : option (FbVal Table)) : Z := match v with Some (Scal z) => z | _ => 0 end.

Definition event_variant (n : string) (t : Table) : option Table :=
  v ← snd <$> list_find (fun v => v_name v = n) (variants Event_table); variant_access Event_table v t.

Definition read_user_event (t : Table) : WebSocket.UserEventTable :=
  {| WebSocket.ue_target_id := vector_bytes (access UserEvent_table "target_id" t) |}.
Definition read_cache_event (t : Table) : WebSocket.CacheEventTable :=
  {| WebSocket.ce_target_id := vector_bytes (access CacheEvent_table "target_id" t);
     WebSocket.ce_target_payload := vector_bytes (access CacheEvent_table "target_payload" t);
     WebSocket.ce_ttl := scalar (access CacheEvent_table "ttl" t) |}.
Definition read_route_event (t : Table) : WebSocket.RouteEventTable :=
  {| WebSocket.re_target_id := vector_bytes (access RouteEvent_table "target_id" t) |}.

(** The event as [handle_event] reads it. *)
Definition read_event (t : Table) : WebSocket.Event :=
  {| WebSocket.event_action := scalar (access Event_table "action" t);
     WebSocket.event_data :=
       match scalar (access Event_table "data_type" t) with
       | 0 => WebSocket.NONE
       | 1 => WebSocket.UserEventData (read_user_event <$> event_variant "data_as_user_event" t)
       | 2 => WebSocket.CacheEventData (read_cache_event <$> event_variant "data_as_cache_event" t)
       | 3 => WebSocket.RouteEventData (read_route_event <$> event_variant "data_as_route_event" t)
       | code => WebSocket.UnknownData code
       end |}.

Definition read_rating (t : Table) : WebSocket.FbRating :=
  let level n := scalar (access Rating_table n t) in
  {| WebSocket.fb_violent := level "violent"; WebSocket.fb_sexual := level "sexual";
     WebSocket.fb_profane := level "profane"; WebSocket.fb_substance := level "substance";
     WebSocket.fb_hate := level "hate"; WebSocket.fb_harm := level "harm";
     WebSocket.fb_mature := level "mature"; WebSocket.fb_bully := level "bully" |}.

Definition read_metadata (t : Table) : WebSocket.FbMetadata :=
  {| WebSocket.fb_rating := match access Metadata_table "rating" t with
                            | Some (Tab r) => Some (read_rating r) | _ => None end |}.

(** The crates of the server with the generated code in place of its two parameters. *)
Definition with_schemas `{!MediaApi.MediaCrates, !NtdfToken.TokenCrypto}
    (ws : WebSocket.WsCrates) : WebSocket.WsCrates :=
  {| WebSocket.secret_key_from_bytes := WebSocket.secret_key_from_bytes;
     WebSocket.token_key_from_bytes := WebSocket.token_key_from_bytes;
     WebSocket.to_encoded_point := WebSocket.to_encoded_point;
     WebSocket.hkdf_sha256 := WebSocket.hkdf_sha256;
     WebSocket.error_to_vec := WebSocket.error_to_vec;
     WebSocket.json_error := WebSocket.json_error;
     WebSocket.root_event buf := let? t := root_as_event buf in Ok (read_event t);
     WebSocket.root_as_metadata buf := let? t := root_as_metadata buf in Ok (read_metadata t);
     WebSocket.bs58_encode := WebSocket.bs58_encode;
     WebSocket.JwtKey := WebSocket.JwtKey;
     WebSocket.jwt_from_rsa_pem := WebSocket.jwt_from_rsa_pem;
     WebSocket.jwt_from_ec_pem := WebSocket.jwt_from_ec_pem;
     WebSocket.jwt_decode_claims := WebSocket.jwt_decode_claims;
     WebSocket.jwt_insecure_claims := WebSocket.jwt_insecure_claims |}.

(** ** A client that writes events and ratings *)

(** The default arguments with the given ones in their place. *)
Definition args_of (b : BuilderImpl) (l : list (string * option (FbVal Table))) : Args :=
  fun n => match find_key n l with Some v => v | None => default_args b n end.

Definition byte_vector (o : option bytes) : option (FbVal Table) := (fun l => Nums (b2z <$> l)) <$> o.

Definition write_user_event (e : WebSocket.UserEventTable) : Table :=
  create UserEvent_table UserEvent_builder (args_of UserEvent_builder
    [("target_id", byte_vector (WebSocket.ue_target_id e))]).
Definition write_cache_event (e : WebSocket.CacheEventTable) : Table :=
  create CacheEvent_table CacheEvent_builder (args_of CacheEvent_builder
    [("target_id", byte_vector (WebSocket.ce_target_id e));
     ("target_payload", byte_vector (WebSocket.ce_target_payload e));
     ("ttl", Some (Scal (WebSocket.ce_ttl e)))]).
Definition write_route_event (e : WebSocket.RouteEventTable) : Table :=
  create RouteEvent_table RouteEvent_builder (args_of RouteEvent_builder
    [("target_id", byte_vector (WebSocket.re_target_id e))]).

(** The tag and the table of an event's data. *)
Definition write_data (d : WebSocket.EventData) : Z * option Table :=
  match d with
  | WebSocket.NONE => (0, None)
  | WebSocket.UserEventData t => (1, write_user_event <$> t)
  | WebSocket.CacheEventData t => (2, write_cache_event <$> t)
  | WebSocket.RouteEventData t => (3, write_route_event <$> t)
  | WebSocket.UnknownData code => (code, None)
  end.

Definition write_event (e : WebSocket.Event) : Table :=
  let '(tag, data) := write_data (WebSocket.event_data e) in
  create Event_table Event_builder (args_of Event_builder
    [("action", Some (Scal (WebSocket.event_action e))); ("data_type", Some (Scal tag));
     ("data", Tab <$> data)]).

Definition write_rating (r : WebSocket.FbRating) : Table :=
  create Rating_table Rating_builder (args_of Rating_builder
    [("violent", Some (Scal (WebSocket.fb_violent r))); ("sexual", Some (Scal (WebSocket.fb_sexual r)));
     ("profane", Some (Scal (WebSocket.fb_profane r)));
     ("substance", Some (Scal (WebSocket.fb_substance r))); ("hate", Some (Scal (WebSocket.fb_hate r)));
     ("harm", Some (Scal (WebSocket.fb_harm r))); ("mature", Some (Scal (WebSocket.fb_mature r)));
     ("bully", Some (Scal (WebSocket.fb_bully r)))]).

Definition write_metadata (m : WebSocket.FbMetadata) : Table :=
  create Metadata_table Metadata_builder (args_of Metadata_builder
    [("rating", (fun r => Tab (write_rating r)) <$> WebSocket.fb_rating m)]).

Context {laws : FlatBuffersLaws}.

Lemma vector_bytes_of o : vector_bytes (byte_vector o) = o.
Proof.
  destruct o as [l|]; [|done]. cbn. f_equal. rewrite <- list_fmap_compose. etrans; [|apply list_fmap_id].
  apply list_fmap_ext. intros i x _. apply z2b_b2z.
Qed.

Lemma scalar_default ty z d : ty <> TF32 -> (if scalar_eqb ty z d then d else z) = z.
Proof. intros Hty. destruct ty; cbn; try done; by destruct (Z.eqb_spec z d). Qed.

(** [created_tables_read_back] for the accessor of a concrete table. *)
Lemma read_back i b args n g :
  (i, b) ∈ all_tables -> args_ok i args -> getter_named n (getters i) = Some g -> g_type g <> TF32 ->
  match g_default g with Some _ => exists z, args n = Some (Scal z) | None => True end ->
  access i n (create i b args) = args n.
Proof.
  intros Hib Hargs [Hg <-]%getter_named_in Hty Hz. rewrite created_access by done.
  destruct (g_default g) as [d|]; [|done]. destruct Hz as [z ->]. by rewrite scalar_default.
Qed.

(** Arguments of a concrete table have their types. *)
Ltac solve_args :=
  intros g Hg%list_elem_of_In; cbn in Hg;
  repeat match type of Hg with _ \/ _ => destruct Hg as [<-|Hg] end; try done; cbn; try (by eexists);
  intros v; unfold byte_vector; try (by intros (? & ? & ->)%fmap_Some).

(** The accessor of a table that was just created. *)
Ltac read_field :=
  erewrite read_back;
  [|by apply list_elem_of_In; vm_compute; tauto|solve_args|reflexivity|done|cbn; try done; by eexists].

Lemma read_write_user_event e : read_user_event (write_user_event e) = e.
Proof.
  destruct e as [id]. unfold read_user_event, write_user_event. read_field.
  cbn [args_of find_key bool_decide]. f_equal. apply vector_bytes_of.
Qed.

Lemma read_write_route_event e : read_route_event (write_route_event e) = e.
Proof.
  destruct e as [id]. unfold read_route_event, write_route_event. read_field. f_equal. apply vector_bytes_of.
Qed.

Lemma read_write_cache_event e : read_cache_event (write_cache_event e) = e.
Proof.
  destruct e as [id payload ttl]. unfold read_cache_event, write_cache_event. do 3 read_field.
  f_equal; apply vector_bytes_of.
Qed.

Lemma read_write_rating r : read_rating (write_rating r) = r.
Proof. destruct r. unfold read_rating, write_rating. cbv zeta. do 8 read_field. done. Qed.

Lemma read_write_metadata m : read_metadata (write_metadata m) = m.
Proof.
  destruct m as [r]. unfold read_metadata, write_metadata. read_field. f_equal.
  destruct r as [r|]; [|done]. rewrite <- (read_write_rating r) at 2. done.
Qed.

(** The events that the schema can carry: an unknown tag is not one of the known ones. *)
Definition writable (e : WebSocket.Event) : Prop :=
  match WebSocket.event_data e with WebSocket.UnknownData code => code ∉ [0; 1; 2; 3] | _ => True end.

Lemma event_args a tag data :
  args_ok Event_table (args_of Event_builder
    [("action", Some (Scal a)); ("data_type", Some (Scal tag)); ("data", Tab <$> data)]).
Proof. solve_args. Qed.

Lemma event_in : (Event_table, Event_builder) ∈ all_tables.
Proof. apply list_elem_of_In. vm_compute. tauto. Qed.

(** The accessors of a written event. *)
Lemma written_event_fields a tag data :
  let t := create Event_table Event_builder (args_of Event_builder
    [("action", Some (Scal a)); ("data_type", Some (Scal tag)); ("data", Tab <$> data)]) in
  access Event_table "action" t = Some (Scal a) /\
  access Event_table "data_type" t = Some (Scal tag) /\
  access Event_table "data" t = Tab <$> data.
Proof.
  cbv zeta. pose proof (event_args a tag data) as Ha. pose proof event_in as Hi.
  split_and!; (erewrite read_back; [|done|done|reflexivity|done|cbn; try done; by eexists]); done.
Qed.

Lemma read_write_event e : writable e -> read_event (write_event e) = e.
Proof.
  destruct e as [a d]. unfold writable, write_event. cbn [WebSocket.event_data WebSocket.event_action].
  intros Hw. destruct (write_data d) as [tag data] eqn:Hd.
  destruct (written_event_fields a tag data) as (H1 & H2 & H3). revert H1 H2 H3.
  generalize (create Event_table Event_builder (args_of Event_builder
    [("action", Some (Scal a)); ("data_type", Some (Scal tag)); ("data", Tab <$> data)])).
  intros t H1 H2 H3. unfold read_event. rewrite H1, H2. cbn [scalar].
  assert (forall n k tbl, snd <$> list_find (fun v => v_name v = n) (variants Event_table) =
    Some (Variant n "data_type" k "data" tbl) -> tag = k -> event_variant n t = data) as Hv.
  { intros n k tbl Hn ->. unfold event_variant. rewrite Hn. cbn [mbind option_bind].
    unfold variant_access. cbn [v_tag_getter v_data_getter v_tag]. rewrite H2, H3, Z.eqb_refl. by destruct data. }
  destruct d as [|o|o|o|code]; injection Hd as <- <-.
  - done.
  - erewrite Hv by done. destruct o; [|done]. cbn [fmap option_fmap option_map].
    by rewrite read_write_user_event.
  - erewrite Hv by done. destruct o; [|done]. cbn [fmap option_fmap option_map].
    by rewrite read_write_cache_event.
  - erewrite Hv by done. destruct o; [|done]. cbn [fmap option_fmap option_map].
    by rewrite read_write_route_event.
  - destruct (decide (code = 0)) as [->|]; [by destruct Hw; apply list_elem_of_In; left|].
    destruct code as [|[[[]|[]|]|[[]|[]|]|]|]; try done; destruct Hw; apply list_elem_of_In; cbn; auto.
Qed.

(** C28: The server reads the events and ratings that a client wrote.  With the generated code
    in place of the two parameters of the WebSocket server, a buffer that verifies as the
    table written for an event, of any kind and with any fields, is read as that event, and
    likewise the metadata with its rating. *)
Theorem written_events_read `{!MediaApi.MediaCrates, !NtdfToken.TokenCrypto}
    (ws : WebSocket.WsCrates) :
  (forall e buf, writable e -> root_as_event buf = Ok (write_event e) ->
    WebSocket.root_event (WsCrates := with_schemas ws) buf = Ok e) /\
  (forall m buf, root_as_metadata buf = Ok (write_metadata m) ->
    WebSocket.root_as_metadata (WsCrates := with_schemas ws) buf = Ok m).
Proof.
  split.
  - intros e buf He Hb. cbn. rewrite Hb. cbn. by rewrite read_write_event.
  - intros m buf Hb. cbn. rewrite Hb. cbn. by rewrite read_write_metadata.
Qed.
End Reading.

(** ** The crate on trees

    A table is the list of its fields, and [root] the table that a buffer is taken for. *)
Inductive tree := Node (fields : list (Z * FbVal tree)).

Fixpoint field_at (s : Z) (l : list (Z * FbVal tree)) : option (FbVal tree) :=
  match l with
  | [] => None
  | (s', v) :: l => if decide (s = s') then Some v else field_at s l
  end.
Definition tree_get (s : Z) (t : tree) : option (FbVal tree) := match t with Node l => field_at s l end.

Definition tree_valid (ty : FbType) (s : Z) (t : tree) : Prop :=
  match tree_get s t with Some v => has_type ty v | None => True end.
#[local] Instance tree_valid_dec ty s t : Decision (tree_valid ty s t).
Proof. unfold tree_valid. destruct (tree_get s t); apply _. Defined.

#[local] Instance tree_crate (root : tree) : FlatBuffers := {|
  Table := tree;
  TableBuilder := list (Z * FbVal tree);
  start_table := [];
  push_slot ty s z d b := if scalar_eqb ty z d then b else (s, Scal z) :: b;
  push_slot_always s v b := (s, v) :: b;
  end_table := Node;
  fb_get _ := tree_get;
  visit_field ty s required nested t :=
    bool_decide (tree_valid ty s t) &&
    match tree_get s t with None => negb required | Some (Tab t') => nested t' | Some _ => true end;
  visit_union e tag s required arms t :=
    match tree_get tag t, tree_get s t with
    | None, None => negb required
    | Some (Scal z), Some v =>
      match arms z, v with
      | Some nested, Tab t' => nested t'
      | Some _, _ => false
      | None, _ => true
      end
    | _, _ => false
    end;
  fb_root verify _ := if verify root then Ok root else Err "invalid flatbuffer";
  valid_slot := tree_valid;
|}.

#[local] Instance tree_crate_laws root : FlatBuffersLaws (H := tree_crate root).
Proof.
  split.
  - done.
  - done.
  - intros ty ty' s s' z d b _. cbn. destruct (scalar_eqb ty' z d); cbn.
    + by rewrite decide_False by naive_solver.
    + destruct (decide (s = s')); [by rewrite decide_True|by rewrite decide_False by naive_solver].
  - intros ty s req nested t. cbn. intros [Hv%bool_decide_eq_true H]%andb_true_iff. split; [done|].
    intros t' Ht. by rewrite Ht in H.
  - intros e tag s req arms t. cbn. unfold tree_valid.
    destruct (tree_get tag t) as [[z|?|?|?]|], (tree_get s t) as [v|]; try done.
    intros H. split; [done|]. intros z' nested [= <-] Ha. rewrite Ha in H.
    destruct v; try done. split; [done|]. by intros t' [= <-].
  - intros ty s t v Hv Hg. cbn in Hv, Hg. unfold tree_valid in Hv. by rewrite Hg in Hv.
  - intros verify buf t. cbn. destruct (verify root) eqn:Hv; [|done]. by intros [= <-].
Qed.

(** ** Concrete runs *)

Definition sample_cache_event : WebSocket.Event :=
  {| WebSocket.event_action := 5;
     WebSocket.event_data := WebSocket.CacheEventData (Some
       {| WebSocket.ce_target_id := Some [x01; xff]; WebSocket.ce_target_payload := Some [x02];
          WebSocket.ce_ttl := 60 |}) |}.

Definition sample_root : tree := write_event (crate := tree_crate (Node [])) sample_cache_event.

Definition sample_rating_metadata : WebSocket.FbMetadata :=
  {| WebSocket.fb_rating := Some {| WebSocket.fb_violent := 2; WebSocket.fb_sexual := 0;
       WebSocket.fb_profane := 1; WebSocket.fb_substance := 0; WebSocket.fb_hate := 0;
       WebSocket.fb_harm := 0; WebSocket.fb_mature := 4; WebSocket.fb_bully := 0 |} |}.

Definition cache_variant : VariantGetter := Variant "data_as_cache_event" "data_type" 2 "data" "CacheEvent".

Definition sample_cache_table : tree :=
  default (Node []) (variant_access (crate := tree_crate sample_root) Event_table cache_variant sample_root).

Lemma enumerations_consistent_witness : variant_name FormatType 30 = Some "pdf".
Proof.
  apply (enumerations_consistent FormatType).
  - apply list_elem_of_In. vm_compute. tauto.
  - apply list_elem_of_In. vm_compute. tauto.
Defined.

Lemma created_tables_read_back_witness :
  access (crate := tree_crate sample_root) Event_table "action" sample_root = Some (Scal 5).
Proof.
  exact (created_tables_read_back (crate := tree_crate sample_root) Event_table Event_builder
    (args_of (crate := tree_crate sample_root) Event_builder
      [("action", Some (Scal 5)); ("data_type", Some (Scal 2)); ("data", Tab <$> Some sample_cache_table)])
    (Get "action" 4 (TEnum "Action") (Some 0)) event_in
    (event_args (crate := tree_crate sample_root) 5 2 (Some sample_cache_table))
    (list_elem_of_here _ _)).
Defined.

Lemma verified_buffers_safe_witness :
  exists i, find_table "CacheEvent" (event_tables.*1) = Some i /\
    forall g, g ∈ getters i -> readable (crate := tree_crate sample_root) i g sample_cache_table ->
      tree_valid (g_type g) (g_slot g) sample_cache_table.
Proof.
  destruct (verified_buffers_safe (crate := tree_crate sample_root) (event_tables.*1) "Event" []
    sample_root "CacheEvent" sample_cache_table) as (i & Hi & H).
  - apply list_elem_of_In. right. left. reflexivity.
  - vm_compute. reflexivity.
  - eapply rtc_l; [|apply rtc_refl].
    apply (leads_variant (crate := tree_crate sample_root) (event_tables.*1) "Event" sample_root
      Event_table cache_variant sample_cache_table); [reflexivity| |reflexivity].
    apply list_elem_of_In. right. left. reflexivity.
  - exists i. split; [exact Hi|]. intros g Hg Hr. apply (H g Hg Hr).
Defined.

(** An event with an unknown tag is verified whatever its value is. *)
Lemma unknown_variant_unverified :
  let t := Node [(10, Scal 9); (12, Scal 0)] in
  root_as (crate := tree_crate t) (event_tables.*1) "Event" [] = Ok t /\ ~ tree_valid TAnyTable 12 t.
Proof. split; [reflexivity|]. intros H. discriminate H. Qed.

Lemma written_events_read_witness :
  WebSocket.root_event (WsCrates := with_schemas (crate := tree_crate sample_root)
    WebSocketSample.sample_ws) [] = Ok sample_cache_event.
Proof.
  apply (written_events_read (crate := tree_crate sample_root) WebSocketSample.sample_ws).
  - exact I.
  - vm_compute. reflexivity.
Defined.
