(* ===== verification/ServerConfig.v ===== *)
(** * Configuration and start-up (src/src/bin/main.rs)

    The settings read from the environment, their validation, the keys, and the parts of
    [main] that decide what the handlers may do.  Files and variables are events; the key
    crates are the class [KeyCrates]. *)
From Stdlib Require Import DecimalString.
From S2P Require Import NtdfToken.
From S2P Require Import Prelude RustStr Services SimWorld.
From S2P Require Import NanoTdf SessionManager SessionCodec Crypto Chain CryptoSample.
From S2P Require Import MediaMetrics MediaApi MediaSample MediaApiProps HttpRewrap CborProtocol.
From S2P Require Import WebSocket WebSocketSample.

(** ** Parsing of the standard library *)

Definition parse_bool (s : string) : option bool :=
  if bool_decide (s = "true"%string) then Some true
  else if bool_decide (s = "false"%string) then Some false else None.

(** [Path::join] of a relative file name. *)
Definition join (dir : bytes) (file : string) : bytes :=
  match List.last dir x2f with
  | x2f => dir ++ as_bytes file
  | _ => dir ++ x2f :: as_bytes file
  end.

(** ** Settings *)

Definition env_var (name : string) : io (option string) := trigger (Os (EnvVar name)).
Definition env_or (name fallback : string) : io string :=
  let* v := env_var name in Ret (default fallback v).

(** A variable, or else a file of the working directory, whose path must be Unicode. *)
Definition env_or_file (name : string) (current_dir : bytes) (file : string) :
    handler string string :=
  let+ v := perform (env_var name) in
  match v with
  | Some s => pure (Ok s)
  | None => match from_utf8 (join current_dir file) with
            | Some s => pure (Ok s)
            | None => Ret Panic
            end
  end.

Definition load_config : handler ServerSettings string :=
  let+ current_dir := call (trigger (Os CurrentDir)) in
  let+ port_text := perform (env_or "PORT" "8080") in
  let+ port := pure (ok_or "invalid digit found in string"%string (parse_u16 port_text)) in
  let+ tls_var := perform (env_var "TLS_CERT_PATH") in
  let+ cert := env_or_file "TLS_CERT_PATH" current_dir "fullchain.pem" in
  let+ key := env_or_file "TLS_KEY_PATH" current_dir "privkey.pem" in
  let+ kas := env_or_file "KAS_KEY_PATH" current_dir "recipient_private_key.pem" in
  let+ timing := perform (env_or "ENABLE_TIMING_LOGS" "false") in
  let+ nats := perform (env_or "NATS_URL" "nats://localhost:4222") in
  let+ subject := perform (env_or "NATS_SUBJECT" "nanotdf.messages") in
  let+ redis := perform (env_or "REDIS_URL" "redis://localhost:6379") in
  let+ jwt := perform (env_or "JWT_VALIDATION_DISABLED" "true") in
  let+ jwt_key := perform (env_var "JWT_PUBLIC_KEY_PATH") in
  let+ bucket := perform (env_or "S3_BUCKET" "default-bucket") in
  let+ chain := perform (env_var "CHAIN_RPC_URL") in
  let+ audience := perform (env_or "NTDF_EXPECTED_AUDIENCE" "https://platform.arkavo.net") in
  pure (Ok {| port := port; tls_enabled := bool_decide (is_Some tls_var); tls_cert_path := cert;
              tls_key_path := key; kas_key_path := kas;
              enable_timing_logs := default false (parse_bool timing); nats_url := nats;
              nats_subject := subject; redis_url := redis;
              jwt_validation_disabled := default true (parse_bool jwt);
              jwt_public_key_path := jwt_key; s3_bucket := bucket; chain_rpc_url := chain;
              ntdf_expected_audience := audience |}).

Definition exists_file (path : string) : io bool := trigger (Os (PathExists path)).

(** [if b { return Err(e.into()); }] *)
Definition refuse_if (b : bool) (e : string) : io (result unit string) :=
  Ret (if b then Err e else Ok tt).

Definition require_file (path e : string) : io (result unit string) :=
  let* found := exists_file path in refuse_if (negb found) e.

Definition validate_config (s : ServerSettings) : io (result unit string) :=
  let*? _ := refuse_if (port s =? 0)%Z "PORT must be greater than 0" in
  let*? _ :=
    if tls_enabled s then
      let*? _ := refuse_if (bool_decide (tls_cert_path s = ""%string))
        "TLS_CERT_PATH must be set when TLS is enabled" in
      let*? _ := refuse_if (bool_decide (tls_key_path s = ""%string))
        "TLS_KEY_PATH must be set when TLS is enabled" in
      let*? _ := require_file (tls_cert_path s)
        ("TLS certificate file not found: " +:+ tls_cert_path s) in
      require_file (tls_key_path s) ("TLS key file not found: " +:+ tls_key_path s)
    else Ret (Ok tt) in
  let*? _ := refuse_if (bool_decide (kas_key_path s = ""%string)) "KAS_KEY_PATH must be set" in
  let*? _ := require_file (kas_key_path s) ("KAS private key file not found: " +:+ kas_key_path s) in
  let*? _ := refuse_if (negb (starts_with "nats://" (nats_url s)) && negb (starts_with "tls://" (nats_url s)))
    ("NATS_URL must start with 'nats://' or 'tls://': " +:+ nats_url s) in
  let*? _ := refuse_if (bool_decide (nats_subject s = ""%string)) "NATS_SUBJECT must not be empty" in
  let*? _ := refuse_if (negb (starts_with "redis://" (redis_url s)) &&
                        negb (starts_with "rediss://" (redis_url s)))
    ("REDIS_URL must start with 'redis://' or 'rediss://': " +:+ redis_url s) in
  let*? _ := refuse_if (negb (jwt_validation_disabled s) && bool_decide (jwt_public_key_path s = None))
    "JWT_PUBLIC_KEY_PATH must be set when JWT validation is enabled" in
  let*? _ :=
    match jwt_public_key_path s with
    | Some path => require_file path ("JWT public key file not found: " +:+ path)
    | None => Ret (Ok tt)
    end in
  let*? _ := refuse_if (bool_decide (s3_bucket s = ""%string)) "S3_BUCKET must not be empty" in
  match chain_rpc_url s with
  | Some url =>
    refuse_if (negb (starts_with "ws://" url) && negb (starts_with "wss://" url) &&
               negb (starts_with "http://" url) && negb (starts_with "https://" url))
      ("CHAIN_RPC_URL must be a valid WebSocket or HTTP URL: " +:+ url)
  | None => Ret (Ok tt)
  end.

Definition validate_media_config (max_concurrent_streams : Z) (media_metrics_subject : string)
    (enable_analytics : bool) : result unit string :=
  check (if (max_concurrent_streams =? 0)%Z then
           Err "MAX_CONCURRENT_STREAMS must be greater than 0"%string else Ok tt) ;;
  check (if (100 <? max_concurrent_streams)%Z then
           Err "MAX_CONCURRENT_STREAMS must not exceed 100 (current: {})"%string else Ok tt) ;;
  if enable_analytics && bool_decide (media_metrics_subject = ""%string) then
    Err "MEDIA_METRICS_SUBJECT must not be empty when ENABLE_MEDIA_ANALYTICS=true"%string
  else Ok tt.

(** ** Parts of [main] *)

(** The session manager and the metrics of the media API. *)
Definition media_components : io (result (SessionManager * MediaMetrics) string) :=
  let* streams := env_var "MAX_CONCURRENT_STREAMS" in
  let max_concurrent_streams := streams ≫= parse_u32 in
  let session_manager := new_manager max_concurrent_streams in
  let* analytics := env_or "ENABLE_MEDIA_ANALYTICS" "true" in
  let enable_media_analytics := default true (parse_bool analytics) in
  let* subject := env_or "MEDIA_METRICS_SUBJECT" "media.metrics" in
  let*? _ := Ret (validate_media_config (default 5%Z max_concurrent_streams) subject
                    enable_media_analytics) in
  let* client := trigger NatsClient in
  Ret (Ok (session_manager, new_metrics client subject enable_media_analytics)).

(** The key the rewrap endpoint verifies tokens with. *)
Definition oauth_public_key : io (option string) :=
  let* path := env_var "OAUTH_PUBLIC_KEY_PATH" in
  match path with
  | Some path => let* r := trigger (Os (ReadToString path)) in Ret (ok r)
  | None => Ret None
  end.

(** ** Keys *)

Class KeyCrates `{!MediaCrates} := {
  pem_parse_tagged : string -> result (string * bytes) string;
  secret_from_sec1_der : bytes -> result MediaApi.SecretKey string;
  secret_public_key : MediaApi.SecretKey -> MediaApi.PublicKey;
  secret_to_bytes : MediaApi.SecretKey -> bytes;
}.

(** [init_kas_keys] sets the static keys, which it finds as [K]. *)
Definition init_kas_keys `{!MediaCrates, !TokenCrypto, !WsCrates, !KeyCrates} (K : option KasKeys)
    (key_path : string) : handler KasKeys string :=
  let+ pem_content := call (trigger (Os (ReadToString key_path))) in
  let+ pem := pure (pem_parse_tagged pem_content) in
  if negb (bool_decide (pem.1 = "EC PRIVATE KEY"%string)) then
    pure (Err "Not an EC private key"%string)
  else
  let+ kas_private_key := pure (secret_from_sec1_der pem.2) in
  let kas_public_key_bytes := to_encoded_point (secret_public_key kas_private_key) in
  if negb (length kas_public_key_bytes =? 33) then Ret Panic
  else
  match K with
  | Some _ => pure (Err "KAS keys already initialized"%string)
  | None => pure (Ok {| kas_public_key := kas_public_key_bytes;
                        WebSocket.kas_private_key := secret_to_bytes kas_private_key |})
  end.

(** ** Properties *)

Section Config.
Implicit Types tr : list (answer (event CachedEntry)).

Lemma path_env_or name fallback tr v :
  path (env_or name fallback) tr v <->
  exists o, tr = [answered (Os (EnvVar name)) o] /\ v = default fallback o.
Proof.
  unfold env_or, env_var. rewrite path_bind. split.
  - intros (o & t1 & t2 & -> & ->%path_trigger & [-> <-]%path_ret). by exists o.
  - intros (o & -> & ->). exists o, [answered (Os (EnvVar name)) o], [].
    split_and!; [done|by apply path_trigger|by apply path_ret].
Qed.

(** Tokens are verified only if the variable [JWT_VALIDATION_DISABLED] is exactly
    [false]: unset, or with any other value ([False], [0], [no]), the server accepts every
    token unverified. *)
Theorem jwt_validation_fails_open tr s :
  path load_config tr (Done (Ok s)) ->
  exists v, answered (Os (EnvVar "JWT_VALIDATION_DISABLED")) v ∈ tr /\
    (jwt_validation_disabled s = false <-> v = Some "false"%string).
Proof.
  unfold load_config. intros H.
  do 11 (apply path_hbind in H as (? & ? & ? & -> & _ & H)).
  apply path_hbind in H as (jwt & t1 & t2 & -> & (? & [= <-] & Hj)%path_perform & H).
  apply path_env_or in Hj as (v & -> & ->). exists v. split; [set_solver|].
  do 4 (apply path_hbind in H as (? & ? & ? & -> & _ & H)). apply path_pure in H as [_ [= ->]].
  simpl. unfold parse_bool. destruct v as [v|]; simpl; [|naive_solver].
  repeat case_bool_decide; naive_solver.
Qed.

(** *** Validation *)

Lemma path_refuse_if {A} b e (k : unit -> io (result A string)) tr a :
  path (bind_ok (refuse_if b e) k) tr (Ok a) <-> b = false /\ path (k tt) tr (Ok a).
Proof.
  rewrite path_bind_ok. unfold refuse_if. split.
  - intros ([] & t1 & t2 & -> & [-> Hb]%path_ret & H). by destruct b.
  - intros [-> H]. exists tt, [], tr. split_and!; [done|by apply path_ret|done].
Qed.

Definition found (path : string) : answer (event CachedEntry) := answered (Os (PathExists path)) true.

Lemma path_require_file f e tr u :
  path (require_file f e) tr (Ok u) <-> tr = [found f].
Proof.
  unfold require_file, exists_file. rewrite path_bind. split.
  - intros (b & t1 & t2 & -> & ->%path_trigger & [-> Hb]%path_ret). by destruct b.
  - intros ->. exists true, [found f], []. split_and!; [done|by apply path_trigger|].
    apply path_ret. by destruct u.
Qed.

Lemma path_require_then {A} f e (k : unit -> io (result A string)) tr a :
  path (bind_ok (require_file f e) k) tr (Ok a) <->
  exists tr', tr = found f :: tr' /\ path (k tt) tr' (Ok a).
Proof.
  rewrite path_bind_ok. split.
  - intros ([] & t1 & t2 & -> & ->%path_require_file & H). by exists t2.
  - intros (tr' & -> & H). exists tt, [found f], tr'. split_and!; [done|by apply path_require_file|done].
Qed.

(** The files a configuration names. *)
Definition required_files (s : ServerSettings) : list string :=
  (if tls_enabled s then [tls_cert_path s; tls_key_path s] else []) ++ [kas_key_path s] ++
  option_list (jwt_public_key_path s).

Definition url_with (prefixes : list string) (url : string) : Prop :=
  Exists (fun p => starts_with p url = true) prefixes.

Definition config_ok (s : ServerSettings) : Prop :=
  port s <> 0%Z /\
  (tls_enabled s = true -> tls_cert_path s <> ""%string /\ tls_key_path s <> ""%string) /\
  kas_key_path s <> ""%string /\ url_with ["nats://"; "tls://"]%string (nats_url s) /\
  nats_subject s <> ""%string /\ url_with ["redis://"; "rediss://"]%string (redis_url s) /\
  (jwt_validation_disabled s = false -> is_Some (jwt_public_key_path s)) /\
  s3_bucket s <> ""%string /\
  forall url, chain_rpc_url s = Some url ->
    url_with ["ws://"; "wss://"; "http://"; "https://"]%string url.

Lemma path_then {A B} (m : io (result A string)) (k : A -> io (result B string)) tr b :
  path (bind_ok m k) tr (Ok b) <->
  exists a t1 t2, tr = t1 ++ t2 /\ path m t1 (Ok a) /\ path (k a) t2 (Ok b).
Proof. apply path_bind_ok. Qed.

Lemma path_tls s tr u :
  path (if tls_enabled s then
      let*? _ := refuse_if (bool_decide (tls_cert_path s = ""%string))
        "TLS_CERT_PATH must be set when TLS is enabled" in
      let*? _ := refuse_if (bool_decide (tls_key_path s = ""%string))
        "TLS_KEY_PATH must be set when TLS is enabled" in
      let*? _ := require_file (tls_cert_path s)
        ("TLS certificate file not found: " +:+ tls_cert_path s) in
      require_file (tls_key_path s) ("TLS key file not found: " +:+ tls_key_path s)
    else Ret (Ok tt)) tr (Ok u) <->
  (tls_enabled s = true -> tls_cert_path s <> ""%string /\ tls_key_path s <> ""%string) /\
  tr = found <$> (if tls_enabled s then [tls_cert_path s; tls_key_path s] else []).
Proof.
  destruct (tls_enabled s).
  - rewrite !path_refuse_if, path_require_then, !bool_decide_eq_false. split.
    + intros (Hc & Hk & tr' & -> & ->%path_require_file). by split.
    + intros [H ->]. destruct (H eq_refl) as [Hc Hk]. split_and!; [done..|].
      eexists. split; [done|]. by apply path_require_file.
  - rewrite path_ret. destruct u. split; [by intros [-> _]|by intros [_ ->]].
Qed.

Lemma url_with_2 a b url :
  negb (starts_with a url) && negb (starts_with b url) = false <-> url_with [a; b] url.
Proof.
  unfold url_with. rewrite !Exists_cons, Exists_nil.
  destruct (starts_with a url), (starts_with b url); naive_solver.
Qed.

Lemma url_with_4 a b c d url :
  negb (starts_with a url) && negb (starts_with b url) && negb (starts_with c url) &&
  negb (starts_with d url) = false <-> url_with [a; b; c; d] url.
Proof.
  unfold url_with. rewrite !Exists_cons, Exists_nil.
  destruct (starts_with a url), (starts_with b url), (starts_with c url), (starts_with d url);
    naive_solver.
Qed.

Lemma path_chain_url s tr u :
  path (match chain_rpc_url s with
        | Some url =>
          refuse_if (negb (starts_with "ws://" url) && negb (starts_with "wss://" url) &&
                     negb (starts_with "http://" url) && negb (starts_with "https://" url))
            ("CHAIN_RPC_URL must be a valid WebSocket or HTTP URL: " +:+ url)
        | None => Ret (Ok tt)
        end) tr (Ok u) <->
  tr = [] /\ forall url, chain_rpc_url s = Some url ->
    url_with ["ws://"; "wss://"; "http://"; "https://"]%string url.
Proof.
  destruct (chain_rpc_url s) as [url|].
  - unfold refuse_if. rewrite path_ret. destruct u. split.
    + intros [-> H]. split; [done|]. intros ? [= <-]. apply url_with_4. by destruct (_ && _).
    + intros [-> H]. split; [done|]. by rewrite (proj2 (url_with_4 _ _ _ _ url) (H url eq_refl)).
  - rewrite path_ret. destruct u. split; [by intros [-> _]|by intros [-> _]].
Qed.

Lemma path_jwt_key s tr u :
  path (match jwt_public_key_path s with
        | Some path => require_file path ("JWT public key file not found: " +:+ path)
        | None => Ret (Ok tt)
        end) tr (Ok u) <-> tr = found <$> option_list (jwt_public_key_path s).
Proof.
  destruct (jwt_public_key_path s) as [f|]; [apply path_require_file|].
  rewrite path_ret. destruct u. split; [by intros [-> _]|by intros ->].
Qed.

Lemma jwt_key_needed s :
  negb (jwt_validation_disabled s) && bool_decide (jwt_public_key_path s = None) = false <->
  (jwt_validation_disabled s = false -> is_Some (jwt_public_key_path s)).
Proof.
  destruct (jwt_validation_disabled s), (jwt_public_key_path s); simpl; naive_solver eauto.
Qed.

(** A configuration is accepted exactly when its addresses are well-formed, its texts not
    empty and its keys present, and every file it names was found. *)
Theorem validate_config_exact s tr :
  path (validate_config s) tr (Ok tt) <-> config_ok s /\ tr = found <$> required_files s.
Proof.
  unfold validate_config, config_ok, required_files. split.
  - intros [H1%Z.eqb_neq H]%path_refuse_if.
    apply path_then in H as (u & ? & ? & -> & [H2 ->]%path_tls & H).
    apply path_refuse_if in H as [H3%bool_decide_eq_false H].
    apply path_require_then in H as (? & -> & H).
    apply path_refuse_if in H as [H4%url_with_2 H].
    apply path_refuse_if in H as [H5%bool_decide_eq_false H].
    apply path_refuse_if in H as [H6%url_with_2 H].
    apply path_refuse_if in H as [H7 H].
    apply path_then in H as (u' & ? & ? & -> & H8%path_jwt_key & H).
    apply path_refuse_if in H as [H9%bool_decide_eq_false H].
    apply path_chain_url in H as [-> H10]. pose proof (proj1 (jwt_key_needed s) H7) as H11. subst.
    split; [by split_and!|]. rewrite !fmap_app, app_nil_r. done.
  - intros [(H1 & H2 & H3 & H4 & H5 & H6 & H7 & H8 & H9) ->].
    apply path_refuse_if. split; [by apply Z.eqb_neq|].
    apply path_then. rewrite fmap_app. eexists tt, _, _. split; [done|].
    split; [by apply path_tls|].
    apply path_refuse_if. split; [by apply bool_decide_eq_false|].
    apply path_require_then. eexists. split; [done|].
    apply path_refuse_if. split; [by apply url_with_2|].
    apply path_refuse_if. split; [by apply bool_decide_eq_false|].
    apply path_refuse_if. split; [by apply url_with_2|].
    apply path_refuse_if. split; [by apply jwt_key_needed|].
    apply path_then. eexists tt, _, []. rewrite app_nil_r. split; [done|].
    split; [by apply path_jwt_key|].
    apply path_refuse_if. split; [by apply bool_decide_eq_false|]. by apply path_chain_url.
Qed.

(** *** The media API *)

Lemma validate_media_config_ok n subject analytics u :
  validate_media_config n subject analytics = Ok u ->
  n <> 0%Z /\ (n <= 100)%Z /\ (analytics = true -> subject <> ""%string).
Proof.
  unfold validate_media_config.
  destruct (Z.eqb_spec n 0); [done|]. destruct (Z.ltb_spec 100 n); [done|]. simpl.
  destruct analytics; simpl; [|done]. by case_bool_decide.
Qed.

(** A server that starts has a limit of between one and a hundred concurrent streams, and
    a subject for its metrics if it publishes them. *)
Theorem media_components_bounds tr sm mm :
  path media_components tr (Ok (sm, mm)) ->
  (1 <= max_concurrent_streams sm <= 100)%Z /\
  (enable_analytics mm = true -> metrics_subject mm <> ""%string).
Proof.
  unfold media_components. intros H.
  apply path_bind in H as (streams & ? & ? & -> & _ & H).
  apply path_bind in H as (analytics & ? & ? & -> & _ & H).
  apply path_bind in H as (subject & ? & ? & -> & _ & H).
  apply path_bind_ok in H as (u & ? & ? & -> & [-> Hv]%path_ret & H).
  apply path_bind in H as (client & ? & ? & -> & _ & H).
  apply path_ret in H as [-> [= <- <-]]. apply validate_media_config_ok in Hv as (H1 & H2 & H3).
  simpl. split; [|done].
  destruct (streams ≫= parse_u32) as [z|] eqn:Es; simpl in *; [|by vm_compute].
  apply bind_Some in Es as (? & _ & [? _]%parse_unsigned_range). lia.
Qed.

(** The signatures of rewrap requests are checked only if the configured key could be
    read: with [OAUTH_PUBLIC_KEY_PATH] naming a file that cannot be read, the server starts
    without a key, and then accepts every token unverified. *)
Theorem oauth_key_fails_open `{!RewrapCrates} file e token claims r :
  jwt_insecure_decode token = Ok claims -> rewrap_request_of_json (request_body claims) = Ok r ->
  path oauth_public_key
    [answered (Os (EnvVar "OAUTH_PUBLIC_KEY_PATH")) (Some file);
     answered (Os (ReadToString file)) (Err e)] None /\
  path (verify_and_decode_jwt token None) [] (Ok r).
Proof.
  intros Hc Hr. split.
  - unfold oauth_public_key. simpl. eexists. split; [done|]. simpl. by eexists.
  - unfold verify_and_decode_jwt. rewrite Hc. simpl. by rewrite Hr.
Qed.
End Config.

(** ** In the simulated world *)

Definition env_world (env : list (string * string)) : sim CachedEntry :=
  set_outside (sample_node [] 10 20 0) (Outside [] env (Ok (as_bytes "/srv")) [] true).

(** A variable that was meant to enable the validation. *)
Lemma jwt_validation_fails_open_witness :
  exists s (tr : list (answer (event CachedEntry))) v, jwt_validation_disabled s = true /\ kas_key_path s = "/srv/recipient_private_key.pem"%string /\
    answered (E := event CachedEntry) (Os (EnvVar "JWT_VALIDATION_DISABLED")) v ∈ tr /\
    (jwt_validation_disabled s = false <-> v = Some "false"%string).
Proof.
  destruct (answer_of load_config (env_world [("JWT_VALIDATION_DISABLED", "False")]%string))
    as [[s|e]|] eqn:E; [|vm_compute in E; discriminate..].
  destruct (answer_path _ _ _ E) as [tr Htr]. exists s, tr.
  destruct (jwt_validation_fails_open tr s Htr) as (v & Hv & Hs). exists v.
  vm_compute in E. injection E as <-. split; [reflexivity|]. split; [reflexivity|]. exact (conj Hv Hs).
Defined.

Lemma media_components_bounds_witness :
  (1 <= max_concurrent_streams (new_manager (Some 7%Z)) <= 100)%Z.
Proof.
  destruct (answer_path media_components (env_world [("MAX_CONCURRENT_STREAMS", "7")]%string)
    (Ok (new_manager (Some 7%Z), new_metrics true "media.metrics" true))) as [tr Htr].
  - vm_compute. reflexivity.
  - apply (media_components_bounds tr _ _ Htr).
Defined.

Definition any_token : RewrapCrates :=
  {| DecodingKey := unit; from_ec_pem := fun _ => Err ""%string;
     jwt_decode := fun _ _ _ => Err ""%string;
     jwt_insecure_decode := fun token => Ok {| request_body := token; jwt_iat := 0; jwt_exp := 0 |};
     rewrap_request_of_json := fun _ =>
       Ok {| ur_client_public_key := ""; requests := []; ur_chain_session_id := None;
             ur_chain_header_hash := None; ur_chain_signature := None; ur_chain_nonce := None;
             ur_chain_algorithm := None |};
     rewrap_dek_simple := fun _ _ _ => Err ""%string |}.

Lemma oauth_key_fails_open_witness :
  path (E := event CachedEntry) oauth_public_key
    [answered (Os (EnvVar "OAUTH_PUBLIC_KEY_PATH")) (Some "/etc/oauth.pem"%string);
     answered (Os (ReadToString "/etc/oauth.pem")) (Err "No such file or directory"%string)] None.
Proof.
  eapply (oauth_key_fails_open (H := any_token) "/etc/oauth.pem" "No such file or directory" "forged");
    reflexivity.
Defined.
