(* ===== verification/RtmpRelay.v ===== *)
(** * The relay of live streams (src/src/modules/rtmp/registry.rs)

    Publishers and subscribers meet in the stream registry, which maps a stream key to the
    sender of a broadcast channel and to what a late joiner needs.  The registry and the
    channels are the state the connections share; a method of the registry holds its lock
    from its first read to its last write, so that it is one step of that state.

    The channels are tokio's: the class [Broadcast], whose documented behaviour
    [BroadcastLaws] gives by an abstraction to [Hub]. *)
From S2P Require Import Prelude Services.

(** ** Frames *)

Inductive FrameType : Set := Video | Audio.

#[export] Instance frame_type_eq_dec : EqDecision FrameType.
Proof. solve_decision. Defined.

Record RelayFrame := {
  frame_type : FrameType;
  frame_timestamp : Z;
  frame_data : bytes;
}.

(** The metadata of rml_rtmp: its custom fields, and the standard fields [F], which the
    code only logs. *)
Record StreamMetadata (F : Type) := {
  standard_fields : F;
  custom_fields : gmap string string;
}.
Arguments standard_fields {F} _.
Arguments custom_fields {F} _.
Arguments Build_StreamMetadata {F} _ _.

(** ** Broadcast channels *)

Inductive RecvError : Set :=
| Lagged (n : nat)
| Closed.

(** [send] ignores its result as the code does; [recv] is [None] while the receiver has
    to wait. *)
Class Broadcast := {
  Channels : Type;
  Sender : Type;
  Receiver : Type;
  channel : nat -> Channels -> Sender * Channels;
  clone_sender : Sender -> Channels -> Channels;
  drop_sender : Sender -> Channels -> Channels;
  send : Sender -> RelayFrame -> Channels -> Channels;
  subscribe_to : Sender -> Channels -> Receiver * Channels;
  recv : Receiver -> Channels -> option (result RelayFrame RecvError * Channels);
}.

(** What tokio documents.  A channel retains the last [capacity] frames; a receiver sees the
    frames sent after its subscription, in order; one that fell further behind than the
    capacity is told how many frames it lost and goes on with the oldest retained one; once
    every sender is gone, a receiver that has seen all frames is told so. *)
Record Chan := {
  capacity : nat;
  handles : nat;
  sent : list RelayFrame;
}.

Record Hub (S R : Type) `{Countable S, Countable R} := {
  chans : gmap S Chan;
  cursors : gmap R (S * nat);
}.
Arguments chans {S R _ _ _ _} _.
Arguments cursors {S R _ _ _ _} _.
Arguments Build_Hub {S R _ _ _ _} _ _.

Section Hub.
Context {S R : Type} `{Countable S, Countable R}.

Definition on_chan (s : S) (f : Chan -> Chan) (h : Hub S R) : Hub S R :=
  {| chans := alter f s (chans h); cursors := cursors h |}.

Definition more_handles (c : Chan) : Chan :=
  {| capacity := capacity c; handles := handles c + 1; sent := sent c |}.
Definition fewer_handles (c : Chan) : Chan :=
  {| capacity := capacity c; handles := handles c - 1; sent := sent c |}.
Definition push (f : RelayFrame) (c : Chan) : Chan :=
  {| capacity := capacity c; handles := handles c; sent := sent c ++ [f] |}.

Definition hub_channel (cap : nat) (s : S) (h h' : Hub S R) : Prop :=
  chans h !! s = None /\
  h' = {| chans := <[s := {| capacity := cap; handles := 1; sent := [] |}]> (chans h);
          cursors := cursors h |}.

Definition hub_subscribe (s : S) (r : R) (h h' : Hub S R) : Prop :=
  cursors h !! r = None /\
  h' = {| chans := chans h;
          cursors := match chans h !! s with
                     | Some c => <[r := (s, length (sent c))]> (cursors h)
                     | None => cursors h
                     end |}.

Definition move_cursor (r : R) (s : S) (n : nat) (h : Hub S R) : Hub S R :=
  {| chans := chans h; cursors := <[r := (s, n)]> (cursors h) |}.

(** A receiver's next answer, and its next position. *)
Definition hub_next (c : Chan) (n : nat) : option (result RelayFrame RecvError * nat) :=
  let oldest := length (sent c) - capacity c in
  if n <? oldest then Some (Err (Lagged (oldest - n)), oldest)
  else
  match sent c !! n with
  | Some f => Some (Ok f, Datatypes.S n)
  | None => if handles c =? 0 then Some (Err Closed, n) else None
  end.

Definition hub_recv (r : R) (h : Hub S R) : option (result RelayFrame RecvError * Hub S R) :=
  match cursors h !! r with
  | Some (s, n) =>
    match chans h !! s with
    | Some c =>
      match hub_next c n with
      | Some (x, n') => Some (x, move_cursor r s n' h)
      | None => None
      end
    | None => None
    end
  | None => None
  end.
End Hub.

Class BroadcastLaws `{!Broadcast} := {
  sender_eq_dec :: EqDecision Sender;
  sender_countable :: Countable Sender;
  receiver_eq_dec :: EqDecision Receiver;
  receiver_countable :: Countable Receiver;
  hub : Channels -> Hub Sender Receiver;
  channel_hub : forall n c s c', channel n c = (s, c') -> hub_channel n s (hub c) (hub c');
  clone_hub : forall s c, hub (clone_sender s c) = on_chan s more_handles (hub c);
  drop_hub : forall s c, hub (drop_sender s c) = on_chan s fewer_handles (hub c);
  send_hub : forall s f c, hub (send s f c) = on_chan s (push f) (hub c);
  subscribe_hub : forall s c r c',
    subscribe_to s c = (r, c') -> hub_subscribe s r (hub c) (hub c');
  recv_hub : forall r c, prod_map id hub <$> recv r c = hub_recv r (hub c);
}.

(** ** The registry *)

Definition RELAY_CHANNEL_CAPACITY : nat := 256.

Section Registry.
Context {F : Type} `{!Broadcast}.

Record ActiveStream := {
  stream_key : string;
  frame_sender : Sender;
  video_sequence_header : option bytes;
  audio_sequence_header : option bytes;
  stream_metadata : option (StreamMetadata F);
  ntdf_header : option string;
}.

(** [ActiveStream::new], around the sender of the channel it opens. *)
Definition ActiveStream_new (key : string) (sender : Sender) : ActiveStream :=
  {| stream_key := key; frame_sender := sender; video_sequence_header := None;
     audio_sequence_header := None; stream_metadata := None; ntdf_header := None |}.

(** The registry with the channels its streams refer to. *)
Record StreamRegistry := {
  streams : gmap string ActiveStream;
  channels : Channels;
}.

Definition StreamRegistry_new (c : Channels) : StreamRegistry :=
  {| streams := ∅; channels := c |}.

(** [HashMap::remove]: the removed stream is dropped, and with it its sender. *)
Definition remove (key : string) (r : StreamRegistry) : StreamRegistry :=
  match streams r !! key with
  | Some a =>
    {| streams := delete key (streams r); channels := drop_sender (frame_sender a) (channels r) |}
  | None => r
  end.

Definition register_publisher (key : string) (r : StreamRegistry) : Sender * StreamRegistry :=
  let r := remove key r in
  let '(sender, c) := channel RELAY_CHANNEL_CAPACITY (channels r) in
  (sender, {| streams := <[key := ActiveStream_new key sender]> (streams r);
              channels := clone_sender sender c |}).

Definition unregister_publisher (key : string) (r : StreamRegistry) : StreamRegistry :=
  remove key r.

Record Subscription := {
  receiver : Receiver;
  video_header : option bytes;
  audio_header : option bytes;
  metadata : option (StreamMetadata F);
  header : option string;
}.

Definition subscribe (key : string) (r : StreamRegistry) : option Subscription * StreamRegistry :=
  match streams r !! key with
  | Some a =>
    let '(rx, c) := subscribe_to (frame_sender a) (channels r) in
    (Some {| receiver := rx; video_header := video_sequence_header a;
             audio_header := audio_sequence_header a; metadata := stream_metadata a;
             header := ntdf_header a |},
     {| streams := streams r; channels := c |})
  | None => (None, r)
  end.

(** A stream is updated where it is registered. *)
Definition update (f : ActiveStream -> ActiveStream) (key : string) (r : StreamRegistry) :
    StreamRegistry :=
  {| streams := alter f key (streams r); channels := channels r |}.

Definition set_video_sequence_header (key : string) (h : bytes) : StreamRegistry -> StreamRegistry :=
  update (fun a =>
    {| stream_key := stream_key a; frame_sender := frame_sender a;
       video_sequence_header := Some h; audio_sequence_header := audio_sequence_header a;
       stream_metadata := stream_metadata a; ntdf_header := ntdf_header a |}) key.

Definition set_audio_sequence_header (key : string) (h : bytes) : StreamRegistry -> StreamRegistry :=
  update (fun a =>
    {| stream_key := stream_key a; frame_sender := frame_sender a;
       video_sequence_header := video_sequence_header a; audio_sequence_header := Some h;
       stream_metadata := stream_metadata a; ntdf_header := ntdf_header a |}) key.

Definition set_stream_metadata (key : string) (m : StreamMetadata F) :
    StreamRegistry -> StreamRegistry :=
  update (fun a =>
    {| stream_key := stream_key a; frame_sender := frame_sender a;
       video_sequence_header := video_sequence_header a;
       audio_sequence_header := audio_sequence_header a;
       stream_metadata := Some m; ntdf_header := ntdf_header a |}) key.

Definition set_ntdf_header (key : string) (h : string) : StreamRegistry -> StreamRegistry :=
  update (fun a =>
    {| stream_key := stream_key a; frame_sender := frame_sender a;
       video_sequence_header := video_sequence_header a;
       audio_sequence_header := audio_sequence_header a;
       stream_metadata := stream_metadata a; ntdf_header := Some h |}) key.

Definition is_stream_active (key : string) (r : StreamRegistry) : bool :=
  bool_decide (is_Some (streams r !! key)).

Definition active_stream_count (r : StreamRegistry) : nat := size (streams r).

(** ** The operations connections perform on the shared state *)

Inductive relay_op : Type -> Type :=
| RegisterPublisher (key : string) : relay_op Sender
| UnregisterPublisher (key : string) : relay_op unit
| Subscribe (key : string) : relay_op (option Subscription)
| SetVideoSequenceHeader (key : string) (h : bytes) : relay_op unit
| SetAudioSequenceHeader (key : string) (h : bytes) : relay_op unit
| SetStreamMetadata (key : string) (m : StreamMetadata F) : relay_op unit
| SetNtdfHeader (key : string) (h : string) : relay_op unit
| SendFrame (s : Sender) (f : RelayFrame) : relay_op unit
| DropSender (s : Sender) : relay_op unit
| ReceiveFrame (rx : Receiver) : relay_op (option (result RelayFrame RecvError)).

Definition on_channels (f : Channels -> Channels) (r : StreamRegistry) : StreamRegistry :=
  {| streams := streams r; channels := f (channels r) |}.

Definition relay_exec {X} (op : relay_op X) (r : StreamRegistry) : X * StreamRegistry :=
  match op in relay_op X return X * StreamRegistry with
  | RegisterPublisher key => register_publisher key r
  | UnregisterPublisher key => (tt, unregister_publisher key r)
  | Subscribe key => subscribe key r
  | SetVideoSequenceHeader key h => (tt, set_video_sequence_header key h r)
  | SetAudioSequenceHeader key h => (tt, set_audio_sequence_header key h r)
  | SetStreamMetadata key m => (tt, set_stream_metadata key m r)
  | SetNtdfHeader key h => (tt, set_ntdf_header key h r)
  | SendFrame s f => (tt, on_channels (send s f) r)
  | DropSender s => (tt, on_channels (drop_sender s) r)
  | ReceiveFrame rx =>
    match recv rx (channels r) with
    | Some (x, c) => (Some x, {| streams := streams r; channels := c |})
    | None => (None, r)
    end
  end.
End Registry.
Arguments ActiveStream F {_}.
Arguments StreamRegistry F {_}.
Arguments Subscription F {_}.
Arguments relay_op F {_} _.
