(* ===== verification/RtmpMedia.v ===== *)
(** * What an RTMP connection uses (src/src/modules/rtmp)

    encryption.rs (the NanoTDF collections of opentdf), manifest.rs (manifests and their cache
    in Redis) and stream_events.rs (the announcements on NATS), with the events a connection
    performs: the services, the shared relay, its socket, and the calls of rml_rtmp and of a
    collection, whose answers are not constrained. *)
From S2P Require Import Prelude Services NanoTdf RtmpRelay.

(** ** Data of the crates *)

(** A value of [std::panic::catch_unwind]; a payload is a [&str], a [String] or neither. *)
Inductive panic_payload : Set :=
| StrPayload (s : string)
| StringPayload (s : string)
| OtherPayload.

Inductive unwind (A : Type) : Type :=
| Returned (a : A)
| Unwound (p : panic_payload).
Arguments Returned {A} a.
Arguments Unwound {A} p.

(** [NanoTdfError] of opentdf, by the case the code tells apart and the text it displays. *)
Inductive NanoTdfError : Set :=
| NanoTdfIvExhausted
| NanoTdfOther (text : string).

(** [Amf0Value] of rml_amf0; an object is its entries in the order of iteration. *)
Inductive Amf0Value : Type :=
| Utf8String (s : string)
| Object (fields : list (string * Amf0Value))
| StrictArray (values : list Amf0Value)
| OtherValue.

Inductive HandshakeProcessResult : Set :=
| InProgress (response_bytes : bytes)
| Completed (response_bytes remaining_bytes : bytes).

(** The fields of an event that the code does not read are left out. *)
Inductive ServerSessionEvent (F : Type) : Type :=
| ConnectionRequested (request_id : Z) (app_name : string)
| PublishStreamRequested (request_id : Z) (app_name publish_key : string)
| PlayStreamRequested (request_id : Z) (app_name play_key : string) (stream_id : Z)
| StreamMetadataChanged (app_name key : string) (m : StreamMetadata F)
| VideoDataReceived (d : bytes) (ts : Z)
| AudioDataReceived (d : bytes) (ts : Z)
| UnhandleableAmf0Command (command_name : string) (additional_values : list Amf0Value)
| OtherEvent.
Arguments ConnectionRequested {F} _ _.
Arguments PublishStreamRequested {F} _ _ _.
Arguments PlayStreamRequested {F} _ _ _ _.
Arguments StreamMetadataChanged {F} _ _ _.
Arguments VideoDataReceived {F} _ _.
Arguments AudioDataReceived {F} _ _.
Arguments UnhandleableAmf0Command {F} _ _.
Arguments OtherEvent {F}.

Inductive ServerSessionResult (F : Type) : Type :=
| OutboundResponse (packet : bytes)
| RaisedEvent (e : ServerSessionEvent F)
| UnhandleableMessageReceived.
Arguments OutboundResponse {F} _.
Arguments RaisedEvent {F} _.
Arguments UnhandleableMessageReceived {F}.

(** ** Manifests: data *)

Record NanoTdfManifest := {
  header_bytes : bytes;
  kas_url : string;
  manifest_ephemeral_key : bytes;
  manifest_stream_key : string;
  created_at : Z;
}.

Inductive StreamEvent : Set :=
| StreamStarted (key rtmp_url : string) (manifest_header title : option string) (ts : Z)
| StreamStopped (key : string) (ts : Z).

(** ** The crates *)

Class RtmpCrates := {
  StandardFields : Type;
  Collection : Type;
  Decryptor : Type;
  CollectionItem : Type;
  item_to_bytes : CollectionItem -> bytes;
  item_from_bytes : bytes -> result CollectionItem string;
  build_collection : string -> bytes -> bytes -> result Collection NanoTdfError;
  to_header_bytes : Collection -> result bytes NanoTdfError;
  from_header_with_kas_key : bytes -> bytes -> result Decryptor NanoTdfError;
  from_header_with_dek : bytes -> bytes -> result Decryptor NanoTdfError;
  decrypt : Decryptor -> CollectionItem -> result bytes NanoTdfError;
  nanotdf_error_text : NanoTdfError -> string;
  parsing_error_text : ParsingError -> string;
  manifest_to_json : NanoTdfManifest -> result string string;
  manifest_of_json : string -> result NanoTdfManifest string;
  stream_event_to_cbor : StreamEvent -> result bytes string;
  stream_event_of_cbor : bytes -> result StreamEvent string;
  base64_standard : bytes -> string;
  secret_key_pkcs8 : bytes -> option bytes;
}.

(** ** Events *)

(** What [select!] on the socket and on a receiver ends with. *)
Inductive selected : Type :=
| ReadReady (r : result bytes string)
| FrameReady (r : result RelayFrame RecvError).

Section Events.
Context {crates : RtmpCrates} {broadcast : Broadcast}.

Inductive rtmp_event : Type -> Type :=
| Service {X} (e : event unit X) : rtmp_event X
| Relay {X} (op : relay_op StandardFields X) : rtmp_event X
| UnixMillis : rtmp_event Z
| EncryptItem (c : Collection) (plaintext : bytes) :
    rtmp_event (result CollectionItem NanoTdfError)
| RotationReached (c : Collection) : rtmp_event bool
| SocketRead : rtmp_event (result bytes string)
| SocketWrite (b : bytes) : rtmp_event (result unit string)
| SelectReadRecv (rx : Receiver) : rtmp_event selected
| ProcessBytes (input : bytes) : rtmp_event (unwind (result HandshakeProcessResult string))
| NewServerSession :
    rtmp_event (unwind (result (list (ServerSessionResult StandardFields)) string))
| HandleInput (input : bytes) :
    rtmp_event (unwind (result (list (ServerSessionResult StandardFields)) string))
| AcceptRequest (request_id : Z) :
    rtmp_event (unwind (result (list (ServerSessionResult StandardFields)) string))
| SendMetadata (stream_id : Z) (m : StreamMetadata StandardFields) :
    rtmp_event (unwind (result bytes string))
| SendVideoData (stream_id : Z) (d : bytes) (ts : Z) : rtmp_event (unwind (result bytes string))
| SendAudioData (stream_id : Z) (d : bytes) (ts : Z) : rtmp_event (unwind (result bytes string)).

Abbreviation rio := (prog rtmp_event).

Definition relay {X} (op : relay_op StandardFields X) : rio X := trigger (Relay op).

(** The functions that only use the services. *)
Fixpoint lift {A} (m : prog (event unit) A) : rio A :=
  match m with
  | Ret a => Ret a
  | Vis e k => Vis (Service e) (fun x => lift (k x))
  end.

(** ** encryption.rs *)

Inductive EncryptionError : Set :=
| PayloadTooShort
| EncryptionFailed (msg : string)
| DecryptionFailed (msg : string)
| KeyAgreementFailed (msg : string)
| InvalidPublicKey (msg : string)
| CollectionError (msg : string)
| IvExhausted.

Definition encryption_error_text (e : EncryptionError) : string :=
  match e with
  | PayloadTooShort => "Payload too short for decryption"
  | EncryptionFailed msg => "Encryption failed: " +:+ msg
  | DecryptionFailed msg => "Decryption failed: " +:+ msg
  | KeyAgreementFailed msg => "Key agreement failed: " +:+ msg
  | InvalidPublicKey msg => "Invalid public key: " +:+ msg
  | CollectionError msg => "Collection error: " +:+ msg
  | IvExhausted => "IV counter exhausted - create new collection"
  end.

Definition encryption_error_of_nanotdf (e : NanoTdfError) : EncryptionError :=
  match e with
  | NanoTdfIvExhausted => IvExhausted
  | other => CollectionError (nanotdf_error_text other)
  end.

Definition encryption_error_of_io (text : string) : EncryptionError := CollectionError text.

Definition IV_SIZE : nat := 3.
Definition DEFAULT_TAG_SIZE : nat := 12.
Definition MIN_ENCRYPTED_SIZE : nat := IV_SIZE + DEFAULT_TAG_SIZE.

Definition create_collection (kas_url : string) (policy kas_public_key : bytes) :
    result Collection EncryptionError :=
  map_err (fun e => CollectionError (nanotdf_error_text e))
    (build_collection kas_url policy kas_public_key).

Definition collection_header_bytes (c : Collection) : result bytes EncryptionError :=
  map_err (fun e => CollectionError (nanotdf_error_text e)) (to_header_bytes c).

Definition create_decryptor_kas (header_bytes kas_private_key : bytes) :
    result Decryptor EncryptionError :=
  map_err (fun e => DecryptionFailed (nanotdf_error_text e))
    (from_header_with_kas_key header_bytes kas_private_key).

Definition create_decryptor_dek (header_bytes dek : bytes) : result Decryptor EncryptionError :=
  map_err (fun e => DecryptionFailed (nanotdf_error_text e))
    (from_header_with_dek header_bytes dek).

(** The counter of a collection is shared, so that encrypting an item is an event. *)
Definition encrypt_item (c : Collection) (plaintext : bytes) : rio (result bytes EncryptionError) :=
  bind (trigger (EncryptItem c plaintext)) (fun r =>
  Ret (match r with
       | Ok item => Ok (item_to_bytes item)
       | Err e => Err (encryption_error_of_nanotdf e)
       end)).

Definition decrypt_item (d : Decryptor) (encrypted : bytes) : result bytes EncryptionError :=
  rbind (map_err encryption_error_of_io (item_from_bytes encrypted)) (fun item =>
  map_err (fun e => DecryptionFailed (nanotdf_error_text e)) (decrypt d item)).

Definition rotation_threshold_reached (c : Collection) : rio bool := trigger (RotationReached c).
End Events.
Abbreviation rio := (prog rtmp_event).

(** ** manifest.rs *)

Definition REDIS_MANIFEST_PREFIX : string := "rtmp:manifest:".
Definition MANIFEST_TTL_SECONDS : Z := 3600.

Inductive ManifestError : Set :=
| Base64DecodeError (msg : string)
| NanoTdfParseError (msg : string)
| ManifestRedisError (msg : string)
| ManifestNotFound.

Definition manifest_error_text (e : ManifestError) : string :=
  match e with
  | Base64DecodeError msg => "Base64 decode error: " +:+ msg
  | NanoTdfParseError msg => "NanoTDF parse error: " +:+ msg
  | ManifestRedisError msg => "Redis error: " +:+ msg
  | ManifestNotFound => "Manifest not found"
  end.

Definition format_kas_url (locator : ResourceLocator) : string :=
  let protocol :=
    match protocol_enum locator with
    | Https => "https"
    | Http => "http"
    | Wss => "wss"
    | Ws => "ws"
    | SharedResource => "shared"
    end in
  protocol +:+ "://" +:+ locator_body locator.

Section Manifest.
Context {crates : RtmpCrates} {C : Type}.
Open Scope rust_scope.

(** [now] is the clock's reading. *)
Definition from_header_bytes (header_bytes : bytes) (stream_key : string) (now : Z) :
    outcome (result NanoTdfManifest ManifestError) :=
  let! rp := parse_header (NanoTdf.new header_bytes) in
  Done (match fst rp with
        | Ok header =>
          Ok {| header_bytes := header_bytes; kas_url := format_kas_url (get_kas header);
                manifest_ephemeral_key := get_ephemeral_key header;
                manifest_stream_key := stream_key; created_at := now |}
        | Err e => Err (NanoTdfParseError (parsing_error_text e))
        end).

Definition manifest_key (stream_key : string) : string := REDIS_MANIFEST_PREFIX +:+ stream_key.

Definition manifest_redis_error (e : RedisError) : ManifestError :=
  let 'redis_error d := e in ManifestRedisError d.

Definition cache_manifest (manifest : NanoTdfManifest) :
    prog (event C) (result unit ManifestError) :=
  let*? _ := await_map_err manifest_redis_error (trigger Connect) in
  let*? json := Ret (map_err (fun e => ManifestRedisError ("Serialization error: " +:+ e))
                       (manifest_to_json manifest)) in
  await_map_err manifest_redis_error
    (trigger (Redis (SETEX (manifest_key (manifest_stream_key manifest)) json
                       MANIFEST_TTL_SECONDS))).

Definition get_cached_manifest (stream_key : string) :
    prog (event C) (result NanoTdfManifest ManifestError) :=
  let*? _ := await_map_err manifest_redis_error (trigger Connect) in
  let*? json := await_map_err manifest_redis_error
                  (trigger (Redis (GET (manifest_key stream_key)))) in
  Ret (match json with
       | Some json_str =>
         map_err (fun e => ManifestRedisError ("Deserialization error: " +:+ e))
           (manifest_of_json json_str)
       | None => Err ManifestNotFound
       end).

Definition delete_cached_manifest (stream_key : string) :
    prog (event C) (result unit ManifestError) :=
  let*? _ := await_map_err manifest_redis_error (trigger Connect) in
  await_map_err manifest_redis_error (trigger (Redis (DEL (manifest_key stream_key)))).
End Manifest.

(** ** stream_events.rs *)

Definition STREAM_EVENT_PREFIX : byte := x08.

Inductive StreamEventError : Set :=
| StreamEncodeError (msg : string)
| StreamDecodeError (msg : string)
| StreamPublishError (msg : string).

Definition stream_event_error_text (e : StreamEventError) : string :=
  match e with
  | StreamEncodeError msg => "Failed to encode stream event: " +:+ msg
  | StreamDecodeError msg => "Failed to decode stream event: " +:+ msg
  | StreamPublishError msg => "Failed to publish stream event: " +:+ msg
  end.

(** [nats_client] tells whether the broadcaster was given a client. *)
Record StreamEventBroadcaster := {
  nats_client : bool;
  subject : string;
  rtmp_base_url : string;
}.

Section StreamEvents.
Context {crates : RtmpCrates} {broadcast : Broadcast}.
Open Scope rust_scope.

Definition current_timestamp : rio Z := trigger UnixMillis.

Definition started (key rtmp_url : string) (manifest_header title : option string) :
    rio StreamEvent :=
  let* ts := current_timestamp in
  Ret (StreamStarted key rtmp_url manifest_header title ts).

Definition stopped (key : string) : rio StreamEvent :=
  let* ts := current_timestamp in Ret (StreamStopped key ts).

Definition encode (e : StreamEvent) : result bytes StreamEventError :=
  let? body := map_err StreamEncodeError (stream_event_to_cbor e) in
  Ok (STREAM_EVENT_PREFIX :: body).

Definition decode (d : bytes) : result StreamEvent StreamEventError :=
  map_err StreamDecodeError (stream_event_of_cbor d).

(** Failures are only logged. *)
Definition publish_event (b : StreamEventBroadcaster) (e : StreamEvent) : rio unit :=
  if nats_client b then
    match encode e with
    | Ok message =>
      let* _ := trigger (Service (NatsPublish (subject b) message)) in Ret tt
    | Err _ => Ret tt
    end
  else Ret tt.

Definition stream_started (b : StreamEventBroadcaster) (key : string)
    (manifest_header title : option string) : rio unit :=
  let rtmp_url := rtmp_base_url b +:+ "/" +:+ key in
  let* e := started key rtmp_url manifest_header title in
  publish_event b e.

Definition stream_stopped (b : StreamEventBroadcaster) (key : string) : rio unit :=
  let* e := stopped key in publish_event b e.
End StreamEvents.
