(* ===== verification/RtmpSample.v ===== *)
(** * Concrete channels and crates for the RTMP model

    Channels that are their own abstraction satisfy the laws of [Broadcast]; the crates are
    the simplest functions of their types. *)
From S2P Require Import Prelude Services NanoTdf RtmpRelay RtmpMedia.

#[export] Instance sample_broadcast : Broadcast :=
  {| Channels := Hub nat nat; Sender := nat; Receiver := nat;
     channel := fun n h =>
       let s := fresh (dom (chans h)) in
       (s, {| chans := <[s := {| capacity := n; handles := 1; sent := [] |}]> (chans h);
              cursors := cursors h |});
     clone_sender := fun s => on_chan s more_handles;
     drop_sender := fun s => on_chan s fewer_handles;
     send := fun s f => on_chan s (push f);
     subscribe_to := fun s h =>
       let r := fresh (dom (cursors h)) in
       (r, {| chans := chans h;
              cursors := match chans h !! s with
                         | Some c => <[r := (s, length (sent c))]> (cursors h)
                         | None => cursors h
                         end |});
     recv := hub_recv |}.

#[export] Instance sample_broadcast_laws : BroadcastLaws.
Proof.
  refine {| sender_eq_dec := (_ : EqDecision nat); sender_countable := nat_countable;
            receiver_eq_dec := (_ : EqDecision nat); receiver_countable := nat_countable;
            hub := fun h : Channels => h |}; try done.
  - intros n c s c' [= <- <-]. split; [|done]. apply not_elem_of_dom, is_fresh.
  - intros s c r c' [= <- <-]. split; [|done]. apply not_elem_of_dom, is_fresh.
  - intros r c.
    assert (forall o : option (result RelayFrame RecvError * Hub nat nat),
      prod_map id (fun h => h) <$> o = o) as Ho by (by intros [[]|]).
    apply Ho.
Defined.

Definition no_channels : Channels := {| chans := ∅; cursors := ∅ |} : Hub nat nat.

#[export] Instance sample_rtmp : RtmpCrates :=
  {| StandardFields := unit; Collection := unit; Decryptor := bytes; CollectionItem := bytes;
     item_to_bytes := fun b => b; item_from_bytes := fun b => Ok b;
     build_collection := fun _ _ _ => Ok tt; to_header_bytes := fun _ => Ok [];
     from_header_with_kas_key := fun h _ => Ok h; from_header_with_dek := fun h _ => Ok h;
     decrypt := fun _ b => Ok b; nanotdf_error_text := fun _ => "nanotdf error";
     parsing_error_text := fun _ => "parsing error";
     manifest_to_json := fun m => Ok (manifest_stream_key m);
     manifest_of_json := fun s => Err "not json";
     stream_event_to_cbor := fun _ => Ok []; stream_event_of_cbor := fun _ => Err "not cbor";
     base64_standard := fun _ => ""; secret_key_pkcs8 := fun b => Some b |}.

(** The first sender and the first receiver. *)
Definition sample_tx : Sender := 0.
Definition sample_rx : Receiver := 0.
