(* ===== verification/RtmpRelayProps.v ===== *)
(** * Theorems about the relay

    The history of the shared state is the list of the operations performed on it with their
    answers, the newest first; every interleaving of connections has one.  What a subscriber
    is given, and which frames it then receives, is determined by the history alone. *)
From S2P Require Import Prelude Services RtmpRelay RtmpMedia RtmpSample.

Section RelayProps.
Context {F : Type} `{!Broadcast} {blaws : BroadcastLaws}.
Implicit Types (r : StreamRegistry F) (s : Sender) (rx : Receiver).

Definition command : Type := {X : Type & (relay_op F X * X)%type}.
Definition did {X} (op : relay_op F X) (x : X) : command := existT X (op, x).

Definition performs (c : command) (r r' : StreamRegistry F) : Prop :=
  let '(existT _ (op, x)) := c in relay_exec op r = (x, r').

Inductive executes (c0 : Channels) : list command -> StreamRegistry F -> Prop :=
| executes_nil : executes c0 [] (StreamRegistry_new c0)
| executes_op h r c r' : executes c0 h r -> performs c r r' -> executes c0 (c :: h) r'.

(** ** What the history says *)

(** The publisher a command makes the current one of a key; [Some None]: none is. *)
Definition publishes (key : string) (c : command) : option (option Sender) :=
  match projT2 c with
  | (op, x) =>
    match op in relay_op _ X return X -> option (option Sender) with
    | RegisterPublisher k => fun s => if decide (k = key) then Some (Some s) else None
    | UnregisterPublisher k => fun _ => if decide (k = key) then Some None else None
    | _ => fun _ => None
    end x
  end.

Definition publisher (key : string) (h : list command) : option Sender :=
  mjoin (head (omap (publishes key) h)).

(** The commands after the latest one that satisfies [p]. *)
Fixpoint since (p : command -> bool) (h : list command) : list command :=
  match h with
  | [] => []
  | c :: h => if p c then [] else c :: since p h
  end.

Definition since_publication (key : string) : list command -> list command :=
  since (fun c => bool_decide (is_Some (publishes key c))).

Definition sets_video (key : string) (c : command) : option bytes :=
  match fst (projT2 c) with
  | SetVideoSequenceHeader k h => if decide (k = key) then Some h else None
  | _ => None
  end.
Definition sets_audio (key : string) (c : command) : option bytes :=
  match fst (projT2 c) with
  | SetAudioSequenceHeader k h => if decide (k = key) then Some h else None
  | _ => None
  end.
Definition sets_metadata (key : string) (c : command) : option (StreamMetadata F) :=
  match fst (projT2 c) with
  | SetStreamMetadata k m => if decide (k = key) then Some m else None
  | _ => None
  end.
Definition sets_ntdf (key : string) (c : command) : option string :=
  match fst (projT2 c) with
  | SetNtdfHeader k h => if decide (k = key) then Some h else None
  | _ => None
  end.

(** The latest value of a field since the publication of the key. *)
Definition latest {A} (sets : string -> command -> option A) (key : string) (h : list command) :
    option A :=
  head (omap (sets key) (since_publication key h)).

Definition opens (s : Sender) (c : command) : bool :=
  match projT2 c with
  | (op, x) =>
    match op in relay_op _ X return X -> bool with
    | RegisterPublisher _ => fun s' => bool_decide (s' = s)
    | _ => fun _ => false
    end x
  end.

Definition frame_to (s : Sender) (c : command) : option RelayFrame :=
  match fst (projT2 c) with
  | SendFrame s' f => if decide (s' = s) then Some f else None
  | _ => None
  end.

(** The frames sent to a sender's channel, in the order they were sent. *)
Definition frames (s : Sender) (h : list command) : list RelayFrame :=
  reverse (omap (frame_to s) (since (opens s) h)).

(** ** The state is the one the history describes *)

Definition stream_of (key : string) (h : list command) (s : Sender) : ActiveStream F :=
  {| stream_key := key; frame_sender := s;
     video_sequence_header := latest sets_video key h;
     audio_sequence_header := latest sets_audio key h;
     stream_metadata := latest sets_metadata key h;
     ntdf_header := latest sets_ntdf key h |}.

Definition chan_at (r : StreamRegistry F) (s : Sender) : option Chan :=
  chans (hub (channels r)) !! s.

Record described (h : list command) (r : StreamRegistry F) : Prop := {
  described_streams key : streams r !! key = stream_of key h <$> publisher key h;
  described_frames s c : chan_at r s = Some c -> sent c = frames s h;
  described_open key s : publisher key h = Some s -> is_Some (chan_at r s);
}.

Lemma latest_cons {A} (sets : string -> command -> option A) key c h :
  publishes key c = None ->
  latest sets key (c :: h) =
    match sets key c with Some a => Some a | None => latest sets key h end.
Proof.
  intros Hc. unfold latest, since_publication. simpl.
  rewrite bool_decide_false by (rewrite Hc; apply is_Some_None). simpl.
  by destruct (sets key c).
Qed.

Lemma latest_published {A} (sets : string -> command -> option A) key c h :
  is_Some (publishes key c) -> latest sets key (c :: h) = None.
Proof. intros Hc. unfold latest, since_publication. simpl. by rewrite bool_decide_true. Qed.

Lemma publisher_cons key c h :
  publisher key (c :: h) =
    match publishes key c with Some p => p | None => publisher key h end.
Proof. unfold publisher. simpl. by destruct (publishes key c). Qed.

Lemma frames_opened s c h : opens s c = true -> frames s (c :: h) = [].
Proof. intros Hc. unfold frames. simpl. by rewrite Hc. Qed.

Lemma frames_cons s c h :
  opens s c = false ->
  frames s (c :: h) = frames s h ++ match frame_to s c with Some f => [f] | None => [] end.
Proof.
  intros Hc. unfold frames. simpl. rewrite Hc. simpl.
  destruct (frame_to s c); simpl; [by rewrite reverse_cons|by rewrite app_nil_r].
Qed.

(** ** Each operation keeps the description *)

(** The effect of an operation on the channels, where it opens none. *)
Lemma chan_at_on_chan r s f s' c :
  hub c = on_chan s f (hub (channels r)) ->
  chans (hub c) !! s' = if decide (s = s') then f <$> chan_at r s' else chan_at r s'.
Proof.
  intros ->. unfold on_chan, chan_at. simpl. case_decide; subst.
  - by rewrite lookup_alter_eq.
  - by rewrite lookup_alter_ne.
Qed.

(** A stream's fields in a longer history. *)
Lemma stream_of_cons key c h s :
  publishes key c = None ->
  stream_of key (c :: h) s =
    {| stream_key := key; frame_sender := s;
       video_sequence_header := from_option Some (latest sets_video key h) (sets_video key c);
       audio_sequence_header := from_option Some (latest sets_audio key h) (sets_audio key c);
       stream_metadata := from_option Some (latest sets_metadata key h) (sets_metadata key c);
       ntdf_header := from_option Some (latest sets_ntdf key h) (sets_ntdf key c) |}.
Proof.
  intros Hc. unfold stream_of. rewrite !latest_cons by done.
  by destruct (sets_video _ _), (sets_audio _ _), (sets_metadata _ _), (sets_ntdf _ _).
Qed.

(** An operation that is neither a publication nor the end of one. *)
Lemma described_quiet h r c r' :
  described h r ->
  (forall key, publishes key c = None) -> (forall s, opens s c = false) ->
  (forall key, streams r' !! key = stream_of key (c :: h) <$> publisher key h) ->
  (forall s ch', chan_at r' s = Some ch' ->
     exists ch, chan_at r s = Some ch /\
       sent ch' = sent ch ++ match frame_to s c with Some f => [f] | None => [] end) ->
  (forall s, is_Some (chan_at r s) -> is_Some (chan_at r' s)) ->
  described (c :: h) r'.
Proof.
  intros [Hs Hf Ho] Hp Hop Hs' Hc Hk. split.
  - intros key. by rewrite Hs', publisher_cons, Hp.
  - intros s ch' Hch'. apply Hc in Hch' as (ch & Hch & ->).
    rewrite frames_cons by done. by rewrite (Hf _ _ Hch).
  - intros key s. rewrite publisher_cons, Hp. eauto.
Qed.

(** An update of the fields of a stream. *)
Lemma described_update h r f k c :
  described h r ->
  (forall key, publishes key c = None) -> (forall s, opens s c = false) ->
  (forall s, frame_to s c = None) ->
  (forall key s, stream_of key (c :: h) s =
     if decide (k = key) then f (stream_of key h s) else stream_of key h s) ->
  described (c :: h) (update f k r).
Proof.
  intros Hd Hp Hop Hft Hk. eapply described_quiet; eauto.
  - intros key. unfold update. simpl. destruct (decide (k = key)) as [->|Hne].
    + rewrite lookup_alter_eq, (described_streams _ _ Hd).
      destruct (publisher key h) as [s|]; simpl; [|done]. by rewrite Hk, decide_True.
    + rewrite lookup_alter_ne by done. rewrite (described_streams _ _ Hd).
      destruct (publisher key h) as [s|]; simpl; [|done]. by rewrite Hk, decide_False.
  - intros s ch Hch. exists ch. by rewrite Hft, app_nil_r.
Qed.

(** An operation on the channels alone. *)
Lemma described_channels h r c (ch' : Channels) :
  described h r ->
  (forall key, publishes key c = None) -> (forall s, opens s c = false) ->
  (forall key s, stream_of key (c :: h) s = stream_of key h s) ->
  (forall s ch, chans (hub ch') !! s = Some ch ->
     exists ch0, chan_at r s = Some ch0 /\
       sent ch = sent ch0 ++ match frame_to s c with Some f => [f] | None => [] end) ->
  (forall s, is_Some (chan_at r s) -> is_Some (chans (hub ch') !! s)) ->
  described (c :: h) {| streams := streams r; channels := ch' |}.
Proof.
  intros Hd Hp Hop Hk Hc Hs. eapply described_quiet; eauto.
  intros key. simpl. rewrite (described_streams _ _ Hd).
  destruct (publisher key h) as [s|]; simpl; [|done]. by rewrite Hk.
Qed.

Lemma described_send h r s f :
  described h r -> described (did (SendFrame s f) tt :: h) (on_channels (send s f) r).
Proof.
  intros Hd. apply described_channels; try done.
  - intros s' ch. rewrite (chan_at_on_chan r s (push f)) by apply send_hub. simpl.
    unfold frame_to. simpl. case_decide; subst; [|exists ch; by rewrite app_nil_r].
    intros (ch0 & Hch0 & ->)%fmap_Some. by exists ch0.
  - intros s' Hs'. rewrite (chan_at_on_chan r s (push f)) by apply send_hub.
    case_decide; [by apply fmap_is_Some|done].
Qed.

(** Dropping a sender changes neither streams nor frames. *)
Lemma chan_at_drop r s s' c :
  hub c = on_chan s fewer_handles (hub (channels r)) ->
  (forall ch, chans (hub c) !! s' = Some ch ->
     exists ch0, chan_at r s' = Some ch0 /\ sent ch = sent ch0) /\
  (is_Some (chan_at r s') -> is_Some (chans (hub c) !! s')).
Proof.
  intros Hc. rewrite (chan_at_on_chan r s fewer_handles) by done. case_decide; subst.
  - split; [intros ch (ch0 & -> & ->)%fmap_Some; by exists ch0|by rewrite fmap_is_Some].
  - split; [eauto|done].
Qed.

Lemma described_drop h r s :
  described h r -> described (did (DropSender s) tt :: h) (on_channels (drop_sender s) r).
Proof.
  intros Hd. apply described_channels; try done.
  - intros s' ch Hch. destruct (chan_at_drop r s s' _ (drop_hub s _)) as [Hc _].
    destruct (Hc _ Hch) as (ch0 & ? & ->). exists ch0. by rewrite app_nil_r.
  - intros s'. by destruct (chan_at_drop r s s' _ (drop_hub s (channels r))).
Qed.

(** An operation that leaves everything as it was. *)
Lemma described_nop h r c :
  described h r ->
  (forall key, publishes key c = None) -> (forall s, opens s c = false) ->
  (forall s, frame_to s c = None) ->
  (forall key s, stream_of key (c :: h) s = stream_of key h s) ->
  described (c :: h) r.
Proof.
  intros Hd Hp Ho Hf Hk. destruct r as [ss ch].
  apply (described_channels h {| streams := ss; channels := ch |}); try done.
  intros s ch0 ?. exists ch0. by rewrite Hf, app_nil_r.
Qed.

Lemma described_receive h r rx x r' :
  described h r -> relay_exec (ReceiveFrame rx) r = (x, r') ->
  described (did (ReceiveFrame rx) x :: h) r'.
Proof.
  intros Hd Hx. simpl in Hx. pose proof (recv_hub rx (channels r)) as Hr.
  destruct (recv rx (channels r)) as [[y c]|]; simplify_eq; [|by apply described_nop].
  assert (chans (hub c) = chans (hub (channels r))) as Hc.
  { simpl in Hr. unfold hub_recv in Hr. repeat case_match; simplify_eq/=.
    by match goal with H : hub c = _ |- _ => rewrite H end. }
  apply described_channels; try done; rewrite Hc; [|done].
  intros s ch ?. exists ch. by rewrite app_nil_r.
Qed.

Lemma described_subscribe h r key x r' :
  described h r -> relay_exec (Subscribe key) r = (x, r') ->
  described (did (Subscribe key) x :: h) r'.
Proof.
  intros Hd Hx. simpl in Hx. unfold subscribe in Hx.
  destruct (streams r !! key) as [a|]; [|simplify_eq; by apply described_nop].
  destruct (subscribe_to (frame_sender a) (channels r)) as [rx c] eqn:E. simplify_eq.
  apply subscribe_hub in E as [_ E]. apply described_channels; try done; rewrite E; [|done].
  intros s ch ?. exists ch. by rewrite app_nil_r.
Qed.

(** Removing a stream, by [unregister_publisher] or before a new publication. *)
Lemma remove_streams key r key' :
  streams (remove key r) !! key' = if decide (key = key') then None else streams r !! key'.
Proof.
  unfold remove. destruct (streams r !! key) as [a|] eqn:E; simpl; case_decide; subst; try done.
  - by rewrite lookup_delete_eq.
  - by rewrite lookup_delete_ne.
Qed.

Lemma remove_chans key r s :
  (forall ch, chan_at (remove key r) s = Some ch ->
     exists ch0, chan_at r s = Some ch0 /\ sent ch = sent ch0) /\
  (is_Some (chan_at r s) -> is_Some (chan_at (remove key r) s)).
Proof.
  unfold remove. destruct (streams r !! key) as [a|]; [|eauto].
  apply (chan_at_drop r (frame_sender a)), drop_hub.
Qed.

Lemma described_unregister h r k :
  described h r -> described (did (UnregisterPublisher k) tt :: h) (unregister_publisher k r).
Proof.
  intros [Hs Hf Ho]. unfold unregister_publisher. split.
  - intros key. rewrite remove_streams, publisher_cons, Hs. unfold publishes; simpl.
    case_decide as Hk; [by destruct Hk|].
    destruct (publisher key h) as [s|]; simpl; [|done].
    rewrite stream_of_cons by (unfold publishes; simpl; by rewrite decide_False). done.
  - intros s ch Hch. destruct (remove_chans k r s) as [Hc _].
    destruct (Hc _ Hch) as (ch0 & Hch0 & ->). rewrite frames_cons by done. simpl.
    rewrite app_nil_r. eauto.
  - intros key s. rewrite publisher_cons. unfold publishes; simpl. case_decide; [done|].
    intros ?%Ho. by apply remove_chans.
Qed.

Lemma described_register h r k s r' :
  described h r -> register_publisher k r = (s, r') ->
  described (did (RegisterPublisher k) s :: h) r'.
Proof.
  intros [Hs Hf Ho]. unfold register_publisher.
  destruct (channel _ _) as [s0 c] eqn:E. intros [= <- <-].
  apply channel_hub in E as [Hnew E].
  assert (forall s', chans (hub (clone_sender s0 c)) !! s' =
            if decide (s0 = s') then Some {| capacity := RELAY_CHANNEL_CAPACITY; handles := 2; sent := [] |}
            else chan_at (remove k r) s') as Hch.
  { intros s'. rewrite clone_hub, E. unfold on_chan. simpl. case_decide; subst.
    - by rewrite lookup_alter_eq, lookup_insert_eq.
    - by rewrite lookup_alter_ne, lookup_insert_ne by done. }
  split; unfold chan_at; simpl.
  - intros key. rewrite publisher_cons. unfold publishes; simpl.
    case_decide as Hk; [destruct Hk; rewrite lookup_insert_eq; simpl|].
    + unfold stream_of. rewrite !latest_published by (unfold publishes; simpl; by rewrite decide_True).
      done.
    + rewrite lookup_insert_ne, remove_streams, decide_False, Hs by done.
      destruct (publisher key h) as [s'|]; simpl; [|done].
      rewrite stream_of_cons by (unfold publishes; simpl; by rewrite decide_False). done.
  - intros s' ch. rewrite Hch. case_decide as Hs'; [intros [= <-]|intros Hc].
    + rewrite frames_opened; [done|]. by apply bool_decide_eq_true.
    + rewrite frames_cons by (by apply bool_decide_eq_false). simpl. rewrite app_nil_r.
      apply (proj1 (remove_chans k r s')) in Hc as (ch0 & Hc & ->). eauto.
  - intros key s'. rewrite publisher_cons, Hch. unfold publishes; simpl.
    case_decide; [intros [= ->]; by rewrite decide_True|]. intros ?%Ho.
    case_decide; [done|]. by apply remove_chans.
Qed.

Lemma executes_described c0 h r :
  chans (hub c0) = ∅ -> executes c0 h r -> described h r.
Proof.
  intros H0. induction 1 as [|h r [X [op x]] r' _ IH Hx].
  { split; try done; unfold chan_at; simpl; rewrite H0; naive_solver. }
  destruct op; simpl in Hx.
  - by eapply described_register.
  - simplify_eq. by apply described_unregister.
  - by eapply described_subscribe.
  - simplify_eq. apply described_update; try done. intros key' s. rewrite stream_of_cons by done.
    unfold sets_video; simpl. by case_decide.
  - simplify_eq. apply described_update; try done. intros key' s. rewrite stream_of_cons by done.
    unfold sets_audio; simpl. by case_decide.
  - simplify_eq. apply described_update; try done. intros key' s. rewrite stream_of_cons by done.
    unfold sets_metadata; simpl. by case_decide.
  - simplify_eq. apply described_update; try done. intros key' s. rewrite stream_of_cons by done.
    unfold sets_ntdf; simpl. by case_decide.
  - simplify_eq. by apply described_send.
  - simplify_eq. by apply described_drop.
  - by eapply described_receive.
Qed.

(** What a subscription is answered. *)
Definition position (r : StreamRegistry F) (rx : Receiver) : option (Sender * nat) :=
  cursors (hub (channels r)) !! rx.

Lemma subscribe_answer c0 h r key x r' :
  chans (hub c0) = ∅ -> executes c0 h r -> relay_exec (Subscribe key) r = (x, r') ->
  match publisher key h with
  | None => x = None /\ r' = r
  | Some s => exists rx,
      x = Some {| receiver := rx;
                  video_header := latest sets_video key h;
                  audio_header := latest sets_audio key h;
                  metadata := latest sets_metadata key h;
                  header := latest sets_ntdf key h |} /\
      position r' rx = Some (s, length (frames s h)) /\
      sent <$> chan_at r' s = Some (frames s h)
  end.
Proof.
  intros H0 He. pose proof (executes_described _ _ _ H0 He) as [Hs Hf Ho].
  simpl. unfold subscribe. rewrite Hs. destruct (publisher key h) as [s|] eqn:Hp; simpl.
  2: by intros [= <- <-].
  destruct (subscribe_to s (channels r)) as [rx c] eqn:E. intros [= <- <-].
  apply subscribe_hub in E as [_ E]. destruct (Ho _ _ Hp) as [ch Hch].
  exists rx. split; [done|]. unfold position, chan_at in *. simpl. rewrite E. simpl.
  rewrite Hch, lookup_insert_eq. simpl. by rewrite (Hf s ch Hch).
Qed.

(** C31: the registry implements its abstract description: whatever interleaving of
    connections led to the current state, a subscription is refused where the latest
    publication of the key has been withdrawn (or there was none), and otherwise answers the
    video header, audio header, metadata and NanoTDF header set last since that publication,
    with a receiver of the channel of exactly that publisher, placed after all frames it has
    sent so far. *)
Theorem relay_refines_history c0 h r key x r' :
  chans (hub c0) = ∅ -> executes c0 h r -> relay_exec (Subscribe key) r = (x, r') ->
  match publisher key h with
  | None => x = None /\ r' = r
  | Some s => exists rx,
      x = Some {| receiver := rx;
                  video_header := latest sets_video key h;
                  audio_header := latest sets_audio key h;
                  metadata := latest sets_metadata key h;
                  header := latest sets_ntdf key h |} /\
      position r' rx = Some (s, length (frames s h)) /\
      sent <$> chan_at r' s = Some (frames s h)
  end.
Proof.
  apply subscribe_answer.
Qed.

(** ** Frames are received in order *)

Definition received (rx : Receiver) (c : command) : option RelayFrame :=
  match projT2 c with
  | (op, x) =>
    match op in relay_op _ X return X -> option RelayFrame with
    | ReceiveFrame rx' => fun x =>
        match x with
        | Some (Ok f) => if decide (rx' = rx) then Some f else None
        | _ => None
        end
    | _ => fun _ => None
    end x
  end.

Definition lags (rx : Receiver) (c : command) : bool :=
  match projT2 c with
  | (op, x) =>
    match op in relay_op _ X return X -> bool with
    | ReceiveFrame rx' => fun x =>
        match x with
        | Some (Err (Lagged _)) => bool_decide (rx' = rx)
        | _ => false
        end
    | _ => fun _ => false
    end x
  end.

(** Only receiving moves a receiver. *)
Lemma position_on_chan r s f rx c :
  hub c = on_chan s f (hub (channels r)) -> cursors (hub c) !! rx = position r rx.
Proof. by intros ->. Qed.

Lemma position_subscribe r s rx0 c rx p :
  subscribe_to s (channels r) = (rx0, c) -> position r rx = Some p ->
  cursors (hub c) !! rx = Some p.
Proof.
  intros [Hnew E]%subscribe_hub Hp. rewrite E. simpl. unfold position in Hp.
  case_match; [|done]. rewrite lookup_insert_ne; [done|]. intros ->. by rewrite Hp in Hnew.
Qed.

Lemma position_remove key r rx : position (remove key r) rx = position r rx.
Proof.
  unfold remove. destruct (streams r !! key) as [a|]; [|done].
  apply (position_on_chan r (frame_sender a) fewer_handles), drop_hub.
Qed.

Lemma position_register key r s r' rx :
  register_publisher key r = (s, r') -> position r' rx = position r rx.
Proof.
  unfold register_publisher. destruct (channel _ _) as [s0 c] eqn:E. intros [= <- <-].
  apply channel_hub in E as [_ E]. unfold position at 1. simpl. rewrite clone_hub, E. simpl.
  apply position_remove.
Qed.

(** The answer of a receiver that is not moved by others. *)
Lemma receive_at r rx x r' s n ch :
  relay_exec (F := F) (ReceiveFrame rx) r = (x, r') ->
  position r rx = Some (s, n) -> chan_at r s = Some ch ->
  x = fst <$> hub_next ch n /\
  position r' rx = Some (s, from_option snd n (hub_next ch n)).
Proof.
  simpl. intros Hx Hp Hc. pose proof (recv_hub rx (channels r)) as Hr.
  unfold hub_recv in Hr. unfold position, chan_at in *. rewrite Hp, Hc in Hr.
  destruct (recv rx (channels r)) as [[y c]|]; simpl in Hr; simplify_eq/=;
    destruct (hub_next ch n) as [[z m]|]; simplify_eq/=; [|done].
  split; [done|]. match goal with H : hub c = _ |- _ => rewrite H end. simpl.
  by rewrite lookup_insert_eq.
Qed.

Lemma receive_other r rx x r' rx' p :
  relay_exec (F := F) (ReceiveFrame rx) r = (x, r') -> rx <> rx' ->
  position r rx' = Some p -> position r' rx' = Some p.
Proof.
  simpl. intros Hx Hne Hp. pose proof (recv_hub rx (channels r)) as Hr.
  destruct (recv rx (channels r)) as [[y c]|]; simplify_eq/=; [|done].
  unfold hub_recv in Hr. repeat case_match; simplify_eq/=. unfold position. simpl.
  match goal with H : hub c = _ |- _ => rewrite H end. simpl. by rewrite lookup_insert_ne.
Qed.

Definition receives (rx : Receiver) (c : command) : bool :=
  match fst (projT2 c) with
  | ReceiveFrame rx' => bool_decide (rx' = rx)
  | _ => false
  end.

Lemma position_kept r X (op : relay_op F X) x r' rx p :
  relay_exec op r = (x, r') -> receives rx (did op x) = false ->
  position r rx = Some p -> position r' rx = Some p.
Proof.
  intros Hx Hn Hp. destruct op; simpl in Hx; simplify_eq; try done.
  - by rewrite (position_register _ _ _ _ _ Hx).
  - unfold unregister_publisher. by rewrite position_remove.
  - unfold subscribe in Hx. case_match; [|by simplify_eq].
    destruct (subscribe_to _ _) as [rx0 c] eqn:E. simplify_eq. by eapply position_subscribe.
  - rewrite <-Hp. apply (position_on_chan r s (push f)), send_hub.
  - rewrite <-Hp. apply (position_on_chan r s fewer_handles), drop_hub.
  - eapply receive_other; eauto. intros ->. by apply bool_decide_eq_false in Hn.
Qed.

(** A channel stays, and no later publication is given its sender. *)
Lemma chan_kept r X (op : relay_op F X) x r' s :
  relay_exec op r = (x, r') -> is_Some (chan_at r s) ->
  is_Some (chan_at r' s) /\ opens s (did op x) = false.
Proof.
  intros Hx Hs. destruct op; simpl in Hx; simplify_eq; try done.
  - unfold register_publisher in Hx. destruct (channel _ _) as [s0 c] eqn:E. simplify_eq.
    apply channel_hub in E as [Hnew E].
    pose proof (proj2 (remove_chans key r s) Hs) as [ch Hch].
    assert (x <> s) as Hne by (intros ->; unfold chan_at in Hch; congruence).
    split; [|by apply bool_decide_eq_false].
    unfold chan_at. simpl. rewrite clone_hub, E. simpl.
    rewrite lookup_alter_ne, lookup_insert_ne by done. by exists ch.
  - split; [by apply remove_chans|done].
  - split; [|done]. unfold subscribe in Hx. case_match; [|by simplify_eq].
    destruct (subscribe_to _ _) as [rx c] eqn:E. simplify_eq.
    apply subscribe_hub in E as [_ E]. unfold chan_at. simpl. by rewrite E.
  - split; [|done]. unfold chan_at. simpl. rewrite (chan_at_on_chan r s0 (push f)) by apply send_hub.
    case_decide; [by apply fmap_is_Some|done].
  - split; [|done]. apply (chan_at_drop r s0 s), Hs. apply drop_hub.
  - split; [|done]. pose proof (recv_hub rx (channels r)) as Hr.
    destruct (recv rx (channels r)) as [[y c]|]; simplify_eq/=; [|done].
    unfold hub_recv in Hr. repeat case_match; simplify_eq/=. unfold chan_at. simpl.
    by match goal with H : hub c = _ |- _ => rewrite H end.
Qed.

(** What a channel can become: it only gets longer, and no longer once its last sender is
    dropped. *)
Definition grows (ch ch' : Chan) : Prop :=
  sent ch `prefix_of` sent ch' /\ capacity ch' = capacity ch /\ (handles ch = 0 -> ch' = ch).

#[export] Instance grows_preorder : PreOrder grows.
Proof.
  split; [by intros ch|]. intros c1 c2 c3 (P1 & C1 & H1) (P2 & C2 & H2).
  split_and!; [by etrans|congruence|]. intros H0. specialize (H1 H0). subst. by apply H2.
Qed.

Lemma grows_fewer ch : grows ch (fewer_handles ch).
Proof.
  split_and!; [done|done|]. intros H0. destruct ch as [c h l]. simpl in *. by subst.
Qed.

Lemma chan_grows_on r s s' f c ch :
  hub c = on_chan s' f (hub (channels r)) -> chan_at r s = Some ch ->
  (s' = s -> grows ch (f ch)) ->
  exists ch', chans (hub c) !! s = Some ch' /\ grows ch ch'.
Proof.
  intros Hc Hs Hf. rewrite (chan_at_on_chan r s' f s c Hc), Hs. case_decide; subst; eauto.
  by exists ch.
Qed.

Lemma chan_grows_remove key r s ch :
  chan_at r s = Some ch -> exists ch', chan_at (remove key r) s = Some ch' /\ grows ch ch'.
Proof.
  intros Hs. unfold remove. case_match; [|by exists ch].
  eapply chan_grows_on; [apply drop_hub|done|]. intros _. apply grows_fewer.
Qed.

(** A frame is sent through a sender that is still held. *)
Definition held {X} (op : relay_op F X) (r : StreamRegistry F) : Prop :=
  match op with
  | SendFrame s _ => exists ch, chan_at r s = Some ch /\ handles ch <> 0
  | _ => True
  end.

Lemma chan_grows r X (op : relay_op F X) x r' s ch :
  relay_exec op r = (x, r') -> held op r -> chan_at r s = Some ch ->
  exists ch', chan_at r' s = Some ch' /\ grows ch ch'.
Proof.
  intros Hx Hh Hs. destruct op; simpl in Hx; simplify_eq/=; try by exists ch.
  - unfold register_publisher in Hx. destruct (channel _ _) as [s0 c] eqn:E. simplify_eq.
    apply channel_hub in E as [Hnew E].
    destruct (chan_grows_remove key r s ch Hs) as (ch' & Hch & Hg). exists ch'. split; [|done].
    assert (x <> s) as Hne by (intros ->; unfold chan_at in Hch; congruence).
    unfold chan_at. simpl. rewrite clone_hub, E. simpl.
    by rewrite lookup_alter_ne, lookup_insert_ne by done.
  - by apply chan_grows_remove.
  - exists ch. split; [|done]. unfold subscribe in Hx. case_match; [|by simplify_eq].
    destruct (subscribe_to _ _) as [rx c] eqn:E. simplify_eq.
    apply subscribe_hub in E as [_ E]. unfold chan_at. simpl. by rewrite E.
  - eapply chan_grows_on; [apply send_hub|done|]. intros ->.
    destruct Hh as (ch0 & Hc0 & Hh). rewrite Hc0 in Hs. simplify_eq.
    split_and!; [by eexists|done|done].
  - eapply chan_grows_on; [apply drop_hub|done|]. intros _. apply grows_fewer.
  - exists ch. split; [|done]. pose proof (recv_hub rx (channels r)) as Hr.
    destruct (recv rx (channels r)) as [[y c]|]; simplify_eq/=; [|done].
    unfold hub_recv in Hr. repeat case_match; simplify_eq/=. unfold chan_at. simpl.
    by match goal with H : hub c = _ |- _ => rewrite H end.
Qed.

(** The frames a channel was sent after the history [h]. *)
Definition offered (s : Sender) (h : list command) : list RelayFrame :=
  reverse (omap (frame_to s) h).
Definition got (rx : Receiver) (h : list command) : list RelayFrame :=
  reverse (omap (received rx) h).

Record follows (s : Sender) (rx : Receiver) (h h' : list command) (r : StreamRegistry F) : Prop := {
  follows_open : is_Some (chan_at r s);
  follows_frames : frames s (h' ++ h) = frames s h ++ offered s h';
  follows_prefix : got rx h' `prefix_of` offered s h';
  follows_at : position r rx = Some (s, length (frames s h) + length (got rx h'));
}.

Lemma offered_cons s c h :
  offered s (c :: h) = offered s h ++ match frame_to s c with Some f => [f] | None => [] end.
Proof.
  unfold offered. simpl. destruct (frame_to s c); simpl; [by rewrite reverse_cons|].
  by rewrite app_nil_r.
Qed.

Lemma got_cons rx c h :
  got rx (c :: h) = got rx h ++ match received rx c with Some f => [f] | None => [] end.
Proof.
  unfold got. simpl. destruct (received rx c); simpl; [by rewrite reverse_cons|].
  by rewrite app_nil_r.
Qed.

Lemma receives_false rx c : receives rx c = false -> received rx c = None.
Proof.
  destruct c as [X [op x]]. destruct op; try done. unfold receives, received. simpl.
  intros Hn%bool_decide_eq_false. by repeat case_match.
Qed.

(** The answer of a receiver that follows a channel. *)
Lemma follows_answer s rx h h' r ch f :
  described (h' ++ h) r -> follows s rx h h' r -> chan_at r s = Some ch ->
  sent ch !! (length (frames s h) + length (got rx h')) = Some f ->
  got rx h' ++ [f] `prefix_of` offered s h'.
Proof.
  intros Hd [_ Hf [k Hk] _] Hch. rewrite (described_frames _ _ Hd _ _ Hch), Hf.
  rewrite lookup_app_r by lia.
  replace (_ + _ - _) with (length (got rx h')) by lia.
  rewrite Hk, lookup_app_r, Nat.sub_diag by done. destruct k as [|f' k]; [done|].
  intros [= ->]. exists k. by rewrite <-app_assoc.
Qed.

Lemma hub_next_cases ch n :
  match hub_next ch n with
  | Some (Ok f, m) => sent ch !! n = Some f /\ m = Datatypes.S n
  | Some (Err (Lagged _), _) => True
  | Some (Err Closed, m) => m = n
  | None => True
  end.
Proof. unfold hub_next. repeat case_match; simplify_eq; auto. Qed.

Lemma follows_receive s rx h h' r x r' :
  described (h' ++ h) r -> follows s rx h h' r ->
  relay_exec (F := F) (ReceiveFrame rx) r = (x, r') -> lags rx (did (ReceiveFrame rx) x) = false ->
  let c := did (ReceiveFrame rx) x in
  got rx (c :: h') `prefix_of` offered s h' /\
  position r' rx = Some (s, length (frames s h) + length (got rx (c :: h'))).
Proof.
  intros Hd Hfo Hx Hl c. destruct (follows_open _ _ _ _ _ Hfo) as [ch Hch].
  destruct (receive_at _ _ _ _ _ _ _ Hx (follows_at _ _ _ _ _ Hfo) Hch) as [-> ->].
  pose proof (fun f => follows_answer s rx h h' r ch f Hd Hfo Hch) as Hans. subst c. rewrite got_cons.
  unfold lags, received in *. simpl in *.
  pose proof (hub_next_cases ch (length (frames s h) + length (got rx h'))) as Hn.
  destruct (hub_next ch _) as [[[f|[n|]] m]|]; simpl in *.
  - destruct Hn as [Hn ->]. rewrite decide_True, length_app by done. simpl.
    split; [by apply Hans|]. do 2 f_equal. lia.
  - by apply bool_decide_eq_false in Hl.
  - subst m. rewrite app_nil_r. by split; [apply Hfo|].
  - rewrite app_nil_r. by split; [apply Hfo|].
Qed.

Lemma follows_step s rx h h' r X (op : relay_op F X) x r' :
  described (h' ++ h) r -> follows s rx h h' r -> relay_exec op r = (x, r') ->
  lags rx (did op x) = false -> follows s rx h (did op x :: h') r'.
Proof.
  intros Hd Hfo Hx Hl. pose proof Hfo as [Ho Hf Hp Ha].
  destruct (chan_kept _ _ _ _ _ s Hx Ho) as [Ho' Hop].
  assert (frames s ((did op x :: h') ++ h) = frames s h ++ offered s (did op x :: h')) as Hf'.
  { rewrite offered_cons, app_assoc, <-Hf. by apply frames_cons. }
  destruct (receives rx (did op x)) eqn:Hr.
  - destruct op; try done. apply bool_decide_eq_true in Hr as ->.
    destruct (follows_receive _ _ _ _ _ _ _ Hd Hfo Hx Hl) as [Hp' Ha'].
    by split.
  - split; try done.
    + rewrite got_cons, offered_cons, (receives_false _ _ Hr), app_nil_r.
      by apply prefix_app_r.
    + rewrite got_cons, (receives_false _ _ Hr), app_nil_r. by eapply position_kept.
Qed.

Lemma executes_app c0 h' h r :
  executes c0 (h' ++ h) r -> exists r0, executes c0 h r0.
Proof.
  revert r. induction h' as [|c h' IH]; simpl; intros r He; [eauto|]. inversion He; eauto.
Qed.

Lemma follows_executes c0 s rx h h' r :
  chans (hub c0) = ∅ -> executes c0 (h' ++ h) r -> Forall (fun c => lags rx c = false) h' ->
  (forall r0, executes c0 h r0 -> follows s rx h [] r0) -> follows s rx h h' r.
Proof.
  intros H0 He Hl Hs. revert r He. induction Hl as [|c h' Hc Hl IH]; intros r He; [by apply Hs|].
  simpl in He. inversion He as [|h0 r0 c' r' He0 Hx]; subst.
  destruct c as [X [op x]].
  eapply follows_step; eauto. by eapply executes_described.
Qed.

(** C33: frames are relayed in order, without loss or repetition: in every interleaving, as
    long as a subscriber is not told that it lagged, the frames it has received are the first
    of those its publisher's channel was sent after the subscription. *)
Theorem frames_received_in_order c0 h h' r key sub s :
  chans (hub c0) = ∅ -> executes c0 (h' ++ did (Subscribe key) (Some sub) :: h) r ->
  publisher key h = Some s -> Forall (fun c => lags (receiver sub) c = false) h' ->
  got (receiver sub) h' `prefix_of` offered s h'.
Proof.
  intros H0 He Hp Hl.
  eapply follows_prefix, (follows_executes c0 s _ (did (Subscribe key) (Some sub) :: h)); eauto.
  intros r1 He1. inversion He1 as [|h0 r0 c r' He0 Hx]. subst.
  pose proof (subscribe_answer _ _ _ _ _ _ H0 He0 Hx) as Hr. rewrite Hp in Hr.
  destruct Hr as (rx & [= ->] & Hpos & (ch & Hch & _)%fmap_Some). simpl.
  split; [by exists ch| | |].
  - by rewrite app_nil_r.
  - done.
  - simpl. rewrite Nat.add_0_r, Hpos. by rewrite frames_cons, app_nil_r by done.
Qed.
End RelayProps.

(** ** A concrete history

    A publication, a video header, a frame, a subscription and its first frame. *)
Definition sample_frame : RelayFrame :=
  {| frame_type := Video; frame_timestamp := 40; frame_data := [x17; x01; xab] |}.

Definition sample_history : list (command (F := unit)) :=
  [did (SendFrame sample_tx sample_frame) tt;
   did (SetVideoSequenceHeader "live/a" [x17; x00]) tt;
   did (RegisterPublisher "live/a") sample_tx].

Lemma relay_refines_history_witness :
  exists r x r', executes no_channels sample_history r /\
    relay_exec (Subscribe "live/a") r = (x, r') /\
    match publisher "live/a" sample_history with
    | None => x = None /\ r' = r
    | Some s => exists rx,
        x = Some {| receiver := rx;
                    video_header := latest sets_video "live/a" sample_history;
                    audio_header := latest sets_audio "live/a" sample_history;
                    metadata := latest sets_metadata "live/a" sample_history;
                    header := latest sets_ntdf "live/a" sample_history |} /\
        position r' rx = Some (s, length (frames s sample_history)) /\
        sent <$> chan_at r' s = Some (frames s sample_history)
    end.
Proof.
  assert (exists r, executes no_channels sample_history r) as [r Hr].
  { eexists. eapply executes_op; [eapply executes_op; [eapply executes_op; [constructor|]|]|];
      reflexivity. }
  destruct (relay_exec (Subscribe "live/a") r) as [x r'] eqn:Hx.
  exists r, x, r'. split; [done|]. split; [done|].
  exact (relay_refines_history no_channels sample_history r "live/a" x r' eq_refl Hr Hx).
Defined.

Definition sample_subscription : Subscription unit :=
  {| receiver := sample_rx; video_header := None; audio_header := None; metadata := None;
     header := None |}.

Definition sample_publication : list (command (F := unit)) :=
  [did (RegisterPublisher "live/a") sample_tx].

Definition sample_delivery : list (command (F := unit)) :=
  [did (ReceiveFrame sample_rx) (Some (Ok sample_frame));
   did (SendFrame sample_tx sample_frame) tt].

Lemma frames_received_in_order_witness :
  got (receiver sample_subscription) sample_delivery `prefix_of`
  offered sample_tx sample_delivery.
Proof.
  assert (exists r, executes no_channels
    (sample_delivery ++ did (Subscribe "live/a") (Some sample_subscription) :: sample_publication) r)
    as [r Hr].
  { eexists. eapply executes_op;
      [eapply executes_op; [eapply executes_op; [eapply executes_op; [constructor|]|]|]|];
      reflexivity. }
  eapply (frames_received_in_order no_channels sample_publication sample_delivery r "live/a");
    [done|done|done|]. repeat constructor.
Defined.
