(* ===== verification/RtmpSession.v ===== *)
(** * RTMP connections (src/src/modules/rtmp/session.rs and server.rs)

    A connection is a thread: a program over [rtmp_event] that performs one round of the
    handshake or of the session loop and says how to go on.  The methods of [RtmpSession]
    thread the session, may fail with [?] and may panic ([session_io]).  [pool] is the
    server: connections are accepted at any time, and at each step one thread performs its
    next event. *)
From coqutil Require Import Datatypes.RecordSettersUsingExistingGetters.
From S2P Require Import Prelude Services NanoTdf RtmpRelay RtmpMedia.

(** ** Data *)

Inductive SessionRole : Set := Unknown | Publisher | Subscriber.

Inductive EncryptionMode : Set := Pending | Encrypted | Passthrough.

#[export] Instance session_role_eq_dec : EqDecision SessionRole.
Proof. solve_decision. Defined.
#[export] Instance encryption_mode_eq_dec : EqDecision EncryptionMode.
Proof. solve_decision. Defined.

(** An I/O error is the text it displays. *)
Inductive SessionError : Set :=
| IoError (e : string)
| RtmpError (e : string)
| SessionEncryptionError (e : string)
| SessionManifestError (e : string)
| NoManifest.

Definition session_error_text (e : SessionError) : string :=
  match e with
  | IoError e => "IO error: " +:+ e
  | RtmpError e => "RTMP error: " +:+ e
  | SessionEncryptionError e => "Encryption error: " +:+ e
  | SessionManifestError e => "Manifest error: " +:+ e
  | NoManifest => "No TDF manifest received"
  end.

Section Session.
Context {crates : RtmpCrates} {broadcast : Broadcast}.
(** Whether the logger formats messages of level info. *)
Context (info_enabled : bool).
Open Scope rust_scope.

(** The fields that only feed the log are left out: the time of the last report. *)
Record RtmpSession := {
  role : SessionRole;
  encryption_mode : EncryptionMode;
  session_key : option string;
  manifest : option NanoTdfManifest;
  collection : option Collection;
  decryptor : option Decryptor;
  kas_private_key : bytes;
  session_sender : option Sender;
  frame_receiver : option Receiver;
  subscriber_stream_id : option Z;
  metadata_received : bool;
  event_broadcaster : option StreamEventBroadcaster;
  started_event_sent : bool;
  cached_video_header : option bytes;
  cached_audio_header : option bytes;
  cached_metadata : option (StreamMetadata StandardFields);
  cached_ntdf_header : option string;
  headers_sent : bool;
  frame_count : Z;
  bytes_received : Z;
}.

(** [RtmpSession::new]; an invalid key panics. *)
Definition RtmpSession_new (key : bytes) (events : option StreamEventBroadcaster) :
    outcome RtmpSession :=
  match secret_key_pkcs8 key with
  | Some der =>
    Done {| role := Unknown; encryption_mode := Pending; session_key := None;
            manifest := None; collection := None; decryptor := None;
            kas_private_key := der; session_sender := None; frame_receiver := None;
            subscriber_stream_id := None; metadata_received := false;
            event_broadcaster := events; started_event_sent := false;
            cached_video_header := None; cached_audio_header := None;
            cached_metadata := None; cached_ntdf_header := None; headers_sent := false;
            frame_count := 0; bytes_received := 0 |}
  | None => Panic
  end.

(** ** Methods of a session *)

Definition session_io (A : Type) : Type :=
  RtmpSession -> rio (outcome (result A SessionError) * RtmpSession).

Definition done {A} (a : A) : session_io A := fun s => Ret (Done (Ok a), s).
Definition fail {A} (e : SessionError) : session_io A := fun s => Ret (Done (Err e), s).
Definition panic {A} : session_io A := fun s => Ret (Panic, s).
Definition self : session_io RtmpSession := fun s => Ret (Done (Ok s), s).
Definition modify (f : RtmpSession -> RtmpSession) : session_io unit :=
  fun s => Ret (Done (Ok tt), f s).
Definition io {A} (m : rio A) : session_io A := fun s => let* a := m in Ret (Done (Ok a), s).

Definition sbind {A B} (m : session_io A) (k : A -> session_io B) : session_io B := fun s =>
  let* r := m s in
  match r with
  | (Done (Ok a), s) => k a s
  | (Done (Err e), s) => Ret (Done (Err e), s)
  | (Panic, s) => Ret (Panic, s)
  end.

Notation "'let^' x := m 'in' k" := (sbind m (fun x => k))
  (at level 10, x pattern, m at level 100, k at level 200) : rust_scope.
Notation "m ;^ k" := (sbind m (fun _ : unit => k))
  (at level 100, k at level 200, right associativity) : rust_scope.

Definition of_result {A} (r : result A SessionError) : session_io A := fun s => Ret (Done r, s).

(** [.await?] on the socket. *)
Definition read : session_io bytes :=
  let^ r := io (trigger SocketRead) in of_result (map_err IoError r).
Definition write_all (b : bytes) : session_io unit :=
  let^ r := io (trigger (SocketWrite b)) in of_result (map_err IoError r).

(** A call of rml_rtmp: a panic in it is one of the caller. *)
Definition rml {A} (e : rtmp_event (unwind (result A string))) : session_io A :=
  let^ r := io (trigger e) in
  match r with
  | Returned r => of_result (map_err RtmpError r)
  | Unwound _ => panic
  end.

(** The same call under [catch_unwind]. *)
Definition payload_text (default : string) (p : panic_payload) : string :=
  match p with
  | StrPayload s | StringPayload s => s
  | OtherPayload => default
  end.

Definition caught {A} (prefix default : string) (r : unwind (result A string)) :
    session_io A :=
  match r with
  | Returned r => of_result (map_err RtmpError r)
  | Unwound p => fail (RtmpError (prefix +:+ payload_text default p))
  end.

Definition safe_handle_input (input : bytes) :
    session_io (list (ServerSessionResult StandardFields)) :=
  let^ r := io (trigger (HandleInput input)) in
  caught "RTMP deserializer panic: " "Unknown panic in RTMP deserializer" r.

Definition safe_send_video (stream_id : Z) (d : bytes) (ts : Z) : session_io bytes :=
  let^ r := io (trigger (SendVideoData stream_id d ts)) in
  caught "RTMP send panic: " "Unknown panic in RTMP video send" r.

Definition safe_send_audio (stream_id : Z) (d : bytes) (ts : Z) : session_io bytes :=
  let^ r := io (trigger (SendAudioData stream_id d ts)) in
  caught "RTMP send panic: " "Unknown panic in RTMP audio send" r.

(** ** Classification of media *)

Definition is_video_sequence_header (d : bytes) : bool :=
  match d with
  | b0 :: b1 :: _ =>
    let frame_type := Z.land (Z.shiftr (b2z b0) 4) 15 in
    let codec_id := Z.land (b2z b0) 15 in
    (frame_type =? 1)%Z && ((codec_id =? 7)%Z || (codec_id =? 12)%Z) && (b2z b1 =? 0)%Z
  | _ => false
  end.

Definition is_ntdf_header_frame (d : bytes) : bool :=
  match d with
  | _ :: _ :: _ :: _ :: _ :: b5 :: b6 :: b7 :: b8 :: _ =>
    (b2z b5 =? 78)%Z && (b2z b6 =? 84)%Z && (b2z b7 =? 68)%Z && (b2z b8 =? 70)%Z
  | _ => false
  end.

Definition is_audio_sequence_header (d : bytes) : bool :=
  match d with
  | b0 :: b1 :: _ =>
    let sound_format := Z.land (Z.shiftr (b2z b0) 4) 15 in
    (sound_format =? 10)%Z && (b2z b1 =? 0)%Z
  | _ => false
  end.

(** ** Relaying *)

Definition relay_frame (f : RelayFrame) : session_io unit :=
  let^ s := self in
  match session_sender s with
  | Some sender => io (relay (SendFrame sender f))
  | None => done tt
  end.

Definition frame (t : FrameType) (d : bytes) (ts : Z) : RelayFrame :=
  {| frame_type := t; frame_timestamp := ts; frame_data := d |}.

Definition encryption_failed {A} (r : result A EncryptionError) : result A SessionError :=
  map_err (fun e => SessionEncryptionError (encryption_error_text e)) r.

Definition set_manifest_subscriber (m : NanoTdfManifest) : session_io unit :=
  let^ s := self in
  let^ d := of_result (encryption_failed
              (create_decryptor_kas (header_bytes m) (kas_private_key s))) in
  modify (fun s => s <| manifest := Some m |> <| decryptor := Some d |>
                     <| encryption_mode := Encrypted |>).

Definition set_collection (c : Collection) (s : RtmpSession) : RtmpSession :=
  s <| collection := Some c |> <| encryption_mode := Encrypted |>.

Definition get_manifest (s : RtmpSession) : option NanoTdfManifest := manifest s.

Definition is_encryption_ready (s : RtmpSession) : bool :=
  match role s with
  | Publisher => bool_decide (is_Some (collection s))
  | Subscriber => bool_decide (is_Some (decryptor s))
  | Unknown => false
  end.

Definition emit_stream_started_if_needed : session_io unit :=
  let^ s := self in
  if started_event_sent s then done tt else
  if negb (bool_decide (role s = Publisher)) then done tt else
  match session_key s, event_broadcaster s with
  | Some key, Some b =>
    let manifest_header := (fun m => base64_standard (header_bytes m)) <$> manifest s in
    let^ _ := io (stream_started b key manifest_header None) in
    modify (fun s => s <| started_event_sent := true |>)
  | _, _ => done tt
  end.

(** ** Media *)

Definition count_frame : session_io unit :=
  modify (fun s => s <| frame_count := ((frame_count s + 1) mod 2 ^ 64)%Z |>).

(** A publisher's frame under [Encrypted]: encrypted here where the session has a
    collection, else as the client sent it.  [rotation] asks the collection first whether
    its counter is running out, which is only logged. *)
Definition relay_encrypted (rotation : bool) (t : FrameType) (d : bytes) (ts : Z) :
    session_io unit :=
  let^ s := self in
  match collection s with
  | Some c =>
    (if rotation then let^ _ := io (rotation_threshold_reached c) in done tt else done tt) ;^
    let^ r := io (encrypt_item c d) in
    let^ encrypted := of_result (encryption_failed r) in
    relay_frame (frame t encrypted ts)
  | None => relay_frame (frame t d ts)
  end.

(** A subscriber decrypts what it sends, and drops it. *)
Definition decrypt_incoming (d : bytes) : session_io unit :=
  let^ s := self in
  match encryption_mode s, decryptor s with
  | Encrypted, Some dec =>
    let^ _ := of_result (encryption_failed (decrypt_item dec d)) in done tt
  | _, _ => done tt
  end.

Definition handle_video_data (d : bytes) (ts : Z) : session_io unit :=
  count_frame ;^
  let^ s := self in
  match role s with
  | Publisher =>
    emit_stream_started_if_needed ;^
    (match session_key s with
     | Some key =>
       if is_video_sequence_header d then io (relay (SetVideoSequenceHeader key d)) else done tt
     | None => done tt
     end) ;^
    match encryption_mode s with
    | Encrypted => relay_encrypted true Video d ts
    | Passthrough => relay_frame (frame Video d ts)
    | Pending =>
      if negb (metadata_received s) then
        modify (fun s => s <| encryption_mode := Passthrough |>) ;^
        relay_frame (frame Video d ts)
      else done tt
    end
  | Subscriber => decrypt_incoming d
  | Unknown => done tt
  end.

Definition handle_audio_data (d : bytes) (ts : Z) : session_io unit :=
  count_frame ;^
  let^ s := self in
  match role s with
  | Publisher =>
    (match session_key s with
     | Some key =>
       if is_audio_sequence_header d then io (relay (SetAudioSequenceHeader key d)) else done tt
     | None => done tt
     end) ;^
    match encryption_mode s with
    | Encrypted => relay_encrypted false Audio d ts
    | Passthrough => relay_frame (frame Audio d ts)
    | Pending => done tt
    end
  | Subscriber => decrypt_incoming d
  | Unknown => done tt
  end.

(** ** Metadata *)

(** [&s[..s.len().min(n)]] is in range where it ends at the boundary of a character. *)
Definition is_char_boundary (s : string) (n : nat) : bool :=
  match as_bytes s !! n with
  | Some b => negb (cont b)
  | None => n =? String.length s
  end.

(** The message that shows the first fifty bytes of a header. *)
Definition log_header_prefix (h : string) : session_io unit :=
  if info_enabled && negb (is_char_boundary h (String.length h `min` 50)) then panic
  else done tt.

Definition when_pending (m : EncryptionMode) : session_io unit :=
  modify (fun s => if bool_decide (encryption_mode s = Pending)
                   then s <| encryption_mode := m |> else s).

Definition handle_metadata (m : StreamMetadata StandardFields) : session_io unit :=
  let^ s := self in
  match session_key s with
  | Some key =>
    io (relay (SetStreamMetadata key m)) ;^
    match custom_fields m !! "ntdf_header" with
    | Some h =>
      log_header_prefix h ;^
      io (relay (SetNtdfHeader key h)) ;^
      when_pending Encrypted
    | None => when_pending Passthrough
    end
  | None => when_pending Passthrough
  end.

(** [HashMap::get] on the entries of an object. *)
Definition amf_get (key : string) (fields : list (string * Amf0Value)) : option Amf0Value :=
  snd <$> List.find (fun f => String.eqb (fst f) key) fields.

Fixpoint extract_ntdf_from_value (v : Amf0Value) : option string :=
  match v with
  | Object fields =>
    match amf_get "ntdf_header" fields with
    | Some (Utf8String h) => Some h
    | _ =>
      (fix values (l : list (string * Amf0Value)) : option string :=
         match l with
         | [] => None
         | (_, v) :: l =>
           match extract_ntdf_from_value v with
           | Some h => Some h
           | None => values l
           end
         end) fields
    end
  | StrictArray arr =>
    (fix values (l : list Amf0Value) : option string :=
       match l with
       | [] => None
       | v :: l =>
         match extract_ntdf_from_value v with
         | Some h => Some h
         | None => values l
         end
       end) arr
  | _ => None
  end.

Fixpoint extract_ntdf_header_from_amf (values : list Amf0Value) : session_io unit :=
  match values with
  | [] => done tt
  | v :: values =>
    match extract_ntdf_from_value v with
    | Some h =>
      log_header_prefix h ;^
      let^ s := self in
      match session_key s with
      | Some key => io (relay (SetNtdfHeader key h))
      | None => done tt
      end
    | None => extract_ntdf_header_from_amf values
    end
  end.

(** ** Events of the RTMP library *)

(** Assigning the sender drops the one it replaces. *)
Definition replace_sender (sender : Sender) : session_io unit :=
  let^ s := self in
  modify (fun s => s <| session_sender := Some sender |>) ;^
  match session_sender s with
  | Some old => io (relay (DropSender old))
  | None => done tt
  end.

Definition handle_event (e : ServerSessionEvent StandardFields) : session_io (option Z) :=
  match e with
  | ConnectionRequested request_id _ => done (Some request_id)
  | PublishStreamRequested request_id app_name key =>
    let full_key := app_name +:+ "/" +:+ key in
    modify (fun s => s <| role := Publisher |> <| session_key := Some full_key |>) ;^
    let^ sender := io (relay (RegisterPublisher full_key)) in
    replace_sender sender ;^
    done (Some request_id)
  | PlayStreamRequested request_id app_name key stream_id =>
    let full_key := app_name +:+ "/" +:+ key in
    modify (fun s => s <| role := Subscriber |> <| session_key := Some full_key |>
                       <| subscriber_stream_id := Some stream_id |>) ;^
    let^ sub := io (relay (Subscribe full_key)) in
    (match sub with
     | Some sub =>
       modify (fun s => s <| frame_receiver := Some (receiver sub) |>
                          <| cached_video_header := video_header sub |>
                          <| cached_audio_header := audio_header sub |>
                          <| cached_metadata := metadata sub |>
                          <| cached_ntdf_header := header sub |>)
     | None => done tt
     end) ;^
    let^ m := io (lift (get_cached_manifest full_key)) in
    (match m with
     | Ok m => set_manifest_subscriber m
     | Err _ => modify (fun s => s <| encryption_mode := Passthrough |>)
     end) ;^
    done (Some request_id)
  | StreamMetadataChanged _ _ m =>
    modify (fun s => s <| metadata_received := true |>) ;^
    handle_metadata m ;^
    done None
  | VideoDataReceived d ts => handle_video_data d ts ;^ done None
  | AudioDataReceived d ts => handle_audio_data d ts ;^ done None
  | UnhandleableAmf0Command command_name additional_values =>
    (if String.eqb command_name "@setDataFrame" || String.eqb command_name "onMetaData"
     then extract_ntdf_header_from_amf additional_values else done tt) ;^
    done None
  | OtherEvent => done None
  end.

Definition process_result (r : ServerSessionResult StandardFields) : session_io (option Z) :=
  match r with
  | OutboundResponse packet => write_all packet ;^ done None
  | RaisedEvent e => handle_event e
  | UnhandleableMessageReceived => done None
  end.

Fixpoint send_responses (rs : list (ServerSessionResult StandardFields)) : session_io unit :=
  match rs with
  | [] => done tt
  | OutboundResponse packet :: rs => write_all packet ;^ send_responses rs
  | _ :: rs => send_responses rs
  end.

(** The results of one input: requests are accepted as they come. *)
Fixpoint process_results (rs : list (ServerSessionResult StandardFields)) : session_io unit :=
  match rs with
  | [] => done tt
  | r :: rs =>
    let^ id := process_result r in
    (match id with
     | Some request_id =>
       let^ accept_results := rml (AcceptRequest request_id) in
       send_responses accept_results
     | None => done tt
     end) ;^
    process_results rs
  end.

(** The results of opening the session: requests among them are not accepted. *)
Fixpoint process_initial (rs : list (ServerSessionResult StandardFields)) : session_io unit :=
  match rs with
  | [] => done tt
  | r :: rs => let^ _ := process_result r in process_initial rs
  end.

(** ** The connection *)

(** How a round of [handle_connection] ends: the handshake goes on or is completed with
    bytes left over, the session loop goes on or is left. *)
Inductive flow : Type :=
| HandshakeMore (remaining_bytes : bytes)
| HandshakeDone (remaining_bytes : bytes)
| LoopAgain
| LoopBreak.

Definition handshake_round (remaining_bytes : bytes) : session_io flow :=
  let^ input := read in
  match input with
  | [] => fail (RtmpError "Connection closed during handshake")
  | _ =>
    let^ r := io (trigger (ProcessBytes (remaining_bytes ++ input))) in
    match r with
    | Unwound _ => panic
    | Returned (Ok (InProgress response_bytes)) =>
      write_all response_bytes ;^ done (HandshakeMore [])
    | Returned (Ok (Completed response_bytes leftover)) =>
      write_all response_bytes ;^ done (HandshakeDone leftover)
    | Returned (Err e) => fail (RtmpError ("Handshake error: " +:+ e))
    end
  end.

(** Phase 2, up to the loop. *)
Definition open_session (remaining_bytes : bytes) : session_io flow :=
  let^ initial_results := rml NewServerSession in
  process_initial initial_results ;^
  (match remaining_bytes with
   | [] => done tt
   | _ =>
     let^ results := safe_handle_input remaining_bytes in
     process_results results
   end) ;^
  done LoopAgain.

Definition with_ntdf_header (h : option string) (m : StreamMetadata StandardFields) :
    StreamMetadata StandardFields :=
  match h with
  | Some h => {| standard_fields := standard_fields m;
                 custom_fields := <["ntdf_header" := h]> (custom_fields m) |}
  | None => m
  end.

(** What a late joiner is sent once. *)
Definition send_cached_headers : session_io unit :=
  let^ s := self in
  if headers_sent s then done tt else
  (match subscriber_stream_id s with
   | Some stream_id =>
     (match cached_metadata s with
      | Some m =>
        let^ packet := rml (SendMetadata stream_id (with_ntdf_header (cached_ntdf_header s) m)) in
        write_all packet
      | None => done tt
      end) ;^
     (match cached_video_header s with
      | Some h => let^ packet := rml (SendVideoData stream_id h 0) in write_all packet
      | None => done tt
      end) ;^
     (match cached_audio_header s with
      | Some h => let^ packet := rml (SendAudioData stream_id h 0) in write_all packet
      | None => done tt
      end)
   | None => done tt
   end) ;^
  modify (fun s => s <| headers_sent := true |>).

(** Bytes read from the socket in the loop. *)
Definition on_input (input : bytes) : session_io flow :=
  match input with
  | [] => done LoopBreak
  | _ =>
    let^ results := safe_handle_input input in
    process_results results ;^
    done LoopAgain
  end.

(** A frame, or the end, of the stream a subscriber follows. *)
Definition on_frame (r : result RelayFrame RecvError) : session_io flow :=
  match r with
  | Ok f =>
    let^ s := self in
    (match subscriber_stream_id s with
     | Some stream_id =>
       let^ packet :=
         match frame_type f with
         | Video => safe_send_video stream_id (frame_data f) (frame_timestamp f)
         | Audio => safe_send_audio stream_id (frame_data f) (frame_timestamp f)
         end in
       write_all packet
     | None => done tt
     end) ;^
    done LoopAgain
  | Err (Lagged _) => done LoopAgain
  | Err Closed => done LoopBreak
  end.

Definition subscriber_round (rx : Receiver) : session_io flow :=
  send_cached_headers ;^
  let^ sel := io (trigger (SelectReadRecv rx)) in
  match sel with
  | ReadReady r => let^ input := of_result (map_err IoError r) in on_input input
  | FrameReady r => on_frame r
  end.

Definition count_bytes (n : nat) : session_io unit :=
  modify (fun s => s <| bytes_received := ((bytes_received s + Z.of_nat n) mod 2 ^ 64)%Z |>).

Definition reader_round : session_io flow :=
  let^ input := read in
  count_bytes (length input) ;^
  on_input input.

Definition loop_round : session_io flow :=
  let^ s := self in
  match role s, frame_receiver s with
  | Subscriber, Some rx => subscriber_round rx
  | _, _ => reader_round
  end.

(** After the loop. *)
Definition cleanup (s : RtmpSession) : rio unit :=
  match role s, session_key s with
  | Publisher, Some key =>
    let* _ := relay (UnregisterPublisher key) in
    let* _ := lift (delete_cached_manifest key) in
    if started_event_sent s then
      match event_broadcaster s with
      | Some b => stream_stopped b key
      | None => Ret tt
      end
    else Ret tt
  | _, _ => Ret tt
  end.

(** The session is dropped when its task ends, however it ends. *)
Definition drop_session (s : RtmpSession) : rio unit :=
  match session_sender s with
  | Some sender => relay (DropSender sender)
  | None => Ret tt
  end.

(** ** Threads *)

Inductive stage : Type :=
| Handshaking (remaining_bytes : bytes)
| Opening (remaining_bytes : bytes)
| Streaming
| Ended (r : result unit SessionError)
| Crashed.

Definition settle (r : outcome (result flow SessionError) * RtmpSession) :
    rio (stage * RtmpSession) :=
  let '(o, s) := r in
  match o with
  | Done (Ok (HandshakeMore b)) => Ret (Handshaking b, s)
  | Done (Ok (HandshakeDone b)) => Ret (Opening b, s)
  | Done (Ok LoopAgain) => Ret (Streaming, s)
  | Done (Ok LoopBreak) =>
    let* _ := cleanup s in
    let* _ := drop_session s in
    Ret (Ended (Ok tt), s)
  | Done (Err e) => let* _ := drop_session s in Ret (Ended (Err e), s)
  | Panic => let* _ := drop_session s in Ret (Crashed, s)
  end.

Definition stage_round (st : stage) : option (session_io flow) :=
  match st with
  | Handshaking b => Some (handshake_round b)
  | Opening b => Some (open_session b)
  | Streaming => Some loop_round
  | Ended _ | Crashed => None
  end.

(** A thread between two rounds goes on with its next round. *)
Definition thread : Type := rio (stage * RtmpSession).

Definition resume (st : stage) (s : RtmpSession) : option thread :=
  match stage_round st with
  | Some round => Some (let* r := round s in settle r)
  | None => None
  end.

(** ** The server *)

Definition DEFAULT_RTMP_PORT : Z := 1935.

Record RtmpServer := {
  port : Z;
  server_key : bytes;
  server_events : option StreamEventBroadcaster;
}.

Definition RtmpServer_new (key : bytes) : RtmpServer :=
  {| port := DEFAULT_RTMP_PORT; server_key := key; server_events := None |}.
Definition with_port (p : Z) (key : bytes) : RtmpServer :=
  {| port := p; server_key := key; server_events := None |}.
Definition with_broadcaster (p : Z) (key : bytes) (b : StreamEventBroadcaster) : RtmpServer :=
  {| port := p; server_key := key; server_events := Some b |}.

(** The task spawned for an accepted connection; where the key is invalid, it panics. *)
Definition accept (srv : RtmpServer) : option thread :=
  match RtmpSession_new (server_key srv) (server_events srv) with
  | Done s => Some (Ret (Handshaking [], s))
  | Panic => None
  end.

(** The events of a thread on the shared relay: the answers of everything else are free. *)
Definition perform {X} (e : rtmp_event X) (r : StreamRegistry StandardFields) (x : X)
    (r' : StreamRegistry StandardFields) : Prop :=
  match e in rtmp_event X return X -> Prop with
  | Relay op => fun x => relay_exec op r = (x, r')
  | SelectReadRecv rx => fun x =>
      match x with
      | ReadReady _ => r' = r
      | FrameReady res => relay_exec (ReceiveFrame rx) r = (Some res, r')
      end
  | _ => fun _ => r' = r
  end x.

Definition pool : Type := StreamRegistry StandardFields * list thread.

Inductive pool_step (srv : RtmpServer) : pool -> pool -> Prop :=
| step_accept r ts t :
    accept srv = Some t -> pool_step srv (r, ts) (r, ts ++ [t])
| step_event r r' ts i X (e : rtmp_event X) k x :
    ts !! i = Some (Vis e k) -> perform e r x r' ->
    pool_step srv (r, ts) (r', <[i := k x]> ts)
| step_round r ts i st s t :
    ts !! i = Some (Ret (st, s)) -> resume st s = Some t ->
    pool_step srv (r, ts) (r, <[i := t]> ts).

(** The states of a server that starts with no streams. *)
Definition reachable (srv : RtmpServer) (c : Channels) (p : pool) : Prop :=
  rtc (pool_step srv) (StreamRegistry_new c, []) p.
End Session.
Arguments RtmpSession {_ _}.
Arguments RtmpServer : clear implicits.
