(* ===== verification/RtmpProps.v ===== *)
(** * Theorems about RTMP connections

    [conducts ok Q m]: whatever the answers are, the events of [m] are in [ok] and its result
    is in [Q]; an invariant of the threads proved with it holds in every interleaving. *)
From coqutil Require Import Datatypes.RecordSettersUsingExistingGetters.
From S2P Require Import Prelude Services NanoTdf RtmpRelay RtmpRelayProps RtmpMedia RtmpSession.

Section RtmpProps.
Context {crates : RtmpCrates} {broadcast : Broadcast}.
Context (info : bool).
Open Scope rust_scope.

(** ** Events and results of a program *)

Fixpoint conducts {A} (ok : forall X, rtmp_event X -> Prop) (Q : A -> Prop) (m : rio A) : Prop :=
  match m with
  | Ret a => Q a
  | Vis e k => ok _ e /\ forall x, conducts ok Q (k x)
  end.

Lemma conducts_mono {A} ok (Q Q' : A -> Prop) m :
  (forall a, Q a -> Q' a) -> conducts ok Q m -> conducts ok Q' m.
Proof. intros HQ. induction m as [a|X e k IH]; simpl; [auto|]. intros [? ?]. eauto. Qed.

Lemma conducts_bind {A B} ok (R : A -> Prop) (Q : B -> Prop) m k :
  conducts ok R m -> (forall a, R a -> conducts ok Q (k a)) -> conducts ok Q (bind m k).
Proof. intros Hm Hk. induction m as [a|X e c IH]; simpl in *; [auto|]. destruct Hm. eauto. Qed.

(** The same for the methods of a session, on the runs that go on. *)
Definition keeps {A} (ok : forall X, rtmp_event X -> Prop) (P : RtmpSession -> Prop)
    (m : session_io A) (Q : A -> RtmpSession -> Prop) : Prop :=
  forall s, P s ->
  conducts ok (fun r => match r with (Done (Ok a), s') => Q a s' | _ => True end) (m s).

Lemma keeps_sbind {A B} ok P (m : session_io A) (k : A -> session_io B) R Q :
  keeps ok P m R -> (forall a, keeps ok (R a) (k a) Q) -> keeps ok P (sbind m k) Q.
Proof.
  intros Hm Hk s Hs. unfold sbind. eapply conducts_bind; [by apply Hm|].
  intros [[[a|e]|] s'] Hr; simpl; auto. by apply Hk.
Qed.

Lemma keeps_self {A} ok P (k : RtmpSession -> session_io A) Q :
  (forall s0, keeps ok (fun s => s = s0 /\ P s) (k s0) Q) -> keeps ok P (sbind self k) Q.
Proof. intros Hk s Hs. simpl. by apply Hk. Qed.

Lemma keeps_io {A} ok P (m : rio A) :
  conducts ok (fun _ => True) m -> keeps ok P (io m) (fun _ => P).
Proof. intros Hm s Hs. unfold io. eapply conducts_bind; [done|]. intros a _. done. Qed.

Lemma keeps_done {A} ok P (a : A) : keeps ok P (done a) (fun _ => P).
Proof. by intros s Hs. Qed.

Lemma keeps_of_result {A} ok P (r : result A SessionError) : keeps ok P (of_result r) (fun _ => P).
Proof. intros s Hs. simpl. by destruct r. Qed.

Lemma keeps_fail {A} ok P e Q : keeps ok P (fail (A := A) e) Q.
Proof. by intros s Hs. Qed.

Lemma keeps_panic {A} ok P Q : keeps ok P (panic (A := A)) Q.
Proof. by intros s Hs. Qed.

Lemma keeps_modify ok P f (Q : RtmpSession -> Prop) :
  (forall s, P s -> Q (f s)) -> keeps ok P (modify f) (fun _ => Q).
Proof. intros HQ s Hs. simpl. auto. Qed.

Lemma keeps_mono {A} ok (P P' : RtmpSession -> Prop) (m : session_io A) (Q Q' : A -> RtmpSession -> Prop) :
  keeps ok P m Q -> (forall s, P' s -> P s) -> (forall a s, Q a s -> Q' a s) -> keeps ok P' m Q'.
Proof.
  intros Hm HP HQ s Hs. eapply conducts_mono; [|by apply Hm, HP].
  intros [[[a|e]|] s']; auto.
Qed.

(** ** The invariant of a session *)

Definition session_ok (s : RtmpSession) : Prop :=
  collection s = None /\
  (metadata_received s = true -> encryption_mode s <> Pending) /\
  (is_Some (decryptor s) <-> is_Some (manifest s)) /\
  (is_Some (frame_receiver s) -> is_Some (subscriber_stream_id s)) /\
  match role s with
  | Unknown =>
      session_key s = None /\ session_sender s = None /\ subscriber_stream_id s = None /\
      started_event_sent s = false
  | Publisher => is_Some (session_key s) /\ is_Some (session_sender s)
  | Subscriber =>
      is_Some (session_key s) /\ is_Some (subscriber_stream_id s) /\ encryption_mode s <> Pending
  end.

(** The events of a connection that never uses a collection of its own and, in the loop,
    never withdraws a stream. *)
Definition no_encryption X (e : rtmp_event X) : Prop :=
  match e with EncryptItem _ _ | RotationReached _ => False | _ => True end.

Definition in_loop X (e : rtmp_event X) : Prop :=
  match e with
  | EncryptItem _ _ | RotationReached _ | Relay (UnregisterPublisher _) => False
  | _ => True
  end.

Abbreviation kept m := (keeps in_loop session_ok m (fun _ => session_ok)).

Lemma conducts_lift {A} (m : prog (event unit) A) : conducts in_loop (fun _ => True) (lift m).
Proof. induction m; simpl; auto. Qed.

Lemma conducts_publish b e : conducts in_loop (fun _ => True) (publish_event b e).
Proof. unfold publish_event. by repeat case_match. Qed.

(** The post-condition of a method that keeps the invariant. *)
Definition kept_post {A} (r : outcome (result A SessionError) * RtmpSession) : Prop :=
  match r with (Done (Ok _), s') => session_ok s' | _ => True end.

Lemma kept_self {A} (k : RtmpSession -> session_io A) s :
  conducts in_loop kept_post (k s s) -> conducts in_loop kept_post (sbind self k s).
Proof. done. Qed.
Lemma kept_modify {A} f (k : unit -> session_io A) s :
  conducts in_loop kept_post (k tt (f s)) -> conducts in_loop kept_post (sbind (modify f) k s).
Proof. done. Qed.
Lemma kept_done {A B} (a : A) (k : A -> session_io B) s :
  conducts in_loop kept_post (k a s) -> conducts in_loop kept_post (sbind (done a) k s).
Proof. done. Qed.
Lemma kept_fail {A B} e (k : A -> session_io B) s :
  conducts in_loop kept_post (sbind (fail e) k s).
Proof. done. Qed.
Lemma kept_panic {A B} (k : A -> session_io B) s :
  conducts in_loop kept_post (sbind panic k s).
Proof. done. Qed.
Lemma kept_of_result {A B} r (k : A -> session_io B) s :
  (forall a, r = Ok a -> conducts in_loop kept_post (k a s)) ->
  conducts in_loop kept_post (sbind (of_result r) k s).
Proof. intros Hk. destruct r as [a|e]; [by apply (Hk a)|done]. Qed.
Lemma kept_io {A B} (m : rio A) (k : A -> session_io B) s :
  conducts in_loop (fun _ => True) m -> (forall a, conducts in_loop kept_post (k a s)) ->
  conducts in_loop kept_post (sbind (io m) k s).
Proof.
  intros Hm Hk. unfold sbind, io. eapply conducts_bind with (R := fun r => exists a, r = (Done (Ok a), s)).
  - eapply conducts_bind; [done|]. simpl. eauto.
  - intros ? [a ->]. apply Hk.
Qed.
Lemma kept_call {A B} (m : session_io A) (k : A -> session_io B) s :
  kept m -> session_ok s -> (forall a s', session_ok s' -> conducts in_loop kept_post (k a s')) ->
  conducts in_loop kept_post (sbind m k s).
Proof.
  intros Hm Hs Hk. unfold sbind. eapply conducts_bind; [by apply Hm|].
  intros [[[a|e]|] s'] Hr; simpl; auto.
Qed.
Lemma kept_assoc {A B D} (m : session_io A) (f : A -> session_io B) (k : B -> session_io D) s :
  conducts in_loop kept_post (sbind m (fun a => sbind (f a) k) s) ->
  conducts in_loop kept_post (sbind (sbind m f) k s).
Proof.
  unfold sbind. generalize (m s) as p.
  induction p as [[[[a|e]|] s']|X e c IH]; simpl; auto. intros [? ?]. auto.
Qed.
Lemma kept_last {A} (m : session_io A) s :
  conducts in_loop kept_post (sbind m done s) -> conducts in_loop kept_post (m s).
Proof.
  unfold sbind. generalize (m s) as p.
  induction p as [[[[a|e]|] s']|X e c IH]; simpl; auto. intros [? ?]. auto.
Qed.

Create HintDb rtmp.
#[local] Hint Resolve conducts_lift conducts_publish : rtmp.

(** One step of a method. *)
Ltac kept_step :=
  lazymatch goal with
  | |- conducts _ _ (sbind (sbind _ _) _ _) => apply kept_assoc
  | |- conducts _ _ (sbind self _ _) => apply kept_self; cbv beta
  | |- conducts _ _ (sbind (modify _) _ _) => apply kept_modify; cbv beta
  | |- conducts _ _ (sbind (done _) _ _) => apply kept_done; cbv beta
  | |- conducts _ _ (sbind (fail _) _ _) => apply kept_fail
  | |- conducts _ _ (sbind panic _ _) => apply kept_panic
  | |- conducts _ _ (sbind (of_result _) _ _) => apply kept_of_result; intros ? ?
  | |- conducts _ _ (sbind (io _) _ _) => apply kept_io; [first [done|by auto with rtmp]|intros ?]
  | |- conducts _ _ (sbind (match ?x with _ => _ end) _ _) => destruct x eqn:?
  | |- conducts _ _ (match ?x with _ => _ end _) => destruct x eqn:?
  | |- conducts _ _ (done _ _) => simpl
  | |- conducts _ _ (sbind _ _ _) => eapply kept_call; [by auto with rtmp|try done|intros ? ? ?]
  end.

(** A method is walked step by step. *)
Lemma keptI {A} (m : session_io A) :
  (forall s, session_ok s -> conducts in_loop kept_post (sbind m done s)) -> kept m.
Proof. intros Hm s Hs. by apply kept_last, Hm. Qed.

Tactic Notation "kept_walk" reference(m) := apply keptI; intros s Hs; unfold m; repeat kept_step.

Lemma conducts_trigger {X} (e : rtmp_event X) :
  in_loop X e -> conducts in_loop (fun _ => True) (trigger e).
Proof. by split. Qed.
Lemma conducts_relay {X} (op : relay_op StandardFields X) :
  in_loop X (Relay op) -> conducts in_loop (fun _ => True) (relay op).
Proof. by split. Qed.
#[local] Hint Resolve conducts_trigger conducts_relay : rtmp.
#[local] Hint Extern 1 (in_loop _ _) => exact I : rtmp.

Lemma kept_relay_frame f : kept (relay_frame f).
Proof. by kept_walk relay_frame. Qed.

Lemma conducts_started b key h t : conducts in_loop (fun _ => True) (stream_started b key h t).
Proof. by split; [|intros ?; apply conducts_publish]. Qed.
#[local] Hint Resolve conducts_started : rtmp.

(** [session_ok] of an updated session, from that of the session. *)
Ltac session_ok :=
  unfold session_ok, set_collection in *; simpl in *;
  unfold RecordSettersUsingExistingGetters.const in *; destruct_and?; simpl in *;
  repeat match goal with H : role _ = _ |- _ => rewrite H in * end; simpl in *; destruct_and?;
  split_and?; try done; eauto.

Lemma kept_emit : kept emit_stream_started_if_needed.
Proof.
  kept_walk emit_stream_started_if_needed; try done.
  apply negb_false_iff, bool_decide_eq_true in Heqb0. session_ok.
Qed.

Lemma kept_decrypt d : kept (decrypt_incoming d).
Proof. by kept_walk decrypt_incoming. Qed.

Lemma kept_log h : kept (log_header_prefix info h).
Proof. by kept_walk log_header_prefix. Qed.

#[local] Hint Resolve kept_relay_frame kept_emit kept_decrypt kept_log : rtmp.

Lemma kept_relay_encrypted rot t d ts : kept (relay_encrypted rot t d ts).
Proof.
  apply keptI; intros s Hs. unfold relay_encrypted. do 2 kept_step.
  rewrite (proj1 Hs). eapply kept_call; [apply kept_relay_frame|done|done].
Qed.

Lemma passthrough_ok s : session_ok s -> session_ok s<|encryption_mode := Passthrough|>.
Proof. intros Hs. destruct (role s) eqn:?; session_ok. Qed.

Lemma kept_when_pending m : m <> Pending -> kept (when_pending m).
Proof.
  intros Hm s Hs. simpl. case_bool_decide; [|done]. destruct (role s) eqn:?; session_ok.
Qed.
Lemma kept_count_frame : kept count_frame.
Proof. by apply keeps_modify. Qed.
#[local] Hint Resolve kept_relay_encrypted passthrough_ok kept_count_frame : rtmp.

Lemma kept_video d ts : kept (handle_video_data d ts).
Proof. kept_walk handle_video_data; auto with rtmp. Qed.

Lemma kept_audio d ts : kept (handle_audio_data d ts).
Proof. kept_walk handle_audio_data; auto with rtmp. Qed.
#[local] Hint Resolve kept_video kept_audio : rtmp.

Lemma kept_extract l : kept (extract_ntdf_header_from_amf info l).
Proof.
  induction l as [|v l IH]; [by intros s Hs|].
  apply keptI; intros s Hs. simpl. repeat kept_step; try done.
Qed.
#[local] Hint Resolve kept_extract : rtmp.

(** Metadata settle the mode, publishing gives a sender, playing gives a mode. *)
Lemma settled_ok m s :
  session_ok s -> m <> Pending ->
  session_ok (if bool_decide (encryption_mode s<|metadata_received := true|> = Pending)
              then s<|metadata_received := true|><|encryption_mode := m|>
              else s<|metadata_received := true|>).
Proof. intros Hs Hm. case_bool_decide; destruct (role s) eqn:?; session_ok. Qed.

Lemma kept_metadata_event app key m : kept (handle_event info (StreamMetadataChanged app key m)).
Proof.
  apply keptI; intros s Hs. unfold handle_event, handle_metadata, log_header_prefix, when_pending.
  repeat kept_step; by apply settled_ok.
Qed.

Lemma kept_publish_event id app key : kept (handle_event info (PublishStreamRequested id app key)).
Proof.
  apply keptI; intros s Hs. unfold handle_event, replace_sender.
  repeat kept_step; session_ok.
Qed.

Lemma kept_play_event id app key sid :
  kept (handle_event info (PlayStreamRequested id app key sid)).
Proof.
  apply keptI; intros s Hs. unfold handle_event, set_manifest_subscriber.
  repeat kept_step; session_ok.
Qed.

Lemma kept_event e : kept (handle_event info e).
Proof.
  destruct e; auto using kept_metadata_event, kept_publish_event, kept_play_event;
    apply keptI; intros s' Hs; simpl handle_event; repeat kept_step; try done.
Qed.

Lemma kept_write b : kept (write_all b).
Proof. by kept_walk write_all. Qed.

Lemma kept_read : kept read.
Proof. by kept_walk read. Qed.
#[local] Hint Resolve kept_event kept_write kept_read : rtmp.

Lemma kept_rml {A} (e : rtmp_event (unwind (result A string))) : in_loop _ e -> kept (rml e).
Proof. intros He. by kept_walk rml. Qed.

Lemma kept_process_result r : kept (process_result info r).
Proof. by kept_walk process_result. Qed.

Lemma kept_send_responses rs : kept (send_responses rs).
Proof.
  induction rs as [|r rs IH]; [by intros s Hs|].
  destruct r; [|exact IH|exact IH].
  apply keptI; intros s Hs. cbn [send_responses]. by repeat kept_step.
Qed.
#[local] Hint Resolve kept_rml kept_process_result kept_send_responses : rtmp.

Lemma kept_process_results rs : kept (process_results info rs).
Proof.
  induction rs as [|r rs IH]; [by intros s Hs|].
  apply keptI; intros s Hs. cbn [process_results]. by repeat kept_step.
Qed.

Lemma kept_process_initial rs : kept (process_initial info rs).
Proof.
  induction rs as [|r rs IH]; [by intros s Hs|].
  apply keptI; intros s Hs. cbn [process_initial]. by repeat kept_step.
Qed.
#[local] Hint Resolve kept_process_results kept_process_initial : rtmp.

Lemma kept_caught {A} p d (r : unwind (result A string)) : kept (caught p d r).
Proof. by kept_walk caught. Qed.
#[local] Hint Resolve kept_caught : rtmp.

Lemma kept_handle_input b : kept (safe_handle_input b).
Proof. by kept_walk safe_handle_input. Qed.
Lemma kept_send_video i d t : kept (safe_send_video i d t).
Proof. by kept_walk safe_send_video. Qed.
Lemma kept_send_audio i d t : kept (safe_send_audio i d t).
Proof. by kept_walk safe_send_audio. Qed.
#[local] Hint Resolve kept_handle_input kept_send_video kept_send_audio : rtmp.

(** ** Rounds *)

Lemma kept_handshake b : kept (handshake_round b).
Proof. by kept_walk handshake_round. Qed.

Lemma kept_open b : kept (open_session info b).
Proof. by kept_walk open_session. Qed.

Lemma kept_cached : kept send_cached_headers.
Proof. by kept_walk send_cached_headers. Qed.

Lemma kept_input b : kept (on_input info b).
Proof. by kept_walk on_input. Qed.

Lemma kept_frame r : kept (on_frame r).
Proof. by kept_walk on_frame. Qed.
#[local] Hint Resolve kept_cached kept_input kept_frame : rtmp.

Lemma kept_loop : kept (loop_round info).
Proof.
  apply keptI; intros s Hs. unfold loop_round, subscriber_round, reader_round, count_bytes.
  by repeat kept_step.
Qed.

Lemma kept_stage st m : stage_round info st = Some m -> kept m.
Proof. destruct st; intros [= <-]; auto using kept_handshake, kept_open, kept_loop. Qed.

(** ** Threads and the server *)

Definition at_rest (r : stage * RtmpSession) : Prop :=
  match r with
  | (Ended _, _) | (Crashed, _) => True
  | (_, s) => session_ok s
  end.

Definition thread_ok (t : thread) : Prop := conducts no_encryption at_rest t.

Lemma conducts_weaken {A} (ok ok' : forall X, rtmp_event X -> Prop) (Q : A -> Prop) m :
  (forall X (e : rtmp_event X), ok X e -> ok' X e) -> conducts ok Q m -> conducts ok' Q m.
Proof. intros Hok. induction m as [a|X e k IH]; simpl; [done|]. intros [? ?]. eauto. Qed.

Lemma in_loop_no_encryption X (e : rtmp_event X) : in_loop X e -> no_encryption X e.
Proof. by destruct e. Qed.

Lemma conducts_drop s : conducts in_loop (fun _ => True) (drop_session s).
Proof. unfold drop_session. by case_match. Qed.

Lemma conducts_outside {A} (m : rio A) :
  conducts in_loop (fun _ => True) m -> conducts no_encryption (fun _ => True) m.
Proof. apply conducts_weaken, in_loop_no_encryption. Qed.

Lemma conducts_then {A B} ok (m : rio A) (k : A -> rio B) Q :
  conducts ok (fun _ => True) m -> (forall a, conducts ok Q (k a)) -> conducts ok Q (bind m k).
Proof. intros Hm Hk. eapply conducts_bind; eauto. Qed.

Lemma conducts_cleanup s : conducts no_encryption (fun _ => True) (cleanup s).
Proof.
  unfold cleanup. destruct (role s); try done. destruct (session_key s) as [key|]; [|done].
  apply conducts_then; [by split|intros _].
  apply conducts_then; [apply conducts_outside, conducts_lift|intros _].
  destruct (started_event_sent s), (event_broadcaster s) as [b|]; try done.
  apply conducts_outside. split; [done|intros ts]. apply conducts_publish.
Qed.

Lemma settle_ok r : kept_post r -> thread_ok (settle r).
Proof.
  assert (forall s x, at_rest x -> thread_ok (let* _ := drop_session s in Ret x)) as Hdrop.
  { intros s x Hx. apply conducts_then; [apply conducts_outside, conducts_drop|done]. }
  destruct r as [[[[| | |]|e]|] s]; simpl; intros Hs; try done; try by apply Hdrop.
  apply conducts_then; [apply conducts_cleanup|]. intros _. by apply Hdrop.
Qed.

Lemma resume_ok st s t : at_rest (st, s) -> resume info st s = Some t -> thread_ok t.
Proof.
  unfold resume. intros Hs Ht. destruct (stage_round info st) as [m|] eqn:Hm; [|done].
  injection Ht as <-. eapply conducts_bind with (R := kept_post); [|apply settle_ok].
  eapply conducts_weaken; [apply in_loop_no_encryption|].
  apply (kept_stage _ _ Hm). by destruct st.
Qed.

Lemma new_session_ok key events s : RtmpSession_new key events = Done s -> session_ok s.
Proof.
  unfold RtmpSession_new. destruct (secret_key_pkcs8 key); [intros [= <-]|done].
  unfold session_ok. simpl. split_and!; try done; by intros [].
Qed.

Lemma pool_threads_ok srv c p : reachable info srv c p -> Forall thread_ok (snd p).
Proof.
  unfold reachable. intros Hp. remember (StreamRegistry_new c, []) as p0 eqn:Hp0.
  assert (Forall thread_ok (snd p0)) as H0 by (subst; constructor). clear Hp0.
  induction Hp as [|p1 p2 p3 Hstep _ IH]; [done|]. apply IH. clear IH.
  destruct Hstep as [r ts t Ha|r r' ts i X e k x Hi _|r ts i st s t Hi Ht]; simpl in *.
  - apply Forall_app. split; [done|]. constructor; [|constructor].
    unfold accept in Ha. destruct (RtmpSession_new _ _) as [s|] eqn:Hs; [|done].
    injection Ha as <-. by eapply new_session_ok.
  - apply Forall_insert; [done|]. rewrite Forall_lookup in H0. by apply (H0 _ _ Hi).
  - apply Forall_insert; [done|]. rewrite Forall_lookup in H0.
    by eapply resume_ok; [apply (H0 _ _ Hi)|].
Qed.

(** C30: the state of an RTMP connection is well formed whenever the connection is between
    two rounds, whatever clients, Redis and the RTMP library do and however connections
    interleave: a publisher has a stream key and a sender, a subscriber a stream key, a stream
    id and a decided encryption mode; a connection without a role has none of these; a
    receiver comes with a stream id, a decryptor with a manifest, and once metadata were
    received the encryption mode is no longer pending. *)
Theorem session_well_formed srv c r ts i st s :
  reachable info srv c (r, ts) -> ts !! i = Some (Ret (st, s)) -> is_Some (stage_round info st) ->
  session_ok s.
Proof.
  intros Hp Hi Hst. apply pool_threads_ok in Hp. rewrite Forall_lookup in Hp.
  apply Hp in Hi. by destruct st; try (by destruct Hst).
Qed.

(** No connection of the server ever encrypts a frame: the collection a publisher's
    session could encrypt with is never set, so that in no interleaving is a thread about to
    encrypt an item or to ask for the rotation threshold, and frames are relayed as they
    came. *)
Theorem server_never_encrypts srv c r ts i X (e : rtmp_event X) k :
  reachable info srv c (r, ts) -> ts !! i = Some (Vis e k) -> no_encryption X e.
Proof.
  intros Hp Hi. apply pool_threads_ok in Hp. rewrite Forall_lookup in Hp. by apply Hp in Hi as [? _].
Qed.
End RtmpProps.
