(* ===== verification/RtmpLive.v ===== *)
(** * What reaches subscribers, and what connections leave behind

    [every_run obs P [] m]: whatever the answers are, [P] holds of what [obs] sees of the
    events of [m], in order, and of its result.  [runs] is a run of one thread on the relay,
    one of the interleavings of the server; [must]: every undisturbed run of a thread,
    interleaved with what other connections do to the relay, gets there. *)
From Stdlib Require Import FunctionalExtensionality.
From coqutil Require Import Datatypes.RecordSettersUsingExistingGetters.
From S2P Require Import Prelude Services NanoTdf RtmpRelay RtmpRelayProps RtmpMedia RtmpSession.
From S2P Require Import RtmpProps RtmpSample.

Section RtmpLive.
Context {crates : RtmpCrates} {broadcast : Broadcast}.
Context (info : bool).
Open Scope rust_scope.

(** ** Equations of programs *)

Lemma bind_bind {A B D} (m : rio A) (f : A -> rio B) (g : B -> rio D) :
  bind (bind m f) g = bind m (fun a => bind (f a) g).
Proof.
  induction m as [a|X e k IH]; simpl; [done|]. f_equal. by apply functional_extensionality.
Qed.

Lemma sbind_self {A} (k : RtmpSession -> session_io A) s : sbind self k s = k s s.
Proof. done. Qed.
Lemma sbind_done {A B} (a : A) (k : A -> session_io B) s : sbind (done a) k s = k a s.
Proof. done. Qed.
Lemma sbind_modify {A} f (k : unit -> session_io A) s : sbind (modify f) k s = k tt (f s).
Proof. done. Qed.
Lemma sbind_of_result {A B} r (k : A -> session_io B) s :
  sbind (of_result r) k s = match r with Ok a => k a s | Err e => Ret (Done (Err e), s) end.
Proof. by destruct r. Qed.
Lemma sbind_io {A B} (m : rio A) (k : A -> session_io B) s :
  sbind (io m) k s = bind m (fun a => k a s).
Proof. unfold sbind, io. by rewrite bind_bind. Qed.
Lemma sbind_sbind {A B D} (m : session_io A) (f : A -> session_io B) (k : B -> session_io D) s :
  sbind (sbind m f) k s = sbind m (fun a => sbind (f a) k) s.
Proof.
  unfold sbind. rewrite bind_bind. f_equal. apply functional_extensionality.
  by intros [[[a|e]|] s'].
Qed.

Create Rewrite HintDb session.
#[local] Hint Rewrite @sbind_self @sbind_done @sbind_modify @sbind_of_result @sbind_io
  @sbind_sbind : session.

(** ** What a publisher relays *)

Fixpoint every_run {A B} (obs : forall X, rtmp_event X -> option B) (P : list B -> A -> Prop)
    (seen : list B) (m : rio A) : Prop :=
  match m with
  | Ret a => P seen a
  | Vis e k => forall x, every_run obs P (seen ++ option_list (obs _ e)) (k x)
  end.

Lemma every_run_bind {A B D} obs (P : list B -> D -> Prop) seen (m : rio A) (k : A -> rio D) :
  every_run obs (fun seen a => every_run obs P seen (k a)) seen m ->
  every_run obs P seen (bind m k).
Proof. revert seen. induction m as [a|X e c IH]; simpl; intros seen Hm; [done|]. eauto. Qed.

Lemma every_run_mono {A B} obs (P P' : list B -> A -> Prop) seen m :
  (forall l a, P l a -> P' l a) -> every_run obs P seen m -> every_run obs P' seen m.
Proof. intros HP. revert seen. induction m as [a|X e k IH]; simpl; auto. Qed.

(** The frames an event sends. *)
Definition sends X (e : rtmp_event X) : option (Sender * RelayFrame) :=
  match e with
  | Relay (SendFrame s f) => Some (s, f)
  | _ => None
  end.

(** A program that sends nothing. *)
Fixpoint silent {A} (m : rio A) : Prop :=
  match m with
  | Ret _ => True
  | Vis e k => sends _ e = None /\ forall x, silent (k x)
  end.

Lemma every_run_silent {A D} (P : list (Sender * RelayFrame) -> D -> Prop) seen (m : rio A) k :
  silent m -> (forall a, every_run sends P seen (k a)) -> every_run sends P seen (bind m k).
Proof.
  intros Hm Hk. induction m as [a|X e c IH]; simpl in *; [auto|]. destruct Hm as [-> Hm].
  intros x. rewrite app_nil_r. auto.
Qed.

(** The announcement of a stream sends nothing and leaves what matters of the session. *)
Definition same_stream (s s' : RtmpSession) : Prop :=
  session_sender s' = session_sender s /\ session_key s' = session_key s /\
  encryption_mode s' = encryption_mode s /\ collection s' = collection s.

Lemma silent_publish b e : silent (publish_event b e).
Proof. unfold publish_event. by repeat case_match. Qed.

Lemma emit_silent {A} s (k : unit -> session_io A) P seen :
  (forall s', same_stream s s' -> every_run sends P seen (k tt s')) ->
  every_run sends P seen (sbind emit_stream_started_if_needed k s).
Proof.
  intros Hk. unfold emit_stream_started_if_needed. autorewrite with session.
  destruct (started_event_sent s); [by apply Hk|]. case_bool_decide; [|by apply Hk]. simpl negb.
  cbv iota. destruct (session_key s), (event_broadcaster s); try by apply Hk.
  autorewrite with session. unfold stream_started. rewrite bind_bind.
  apply every_run_silent; [done|]. intros e. apply every_run_silent; [apply silent_publish|].
  intros _. by apply Hk.
Qed.

(** Caching a header sends nothing. *)
Lemma cache_silent {A} (c : bool) (op : string -> relay_op StandardFields unit) key s
    (k : unit -> session_io A) P seen :
  (forall key', sends _ (Relay (op key')) = None) ->
  every_run sends P seen (k tt s) ->
  every_run sends P seen
    (sbind (match key with
            | Some key => if c then io (relay (op key)) else done tt
            | None => done tt
            end) k s).
Proof.
  intros Hop Hk. destruct key as [key|], c; autorewrite with session; try done.
  apply every_run_silent; [split; [apply Hop|done]|]. by intros [].
Qed.

(** Relaying a frame sends it to the session's sender. *)
Lemma relay_sends f s snd :
  session_sender s = Some snd ->
  every_run sends (fun l r => fst r = Done (Ok tt) /\ l = [(snd, f)]) [] (relay_frame f s).
Proof. intros Hs. unfold relay_frame. rewrite sbind_self, Hs. simpl. by intros []. Qed.

Lemma relay_encrypted_sends rot t d ts s snd :
  collection s = None -> session_sender s = Some snd ->
  every_run sends (fun l r => fst r = Done (Ok tt) /\ l = [(snd, frame t d ts)]) []
    (relay_encrypted rot t d ts s).
Proof. intros Hc Hs. unfold relay_encrypted. rewrite sbind_self, Hc. by apply relay_sends. Qed.

(** The frame counter is of no consequence. *)
Definition counts (s : RtmpSession) : RtmpSession :=
  s<|frame_count := ((frame_count s + 1) mod 2 ^ 64)%Z|>.

Lemma counts_ok s : session_ok s -> session_ok (counts s).
Proof. done. Qed.
Lemma counts_fields s :
  role (counts s) = role s /\ session_sender (counts s) = session_sender s /\
  encryption_mode (counts s) = encryption_mode s.
Proof. done. Qed.
Lemma sbind_count {A} (k : unit -> session_io A) s : sbind count_frame k s = k tt (counts s).
Proof. done. Qed.

(** Every video frame of a publisher is relayed: the handler of a well-formed publisher
    session never fails and sends exactly one frame, the client's bytes with the client's
    timestamp, to the session's channel, in each of the three encryption modes. *)
Theorem publisher_video_relayed s snd d ts :
  session_ok s -> role s = Publisher -> session_sender s = Some snd ->
  every_run sends (fun l r => fst r = Done (Ok tt) /\ l = [(snd, frame Video d ts)]) []
    (handle_video_data d ts s).
Proof.
  intros Hok Hr Hs. unfold handle_video_data. rewrite sbind_count.
  destruct (counts_ok _ Hok) as (Hc & Hm & _). destruct (counts_fields s) as (Hr' & Hs' & _).
  rewrite Hr in Hr'. rewrite Hs in Hs'. clear Hok Hr Hs. generalize dependent (counts s).
  clear s. intros s Hc Hm Hr Hs. rewrite sbind_self.
  rewrite Hr. apply emit_silent. intros s' (Hs1 & _ & _ & Hs3).
  rewrite Hs in Hs1. rewrite Hc in Hs3.
  apply cache_silent; [done|]. destruct (encryption_mode s) eqn:Hmode.
  - destruct (metadata_received s); [by destruct Hm|].
    cbn [negb]. rewrite sbind_modify. by apply relay_sends.
  - by apply relay_encrypted_sends.
  - by apply relay_sends.
Qed.

(** Audio that a publisher sends before its encryption mode is decided is lost: the
    handler reports success, relays nothing and leaves the mode pending. *)
Theorem early_audio_dropped s d ts :
  role s = Publisher -> encryption_mode s = Pending ->
  every_run sends
    (fun l r => fst r = Done (Ok tt) /\ l = [] /\ encryption_mode (snd r) = Pending) []
    (handle_audio_data d ts s).
Proof.
  intros Hr Hm. unfold handle_audio_data. rewrite sbind_count.
  destruct (counts_fields s) as (Hr' & _ & Hm'). rewrite Hr in Hr'. rewrite Hm in Hm'.
  clear Hr Hm. generalize dependent (counts s). clear s. intros s Hr Hm.
  rewrite sbind_self, Hr. apply cache_silent; [done|]. by rewrite Hm.
Qed.

(** ** Runs of one thread *)

Definition revent : Type := {X : Type & (rtmp_event X * X)%type}.
Definition said {X} (e : rtmp_event X) (x : X) : revent := existT X (e, x).

Inductive runs : StreamRegistry StandardFields -> thread -> list revent ->
    StreamRegistry StandardFields -> thread -> Prop :=
| runs_nil r t : runs r t [] r t
| runs_event r X (e : rtmp_event X) k x r1 tr r2 t2 :
    perform e r x r1 -> runs r1 (k x) tr r2 t2 -> runs r (Vis e k) (said e x :: tr) r2 t2
| runs_round r st s t tr r2 t2 :
    resume info st s = Some t -> runs r t tr r2 t2 -> runs r (Ret (st, s)) tr r2 t2.

(** A run of one thread is one of the server's. *)
Lemma runs_pool srv r t tr r' t' ts i :
  runs r t tr r' t' -> ts !! i = Some t ->
  rtc (pool_step info srv) (r, ts) (r', <[i := t']> ts).
Proof.
  intros Hr. revert ts. induction Hr as [r t|r X e k x r1 tr r2 t2 Hp _ IH|r st s t tr r2 t2 Ht _ IH];
    intros ts Hi.
  - rewrite list_insert_id by done. apply rtc_refl.
  - eapply rtc_l; [by econstructor|]. rewrite <-(list_insert_insert_eq ts i t2 (k x)).
    apply IH, list_lookup_insert_eq. by eapply lookup_lt_Some.
  - eapply rtc_l; [by eapply step_round|]. rewrite <-(list_insert_insert_eq ts i t2 t).
    apply IH, list_lookup_insert_eq. by eapply lookup_lt_Some.
Qed.

(** ** A subscriber catches up *)

Context {blaws : BroadcastLaws}.

(** A subscriber that has been sent its headers and waits for frames. *)
Definition following (s : RtmpSession) (rx : Receiver) (sid : Z) : Prop :=
  role s = Subscriber /\ frame_receiver s = Some rx /\ subscriber_stream_id s = Some sid /\
  headers_sent s = true.

(** Its next round waits for the socket or a frame. *)
Definition wait_next (rx : Receiver) (s : RtmpSession) : thread :=
  Vis (SelectReadRecv rx) (fun sel =>
    bind (match sel with
          | ReadReady r => sbind (of_result (map_err IoError r)) (on_input info)
          | FrameReady r => on_frame r
          end s) settle).

Lemma resume_following s rx sid :
  following s rx sid -> resume info Streaming s = Some (wait_next rx s).
Proof.
  intros (Hr & Hrx & Hsid & Hh). unfold resume, stage_round, loop_round.
  rewrite sbind_self, Hr, Hrx. unfold subscriber_round, send_cached_headers.
  rewrite sbind_sbind, sbind_self, Hh, sbind_done, sbind_io. reflexivity.
Qed.

Lemma receive_next r rx snd n ch f :
  position r rx = Some (snd, n) -> chan_at r snd = Some ch -> sent ch !! n = Some f ->
  length (sent ch) <= n + capacity ch ->
  exists r', relay_exec (F := StandardFields) (ReceiveFrame rx) r = (Some (Ok f), r') /\
    position r' rx = Some (snd, S n) /\ chan_at r' snd = Some ch /\ streams r' = streams r.
Proof.
  intros Hp Hc Hf Hl. destruct (relay_exec (ReceiveFrame rx) r) as [x r'] eqn:Hx.
  destruct (receive_at _ _ _ _ _ _ _ Hx Hp Hc) as [-> Hp'].
  assert (hub_next ch n = Some (Ok f, S n)) as Hn.
  { unfold hub_next. rewrite Hf. by destruct (Nat.ltb_spec n (length (sent ch) - capacity ch)); [lia|]. }
  rewrite Hn in *. exists r'. split_and!; [done|done| |]; simpl in Hx;
    pose proof (recv_hub rx (channels r)) as Hr;
    destruct (recv rx (channels r)) as [[y c]|]; simplify_eq/=; try done.
  unfold hub_recv in Hr. unfold position, chan_at in *. rewrite Hp, Hc, Hn in Hr.
  simpl in Hr. simplify_eq. simpl. by rewrite Hr.
Qed.

(** What a subscriber does with a frame that the library packs as [pk]. *)
Definition delivery (rx : Receiver) (sid : Z) (f : RelayFrame) (pk : bytes) : list revent :=
  [said (SelectReadRecv rx) (FrameReady (Ok f));
   match frame_type f with
   | Video => said (SendVideoData sid (frame_data f) (frame_timestamp f)) (Returned (Ok pk))
   | Audio => said (SendAudioData sid (frame_data f) (frame_timestamp f)) (Returned (Ok pk))
   end;
   said (SocketWrite pk) (Ok tt)].

(** The frames [fs] were delivered, in order, and nothing else happened. *)
Definition delivered (rx : Receiver) (sid : Z) (fs : list RelayFrame) (tr : list revent) : Prop :=
  exists pks, length pks = length fs /\ tr = mjoin (zip_with (delivery rx sid) fs pks).

(** What ends the connection of a subscriber: the channel is closed, and a sender that the
    session may still hold from an earlier publication is dropped. *)
Definition closing (rx : Receiver) (s : RtmpSession) : list revent :=
  said (SelectReadRecv rx) (FrameReady (Err Closed)) ::
  match session_sender s with
  | Some snd => [said (Relay (DropSender snd)) tt]
  | None => []
  end.

(** The client is silent, and neither the library nor the socket fails. *)
Definition smooth {X} (e : rtmp_event X) : X -> Prop :=
  match e in rtmp_event X return X -> Prop with
  | SelectReadRecv _ => fun x => exists res, x = FrameReady res
  | SendVideoData _ _ _ | SendAudioData _ _ _ => fun x => exists pk, x = Returned (Ok pk)
  | SocketWrite _ => fun x => x = Ok tt
  | _ => fun _ => True
  end.

Section Others.
Context (rx : Receiver).

(** No frame that the receiver has not received has left its channel. *)
Definition keeps_up (r : StreamRegistry StandardFields) : Prop :=
  forall snd n ch, position r rx = Some (snd, n) -> chan_at r snd = Some ch ->
    length (sent ch) <= n + capacity ch.

(** An operation of another connection, which does not outrun the receiver. *)
Definition other_step (r r' : StreamRegistry StandardFields) : Prop :=
  exists X (op : relay_op StandardFields X) x,
    relay_exec op r = (x, r') /\ receives rx (did op x) = false /\ held op r /\ keeps_up r'.

(** Every run that is interleaved with the other connections gets to [Q]: whatever they did
    before its next event, the event can happen, and however it is answered the run goes
    on. *)
Inductive must (Q : list revent -> StreamRegistry StandardFields -> thread -> Prop) :
    list revent -> StreamRegistry StandardFields -> thread -> Prop :=
| must_now tr r t : Q tr r t -> must Q tr r t
| must_round tr r st s t : resume info st s = Some t -> must Q tr r t -> must Q tr r (Ret (st, s))
| must_event tr r X (e : rtmp_event X) k :
    (forall r1, rtc other_step r r1 ->
       (exists x r2, perform e r1 x r2 /\ smooth e x) /\
       forall x r2, perform e r1 x r2 -> smooth e x -> must Q (tr ++ [said e x]) r2 (k x)) ->
    must Q tr r (Vis e k).

(** The receiver is at the frame [n] of a channel that has grown from [ch]. *)
Definition stands (snd : Sender) (ch : Chan) (n : nat) (r : StreamRegistry StandardFields) : Prop :=
  position r rx = Some (snd, n) /\
  exists ch', chan_at r snd = Some ch' /\ grows ch ch' /\ length (sent ch') <= n + capacity ch'.

Lemma stands_others snd ch n r r' :
  stands snd ch n r -> rtc other_step r r' -> stands snd ch n r'.
Proof.
  intros Hst Hr. induction Hr as [|r r1 r2 (X & op & x & Hx & Hn & Hh & Hk) _ IH]; [done|].
  apply IH. destruct Hst as (Hp & ch1 & Hc & Hg & _).
  pose proof (position_kept _ _ _ _ _ _ _ Hx Hn Hp) as Hp'.
  destruct (chan_grows _ _ _ _ _ _ _ Hx Hh Hc) as (ch2 & Hc2 & Hg2).
  split; [done|]. exists ch2. split_and!; [done|by etrans|by eapply Hk].
Qed.

Lemma stands_next snd ch n r f :
  stands snd ch n r -> sent ch !! n = Some f ->
  exists r', relay_exec (F := StandardFields) (ReceiveFrame rx) r = (Some (Ok f), r') /\
    stands snd ch (S n) r'.
Proof.
  intros (Hp & ch' & Hc & Hg & Hl) Hf. pose proof Hg as ([l El] & _).
  destruct (receive_next r rx snd n ch' f Hp Hc) as (r' & Hx & Hp' & Hc' & _); [|done|].
  { rewrite El. by apply lookup_app_l_Some. }
  exists r'. split; [done|]. split; [done|]. exists ch'. split_and!; [done..|lia].
Qed.

(** An event that does not concern the relay. *)
Lemma must_local Q tr snd ch n r X (e : rtmp_event X) k :
  stands snd ch n r -> (forall r1 x r2, perform e r1 x r2 <-> r2 = r1) -> (exists x, smooth e x) ->
  (forall x r', smooth e x -> stands snd ch n r' -> must Q (tr ++ [said e x]) r' (k x)) ->
  must Q tr r (Vis e k).
Proof.
  intros Hst He [x0 Hx0] Hk. apply must_event. intros r1 Hr1. split.
  - exists x0, r1. split; [by apply He|done].
  - intros x r2 Hx Hs. apply He in Hx as ->. apply Hk; [done|]. by eapply stands_others.
Qed.

(** The next frame is received, handed to the library and written. *)
Lemma must_deliver Q s sid tr snd ch n r f :
  following s rx sid -> stands snd ch n r -> sent ch !! n = Some f ->
  (forall pk r', stands snd ch (S n) r' ->
     must Q (tr ++ delivery rx sid f pk) r' (Ret (Streaming, s))) ->
  must Q tr r (Ret (Streaming, s)).
Proof.
  intros Hf Hst Hn Hk. eapply must_round; [by eapply resume_following|]. apply must_event.
  intros r1 Hr1. pose proof (stands_others _ _ _ _ _ Hst Hr1) as Hst1.
  destruct (stands_next _ _ _ _ _ Hst1 Hn) as (r2 & Hx & Hst2). split.
  { exists (FrameReady (Ok f)), r2. split; [exact Hx|by eexists]. }
  intros x r2' Hp [res ->]. assert (res = Ok f /\ r2' = r2) as [-> ->].
  { unfold perform in Hp. rewrite Hx in Hp. by simplify_eq. }
  clear Hx Hp. cbv beta iota. unfold on_frame. rewrite sbind_self.
  destruct Hf as (_ & _ & Hsid & _). rewrite Hsid, sbind_sbind. unfold delivery in Hk.
  destruct (frame_type f); unfold safe_send_video, safe_send_audio; rewrite sbind_sbind, sbind_io;
    simpl;
    (eapply must_local; [exact Hst2|done|by eexists (Returned (Ok [])), []|];
     intros ? r3 [pk ->] Hst3; simpl;
     eapply must_local; [exact Hst3|done|by exists (Ok tt)|];
     intros ? r4 -> Hst4; simpl; rewrite <-!app_assoc; by apply Hk).
Qed.

Lemma must_drain Q s sid snd ch n tr r :
  following s rx sid -> stands snd ch n r -> n <= length (sent ch) ->
  (forall tr' r', delivered rx sid (drop n (sent ch)) tr' -> stands snd ch (length (sent ch)) r' ->
     must Q (tr ++ tr') r' (Ret (Streaming, s))) ->
  must Q tr r (Ret (Streaming, s)).
Proof.
  intros Hf. remember (length (sent ch) - n) as m eqn:Hm. revert n tr r Hm.
  induction m as [|m IH]; intros n tr r Hm Hst Hl Hk.
  - rewrite <-(app_nil_r tr). apply Hk; [|by replace (length (sent ch)) with n by lia].
    rewrite drop_ge by lia. by exists [].
  - destruct (lookup_lt_is_Some_2 (sent ch) n) as [f Hn]; [lia|].
    eapply must_deliver; [done..|]. intros pk r1 Hst1. apply (IH (S n)); [lia|done|lia|].
    intros tr' r' (pks & Hpl & ->) Hst'. rewrite <-app_assoc. apply Hk; [|done].
    exists (pk :: pks). rewrite (drop_S _ _ _ Hn). simpl. by rewrite Hpl.
Qed.
End Others.

(** A closed channel ends the connection. *)
Lemma must_close rx Q s sid snd ch tr r :
  following s rx sid -> stands rx snd ch (length (sent ch)) r -> handles ch = 0 ->
  (forall r', Q (tr ++ closing rx s) r' (Ret (Ended (Ok tt), s))) ->
  must rx Q tr r (Ret (Streaming, s)).
Proof.
  intros Hf Hst Hh HQ. eapply must_round; [by eapply resume_following|]. apply must_event.
  intros r1 Hr1. destruct (stands_others _ _ _ _ _ _ Hst Hr1) as (Hp & ch' & Hc & (_ & _ & Hg) & _).
  specialize (Hg Hh). subst ch'. destruct (relay_exec (ReceiveFrame rx) r1) as [y r2] eqn:Hx.
  destruct (receive_at _ _ _ _ _ _ _ Hx Hp Hc) as [-> _].
  assert (hub_next ch (length (sent ch)) = Some (Err Closed, length (sent ch))) as Hnx.
  { unfold hub_next. rewrite lookup_ge_None_2, Hh by lia.
    by destruct (Nat.ltb_spec (length (sent ch)) (length (sent ch) - capacity ch)); [lia|]. }
  rewrite Hnx in Hx. split.
  { exists (FrameReady (Err Closed)), r2. split; [exact Hx|by eexists]. }
  intros x r2' Hp' [res ->]. unfold perform in Hp'. rewrite Hx in Hp'. simplify_eq/=.
  destruct Hf as (Hr & _). unfold cleanup, drop_session, closing in *. rewrite Hr. simpl.
  destruct (session_sender s) as [snd0|]; simpl; [|by apply must_now].
  apply must_event. intros r3 _. split; [by eexists tt, _|]. intros [] r4 _ _.
  apply must_now. rewrite <-app_assoc. apply HQ.
Qed.

(** A subscriber that has everything waits for its client alone while a sender is left. *)
Lemma waits rx snd ch r x r' :
  position r rx = Some (snd, length (sent ch)) -> chan_at r snd = Some ch -> handles ch <> 0 ->
  perform (SelectReadRecv rx) r x r' -> exists input, x = ReadReady input.
Proof.
  intros Hp Hc Hh Hx. destruct x as [input|res]; [by eexists|]. simpl in Hx.
  apply (receive_at r rx _ _ snd (length (sent ch)) ch) in Hx as [Hx _]; [|done..].
  unfold hub_next in Hx. rewrite lookup_ge_None_2 in Hx by lia.
  apply Nat.eqb_neq in Hh. rewrite Hh in Hx.
  by destruct (Nat.ltb_spec (length (sent ch)) (length (sent ch) - capacity ch)); [lia|].
Qed.

(** C32: a live subscriber receives everything.  Let a session follow a stream, at most the
    capacity of its channel behind.  Then every run of its thread, interleaved with any
    operations of the other connections that leave it within that capacity, in which its
    client is silent and neither the RTMP library nor the socket fails, hands exactly the
    pending frames, in order, to the library, each with its kind, bytes, timestamp and stream
    id, and writes the packets to the socket: no event of it blocks.  Once no sender of the
    channel is left, every such run then ends the connection without an error; while one is
    left, be it only the one that the registry keeps of a publisher that failed, a subscriber
    with nothing pending waits, and only its client wakes it. *)
Theorem subscriber_catches_up s rx sid n r snd ch :
  following s rx sid -> position r rx = Some (snd, n) -> chan_at r snd = Some ch ->
  n <= length (sent ch) <= n + capacity ch ->
  must rx (fun tr r' t => delivered rx sid (drop n (sent ch)) tr /\ t = Ret (Streaming, s) /\
                          position r' rx = Some (snd, length (sent ch)))
    [] r (Ret (Streaming, s)) /\
  (handles ch = 0 ->
   must rx (fun tr _ t => exists tr', delivered rx sid (drop n (sent ch)) tr' /\
                            tr = tr' ++ closing rx s /\ t = Ret (Ended (Ok tt), s))
     [] r (Ret (Streaming, s))) /\
  (n = length (sent ch) -> handles ch <> 0 ->
   forall x r', perform (SelectReadRecv rx) r x r' -> exists input, x = ReadReady input).
Proof.
  intros Hf Hp Hc Hl. assert (stands rx snd ch n r) as Hst.
  { split; [done|]. exists ch. split_and!; [done..|lia]. }
  split_and!.
  - eapply must_drain; [done..|lia|]. intros tr r' Hd [Hp' _]. by apply must_now.
  - intros Hh. eapply must_drain; [done..|lia|]. intros tr r' Hd Hst'.
    eapply must_close; [done..|]. eauto.
  - intros -> Hh x r'. by apply (waits rx snd ch).
Qed.

(** ** What a connection leaves behind *)

(** The streams an event withdraws. *)
Definition withdraws X (e : rtmp_event X) : option string :=
  match e with
  | Relay (UnregisterPublisher key) => Some key
  | _ => None
  end.

Lemma every_run_in_loop {A} (Q : A -> Prop) (m : rio A) :
  conducts in_loop Q m -> every_run withdraws (fun l a => l = [] /\ Q a) [] m.
Proof.
  induction m as [a|X e k IH]; simpl; [done|]. intros [He Hk] x.
  replace (withdraws X e) with (@None string); [by apply IH|].
  by destruct e as [| ? []| | | | | | | | | | | | |].
Qed.

(** A connection that ends with an error or a panic does not withdraw the stream it
    publishes: whatever the answers, a round of the handshake, of the opening or of the loop
    that ends in any other way than a clean disconnect performs no unregistration, so that
    the registry goes on listing the stream and holding its channel open. *)
Theorem failed_connection_stays_registered st s t :
  session_ok s -> resume info st s = Some t ->
  every_run withdraws
    (fun l r => match fst r with Ended (Ok _) => True | _ => l = [] end) [] t.
Proof.
  unfold resume. intros Hs Ht. destruct (stage_round info st) as [m|] eqn:Hm; [|done].
  injection Ht as <-. apply every_run_bind.
  eapply every_run_mono; [|apply every_run_in_loop, (kept_stage _ _ _ Hm), Hs].
  intros l [o s'] [-> _]. unfold settle, drop_session.
  destruct o as [[[| | |]|e]|]; simpl; try done; [|by destruct (session_sender s')..].
  apply every_run_bind. eapply every_run_mono with (P := fun _ _ => True).
  - intros l _ _. by destruct (session_sender s').
  - generalize (@nil string). generalize (cleanup s'). intros p. induction p; simpl; auto.
Qed.

(** A connection that completes the handshake and publishes. *)
Definition published (s : RtmpSession) (key : string) (snd : Sender) (n : Z) : RtmpSession :=
  s<|bytes_received := n|><|role := Publisher|><|session_key := Some key|>
   <|session_sender := Some snd|>.

Definition publish_trace (app key : string) (snd : Sender) : list revent :=
  [said SocketRead (Ok [x03]); said (ProcessBytes [x03]) (Returned (Ok (Completed [] [])));
   said (SocketWrite []) (Ok tt); said NewServerSession (Returned (Ok []));
   said SocketRead (Ok [x04]);
   said (HandleInput [x04])
     (Returned (Ok [RaisedEvent (PublishStreamRequested 1 app key)]));
   said (Relay (RegisterPublisher (app +:+ "/" +:+ key))) snd;
   said (AcceptRequest 1) (Returned (Ok []))].

Lemma publish_run s app key r snd r' :
  role s = Unknown -> session_sender s = None ->
  register_publisher (app +:+ "/" +:+ key) r = (snd, r') ->
  runs r (Ret (Handshaking [], s)) (publish_trace app key snd) r'
    (Ret (Streaming, published s (app +:+ "/" +:+ key) snd ((bytes_received s + 1) mod 2 ^ 64))).
Proof.
  intros Hr Hs Hreg. unfold publish_trace.
  eapply runs_round; [done|].
  eapply (runs_event _ _ _ _ (Ok [x03])); [done|]. simpl.
  eapply (runs_event _ _ _ _ (Returned (Ok (Completed [] [])))); [done|]. simpl.
  eapply (runs_event _ _ _ _ (Ok tt)); [done|]. simpl.
  eapply runs_round; [done|].
  eapply (runs_event _ _ _ _ (Returned (Ok []))); [done|]. simpl.
  eapply runs_round; [unfold resume, stage_round, loop_round; by rewrite sbind_self, Hr|].
  eapply (runs_event _ _ _ _ (Ok [x04])); [done|]. simpl.
  eapply (runs_event _ _ _ _ (Returned (Ok [RaisedEvent (PublishStreamRequested 1 app key)])));
    [done|]. simpl.
  eapply (runs_event _ _ _ _ snd); [exact Hreg|]. simpl. unfold replace_sender, sbind, self, modify. simpl. rewrite Hs. simpl.
  eapply (runs_event _ _ _ _ (Returned (Ok []))); [done|]. simpl. constructor.
Qed.

(** A publisher that disconnects, with Redis out of reach. *)
Definition disconnect_trace (key : string) (snd : Sender) : list revent :=
  [said SocketRead (Ok []); said (Relay (UnregisterPublisher key)) tt;
   said (Service Connect) (Err (redis_error "unreachable")); said (Relay (DropSender snd)) tt].

Lemma disconnect_run s key r snd :
  role s = Publisher -> session_key s = Some key -> session_sender s = Some snd ->
  started_event_sent s = false ->
  exists s', runs r (Ret (Streaming, s)) (disconnect_trace key snd)
    (on_channels (drop_sender snd) (unregister_publisher key r)) (Ret (Ended (Ok tt), s')).
Proof.
  intros Hr Hk Hs Hst. eexists. unfold disconnect_trace.
  eapply runs_round; [unfold resume, stage_round, loop_round; by rewrite sbind_self, Hr|].
  eapply (runs_event _ _ _ _ (Ok [])); [done|]. simpl. unfold cleanup. simpl.
  rewrite Hr, Hk, Hst. simpl.
  eapply (runs_event _ _ _ _ tt); [done|]. simpl.
  eapply (runs_event _ _ _ _ (Err (redis_error "unreachable"))); [done|]. simpl.
  unfold drop_session. simpl. rewrite Hs. simpl.
  eapply (runs_event _ _ _ _ tt); [done|]. simpl. constructor.
Qed.

(** A publisher that reconnects can be unlisted while it is live: the server reaches a
    state in which a connection is publishing a stream, its sender registered by its own
    publication, and yet the registry does not list the stream, because the earlier
    connection of the same key was cleaned up after it; a subscriber is then refused. *)
Theorem reconnected_publisher_unlisted srv c t0 app key :
  accept srv = Some t0 ->
  exists r ts s,
    reachable info srv c (r, ts) /\ ts !! 1 = Some (Ret (Streaming, s)) /\
    role s = Publisher /\ session_key s = Some (app +:+ "/" +:+ key) /\
    is_Some (session_sender s) /\
    is_stream_active (app +:+ "/" +:+ key) r = false /\
    subscribe (app +:+ "/" +:+ key) r = (None, r).
Proof.
  intros Ha. pose proof Ha as Ha'. unfold accept in Ha.
  destruct (RtmpSession_new (server_key srv) (server_events srv)) as [s0|] eqn:Hs0; [|done].
  injection Ha as <-.
  assert (role s0 = Unknown /\ session_sender s0 = None /\ started_event_sent s0 = false)
    as (Hr & Hs & Hst).
  { unfold RtmpSession_new in Hs0. destruct (secret_key_pkcs8 _); [by injection Hs0 as <-|done]. }
  set (k := app +:+ "/" +:+ key).
  destruct (register_publisher (F := StandardFields) k (StreamRegistry_new c)) as [snd0 r0] eqn:H0.
  destruct (register_publisher k r0) as [snd1 r1] eqn:H1.
  set (p0 := published s0 k snd0 ((bytes_received s0 + 1) mod 2 ^ 64)).
  set (p1 := published s0 k snd1 ((bytes_received s0 + 1) mod 2 ^ 64)).
  destruct (disconnect_run p0 k r1 snd0) as [s' Hd]; try done.
  set (r2 := on_channels (drop_sender snd0) (unregister_publisher k r1)) in *.
  assert (streams r2 !! k = None) as Hn.
  { unfold r2, unregister_publisher. simpl. by rewrite remove_streams, decide_True. }
  exists r2, [Ret (Ended (Ok tt), s'); Ret (Streaming, p1)], p1.
  split; [|split_and!; try done].
  - unfold reachable. eapply rtc_l; [by apply step_accept|]. eapply rtc_l; [by apply step_accept|].
    etransitivity; [apply (runs_pool srv _ _ _ _ _ _ 0 (publish_run _ _ _ _ _ _ Hr Hs H0)); done|].
    etransitivity; [apply (runs_pool srv _ _ _ _ _ _ 1 (publish_run _ _ _ _ _ _ Hr Hs H1)); done|].
    by apply (runs_pool srv _ _ _ _ _ [Ret (Streaming, p0); Ret (Streaming, p1)] 0 Hd).
  - unfold is_stream_active. by rewrite Hn.
  - unfold subscribe. by rewrite Hn.
Qed.
End RtmpLive.

(** ** Concrete connections *)

Definition sample_server : RtmpServer :=
  {| port := 1935; server_key := [x01]; server_events := None |}.

Definition fresh_session : RtmpSession :=
  {| role := Unknown; encryption_mode := Pending; session_key := None; manifest := None;
     collection := None; decryptor := None; kas_private_key := [x01]; session_sender := None;
     frame_receiver := None; subscriber_stream_id := None; metadata_received := false;
     event_broadcaster := None; started_event_sent := false; cached_video_header := None;
     cached_audio_header := None; cached_metadata := None; cached_ntdf_header := None;
     headers_sent := false; frame_count := 0; bytes_received := 0 |}.

(** A publisher, and a subscriber of its stream. *)
Definition sample_sender : Sender :=
  fst (register_publisher (F := StandardFields) "live/a" (StreamRegistry_new no_channels)).

Definition sample_publisher : RtmpSession := published fresh_session "live/a" sample_sender 1.

Definition sample_subscriber : RtmpSession :=
  fresh_session<|role := Subscriber|><|session_key := Some "live/a"|>
    <|encryption_mode := Passthrough|><|frame_receiver := Some sample_rx|>
    <|subscriber_stream_id := Some 1%Z|><|headers_sent := true|>.

Lemma sample_publisher_ok : session_ok sample_publisher.
Proof. unfold session_ok. simpl. split_and!; try done; by intros []. Qed.

Lemma sample_publisher_reachable :
  exists r, reachable true sample_server no_channels (r, [Ret (Streaming, sample_publisher)]).
Proof.
  destruct (register_publisher (F := StandardFields) "live/a" (StreamRegistry_new no_channels))
    as [snd r] eqn:H.
  assert (snd = sample_sender) as -> by (unfold sample_sender; by rewrite H).
  exists r. unfold reachable.
  eapply rtc_l; [by apply (step_accept true sample_server _ _ (Ret (Handshaking [], fresh_session)))|].
  exact (runs_pool true sample_server _ _ _ _ _ [Ret (Handshaking [], fresh_session)] 0
           (publish_run true fresh_session "live" "a" _ _ _ eq_refl eq_refl H) eq_refl).
Qed.

Lemma session_well_formed_witness : session_ok sample_publisher.
Proof.
  destruct sample_publisher_reachable as [r Hr].
  apply (session_well_formed true sample_server no_channels r
           [Ret (Streaming, sample_publisher)] 0 Streaming sample_publisher Hr); [done|by eexists].
Defined.

Lemma server_never_encrypts_witness : no_encryption _ SocketRead.
Proof.
  destruct sample_publisher_reachable as [r Hr].
  assert (exists k, resume true Streaming sample_publisher = Some (Vis SocketRead k)) as [k Hk]
    by (by eexists).
  apply (server_never_encrypts true sample_server no_channels r [Vis SocketRead k] 0 _ SocketRead k);
    [|done].
  eapply rtc_r; [exact Hr|].
  exact (step_round true sample_server r [Ret (Streaming, sample_publisher)] 0 Streaming
           sample_publisher _ eq_refl Hk).
Defined.

Lemma publisher_video_relayed_witness :
  every_run sends
    (fun l r => fst r = Done (Ok tt) /\ l = [(sample_sender, frame Video [x17; x01; xab] 40)]) []
    (handle_video_data [x17; x01; xab] 40 sample_publisher).
Proof.
  by apply publisher_video_relayed; [apply sample_publisher_ok| |].
Defined.

Lemma early_audio_dropped_witness :
  every_run sends
    (fun l r => fst r = Done (Ok tt) /\ l = [] /\ encryption_mode (snd r) = Pending) []
    (handle_audio_data [xaf; x01; xab] 40 sample_publisher).
Proof. by apply early_audio_dropped. Defined.

(** The relay after a publication, a subscription and two frames. *)
Definition sample_frames : list RelayFrame :=
  [frame Video [x17; x01; xab] 40; frame Audio [xaf; x01; xcd] 42].

Definition sample_relay : StreamRegistry StandardFields :=
  let r := snd (register_publisher (F := StandardFields) "live/a" (StreamRegistry_new no_channels)) in
  let r := snd (subscribe "live/a" r) in
  foldl (fun r f => on_channels (send sample_tx f) r) r sample_frames.

(** The same relay when the publisher has gone. *)
Definition sample_ended : StreamRegistry StandardFields :=
  on_channels (drop_sender sample_tx) (unregister_publisher "live/a" sample_relay).

Lemma subscriber_catches_up_witness :
  must true sample_rx
    (fun tr _ t => exists tr', delivered sample_rx 1 sample_frames tr' /\
       tr = tr' ++ [said (SelectReadRecv sample_rx) (FrameReady (Err Closed))] /\
       t = Ret (Ended (Ok tt), sample_subscriber))
    [] sample_ended (Ret (Streaming, sample_subscriber)).
Proof.
  destruct (subscriber_catches_up true sample_subscriber sample_rx 1 0 sample_ended
              sample_tx {| capacity := 256; handles := 0; sent := sample_frames |})
    as (_ & Hend & _); [done|done|done|simpl; lia|].
  by apply Hend.
Defined.

Lemma failed_connection_stays_registered_witness :
  exists t, resume true Streaming sample_publisher = Some t /\
  every_run withdraws
    (fun l r => match fst r with Ended (Ok _) => True | _ => l = [] end) [] t.
Proof.
  eexists. split; [reflexivity|].
  by apply (failed_connection_stays_registered true Streaming sample_publisher);
    [apply sample_publisher_ok|].
Defined.

Lemma reconnected_publisher_unlisted_witness :
  exists r ts s,
    reachable true sample_server no_channels (r, ts) /\ ts !! 1 = Some (Ret (Streaming, s)) /\
    role s = Publisher /\ session_key s = Some "live/a" /\ is_Some (session_sender s) /\
    is_stream_active "live/a" r = false /\ subscribe "live/a" r = (None, r).
Proof.
  exact (reconnected_publisher_unlisted true sample_server no_channels
           (Ret (Handshaking [], fresh_session)) "live" "a" eq_refl).
Defined.
