(* ===== verification/Listeners.v ===== *)
(** * The tasks of the server (src/src/bin/main.rs, src/src/modules/rtmp/server.rs)

    What runs once [main] has set up the server: the task that connects to NATS, the TCP
    listener with its handshakes, and the RTMP listener with a shutdown signal.  Each is a
    state machine whose moves are what tasks and peers can do next; the theorems hold for
    every order of the moves. *)
From S2P Require Import Prelude Services RtmpRelay RtmpMedia RtmpSession.
From stdpp Require Import gmap list relations.
#[local] Open Scope string_scope.
#[local] Open Scope nat_scope.
#[local] Open Scope list_scope.
#[local] Open Scope rust_scope.

(** ** The connection to NATS *)

Section Nats.
(** The client of async_nats. *)
Context {Client : Type}.

(** Where the task is: about to call [get_client], about to lock the client in [connect],
    connecting with the lock held, or asleep. *)
Inductive NatsTask : Set := Looking | Locking | Dialing | Asleep.

(** The client behind the mutex, the task, and what [get_client] gave the others so far. *)
Record NatsConnection := {
  client : option Client;
  nats_task : NatsTask;
  reads : list (option Client);
}.

Definition NatsConnection_new : NatsConnection :=
  {| client := None; nats_task := Looking; reads := [] |}.

Inductive NatsMove :=
| TaskLooks
| TaskLocks
| Connects (c : Client)
| ConnectFails
| TaskWakes
| OtherReads.

(** [connect] holds the mutex while it dials. *)
Definition unlocked (s : NatsConnection) : bool :=
  match nats_task s with Dialing => false | _ => true end.

Definition nats_next (s : NatsConnection) (mv : NatsMove) : option NatsConnection :=
  match mv, nats_task s with
  | TaskLooks, Looking =>
    Some {| client := client s; reads := reads s;
            nats_task := match client s with None => Locking | Some _ => Asleep end |}
  | TaskLocks, Locking => Some {| client := client s; reads := reads s; nats_task := Dialing |}
  | Connects c, Dialing => Some {| client := Some c; reads := reads s; nats_task := Asleep |}
  | ConnectFails, Dialing => Some {| client := client s; reads := reads s; nats_task := Asleep |}
  | TaskWakes, Asleep => Some {| client := client s; reads := reads s; nats_task := Looking |}
  | OtherReads, _ =>
    if unlocked s then
      Some {| client := client s; reads := reads s ++ [client s]; nats_task := nats_task s |}
    else None
  | _, _ => None
  end.

Fixpoint nats_run (s : NatsConnection) (mvs : list NatsMove) : option NatsConnection :=
  match mvs with
  | [] => Some s
  | mv :: mvs => s' ← nats_next s mv; nats_run s' mvs
  end.
End Nats.
Arguments NatsConnection : clear implicits.
Arguments NatsMove : clear implicits.

(** ** The TCP listener *)

Section Tcp.
Context {Addr Req : Type}.

(** The task of a connection: in the TLS handshake, or serving requests. *)
Inductive TcpPhase : Set := InHandshake | InService.

(** The tasks, and what was handed to the router: the request and its [ConnectInfo]. *)
Record TcpServer := {
  tcp_conns : gmap nat (Addr * TcpPhase);
  handed : list (nat * (Addr * Req));
}.

Inductive TcpMove :=
| TcpAccepts (c : nat) (remote_addr : Addr)
| TcpAcceptFails
| TlsAccepts (c : nat)
| TlsFails (c : nat)
| TlsTimesOut (c : nat)
| ServesRequest (c : nat) (request : Req)
| TcpEnds (c : nat).

Definition in_phase (p : TcpPhase) (c : nat) (s : TcpServer) : option Addr :=
  match tcp_conns s !! c, p with
  | Some (a, InHandshake), InHandshake | Some (a, InService), InService => Some a
  | _, _ => None
  end.

Definition set_conns (f : gmap nat (Addr * TcpPhase) -> gmap nat (Addr * TcpPhase))
    (s : TcpServer) : TcpServer :=
  {| tcp_conns := f (tcp_conns s); handed := handed s |}.

(** Connections are told apart by [c], which no connection had before.  Without TLS there is
    no handshake. *)
Definition tcp_next (tls : bool) (s : TcpServer) (mv : TcpMove) : option TcpServer :=
  match mv with
  | TcpAccepts c remote_addr =>
    match tcp_conns s !! c, list_find (fun h => h.1 = c) (handed s) with
    | None, None =>
      Some (set_conns (insert c (remote_addr, if tls then InHandshake else InService)) s)
    | _, _ => None
    end
  | TcpAcceptFails => Some s
  | TlsAccepts c =>
    a ← in_phase InHandshake c s; Some (set_conns (insert c (a, InService)) s)
  | TlsFails c | TlsTimesOut c => _ ← in_phase InHandshake c s; Some (set_conns (delete c) s)
  | ServesRequest c request =>
    a ← in_phase InService c s;
    Some {| tcp_conns := tcp_conns s; handed := (c, (a, request)) :: handed s |}
  | TcpEnds c => _ ← in_phase InService c s; Some (set_conns (delete c) s)
  end.

Fixpoint tcp_run (tls : bool) (s : TcpServer) (mvs : list TcpMove) : option TcpServer :=
  match mvs with
  | [] => Some s
  | mv :: mvs => s' ← tcp_next tls s mv; tcp_run tls s' mvs
  end.

Definition tcp_init : TcpServer := {| tcp_conns := ∅; handed := [] |}.
End Tcp.
Arguments TcpServer : clear implicits.
Arguments TcpMove : clear implicits.

(** ** The RTMP listener *)

(** An I/O error is the text it displays. *)
Inductive ServerError : Set := BindError (e : string) | AcceptError (e : string).

Definition server_error_text (e : ServerError) : string :=
  match e with
  | BindError e => "Failed to bind RTMP port: " +:+ e
  | AcceptError e => "Failed to accept connection: " +:+ e
  end.

Section Shutdown.
Context {crates : RtmpCrates} {broadcast : Broadcast} (info_enabled : bool).

(** [run_with_shutdown]: whether the loop goes on, and the tasks, which outlive it.  [bound]
    is the result of binding the port; an accept that fails is logged. *)
Definition listening : Type := result bool ServerError * pool.

Definition shutdown_start (bound : result unit string) (c : Channels) : listening :=
  (match bound with Ok _ => Ok true | Err e => Err (BindError e) end, (StreamRegistry_new c, [])).

Inductive shutdown_step (srv : RtmpServer) : listening -> listening -> Prop :=
| shutdown_accepts r ts t :
    accept srv = Some t -> shutdown_step srv (Ok true, (r, ts)) (Ok true, (r, ts ++ [t]))
| shutdown_accept_fails p (e : string) : shutdown_step srv (Ok true, p) (Ok true, p)
| shutdown_received p : shutdown_step srv (Ok true, p) (Ok false, p)
| shutdown_event l r r' ts i X (e : rtmp_event X) k x :
    ts !! i = Some (Vis e k) -> perform e r x r' ->
    shutdown_step srv (l, (r, ts)) (l, (r', <[i := k x]> ts))
| shutdown_round l r ts i st s t :
    ts !! i = Some (Ret (st, s)) -> resume info_enabled st s = Some t ->
    shutdown_step srv (l, (r, ts)) (l, (r, <[i := t]> ts)).
End Shutdown.

(** ** Theorems: NATS *)

Section NatsProps.
Context {Client : Type}.
Implicit Types (s : NatsConnection Client) (c : Client).

(** A client is set once: what was read is nothing at first and then that client, and the
    task does not dial with a client. *)
Definition nats_ok s : Prop :=
  exists n m, reads s = replicate n None ++ replicate m (client s) /\
  (is_Some (client s) -> nats_task s = Asleep \/ nats_task s = Looking).

Lemma nats_next_ok s mv s' :
  nats_ok s -> nats_next s mv = Some s' ->
  nats_ok s' /\ (forall c, client s = Some c -> client s' = Some c).
Proof.
  intros (n & m & Hr & Ht) H. unfold nats_next, unlocked in H.
  destruct mv, (nats_task s) eqn:Hs, (client s) as [c0|] eqn:Hc; simplify_eq;
    try (destruct Ht as [?|?]; [by eexists|done..]); cbn.
  all: (split; [|congruence]).
  all: unfold nats_ok; cbn; rewrite ?Hr, ?Hs, ?Hc.
  all: first
    [ exists n, m; split; [done|]; by (eauto || intros [? ?])
    | exists (n + m), 0; rewrite replicate_add, app_nil_r; by eauto
    | exists n, (m + 1); rewrite replicate_add, app_assoc; by (eauto || (split; [done|intros [? ?]])) ].
Qed.

Lemma nats_run_ok s mvs s' :
  nats_ok s -> nats_run s mvs = Some s' ->
  nats_ok s' /\ (forall c, client s = Some c -> client s' = Some c).
Proof.
  revert s. induction mvs as [|mv mvs IH]; intros s Hs H; cbn in H; [by simplify_eq|].
  destruct (nats_next s mv) as [s1|] eqn:Hn; cbn in H; [|done].
  destruct (nats_next_ok _ _ _ Hs Hn) as [H1 Hc]. destruct (IH _ H1 H) as [H2 Hc2]. eauto.
Qed.

(** Whatever the order of the moves: the client is set at most once and never replaced, every
    [get_client] gives nothing until then and that client from then on, and the task dials
    only without one. *)
Theorem nats_client_stable mvs1 mvs2 s1 s2 :
  nats_run NatsConnection_new mvs1 = Some s1 -> nats_run s1 mvs2 = Some s2 ->
  (forall c, client s1 = Some c -> client s2 = Some c) /\
  (exists n m, reads s2 = replicate n None ++ replicate m (client s2)) /\
  (nats_task s2 = Dialing -> client s2 = None).
Proof.
  intros H1 H2. assert (nats_ok NatsConnection_new) as H0.
  { exists 0, 0. split; [done|]. by intros [? ?]. }
  destruct (nats_run_ok _ _ _ H0 H1) as [Hs1 _].
  destruct (nats_run_ok _ _ _ Hs1 H2) as [(n & m & Hr & Ht) Hc].
  split; [done|]. split; [by exists n, m|]. intros Hd. destruct (client s2); [|done].
  destruct Ht as [?|?]; [by eexists|congruence..].
Qed.

(** Who asks only once, as [main] does for the metrics and for the RTMP server, can be given
    nothing although the server is connected a moment later. *)
Theorem nats_asked_too_early c :
  exists s, nats_run NatsConnection_new [OtherReads; TaskLooks; TaskLocks; Connects c] = Some s /\
    client s = Some c /\ reads s = [None].
Proof. by eexists. Qed.
End NatsProps.

(** ** Theorems: TCP *)

Section TcpProps.
Context {Addr Req : Type} (tls : bool).
Implicit Types (s : TcpServer Addr Req) (mvs : list (TcpMove Addr Req)).

(** Among [mvs], connection [c] was accepted from [a] and then, with TLS, its handshake
    completed. *)
Definition accepted mvs (c : nat) (a : Addr) : Prop := TcpAccepts c a ∈ mvs.
Definition established mvs (c : nat) (a : Addr) : Prop :=
  exists before after, mvs = before ++ after /\ accepted before c a /\
    (tls = true -> TlsAccepts c ∈ after).
Definition requested mvs (c : nat) (a : Addr) (r : Req) : Prop :=
  exists before after, mvs = before ++ ServesRequest c r :: after /\ established before c a.

Lemma established_app mvs mvs' c a : established mvs c a -> established (mvs ++ mvs') c a.
Proof.
  intros (b & d & -> & Hb & Hd). exists b, (d ++ mvs'). rewrite app_assoc. split_and!; [done..|].
  intros Ht. apply elem_of_app. auto.
Qed.

Definition tcp_ok mvs s : Prop :=
  (forall c a p, tcp_conns s !! c = Some (a, p) ->
     accepted mvs c a /\ (p = InService -> established mvs c a)) /\
  (forall c a r, (c, (a, r)) ∈ handed s -> requested mvs c a r).

Lemma tcp_run_app s mvs mv :
  tcp_run tls s (mvs ++ [mv]) = (s' ← tcp_run tls s mvs; tcp_next tls s' mv).
Proof.
  revert s. induction mvs as [|m mvs IH]; intros s; cbn.
  - by destruct (tcp_next tls s mv).
  - destruct (tcp_next tls s m); cbn; [apply IH|done].
Qed.

Lemma tcp_ok_more mvs s mv : tcp_ok mvs s -> tcp_ok (mvs ++ [mv]) s.
Proof.
  intros [Hc Hh]. split.
  - intros c a p H. destruct (Hc _ _ _ H) as [H1 H2]. split; [apply elem_of_app; by left|].
    intros Hp. apply established_app; auto.
  - intros c a r H. destruct (Hh _ _ _ H) as (b & d & -> & He). exists b, (d ++ [mv]).
    by rewrite <- app_assoc.
Qed.

Lemma tcp_ok_conns mvs s f :
  tcp_ok mvs s ->
  (forall c a p, f (tcp_conns s) !! c = Some (a, p) -> tcp_conns s !! c = Some (a, p) \/
     accepted mvs c a /\ (p = InService -> established mvs c a)) ->
  tcp_ok mvs (set_conns f s).
Proof. intros [Hc Hh] Hf. split; [|done]. intros c a p H. destruct (Hf _ _ _ H); eauto. Qed.

Lemma tcp_ok_delete mvs s c : tcp_ok mvs s -> tcp_ok mvs (set_conns (delete c) s).
Proof. intros H. apply tcp_ok_conns; [done|]. intros d a p [_ ?]%lookup_delete_Some. by left. Qed.

Lemma in_phase_Some p c s a : in_phase p c s = Some a -> tcp_conns s !! c = Some (a, p).
Proof. unfold in_phase. by destruct (tcp_conns s !! c) as [[? []]|], p; intros; simplify_eq. Qed.

Lemma tcp_next_ok mvs s mv s' :
  tcp_ok mvs s -> tcp_next tls s mv = Some s' -> tcp_ok (mvs ++ [mv]) s'.
Proof.
  intros Hok H. pose proof (tcp_ok_more mvs s mv Hok) as Hok'.
  destruct mv as [c a| |c|c|c|c r|c]; cbn in H.
  - destruct (tcp_conns s !! c), (list_find (fun h => h.1 = c) (handed s)); simplify_eq.
    apply tcp_ok_conns; [done|]. intros d a' p [[<- [=<- <-]]|[_ ?]]%lookup_insert_Some; [right|by left].
    assert (accepted (mvs ++ [TcpAccepts c a]) c a) as Ha by (apply elem_of_app; right; by left).
    split; [done|]. intros Hp. eexists _, []. rewrite app_nil_r. split_and!; [done..|].
    intros ->. done.
  - by simplify_eq.
  - destruct (in_phase InHandshake c s) as [a|] eqn:Hp; cbn in H; simplify_eq.
    apply in_phase_Some in Hp. destruct (proj1 Hok _ _ _ Hp) as [Ha _].
    apply tcp_ok_conns; [done|]. intros d a' p [[<- [=<- <-]]|[_ ?]]%lookup_insert_Some; [right|by left].
    split; [apply elem_of_app; by left|]. intros _. exists mvs, [TlsAccepts c].
    split_and!; [done..|]. intros _. by left.
  - destruct (in_phase InHandshake c s); cbn in H; simplify_eq. by apply tcp_ok_delete.
  - destruct (in_phase InHandshake c s); cbn in H; simplify_eq. by apply tcp_ok_delete.
  - destruct (in_phase InService c s) as [a|] eqn:Hp; cbn in H; simplify_eq.
    apply in_phase_Some in Hp. destruct (proj1 Hok _ _ _ Hp) as [_ He].
    split; [apply Hok'|]. cbn. intros d a' r' [[=-> -> ->]|?]%elem_of_cons; [|by apply Hok'].
    exists mvs, []. auto.
  - destruct (in_phase InService c s); cbn in H; simplify_eq. by apply tcp_ok_delete.
Qed.

(** Whatever the order of the moves: a request handed to the router was served on a connection
    that had been accepted from the address it carries and, with TLS, had completed its
    handshake since; and no handshake keeps the listener from accepting the next peer. *)
Theorem tcp_requests_established mvs s :
  tcp_run tls tcp_init mvs = Some s ->
  (forall c a r, (c, (a, r)) ∈ handed s -> requested mvs c a r) /\
  (forall a, exists c s', tcp_next tls s (TcpAccepts c a) = Some s').
Proof.
  intros H. split.
  - assert (tcp_ok mvs s) as [_ ?]; [|done]. revert s H.
    induction mvs as [|mv mvs IH] using rev_ind; intros s H.
    + injection H as <-. split; [done|]. intros ??? Hin. by apply elem_of_nil in Hin.
    + rewrite tcp_run_app in H. destruct (tcp_run tls tcp_init mvs) as [s1|]; [|done].
      by eapply tcp_next_ok; [apply IH|].
  - intros a. pose (X := dom (tcp_conns s) ∪ list_to_set (fst <$> handed s) : gset nat).
    exists (fresh X). pose proof (is_fresh X) as Hf. unfold X at 2 in Hf.
    apply not_elem_of_union in Hf as [H1 H2]. cbn.
    rewrite (proj1 (not_elem_of_dom _ _) H1).
    destruct (list_find (fun h => h.1 = fresh X) (handed s)) as [[i [d p]]|] eqn:Hl; [|by eexists].
    apply list_find_Some in Hl as (Hl & Hd & _). cbn in Hd. destruct H2.
    apply elem_of_list_to_set, list_elem_of_fmap. exists (d, p). split; [done|].
    by eapply list_elem_of_lookup_2.
Qed.

(** The number of connections is not bounded. *)
Theorem tcp_connections_unbounded (a : Addr) n :
  exists mvs s, tcp_run tls tcp_init mvs = Some s /\ size (tcp_conns s) = n.
Proof.
  assert (exists mvs s, tcp_run tls tcp_init mvs = Some s /\ size (tcp_conns s) = n /\
    handed s = [] /\ forall c, n <= c -> tcp_conns s !! c = None) as (mvs & s & ? & ? & _); [|eauto].
  induction n as [|n (mvs & s & H & Hn & Hh & Hc)].
  - exists [], tcp_init. by split_and!.
  - eexists (mvs ++ [TcpAccepts n a]), _. rewrite tcp_run_app, H. cbn.
    rewrite Hc, Hh by lia. cbn. split_and!; [done| |done|].
    + cbn. rewrite map_size_insert_None by auto. lia.
    + intros c Hle. cbn. rewrite lookup_insert_ne by lia. apply Hc. lia.
Qed.
End TcpProps.

(** ** Theorems: RTMP *)

Section ShutdownProps.
Context {crates : RtmpCrates} {broadcast : Broadcast} (info_enabled : bool).
Implicit Types (l : listening) (srv : RtmpServer).

Lemma shutdown_simulates srv l l' :
  shutdown_step info_enabled srv l l' -> rtc (pool_step info_enabled srv) l.2 l'.2.
Proof.
  intros []; cbn; try done; apply rtc_once.
  - by apply step_accept.
  - by eapply step_event.
  - by eapply step_round.
Qed.

(** The server with a shutdown signal refines the one without: its tasks and streams are always
    ones that the plain server can have.  So what is proved of every reachable state of the
    server holds with the signal too. *)
Theorem shutdown_refines srv bound c l :
  rtc (shutdown_step info_enabled srv) (shutdown_start bound c) l -> reachable info_enabled srv c l.2.
Proof.
  unfold reachable. change (StreamRegistry_new c, []) with (shutdown_start bound c).2.
  intros H. induction H as [|l1 l2 l3 Hs _ IH]; [done|].
  etrans; [by eapply shutdown_simulates|done].
Qed.

(** After the signal, or if the port could not be bound, no connection is accepted: the
    sessions that run go on, and there are never more. *)
Theorem shutdown_accepts_no_more srv l l' :
  l.1 <> Ok true -> rtc (shutdown_step info_enabled srv) l l' ->
  l'.1 = l.1 /\ length l'.2.2 = length l.2.2.
Proof.
  intros Hl H. induction H as [|l1 l2 l3 Hs _ IH]; [done|].
  assert (l2.1 = l1.1 /\ length l2.2.2 = length l1.2.2) as [H1 H2].
  { destruct Hs; cbn in *; rewrite ?length_insert; done. }
  rewrite <- H1, <- H2. apply IH. by rewrite H1.
Qed.
End ShutdownProps.
