(* ===== verification/HttpHeaders.v ===== *)
(** * HTTP headers (the http crate)

    A header map keeps a list of values per name.  [Headers] are the operations the sources
    use and [HeadersLaws] their documented behaviour in terms of [get_all]; names are compared
    in lower case, so a name here is one.  [header_list] is an implementation. *)
From S2P Require Import Prelude RustStr.
From stdpp Require Import list.

Class Headers := {
  header_map : Type;
  no_headers : header_map;
  get_all : string -> header_map -> list bytes;
  header_remove : string -> header_map -> header_map;
  header_insert : string -> bytes -> header_map -> header_map;
  value_to_str : bytes -> option string;
  value_from_str : string -> option bytes;
  value_from_u64 : Z -> bytes;
  name_from_str : string -> option string;
}.

(** [get] is the first value. *)
Definition header_get `{!Headers} (n : string) (h : header_map) : option bytes := head (get_all n h).

Definition header_contains `{!Headers} (n : string) (h : header_map) : bool :=
  match get_all n h with [] => false | _ => true end.

Class HeadersLaws `{!Headers} := {
  get_all_none : forall n, get_all n no_headers = [];
  get_all_remove : forall n m h,
    get_all n (header_remove m h) = if decide (n = m) then [] else get_all n h;
  get_all_insert : forall n m v h,
    get_all n (header_insert m v h) = if decide (n = m) then [v] else get_all n h;
  value_from_str_visible : forall s,
    Forall (fun b => within 32 126 b = true) (as_bytes s) -> value_from_str s = Some (as_bytes s);
  value_from_u64_decimal : forall n, value_from_u64 n = as_bytes (display_Z n);
}.

(** Removal of several names, one after the other. *)
Lemma get_all_remove_list `{!Headers, !HeadersLaws} names n h :
  get_all n (foldl (fun h m => header_remove m h) h names) =
  if decide (n ∈ names) then [] else get_all n h.
Proof.
  revert h. induction names as [|m names IH]; intros h; cbn [foldl].
  { by rewrite decide_False by apply not_elem_of_nil. }
  rewrite IH, get_all_remove. destruct (decide (n = m)) as [->|Hne].
  - rewrite (decide_True (P := m ∈ m :: names)) by left. by case_decide.
  - destruct (decide (n ∈ names)) as [Hin|Hin].
    + by rewrite decide_True by by right.
    + rewrite decide_False; [done|]. by intros [->|?]%elem_of_cons.
Qed.

(** ** Association lists *)

Definition list_get_all (n : string) (h : list (string * bytes)) : list bytes :=
  (filter (fun kv => kv.1 = n) h).*2.

#[export] Instance header_list : Headers := {|
  header_map := list (string * bytes);
  no_headers := [];
  get_all := list_get_all;
  header_remove n h := filter (fun kv => kv.1 <> n) h;
  header_insert n v h := filter (fun kv => kv.1 <> n) h ++ [(n, v)];
  value_to_str := from_utf8;
  value_from_str s :=
    if forallb (within 32 126) (as_bytes s) then Some (as_bytes s) else None;
  value_from_u64 n := as_bytes (display_Z n);
  name_from_str s := Some (to_ascii_lowercase s);
|}.

Lemma list_get_all_remove n m h :
  list_get_all n (filter (fun kv => kv.1 <> m) h) = if decide (n = m) then [] else list_get_all n h.
Proof.
  unfold list_get_all. induction h as [|[k v] h IH]; [by case_decide|].
  destruct (decide (k = m)) as [->|Hkm].
  - rewrite (filter_cons_False (fun kv => kv.1 <> m)) by naive_solver. rewrite IH.
    destruct (decide (n = m)) as [->|Hne]; [done|].
    by rewrite filter_cons_False by (simpl; congruence).
  - rewrite (filter_cons_True (fun kv => kv.1 <> m)) by done.
    destruct (decide (k = n)) as [->|Hkn].
    + rewrite !filter_cons_True by done. rewrite !fmap_cons, IH. by rewrite !decide_False.
    + rewrite !filter_cons_False by done. apply IH.
Qed.

Lemma list_get_all_app n h h' : list_get_all n (h ++ h') = list_get_all n h ++ list_get_all n h'.
Proof. unfold list_get_all. by rewrite filter_app, fmap_app. Qed.

#[export] Instance header_list_laws : HeadersLaws.
Proof.
  split.
  - done.
  - apply list_get_all_remove.
  - intros n m v h. etrans; [apply list_get_all_app|]. rewrite list_get_all_remove.
    unfold list_get_all at 2. destruct (decide (n = m)) as [->|Hne].
    + by rewrite filter_cons_True.
    + rewrite filter_cons_False by (simpl; congruence). by rewrite app_nil_r.
  - intros s Hs. simpl. rewrite (proj2 (forallb_forall _ _)); [done|].
    intros b Hb. by eapply Forall_forall in Hs; [|apply list_elem_of_In].
  - done.
Qed.
