(* ===== verification/PlatformProxy.v ===== *)
(** * The reverse proxy (src/src/modules/platform_proxy.rs)

    Requests that go to the upstream platform.  [ProxyEvent] are reading the body of the
    request and sending the forwarded one; the URL parser and the client's builder are
    parameters. *)
From S2P Require Import Prelude RustStr Services HttpHeaders.
From stdpp Require Import list.

#[local] Open Scope string_scope.
#[local] Open Scope nat_scope.
#[local] Open Scope list_scope.
#[local] Open Scope rust_scope.

Inductive ProxyMode : Set := Off | Connect | Rest | Both.

#[export] Instance proxy_mode_eq_dec : EqDecision ProxyMode.
Proof. solve_decision. Defined.

Definition proxy_mode_from_str (s : string) : result ProxyMode string :=
  let other := to_ascii_lowercase s in
  if bool_decide (other = "off" \/ other = "") then Ok Off
  else if bool_decide (other = "connect") then Ok Connect
  else if bool_decide (other = "rest") then Ok Rest
  else if bool_decide (other = "both") then Ok Both
  else Err ("invalid KAS_PROXY_MODE: " +:+ other).

Definition forwards_connect (m : ProxyMode) : bool :=
  match m with Connect | Both => true | _ => false end.
Definition forwards_rest (m : ProxyMode) : bool :=
  match m with Rest | Both => true | _ => false end.
Definition forwards_discovery (m : ProxyMode) : bool := match m with Off => false | _ => true end.

Record PlatformProxyState := { upstream_base : string }.

(** [url_scheme] is [Url::parse] and the scheme; [client_build] the client's builder. *)
Definition proxy_state_new (url_scheme : string -> result string string)
    (client_build : result unit string) (upstream : string) : result PlatformProxyState string :=
  let? scheme := map_err (fun e => "invalid upstream URL: " +:+ e) (url_scheme upstream) in
  if negb (bool_decide (scheme = "http")) && negb (bool_decide (scheme = "https"))
  then Err ("invalid upstream URL scheme: " +:+ scheme) else
  check map_err (fun e => "failed to build reqwest client: " +:+ e) client_build ;;
  Ok {| upstream_base := trim_end_matches "/" upstream |}.

Definition MAX_PROXY_BODY : nat := Z.to_nat (16 * 1024 * 1024).

Definition HOP_BY_HOP : list string :=
  ["connection"; "proxy-authenticate"; "proxy-authorization"; "te"; "trailer";
   "transfer-encoding"; "upgrade"; "host"].

Section Proxy.
Context {headers : Headers}.

(** The names in the first [Connection] header. *)
Definition connection_listed (h : header_map) : list string :=
  match (v ← header_get "connection" h; value_to_str v) with
  | Some val =>
    omap (M := list) name_from_str (filter (fun s => s <> "") (trim <$> str_split "," val))
  | None => []
  end.

Definition strip_proxy_headers (h : header_map) : header_map :=
  let h' := foldl (fun h n => header_remove n h) h (connection_listed h) in
  let h' := foldl (fun h n => header_remove n h) h' HOP_BY_HOP in
  header_remove "keep-alive" h'.

(** A request, with the path and query of its URI, and a response. *)
Record ProxyRequest := {
  req_method : string;
  req_path_query : option string;
  req_headers : header_map;
}.

Record Forwarded := {
  fwd_method : string;
  fwd_url : string;
  fwd_headers : header_map;
  fwd_body : bytes;
}.

Record ProxyResponse := {
  resp_status : Z;
  resp_headers : header_map;
  resp_body : bytes;
}.

(** [ReadBody n] is [axum::body::to_bytes] with the limit [n]; the answer to [Send] is the
    failure to send, or a status, headers and what reading the body gives. *)
Inductive ProxyEvent : Type -> Type :=
| ReadBody (limit : nat) : ProxyEvent (result bytes string)
| Send (f : Forwarded) : ProxyEvent (result (Z * header_map * result bytes string) string).

Definition proxy (st : PlatformProxyState) (req : ProxyRequest) :
    prog ProxyEvent (result ProxyResponse Z) :=
  let path_query := default "/" (req_path_query req) in
  let url := upstream_base st +:+ path_query in
  let* body := trigger (ReadBody MAX_PROXY_BODY) in
  match body with
  | Err _ => Ret (Err 413%Z)
  | Ok body_bytes =>
    let* resp := trigger (Send {| fwd_method := req_method req; fwd_url := url;
      fwd_headers := strip_proxy_headers (req_headers req); fwd_body := body_bytes |}) in
    match resp with
    | Err _ => Ret (Err 502%Z)
    | Ok (status, h, answer) =>
      match answer with
      | Err _ => Ret (Err 502%Z)
      | Ok b =>
        Ret (Ok {| resp_status := status; resp_headers := strip_proxy_headers h; resp_body := b |})
      end
    end
  end.

(** ** Theorems *)

Context {laws : HeadersLaws}.

(** The names that are removed. *)
Definition hop_by_hop (h : header_map) (n : string) : Prop :=
  n ∈ HOP_BY_HOP \/ n = "keep-alive" \/ n ∈ connection_listed h.

#[export] Instance hop_by_hop_dec h n : Decision (hop_by_hop h n).
Proof. unfold hop_by_hop. apply _. Defined.

Lemma get_all_strip h n :
  get_all n (strip_proxy_headers h) = if decide (hop_by_hop h n) then [] else get_all n h.
Proof.
  unfold strip_proxy_headers, hop_by_hop. rewrite get_all_remove, !get_all_remove_list.
  repeat case_decide; naive_solver.
Qed.

End Proxy.

(** ** Concrete requests *)

(** A request whose connection header names a header of its own. *)
Definition sample_proxy_request : ProxyRequest :=
  {| req_method := "POST"; req_path_query := Some "/kas/v2/rewrap?x=1";
     req_headers := [("host", as_bytes "kas"); ("connection", as_bytes "close, X-Hop");
                     ("x-hop", as_bytes "1"); ("authorization", as_bytes "Bearer t")] |}.

Definition sample_forwarded : Forwarded :=
  {| fwd_method := "POST"; fwd_url := "http://up/kas/v2/rewrap?x=1";
     fwd_headers := [("authorization", as_bytes "Bearer t")]; fwd_body := [x01] |}.

Definition sample_proxy_trace : list (answer ProxyEvent) :=
  [answered (ReadBody MAX_PROXY_BODY) (Ok [x01]);
   answered (Send sample_forwarded) (Ok (200%Z, [("te", as_bytes "x"); ("etag", as_bytes "e")], Ok [x02]))].

Definition sample_proxy_answer : ProxyResponse :=
  {| resp_status := 200; resp_headers := [("etag", as_bytes "e")]; resp_body := [x02] |}.


(** Of several connection headers only the first is read: the names in the others are
    forwarded. *)
Theorem second_connection_header_forwarded :
  get_all "x-hop" (strip_proxy_headers
    [("connection", as_bytes "close"); ("connection", as_bytes "x-hop"); ("x-hop", as_bytes "1")]) =
  [as_bytes "1"].
Proof. vm_compute. reflexivity. Qed.
