(* ===== verification/SecureKeys.v ===== *)
(** * Secure key wrappers (src/src/modules/secure_keys.rs)

    The wrappers of the EC and RSA keys.  [Secret] keeps its bytes; zeroing memory on drop is
    not observable by the program.  The scalar multiplication and the RSA encodings are the
    class [SecureKeyCrates]. *)
From S2P Require Import NtdfToken.
From S2P Require Import Prelude Services Chain MediaApi WebSocket ServerConfig.
From stdpp Require Import list.

#[local] Open Scope string_scope.
#[local] Open Scope nat_scope.
#[local] Open Scope list_scope.
#[local] Open Scope rust_scope.

Inductive KeyError : Set :=
| InvalidKeySize (expected got : nat)
| InvalidFormat (e : string)
| CryptoError (e : string).

Record SecureEcPrivateKey := { ec_secret : bytes }.

(** [copy_from_slice] into [n] bytes *)
Definition copy_from_slice (n : nat) (src : bytes) : outcome bytes :=
  if length src =? n then Done src else Panic.

Class SecureKeyCrates `{!MediaCrates} := {
  (** The x-coordinate of the product of a public point and a secret scalar. *)
  shared_x : MediaApi.SecretKey -> MediaApi.PublicKey -> bytes;
  rsa_from_pkcs8_pem : string -> result RsaPrivateKey string;
  rsa_to_public_key_pem : RsaPrivateKey -> result string string;
}.

Section Keys.
Context {media : MediaCrates} {token : TokenCrypto} {ws : WsCrates} {keys : KeyCrates}
  {crates : SecureKeyCrates}.

Definition from_bytes (b : bytes) : outcome (result SecureEcPrivateKey KeyError) :=
  if negb (length b =? 32) then Done (Err (InvalidKeySize 32 (length b))) else
  let! key_array := copy_from_slice 32 b in
  Done (Ok {| ec_secret := key_array |}).

Definition from_sec1_pem (pem_content : string) : outcome (result SecureEcPrivateKey KeyError) :=
  match pem_parse_tagged pem_content with
  | Err e => Done (Err (InvalidFormat e))
  | Ok (tag, contents) =>
    if negb (bool_decide (tag = "EC PRIVATE KEY"))
    then Done (Err (InvalidFormat ("Expected EC PRIVATE KEY, got " +:+ tag)))
    else match secret_from_sec1_der contents with
    | Err e => Done (Err (InvalidFormat e))
    | Ok secret_key => from_bytes (secret_to_bytes secret_key)
    end
  end.

Definition as_secret_key (s : SecureEcPrivateKey) : result MediaApi.SecretKey KeyError :=
  map_err CryptoError (secret_key_from_bytes (ec_secret s)).

Definition public_key (s : SecureEcPrivateKey) : result bytes KeyError :=
  let? secret_key := map_err CryptoError (secret_key_from_bytes (ec_secret s)) in
  Ok (to_encoded_point (secret_public_key secret_key)).

Definition perform_ecdh (s : SecureEcPrivateKey) (peer_public : MediaApi.PublicKey) :
    outcome (result bytes KeyError) :=
  match map_err CryptoError (secret_key_from_bytes (ec_secret s)) with
  | Err e => Done (Err e)
  | Ok secret_key =>
    let! result := copy_from_slice 32 (shared_x secret_key peer_public) in
    Done (Ok result)
  end.

(** [Debug], and [Clone] of the 32 bytes. *)
Definition ec_debug (s : SecureEcPrivateKey) : string := "SecureEcPrivateKey([REDACTED])".
Definition ec_clone (s : SecureEcPrivateKey) : outcome SecureEcPrivateKey :=
  let! b := copy_from_slice 32 (ec_secret s) in Done {| ec_secret := b |}.

Record SecureRsaPrivateKey := { rsa_inner : RsaPrivateKey }.

Definition from_pkcs8_pem (pem_content : string) : result SecureRsaPrivateKey KeyError :=
  let? private_key := map_err InvalidFormat (rsa_from_pkcs8_pem pem_content) in
  Ok {| rsa_inner := private_key |}.

Definition public_key_pem (s : SecureRsaPrivateKey) : result string KeyError :=
  map_err CryptoError (rsa_to_public_key_pem (rsa_inner s)).

Definition rsa_debug (s : SecureRsaPrivateKey) : string := "SecureRsaPrivateKey([REDACTED])".

(** [load_rsa_key] of main.rs, without the wrapper. *)
Definition load_rsa_key (key_path : string) :
    prog (event CachedEntry) (result (RsaPrivateKey * string) string) :=
  let*? pem_content := trigger (Os (ReadToString key_path)) in
  let*? private_key := Ret (rsa_from_pkcs8_pem pem_content) in
  let*? public_key_pem := Ret (rsa_to_public_key_pem private_key) in
  Ret (Ok (private_key, public_key_pem)).
End Keys.

(** ** Theorems *)

(** A secret key is 32 bytes, from which it is read back; a coordinate is 32 bytes. *)
Class SecureKeyLaws `{!MediaCrates, !TokenCrypto, !WsCrates, !KeyCrates, !SecureKeyCrates} := {
  secret_read_back : forall k, secret_key_from_bytes (secret_to_bytes k) = Ok k;
  secret_length : forall k, length (secret_to_bytes k) = 32;
  shared_x_length : forall k p, length (shared_x k p) = 32;
}.

Section Props.
Context {media : MediaCrates} {token : TokenCrypto} {ws : WsCrates} {keys : KeyCrates}
  {crates : SecureKeyCrates} {laws : SecureKeyLaws}.

(** A key is opened just from the PEM of an EC private key, never with a panic; it then
    gives back that key, its public key, and the agreement with any peer, and so does a
    clone of it. *)
Theorem secure_key_opened pem_content :
  exists r, from_sec1_pem pem_content = Done r /\ forall s, r = Ok s <->
    exists der k, pem_parse_tagged pem_content = Ok ("EC PRIVATE KEY", der) /\
      secret_from_sec1_der der = Ok k /\ s = {| ec_secret := secret_to_bytes k |} /\
      as_secret_key s = Ok k /\ public_key s = Ok (to_encoded_point (secret_public_key k)) /\
      (forall p, perform_ecdh s p = Done (Ok (shared_x k p))) /\ ec_clone s = Done s.
Proof.
  unfold from_sec1_pem. destruct (pem_parse_tagged pem_content) as [[tag der]|e].
  2: { eexists. split; [done|]. intros s. split; [done|]. by intros (? & ? & ? & _). }
  case_bool_decide as Ht; cbn [negb].
  2: { eexists. split; [done|]. intros s. split; [done|]. intros (? & ? & [= ? _] & _). done. }
  destruct (secret_from_sec1_der der) as [k|e] eqn:Hk.
  2: { eexists. split; [done|]. intros s. split; [done|]. intros (? & ? & [= _ <-] & ? & _). congruence. }
  unfold from_bytes, copy_from_slice. rewrite secret_length. cbn. eexists. split; [done|].
  intros s. split.
  - intros [= <-]. subst tag. exists der, k. unfold as_secret_key, public_key, perform_ecdh, ec_clone, copy_from_slice.
    cbn. rewrite secret_read_back, secret_length. cbn. do 5 (split; [done|]). split; [|done].
    intros p. by rewrite shared_x_length.
  - intros (der' & k' & [= _ <-] & Hk' & -> & _). rewrite Hk in Hk'. by injection Hk' as <-.
Qed.

(** The text that an answered event read from a file. *)
Definition text_read (a : answer (event CachedEntry)) : option (result string string) :=
  match a with
  | existT _ (e, x) =>
    match e in event _ X return X -> option (result string string) with
    | Os c => match c in os_cmd Y return Y -> option (result string string) with
              | ReadToString _ => Some
              | _ => fun _ => None
              end
    | _ => fun _ => None
    end x
  end.

(** The wrapper and [init_kas_keys] read the same keys from a PEM file. *)
Theorem secure_key_is_kas_key pem_content s path kas :
  from_sec1_pem pem_content = Done (Ok s) ->
  Services.path (init_kas_keys None path) [answered (Os (ReadToString path)) (Ok pem_content)]
    (Done (Ok kas)) ->
  kas_private_key kas = ec_secret s /\ public_key s = Ok (kas_public_key kas).
Proof.
  intros Hs H. destruct (secure_key_opened pem_content) as (r & Hr & Hex).
  rewrite Hs in Hr. injection Hr as <-.
  destruct (proj1 (Hex s) eq_refl) as (der & k & Hpem & Hk & -> & _ & Hpub & _).
  unfold init_kas_keys in H. cbn in H. destruct H as (x & Hx & H).
  apply (f_equal text_read) in Hx. cbn in Hx. injection Hx as <-. cbn in H. rewrite Hpem in H. cbn in H. rewrite Hk in H. cbn in H.
  destruct (length (to_encoded_point (secret_public_key k)) =? 33); [|done].
  by injection H as ->.
Qed.
End Props.
