(* ===== verification/FairPlay.v ===== *)
(** * FairPlay (src/crates/fairplay-wrapper/src/lib.rs, src/src/modules/fairplay.rs)

    The wrapper of Apple's SDK and the handler of the server.  The calls of the SDK are
    [FpsEvent]s, with the text they leave behind as answers; the JSON and base64 crates are
    the class [FpsCrates].  Logging is left out. *)
From S2P Require Import Prelude RustStr Json Services.
From stdpp Require Import list.

#[local] Open Scope string_scope.
#[local] Open Scope nat_scope.
#[local] Open Scope list_scope.
#[local] Open Scope rust_scope.

(** [SetCredentials] sets the variable [FAIRPLAY_CREDENTIALS_PATH]; the other four are the
    functions of the SDK.  [FpsProcess] and [FpsGetVersion] answer a status and, if that is
    zero, the text they allocated. *)
Inductive FpsEvent : Type -> Type :=
| SetCredentials (path : string) : FpsEvent unit
| FpsGetVersion : FpsEvent (Z * string)
| FpsDisposeVersion : FpsEvent unit
| FpsProcess (json : string) : FpsEvent (Z * string)
| FpsDisposeResponse : FpsEvent unit.

Class FpsCrates := {
  fps_to_string : Value -> result string string;
  fps_from_str : string -> result Value string;
  fps_b64_encode : bytes -> string;
  fps_b64_decode : string -> result bytes string;
}.

Inductive FairPlayError : Set :=
| SdkError (status : Z)
| InvalidResponse
| JsonError (e : string)
| Base64Error (e : string)
| NulError (position : nat)
| IoError (e : string).

Definition fairplay_error_text (e : FairPlayError) : string :=
  match e with
  | SdkError status => "FairPlay SDK error: status code " +:+ display_Z status
  | InvalidResponse => "Invalid response from FairPlay SDK"
  | JsonError e => "JSON error: " +:+ e
  | Base64Error e => "Base64 error: " +:+ e
  | NulError position => "String conversion error: nul byte found in provided data at position: " +:+
      display_Z (Z.of_nat position)
  | IoError e => "I/O error: " +:+ e
  end.

Record FairPlayKeyServer := { credentials_path : string; sdk_version : string }.

Record SpcRequest := {
  spc_content_id : string;
  spc_bytes : bytes;
  spc_asset_id : string;
  spc_content_key : bytes;
}.

Record FairPlayHandler := { key_server : option FairPlayKeyServer; enabled : bool }.

(** The position of the first zero byte, for which [CString::new] refuses a string. *)
Definition nul_position (s : string) : option nat :=
  fst <$> list_find (fun b => b = x00) (as_bytes s).

Section FairPlay.
Context {crates : FpsCrates}.

(** *** The wrapper *)

Definition get_sdk_version : prog FpsEvent (result string FairPlayError) :=
  let* (status, version) := trigger FpsGetVersion in
  if negb (status =? 0)%Z then Ret (Err (SdkError status)) else
  let* _ := trigger FpsDisposeVersion in
  Ret (Ok version).

(** [FairPlayKeyServer::new] *)
Definition key_server_new (path : string) : prog FpsEvent (result FairPlayKeyServer FairPlayError) :=
  let* _ := trigger (SetCredentials path) in
  let*? version := get_sdk_version in
  Ret (Ok {| credentials_path := path; sdk_version := version |}).

Definition spc_json (request : SpcRequest) : Value :=
  VObject [("fairplay-streaming-request", VObject [("create-ckc", VArray [VObject
    [("id", VNumber (PosInt 1)); ("content-id", VString (spc_content_id request));
     ("spc", VString (fps_b64_encode (spc_bytes request)));
     ("asset-id", VString (spc_asset_id request));
     ("ck", VString (fps_b64_encode (spc_content_key request)))]])])].

(** [v.get(0)] *)
Definition get_first (v : Value) : option Value := as_array v ≫= head.

Definition response_ckc (response : Value) : option string :=
  r ← get "fairplay-streaming-response" response;
  c ← get "create-ckc" r;
  item ← get_first c;
  ckc ← get "ckc" item;
  as_str ckc.

Definition process_spc (request : SpcRequest) : prog FpsEvent (result bytes FairPlayError) :=
  let*? json_str := Ret (map_err JsonError (fps_to_string (spc_json request))) in
  let*? _ := Ret match nul_position json_str with Some i => Err (NulError i) | None => Ok tt end in
  let* (status, response_str) := trigger (FpsProcess json_str) in
  if negb (status =? 0)%Z then Ret (Err (SdkError status)) else
  let*? response := Ret (map_err JsonError (fps_from_str response_str)) in
  let* _ := trigger FpsDisposeResponse in
  let*? ckc_base64 := Ret (ok_or InvalidResponse (response_ckc response)) in
  Ret (map_err Base64Error (fps_b64_decode ckc_base64)).

(** *** The handler; [fairplay] is the feature of the build *)

Definition fairplay_new (fairplay : bool) (path : string) :
    prog FpsEvent (result FairPlayHandler FairPlayError) :=
  if fairplay then
    let*? server := key_server_new path in
    Ret (Ok {| key_server := Some server; enabled := true |})
  else Ret (Ok {| key_server := None; enabled := false |}).

Definition fairplay_version (h : FairPlayHandler) : option string := sdk_version <$> key_server h.

(** [process_key_request] with the errors as text; a handler of a build without the feature
    has no key server. *)
Definition process_key_request (h : FairPlayHandler) (content_id asset_id : string)
    (spc_data content_key : bytes) : prog FpsEvent (result bytes string) :=
  match key_server h with
  | Some _ => await_map_err fairplay_error_text
      (process_spc {| spc_content_id := content_id; spc_bytes := spc_data;
                      spc_asset_id := asset_id; spc_content_key := content_key |})
  | None => Ret (Err "FairPlay support not compiled in (use --features fairplay)")
  end.

(** ** Theorems *)

(** The responses that the SDK allocated, and those given back. *)
Definition allocated (tr : list (answer FpsEvent)) : nat :=
  length (filter (fun a => match a with existT _ (e, x) =>
    match e in FpsEvent X return X -> bool with
    | FpsProcess _ => fun x => (x.1 =? 0)%Z | _ => fun _ => false end x end = true) tr).
Definition disposed (tr : list (answer FpsEvent)) : nat :=
  length (filter (fun a => match a with existT _ (e, _) =>
    match e with FpsDisposeResponse => true | _ => false end end = true) tr).

(** Runs of [process_spc], in the order of the code. *)
Lemma process_spc_runs request tr r :
  path (process_spc request) tr r ->
  tr = [] /\ (exists e, r = Err e /\ forall s, e <> SdkError s) \/
  exists json status text, fps_to_string (spc_json request) = Ok json /\
    nul_position json = None /\
    (status <> 0%Z /\ tr = [answered (FpsProcess json) (status, text)] /\ r = Err (SdkError status) \/
     status = 0%Z /\
     ((exists e, fps_from_str text = Err e /\ tr = [answered (FpsProcess json) (status, text)] /\
         r = Err (JsonError e)) \/
      exists response, fps_from_str text = Ok response /\
        tr = [answered (FpsProcess json) (status, text); answered FpsDisposeResponse tt] /\
        r = (let? b64 := ok_or InvalidResponse (response_ckc response) in
             map_err Base64Error (fps_b64_decode b64)))).
Proof.
  unfold process_spc. destruct (fps_to_string (spc_json request)) as [json|e].
  2: { intros [-> <-]%path_ret. left. split; [done|]. by eexists. }
  cbn [map_err bind_ok bind]. destruct (nul_position json) as [i|] eqn:Hn; cbn [bind_ok bind].
  { intros [-> <-]%path_ret. left. split; [done|]. by eexists. }
  intros ([status text] & t1 & t2 & -> & H1 & H)%path_bind. apply path_trigger in H1 as ->. right.
  exists json, status, text. split; [done|]. split; [done|].
  destruct (Z.eqb_spec status 0) as [->|Hs]; cbn [negb] in H.
  2: { apply path_ret in H as [-> <-]. by left. }
  right. split; [done|]. destruct (fps_from_str text) as [response|e]; cbn [map_err bind_ok bind] in H.
  2: { apply path_ret in H as [-> <-]. left. by exists e. }
  right. exists response. split; [done|].
  apply path_bind in H as ([] & t3 & t4 & -> & H3 & H). apply path_trigger in H3 as ->.
  destruct (response_ckc response); cbn [ok_or bind_ok bind rbind] in *;
    by apply path_ret in H as [-> <-].
Qed.

(** A content key context is what the SDK answered for the request. *)
Theorem ckc_from_sdk request tr ckc :
  path (process_spc request) tr (Ok ckc) <->
  exists json text response b64, fps_to_string (spc_json request) = Ok json /\
    nul_position json = None /\
    tr = [answered (FpsProcess json) (0%Z, text); answered FpsDisposeResponse tt] /\
    fps_from_str text = Ok response /\ response_ckc response = Some b64 /\ fps_b64_decode b64 = Ok ckc.
Proof.
  split.
  - intros [(_ & e & ? & _)|(json & status & text & Hj & Hn & [(_ & _ & ?)|(-> & [(e & _ & _ & ?)|
      (response & Hr & -> & H)])])]%process_spc_runs; try done.
    symmetry in H. apply rbind_Ok in H as (b64 & Hb & H).
    apply ok_or_Ok in Hb. apply map_err_Ok in H. by exists json, text, response, b64.
  - intros (json & text & response & b64 & Hj & Hn & -> & Hr & Hb & Hc). unfold process_spc.
    rewrite Hj. cbn. rewrite Hn. cbn. exists (0%Z, text). split; [done|]. cbn. rewrite Hr. cbn.
    exists tt. split; [done|]. rewrite Hb. cbn. by rewrite Hc.
Qed.

(** Every response of the SDK is given back, but one that is not JSON is leaked. *)
Theorem fairplay_responses_released request tr r :
  path (process_spc request) tr r ->
  allocated tr = disposed tr \/
  allocated tr = 1 /\ disposed tr = 0 /\ exists json text e,
    tr = [answered (FpsProcess json) (0%Z, text)] /\ fps_from_str text = Err e /\ r = Err (JsonError e).
Proof.
  intros [(-> & _)|(json & status & text & _ & _ & [(Hs & -> & _)|(-> & [(e & He & -> & ->)|
    (response & _ & -> & _)])])]%process_spc_runs.
  - by left.
  - left. unfold allocated, disposed. cbn. by rewrite (proj2 (Z.eqb_neq _ _) Hs).
  - right. split; [done|]. split; [done|]. by exists json, text, e.
  - by left.
Qed.
End FairPlay.
