(* ===== verification/FpsTypes.v ===== *)
(** * The FairPlay SDK: status codes, structures and byte buffers (src/vendor/fpssdk/src)

    What the parts of the SDK share: extension/validate.rs, base/base_constants.rs,
    base/structures, extension/extension_constants.rs, extension/structures and
    base/Utils/FPSServerUtils.rs.  A function of the SDK returns a status instead of a value
    when it fails, and may panic ([fps]).  Sizes and offsets are [usize], with the
    wrap-around of a release build.  The structures of the extension that have no fields are
    left out, and so is logging. *)
From coqutil Require Import Datatypes.RecordSettersUsingExistingGetters.
From S2P Require Import Prelude RustStr.
From stdpp Require Import list.

#[local] Open Scope string_scope.
#[local] Open Scope list_scope.
#[local] Open Scope Z_scope.
#[local] Open Scope rust_scope.

(** ** Status codes (extension/validate.rs) *)

Inductive FPSStatus : Set :=
| noErr | spcVersionErr | parserErr | missingRequiredTagErr | paramErr | memoryErr | integrityErr
| versionErr | dupTagErr | internalErr | clientSecurityLevelErr | invalidCertificateErr
| notImplementedErr.

#[export] Instance fps_status_eq_dec : EqDecision FPSStatus.
Proof. solve_decision. Defined.

Definition status_code (s : FPSStatus) : Z :=
  match s with
  | noErr => 0
  | spcVersionErr => -42580
  | parserErr => -42581
  | missingRequiredTagErr => -42583
  | paramErr => -42585
  | memoryErr => -42586
  | integrityErr => -42589
  | versionErr => -42590
  | dupTagErr => -42591
  | internalErr => -42601
  | clientSecurityLevelErr => -42604
  | invalidCertificateErr => -42605
  | notImplementedErr => -42612
  end.

(** [FPSStatus::try_from] *)
Definition status_try_from (value : Z) : result FPSStatus FPSStatus :=
  match value with
  | 0 => Ok noErr
  | -42580 => Ok spcVersionErr
  | -42581 => Ok paramErr
  | -42583 => Ok missingRequiredTagErr
  | -42585 => Ok paramErr
  | -42586 => Ok memoryErr
  | -42590 => Ok versionErr
  | -42591 => Ok dupTagErr
  | -42601 => Ok internalErr
  | -42604 => Ok clientSecurityLevelErr
  | -42605 => Ok invalidCertificateErr
  | -42612 => Ok notImplementedErr
  | _ => Err parserErr
  end.

(** ** Functions that fail or panic *)

Abbreviation fps A := (outcome (result A FPSStatus)).

Definition fbind {A B} (m : fps A) (k : A -> fps B) : fps B :=
  match m with
  | Done (Ok a) => k a
  | Done (Err e) => Done (Err e)
  | Panic => Panic
  end.

Definition fret {A} (a : A) : fps A := Done (Ok a).
Definition ferr {A} (e : FPSStatus) : fps A := Done (Err e).

(** [requireAction!(condition, return Err(e))] *)
Definition require (condition : bool) (e : FPSStatus) : fps unit :=
  if condition then fret tt else ferr e.

(** A step of the standard library that may panic. *)
Definition fdo {A} (o : outcome A) : fps A :=
  match o with Done a => fret a | Panic => Panic end.

Notation "'let~' x := m 'in' k" := (fbind m (fun x => k))
  (at level 10, x pattern, m at level 100, k at level 200) : rust_scope.
Notation "'demand' c 'else' e ;; k" := (fbind (require c e) (fun _ : unit => k))
  (at level 10, c at level 99, e at level 9, k at level 200) : rust_scope.

(** ** Buffers (base/Utils/FPSServerUtils.rs) *)

Definition len (l : bytes) : Z := Z.of_nat (length l).

Definition uadd (a b : Z) : Z := (a + b) mod 2 ^ 64.

(** [l[i..j]] *)
Definition zslice (l : bytes) (i j : Z) : outcome bytes :=
  if (0 <=? i) && (i <=? j) && (j <=? len l)
  then Done (take (Z.to_nat (j - i)) (drop (Z.to_nat i) l)) else Panic.

Definition readBytes (input : bytes) (offset numberOfBytesToRead : Z) : fps bytes :=
  demand offset <=? uadd offset numberOfBytesToRead else paramErr ;;
  demand uadd offset numberOfBytesToRead <=? len input else paramErr ;;
  fdo (zslice input offset (uadd offset numberOfBytesToRead)).

(** The big-endian integer in [n] bytes. *)
Definition readBigEndian (n : Z) (input : bytes) (offset : Z) : fps Z :=
  demand uadd offset n <=? len input else paramErr ;;
  let~ b := fdo (zslice input offset (uadd offset n)) in
  fret (be_to_Z b).

Definition readU8 : bytes -> Z -> fps Z := readBigEndian 1.
Definition readBigEndianU16 : bytes -> Z -> fps Z := readBigEndian 2.
Definition readBigEndianU32 : bytes -> Z -> fps Z := readBigEndian 4.
Definition readBigEndianU64 : bytes -> Z -> fps Z := readBigEndian 8.

Definition appendBigEndianU32 (v : bytes) (value : Z) : bytes := v ++ be_bytes 4 value.
Definition appendBigEndianU64 (v : bytes) (value : Z) : bytes := v ++ be_bytes 8 value.

(** [Vec::resize] with zeros. *)
Definition vec_resize (n : nat) (l : bytes) : bytes := take n l ++ replicate (n - length l) x00.

(** ** Constants (base/base_constants.rs) *)

Definition FPS_SDK_MAJOR_VERSION : Z := 26.
Definition FPS_SDK_MINOR_VERSION : Z := 0.
Definition FPS_SDK_VERSION_CERTIFICATE_OID : string := "1.2.840.113635.100.6.13.1.22".

Definition AES128_KEY_SZ : Z := 16.
Definition AES128_IV_SZ : Z := 16.
Definition AES128_BLOCK_SIZE : Z := 16.
Definition FPS_V1_ASSET_ID_MIN_SZ : Z := 2.
Definition FPS_V1_ASSET_ID_MAX_SZ : Z := 200.
Definition FPS_V1_SKR1_INTEGRITY_SZ : Z := 16.
Definition FPS_V1_HASH_SZ : Z := 20.
Definition FPS_V3_HASH_SZ : Z := 32.
Definition FPS_V1_R2_SZ : Z := 21.
Definition FPS_V1_R2_V3_MAX_SZ : Z := 64.
Definition FPS_V1_R1_SZ : Z := 44.
Definition FPS_V1_HU_SZ : Z := 20.
Definition FPS_V1_SKR1_SZ : Z := 112.
Definition FPS_V1_SKR1_V3_MAX_SZ : Z := 256.
Definition FPS_V1_WRAPPED_KEY_SZ : Z := 128.
Definition FPS_V2_WRAPPED_KEY_SZ : Z := 256.
Definition FPS_ENCRYPTED_SECURITY_LEVEL_REPORT_TLLV_SIZE : Z := 32.
Definition NO_LEASE_DURATION : Z := 0xFFFFFFFF.
Definition FPS_MAX_STREAM_ID_LENGTH : Z := 16.
Definition FPS_MAX_TITLE_ID_LENGTH : Z := 16.
Definition FPS_MAX_NUM_CRYPTO_VERSIONS : Z := 100.
Definition FPS_CAPABILITIES_FLAGS_LENGTH : Z := 16.
Definition FPS_OFFLINE_CONTENTID_LENGTH : Z := 16.
Definition FPS_MAX_KEY_FORMATS : Z := 64.
Definition FPS_KEY_DURATION_RESERVED_FIELD_VALUE : Z := 0x86d34a3a.
Definition MIN_KDL_VERSION : Z := 31.
Definition FPS_CONTENT_KEY_TLLV_MAX_PAYLOAD : Z := 1024.

Definition KD_SYNC_SPC_FLAG_REPORT : Z := Z.shiftl 1 0.
Definition KD_SYNC_SPC_FLAG_SECURE_INVALIDATION : Z := Z.shiftl 1 1.
Definition KD_SYNC_SPC_FLAG_SECURE_INVALIDATION_ALL : Z := Z.shiftl 1 2.
Definition KD_SYNC_SPC_FLAG_TITLEID_VALID : Z := Z.shiftl 1 3.
Definition KD_SYNC_SPC_FLAG_SUCCESS : Z := Z.shiftl 1 16.
Definition KD_SYNC_SPC_FLAG_OBJ_NOT_FOUND : Z := Z.shiftl 1 17.
Definition KD_SYNC_SPC_FLAG_OBJ_EXPIRED : Z := Z.shiftl 1 18.

Definition FPS_CAPABILITY_HDCP_TYPE1_ENFORCEMENT_SUPPORTED : Z := 1.
Definition FPS_CAPABILITY_OFFLINE_KEY_SUPPORTED : Z := Z.shiftl 1 1.
Definition FPS_CAPABILITY_CHECK_IN_SUPPORTED : Z := Z.shiftl 1 2.
Definition FPS_CAPABILITY_OFFLINE_KEY_V2_SUPPORTED : Z := Z.shiftl 1 3.
Definition FPS_CAPABILITY_SECURITY_LEVEL_BASELINE_SUPPORTED : Z := Z.shiftl 1 4.
Definition FPS_CAPABILITY_SECURITY_LEVEL_MAIN_SUPPORTED : Z := Z.shiftl 1 5.

(** [flags & bit != 0] *)
Definition has_bit (flags bit : Z) : bool := negb (Z.land flags bit =? 0).

Definition V3_PROTOCOL_VERSION_UUID : bytes :=
  [x66; x44; xff; x2b; xa8; x7c; x99; xb6; xff; x96; x55; x27; x0c; xd0; x68; xa6].
Definition V3_PROTOCOL_ENCRYPTION_KEY_SEED : bytes :=
  [x70; xd1; xe6; xc3; x4f; x07; xe8; x49; xb3; xa6; x24; x34; x0f; x4f; x17; x6d].
Definition V3_PROTOCOL_INTEGRITY_KEY_SEED : bytes :=
  [x96; xd3; x43; x5f; x6e; xf0; x8d; x7d; x12; x1f; xa8; x6b; x25; x3e; x4a; xc9].
Definition V3_PROTOCOL_ENCRYPTION_IV_SEED : bytes :=
  [xc1; x1b; x3e; xd1; xa3; x80; x3f; x4e; x13; x22; xa0; x88; x03; x14; x5a; xc6].

(** [FPSTLLVTagValue] *)
Definition r2Tag : Z := 0x71b5595ac1521133.
Definition antiReplayTag : Z := 0x89c90f12204106b2.
Definition sessionKeyR1Tag : Z := 0x3d1a10b8bffac2ec.
Definition sessionKeyR1IntegrityTag : Z := 0xb349d4809e910687.
Definition assetIDTag : Z := 0x1bf7f53f5d5d5a1f.
Definition transactionIDTag : Z := 0x47aa7ad3440577de.
Definition protocolVersionUsedTag : Z := 0x5d81bcbcc7f61703.
Definition protocolVersionsSupportedTag : Z := 0x67b8fb79ecce1a13.
Definition returnRequestTag : Z := 0x19f9d4e5ab7609cb.
Definition r1Tag : Z := 0xea74c4645d5efee9.
Definition streamingIndicatorTag : Z := 0xabb0256a31843974.
Definition mediaPlaybackStateTag : Z := 0xeb8efdf2b25ab3a0.
Definition offlineSyncTag : Z := 0x77966de1dc1083ad.
Definition capabilitiesTag : Z := 0x9c02af3253c07fb2.
Definition keyDurationTag : Z := 0x47acf6a418cd091a.
Definition offlineKeyTag : Z := 0x6375d9727060218c.
Definition hdcpInformationTag : Z := 0x2e52f1530d8ddb4a.
Definition securityLevelTag : Z := 0x644cb1dac0313250.
Definition supportedKeyFormatTag : Z := 0x8d8e84fa6cc35eb7.
Definition securityLevelReportTag : Z := 0xb18ee16ea50f6c02.
Definition deviceInfoTag : Z := 0xd43fc6abc596aae7.
Definition deviceIdentityTag : Z := 0x94c17cd676c69b59.
Definition kdlVersionReportTag : Z := 0x70eca6573388e329.
Definition sessionKeyVersionUsedTag : Z := 0x42ca089e8e9fa924.
Definition sessionKeyR1V3Tag : Z := 0x697af6213858562f.
Definition R2V3Tag : Z := 0xdb30b89dcb5834b3.
Definition vmDeviceInfoTag : Z := 0x756440e240499f70.

(** [FPSKeyDurationType], [FPSHDCPRequirement], [FPSSecurityLevel], [FPSKeyFormatTag],
    [SessionKey] *)
Definition durationNone : Z := 0.
Definition durationLease : Z := 0x1a4bde7e.
Definition durationPersistence : Z := 0x3df2d9fb.
Definition durationPersistenceAndDuration : Z := 0x18f06048.
Definition hdcpNotRequired : Z := 0xef72894ca7895b78.
Definition hdcpType0 : Z := 0x40791ac78bd5c571.
Definition hdcpType1 : Z := 0x285a0863bba8e1d3.
Definition buf16Byte : Z := 0x58b38165af0e3d5a.
Definition sessionKeyGeneric : Z := 0x182b0bb9f37383d1.
Definition sessionKeyVideo : Z := 0x2a69d25f4b94c7c.
Definition licenseStreaming : Z := 0.
Definition licenseOfflineHLS : Z := 1.

Inductive FPSSecurityLevel : Set := levelAudio | levelBaseline | levelMain.
Definition security_level (l : FPSSecurityLevel) : Z :=
  match l with
  | levelAudio => 0x17d99d574eed567d
  | levelBaseline => 0x32f0004966a5c4f8
  | levelMain => 0x4e7fd92421d588b4
  end.

Inductive ContentType : Set := contentUnknown | contentAudio | contentSd | contentHd | contentUhd.
#[export] Instance content_type_eq_dec : EqDecision ContentType.
Proof. solve_decision. Defined.

Inductive EncryptionScheme : Set := schemeUnknown | cbcs | cbc_ts | cbc1 | cenc_v1 | cenc_v2.
#[export] Instance encryption_scheme_eq_dec : EqDecision EncryptionScheme.
Proof. solve_decision. Defined.

Definition encryption_scheme_from (value : string) : EncryptionScheme :=
  if bool_decide (value = "cbcs") then cbcs
  else if bool_decide (value = "cbc-ts") then cbc_ts
  else if bool_decide (value = "cbc1") then cbc1
  else if bool_decide (value = "cenc-v1") then cenc_v1
  else if bool_decide (value = "cenc-v2") then cenc_v2
  else schemeUnknown.

Inductive FPSDeviceClass : Set :=
| classUnknown | appleLivingRoom | appleMobile | appleDesktop | appleSpacial | appleWearable
| appleUnknown | partnerLivingRoom | partnerUnknown.

Definition device_class_from (value : Z) : FPSDeviceClass :=
  match value with
  | 1 => appleLivingRoom | 2 => appleMobile | 3 => appleDesktop | 4 => appleSpacial
  | 5 => appleWearable | 127 => appleUnknown | 128 => partnerLivingRoom | 255 => partnerUnknown
  | _ => classUnknown
  end.

(** [class as u32] *)
Definition device_class (c : FPSDeviceClass) : Z :=
  match c with
  | classUnknown => 0 | appleLivingRoom => 1 | appleMobile => 2 | appleDesktop => 3
  | appleSpacial => 4 | appleWearable => 5 | appleUnknown => 127 | partnerLivingRoom => 128
  | partnerUnknown => 255
  end.

(** ** Structures of the request (base/structures/base_server_structures.rs) *)

Record FPSServerTLLV := { tag : Z; value : bytes }.

#[export] Instance tllv_eq_dec : EqDecision FPSServerTLLV.
Proof. solve_decision. Defined.

Record FPSServerMediaPlaybackState := { date : Z; playbackState : Z; playbackId : Z }.

Record FPSServerSPCAssetInfo := { spcAssetId : string; playInfo : FPSServerMediaPlaybackState }.

Record FPSDeviceIdentity := {
  isDeviceIdentitySet : bool;
  fpdiVersion : Z;
  deviceClass : Z;
  vendorHash : bytes;
  productHash : bytes;
  fpVersionREE : Z;
  fpVersionTEE : Z;
  identityOsVersion : Z;
}.

Record FPSDeviceInfo := { isDeviceInfoSet : bool; deviceType : Z; infoOsVersion : Z }.

Record VMDeviceInfo := {
  hostDeviceClass : FPSDeviceClass;
  hostOSVersion : Z;
  hostVMProtocolVersion : Z;
  guestDeviceClass : FPSDeviceClass;
  guestOSVersion : Z;
  guestVMProtocolVersion : Z;
}.

Record FPSOfflineSyncData := {
  syncVersion : Z;
  syncServerChallenge : Z;
  syncFlags : Z;
  syncTitleId : bytes;
  durationToRentalExpiry : Z;
  recordsDeleted : Z;
  deletedStreamIDs : bytes;
}.

Record FPSServerClientFeatures := {
  supportsOfflineKeyTLLV : bool;
  supportsOfflineKeyTLLVV2 : bool;
  supportsSecurityLevelBaseline : bool;
  supportsSecurityLevelMain : bool;
  supportsHDCPTypeOne : bool;
  supportsDualExpiry : bool;
  supportsCheckIn : bool;
}.

Record FPSServerSPCDataParser := {
  currentOffset : Z;
  TLLVs : list FPSServerTLLV;
  parsedTagValues : list Z;
}.

Record FPSServerSPCData := {
  antiReplay : bytes;
  sk : bytes;
  hu : bytes;
  r2 : bytes;
  skR1IntegrityTag : bytes;
  skR1Integrity : bytes;
  skR1 : bytes;
  versionUsed : Z;
  versionsSupported : list Z;
  returnTLLVs : list FPSServerTLLV;
  returnRequest : FPSServerTLLV;
  clientFeatures : FPSServerClientFeatures;
  spcDataParser : FPSServerSPCDataParser;
  streamingIndicator : Z;
  transactionId : Z;
  offlineSyncData : FPSOfflineSyncData;
  clientCapabilities : bytes;
  supportedSecurityLevel : option Z;
  clientKextDenyListVersion : Z;
  deviceIdentity : FPSDeviceIdentity;
  deviceInfo : FPSDeviceInfo;
  numberOfSupportedKeyFormats : Z;
  supportedKeyFormats : list Z;
  sk_r1_v3 : bytes;
  r2_v3 : bytes;
  vmDeviceInfo : option VMDeviceInfo;
  spcAssetInfo : FPSServerSPCAssetInfo;
}.

Record FPSServerSPCContainer := {
  spcVersion : Z;
  reservedValue : Z;
  spcAesKeyIV : bytes;
  aesWrappedKey : bytes;
  aesWrappedKeySize : Z;
  certificateHash : bytes;
  certificateHash256 : bytes;
  spcDecryptedData : bytes;
  spcDataSize : Z;
  spcDataOffset : Z;
  spcData : FPSServerSPCData;
  protocolVersionUUID : bytes;
}.

(** The defaults. *)
Definition zeros (n : Z) : bytes := replicate (Z.to_nat n) x00.

Definition default_play_info : FPSServerMediaPlaybackState :=
  {| date := 0; playbackState := 0; playbackId := 0 |}.
Definition default_sync : FPSOfflineSyncData :=
  {| syncVersion := 0; syncServerChallenge := 0; syncFlags := 0; syncTitleId := [];
     durationToRentalExpiry := 0; recordsDeleted := 0; deletedStreamIDs := [] |}.
Definition default_features : FPSServerClientFeatures :=
  {| supportsOfflineKeyTLLV := false; supportsOfflineKeyTLLVV2 := false;
     supportsSecurityLevelBaseline := false; supportsSecurityLevelMain := false;
     supportsHDCPTypeOne := false; supportsDualExpiry := false; supportsCheckIn := false |}.
Definition default_identity : FPSDeviceIdentity :=
  {| isDeviceIdentitySet := false; fpdiVersion := 0; deviceClass := 0; vendorHash := [];
     productHash := []; fpVersionREE := 0; fpVersionTEE := 0; identityOsVersion := 0 |}.
Definition default_device_info : FPSDeviceInfo :=
  {| isDeviceInfoSet := false; deviceType := 0; infoOsVersion := 0 |}.

Definition default_spc_data : FPSServerSPCData :=
  {| antiReplay := zeros AES128_KEY_SZ; sk := zeros AES128_KEY_SZ; hu := zeros FPS_V1_HU_SZ;
     r2 := zeros FPS_V1_R2_SZ; skR1IntegrityTag := zeros FPS_V1_SKR1_INTEGRITY_SZ;
     skR1Integrity := zeros FPS_V1_SKR1_INTEGRITY_SZ; skR1 := zeros FPS_V1_SKR1_SZ;
     versionUsed := 0; versionsSupported := []; returnTLLVs := [];
     returnRequest := {| tag := 0; value := [] |}; clientFeatures := default_features;
     spcDataParser := {| currentOffset := 0; TLLVs := []; parsedTagValues := [] |};
     streamingIndicator := 0; transactionId := 0; offlineSyncData := default_sync;
     clientCapabilities := []; supportedSecurityLevel := None; clientKextDenyListVersion := 0;
     deviceIdentity := default_identity; deviceInfo := default_device_info;
     numberOfSupportedKeyFormats := 0;
     supportedKeyFormats := replicate (Z.to_nat FPS_MAX_KEY_FORMATS) 0;
     sk_r1_v3 := []; r2_v3 := []; vmDeviceInfo := None;
     spcAssetInfo := {| spcAssetId := ""; playInfo := default_play_info |} |}.

Definition default_spc_container : FPSServerSPCContainer :=
  {| spcVersion := 0; reservedValue := 0; spcAesKeyIV := []; aesWrappedKey := [];
     aesWrappedKeySize := 0; certificateHash := []; certificateHash256 := [];
     spcDecryptedData := []; spcDataSize := 0; spcDataOffset := 0; spcData := default_spc_data;
     protocolVersionUUID := [] |}.

(** ** Structures of the response *)

Record FPSServerKeyDuration := {
  keyLeaseDuration : Z;
  keyRentalDuration : Z;
  keyPlaybackDuration : Z;
  keyType : Z;
}.

Record FPSServerCKCAssetInfo := {
  keyDuration : FPSServerKeyDuration;
  hdcpRequirement : Z;
  contentKeyTLLVTag : Z;
  contentKeyTLLVPayload : bytes;
  ckcStreamId : option bytes;
  ckcTitleId : option bytes;
  sessionKeyUsed : Z;
  requiredSecurityLevel : FPSSecurityLevel;
}.

Record FPSServerCKCData := { r1 : bytes; ckcAssetInfo : FPSServerCKCAssetInfo }.

Record FPSServerCKCContainer := {
  returnCKC : bool;
  ckcVersion : Z;
  ckcAesKeyIV : bytes;
  ckc : bytes;
  ckcDataPtr : bytes;
  ckcData : FPSServerCKCData;
}.

Record FPSServerCtx := {
  spcContainer : FPSServerSPCContainer;
  ckcContainer : FPSServerCKCContainer;
}.

Definition default_ckc_container : FPSServerCKCContainer :=
  {| returnCKC := true; ckcVersion := 0; ckcAesKeyIV := zeros 16; ckc := []; ckcDataPtr := [];
     ckcData := {| r1 := []; ckcAssetInfo :=
       {| keyDuration := {| keyLeaseDuration := 0; keyRentalDuration := 0;
                            keyPlaybackDuration := 0; keyType := 0 |};
          hdcpRequirement := 0; contentKeyTLLVTag := 0; contentKeyTLLVPayload := [];
          ckcStreamId := None; ckcTitleId := None; sessionKeyUsed := 0;
          requiredSecurityLevel := levelMain |} |} |}.

Definition default_server_ctx : FPSServerCtx :=
  {| spcContainer := default_spc_container; ckcContainer := default_ckc_container |}.

(** ** Operations and results (base/structures/base_fps_structures.rs) *)

Inductive FPSOperationType : Set := createCKC | getClientInfo.
#[export] Instance operation_type_eq_dec : EqDecision FPSOperationType.
Proof. solve_decision. Defined.

Record AssetInfo := {
  assetId : string;
  key : bytes;
  iv : bytes;
  isCKProvided : bool;
  hdcpReq : Z;
  leaseDuration : Z;
  rentalDuration : Z;
  playbackDuration : Z;
  licenseType : Z;
  streamId : option bytes;
  titleId : option bytes;
  encryptionScheme : EncryptionScheme;
  contentType : ContentType;
}.

Definition default_asset_info : AssetInfo :=
  {| assetId := ""; key := zeros AES128_KEY_SZ; iv := zeros AES128_IV_SZ; isCKProvided := false;
     hdcpReq := hdcpNotRequired; leaseDuration := 0; rentalDuration := 0; playbackDuration := 0;
     licenseType := licenseStreaming; streamId := None; titleId := None;
     encryptionScheme := schemeUnknown; contentType := contentUnknown |}.

Record FPSOperation := {
  operationType : FPSOperationType;
  id : Z;
  spc : bytes;
  isCheckIn : bool;
  assetInfo : AssetInfo;
}.

Record FPSResult := {
  resultOperationType : FPSOperationType;
  resultId : Z;
  status : FPSStatus;
  resultHu : bytes;
  resultCkc : bytes;
  resultAssetId : string;
  resultPlayInfo : FPSServerMediaPlaybackState;
  resultStreamingIndicator : Z;
  resultTransactionId : Z;
  capabilities : bytes;
  resultSecurityLevel : option Z;
  resultKextDenyListVersion : Z;
  resultIsCheckIn : bool;
  resultSyncData : FPSOfflineSyncData;
  resultDeviceIdentity : FPSDeviceIdentity;
  resultDeviceInfo : FPSDeviceInfo;
  resultVmDeviceInfo : option VMDeviceInfo;
}.

Definition default_result : FPSResult :=
  {| resultOperationType := createCKC; resultId := 0; status := noErr;
     resultHu := zeros FPS_V1_HU_SZ; resultCkc := []; resultAssetId := "";
     resultPlayInfo := default_play_info; resultStreamingIndicator := 0; resultTransactionId := 0;
     capabilities := []; resultSecurityLevel := None; resultKextDenyListVersion := 0;
     resultIsCheckIn := false; resultSyncData := default_sync;
     resultDeviceIdentity := default_identity; resultDeviceInfo := default_device_info;
     resultVmDeviceInfo := None |}.

(** ** Lemmas on functions that fail or panic *)

Lemma fbind_Ok {A B} (m : fps A) (k : A -> fps B) b :
  fbind m k = Done (Ok b) <-> exists a, m = Done (Ok a) /\ k a = Done (Ok b).
Proof.
  split.
  - destruct m as [[a|e]|]; cbn; [eauto|done..].
  - by intros (a & -> & H).
Qed.

Lemma fbind_Panic {A B} (m : fps A) (k : A -> fps B) :
  fbind m k = Panic <-> m = Panic \/ exists a, m = Done (Ok a) /\ k a = Panic.
Proof.
  split.
  - destruct m as [[a|e]|]; cbn; [eauto|done|by left].
  - by intros [->|(a & -> & H)].
Qed.

Lemma fps_require_Ok c e u : require c e = Done (Ok u) <-> c = true.
Proof. destruct c, u; cbn; split; done. Qed.

Lemma require_bind {A} c e (k : fps A) b :
  fbind (require c e) (fun _ => k) = Done (Ok b) <-> c = true /\ k = Done (Ok b).
Proof. destruct c; cbn; split; [done|by intros [_ ?]|done|by intros [? _]]. Qed.

Lemma fret_Ok {A} (a b : A) : fret a = Done (Ok b) <-> a = b.
Proof. unfold fret. split; congruence. Qed.

Lemma fdo_Ok {A} (o : outcome A) a : fdo o = Done (Ok a) <-> o = Done a.
Proof. destruct o; unfold fdo, fret; split; congruence. Qed.

(** Computations that do not panic. *)
Definition fsafe {A} (m : fps A) : Prop := m <> Panic.

Lemma fsafe_bind {A B} (m : fps A) (k : A -> fps B) :
  fsafe m -> (forall a, m = Done (Ok a) -> fsafe (k a)) -> fsafe (fbind m k).
Proof. intros Hm Hk [?|(a & Ha & ?)]%fbind_Panic; [by destruct Hm|by apply (Hk a)]. Qed.

Lemma fsafe_require {A} c e (k : fps A) :
  (c = true -> fsafe k) -> fsafe (fbind (require c e) (fun _ => k)).
Proof. destruct c; cbn; [by intros H; apply H|done]. Qed.

Lemma fsafe_ret {A} (a : A) : fsafe (fret a).
Proof. done. Qed.
Lemma fsafe_err {A} e : fsafe (ferr (A := A) e).
Proof. done. Qed.

Create HintDb fps.
#[export] Hint Resolve fsafe_ret fsafe_err : fps.

(** Takes a successful computation apart. *)
Ltac fps_inv :=
  repeat match goal with
  | H : fbind (require _ _) _ = Done (Ok _) |- _ => apply require_bind in H as [? H]
  | H : fbind _ _ = Done (Ok _) |- _ => apply fbind_Ok in H as (? & ? & H)
  | H : fdo _ = Done (Ok _) |- _ => apply (proj1 (fdo_Ok _ _)) in H
  | H : fret _ = Done (Ok _) |- _ => apply (proj1 (fret_Ok _ _)) in H
  | H : ferr _ = Done (Ok _) |- _ => discriminate H
  | H : Done (Err _) = Done (Ok _) |- _ => discriminate H
  | H : Panic = Done _ |- _ => discriminate H
  end; reflect_bools.

(** ** Lemmas on buffers *)

Lemma len_nonneg l : 0 <= len l.
Proof. unfold len. lia. Qed.

Lemma len_app a b : len (a ++ b) = len a + len b.
Proof. unfold len. rewrite length_app. lia. Qed.

Lemma len_be_bytes n z : len (be_bytes n z) = Z.of_nat n.
Proof. unfold len. by rewrite length_be_bytes. Qed.

Lemma len_replicate n b : len (replicate n b) = Z.of_nat n.
Proof. unfold len. by rewrite length_replicate. Qed.

Lemma uadd_small a b : 0 <= a -> 0 <= b -> a + b < 2 ^ 64 -> uadd a b = a + b.
Proof. intros. unfold uadd. apply Z.mod_small. lia. Qed.

(** Arithmetic on the sizes. *)
Ltac fps_lia :=
  unfold AES128_KEY_SZ, AES128_IV_SZ, AES128_BLOCK_SIZE, FPS_V1_SKR1_INTEGRITY_SZ, FPS_V1_HASH_SZ,
    FPS_V3_HASH_SZ, FPS_V1_R2_SZ, FPS_V1_R2_V3_MAX_SZ, FPS_V1_R1_SZ, FPS_V1_HU_SZ, FPS_V1_SKR1_SZ,
    FPS_V1_SKR1_V3_MAX_SZ, FPS_V1_WRAPPED_KEY_SZ, FPS_V2_WRAPPED_KEY_SZ, FPS_MAX_TITLE_ID_LENGTH,
    FPS_CAPABILITIES_FLAGS_LENGTH, FPS_OFFLINE_CONTENTID_LENGTH, FPS_MAX_KEY_FORMATS in *; lia.

(** Sums that do not wrap around. *)
Ltac uadd_arith :=
  repeat match goal with
  | H : context [uadd ?a ?b] |- _ => rewrite (uadd_small a b) in H by lia
  | |- context [uadd ?a ?b] => rewrite (uadd_small a b) by lia
  end.

Lemma zslice_Done l i j s :
  zslice l i j = Done s <-> 0 <= i <= j /\ j <= len l /\ s = take (Z.to_nat (j - i)) (drop (Z.to_nat i) l).
Proof.
  unfold zslice. destruct ((0 <=? i) && (i <=? j) && (j <=? len l)) eqn:E.
  - apply andb_true_iff in E as [[? ?]%andb_true_iff ?]. reflect_bools.
    split; [intros [= <-]; auto with lia|by intros (_ & _ & ->)].
  - split; [done|]. intros (? & ? & _).
    rewrite !(proj2 (Z.leb_le _ _)) in E by lia. done.
Qed.

Lemma zslice_in_range l i j :
  0 <= i <= j -> j <= len l -> zslice l i j = Done (take (Z.to_nat (j - i)) (drop (Z.to_nat i) l)).
Proof. intros. by apply zslice_Done. Qed.

Lemma zslice_app a b c i j : i = len a -> j = len a + len b -> zslice (a ++ b ++ c) i j = Done b.
Proof.
  intros -> ->. pose proof (len_nonneg a). pose proof (len_nonneg b). pose proof (len_nonneg c).
  apply zslice_Done. rewrite !len_app. split_and!; [lia..|].
  replace (len a + len b - len a) with (len b) by lia. unfold len. rewrite !Nat2Z.id.
  by rewrite drop_app_length, take_app_length.
Qed.

Lemma len_take_drop l i n :
  0 <= i -> 0 <= n -> i + n <= len l -> len (take (Z.to_nat n) (drop (Z.to_nat i) l)) = n.
Proof. unfold len. intros. rewrite length_take, length_drop. lia. Qed.

Section Readers.
Context (input : bytes) (offset n : Z).
Hypothesis bounds : 0 <= offset /\ 0 <= n /\ offset + n < 2 ^ 64.

Lemma readBytes_Ok b :
  readBytes input offset n = Done (Ok b) <->
  offset + n <= len input /\ b = take (Z.to_nat n) (drop (Z.to_nat offset) input).
Proof.
  unfold readBytes. rewrite uadd_small by lia. rewrite !require_bind, fdo_Ok, zslice_Done, !Z.leb_le.
  replace (offset + n - offset) with n by lia. split; [by intros (_ & _ & _ & ? & ?)|].
  intros [? ?]. split_and!; (lia || done).
Qed.

Lemma readBytes_safe : fsafe (readBytes input offset n).
Proof.
  unfold readBytes. rewrite uadd_small by lia. do 2 (apply fsafe_require; intros ?%Z.leb_le).
  unfold fsafe. by rewrite zslice_in_range by lia.
Qed.

Lemma readBigEndian_Ok z :
  readBigEndian n input offset = Done (Ok z) <->
  offset + n <= len input /\ z = be_to_Z (take (Z.to_nat n) (drop (Z.to_nat offset) input)).
Proof.
  unfold readBigEndian. rewrite uadd_small by lia. rewrite require_bind, Z.leb_le, fbind_Ok.
  setoid_rewrite fdo_Ok. setoid_rewrite zslice_Done.
  replace (offset + n - offset) with n by lia. split.
  - intros (? & b & (_ & _ & ->) & [= <-]). done.
  - intros [? ->]. split; [done|]. eexists. split; [|done]. split_and!; (lia || done).
Qed.

Lemma readBigEndian_safe : fsafe (readBigEndian n input offset).
Proof.
  unfold readBigEndian. rewrite uadd_small by lia. apply fsafe_require. intros ?%Z.leb_le.
  apply fsafe_bind; [|by intros]. unfold fsafe.
  by rewrite zslice_in_range by lia.
Qed.
End Readers.

Lemma be_to_Z_range l : 0 <= be_to_Z l < 256 ^ len l.
Proof. unfold be_to_Z, len. rewrite <- (length_reverse l). apply le_to_Z_range. Qed.

Lemma readBigEndian_range n input offset z :
  0 <= offset -> 0 <= n -> offset + n < 2 ^ 64 ->
  readBigEndian n input offset = Done (Ok z) -> 0 <= z < 256 ^ n.
Proof.
  intros ? ? ? [? ->]%readBigEndian_Ok; [|lia].
  pose proof (be_to_Z_range (take (Z.to_nat n) (drop (Z.to_nat offset) input))) as Hr.
  by rewrite len_take_drop in Hr by lia.
Qed.

(** Reading what was appended, before any rest. *)
Lemma readBigEndian_app a n z c :
  0 <= z < 256 ^ Z.of_nat n -> len a + Z.of_nat n < 2 ^ 64 ->
  readBigEndian (Z.of_nat n) (a ++ be_bytes n z ++ c) (len a) = Done (Ok z).
Proof.
  intros Hz Ha. pose proof (len_nonneg a). pose proof (len_nonneg c). apply readBigEndian_Ok; [lia|].
  rewrite !len_app, len_be_bytes. split; [lia|].
  unfold len. rewrite !Nat2Z.id, drop_app_length, take_app_length' by (by rewrite length_be_bytes).
  by rewrite be_to_Z_bytes_small.
Qed.

Lemma length_vec_resize n l : length (vec_resize n l) = n.
Proof. unfold vec_resize. rewrite length_app, length_take, length_replicate. lia. Qed.

Lemma vec_resize_id n l : length l = n -> vec_resize n l = l.
Proof. intros <-. unfold vec_resize. by rewrite take_ge, Nat.sub_diag, app_nil_r by done. Qed.
