(* ===== verification/FpsSpc.v ===== *)
(** * The FairPlay SDK: server playback contexts (src/vendor/fpssdk/src/base)

    Parsing, decryption and validation of a license request (SPC): base_spc_parse.rs,
    base_spc_decrypt.rs, parse_spc_TLLVs and the functions of extension.rs they call.  The
    cryptographic crates are the class [FpsCrypto].  The certificates the SDK has read are an
    argument, [None] before that.  The parsers of the tags change only the data of the
    container, so that is what they take and return.  The loops over a buffer recurse on fuel;
    running out of it would be a panic, which the theorems exclude. *)
From coqutil Require Import Datatypes.RecordSettersUsingExistingGetters.
From S2P Require Import Prelude RustStr FpsTypes.
From stdpp Require Import list gmap strings.

#[local] Open Scope string_scope.
#[local] Open Scope list_scope.
#[local] Open Scope Z_scope.
#[local] Open Scope rust_scope.

(** [rsa_oaep_sha1] and [rsa_oaep_sha256] decrypt with the padding of the two sizes of keys;
    [rsa_size] is the size of the buffer they decrypt to.  The AES functions are those of
    OpenSSL without padding. *)
Class FpsCrypto := {
  X509 : Type;
  RsaKey : Type;
  rsa_size : RsaKey -> nat;
  rsa_oaep_sha1 : RsaKey -> bytes -> option bytes;
  rsa_oaep_sha256 : RsaKey -> bytes -> option bytes;
  aes_cbc_encrypt : bytes -> bytes -> bytes -> bytes;
  aes_cbc_decrypt : bytes -> bytes -> bytes -> bytes;
  aes_ecb_encrypt : bytes -> bytes -> bytes;
  aes_ecb_decrypt : bytes -> bytes -> bytes;
  sha1 : bytes -> bytes;
  sha256 : bytes -> bytes;
  cmac : bytes -> bytes -> bytes;
  hex_encode : bytes -> string;
  hex_encode_upper : bytes -> string;
  hex_decode : string -> option bytes;
}.

Section Spc.
Context {crypto : FpsCrypto}.

Record CertData := { certificate : X509; privateKey : RsaKey; provisioningData : bytes }.

(** [CERT_MAP] and [CERT_CONVERT_MAP] *)
Record Certificates := { cert_map : gmap string CertData; cert_convert_map : gmap string string }.

Section Parsing.
Context (certs : option Certificates).

(** ** Decryption (base_spc_decrypt.rs, extension.rs) *)

Inductive AESEncryptionMode : Set := aesEncrypt | aesDecrypt.
Inductive AESEncryptionCipher : Set := aesCBC | aesECB.

Definition encryptDecryptWithAES (input key iv : bytes) (opMode : AESEncryptionMode)
    (opCipher : AESEncryptionCipher) : fps bytes :=
  match opCipher with
  | aesCBC =>
    demand negb (len input =? 0) else paramErr ;;
    demand len input mod AES128_BLOCK_SIZE =? 0 else paramErr ;;
    demand len key =? AES128_KEY_SZ else paramErr ;;
    demand len iv =? AES128_IV_SZ else paramErr ;;
    fret (match opMode with
          | aesEncrypt => aes_cbc_encrypt key iv input
          | aesDecrypt => aes_cbc_decrypt key iv input
          end)
  | aesECB =>
    demand len input =? AES128_BLOCK_SIZE else paramErr ;;
    demand len key =? AES128_KEY_SZ else paramErr ;;
    fret (match opMode with
          | aesEncrypt => aes_ecb_encrypt key input
          | aesDecrypt => aes_ecb_decrypt key input
          end)
  end.

Definition cert_info (c : FPSServerSPCContainer) : fps CertData :=
  match certs with
  | None => ferr invalidCertificateErr
  | Some certs =>
    match cert_map certs !! hex_encode (certificateHash c) with
    | Some info => fret info
    | None => ferr invalidCertificateErr
    end
  end.

Definition getPrivateKey (c : FPSServerSPCContainer) : fps RsaKey :=
  let~ info := cert_info c in fret (privateKey info).
Definition getProvisioningData (c : FPSServerSPCContainer) : fps bytes :=
  let~ info := cert_info c in fret (provisioningData info).

(** The plaintext at the start of a buffer of zeros. *)
Definition decrypted_key (rsa : RsaKey) (plain : option bytes) : fps bytes :=
  match plain with
  | Some p => fret (vec_resize (rsa_size rsa) p)
  | None => ferr invalidCertificateErr
  end.

Definition decryptKeyRSACustom (c : FPSServerSPCContainer) : fps bytes :=
  demand negb (len (aesWrappedKey c) =? 0) else paramErr ;;
  let~ rsa := getPrivateKey c in
  if aesWrappedKeySize c =? FPS_V1_WRAPPED_KEY_SZ then
    decrypted_key rsa (rsa_oaep_sha1 rsa (aesWrappedKey c))
  else if aesWrappedKeySize c =? FPS_V2_WRAPPED_KEY_SZ then
    decrypted_key rsa (rsa_oaep_sha256 rsa (aesWrappedKey c))
  else fret (replicate (rsa_size rsa) x00).

(** ** The container (base_spc_parse.rs, parse_certificates.rs) *)

Definition matchSha1withSha256 (c : FPSServerSPCContainer) : fps FPSServerSPCContainer :=
  match certs with
  | None => ferr invalidCertificateErr
  | Some certs =>
    match cert_convert_map certs !! hex_encode (certificateHash256 c) with
    | Some hash =>
      match hex_decode hash with
      | Some r => fret (c <| certificateHash := r |>)
      | None => ferr invalidCertificateErr
      end
    | None => ferr invalidCertificateErr
    end
  end.

(** The size of the data against the buffer. *)
Definition data_in_spc (spc : bytes) (c : FPSServerSPCContainer) : fps FPSServerSPCContainer :=
  demand spcDataOffset c <=? uadd (spcDataSize c) (spcDataOffset c) else paramErr ;;
  demand uadd (spcDataSize c) (spcDataOffset c) <=? len spc else paramErr ;;
  fret c.

Definition parseSPCV3Header (spc : bytes) (offset : Z) (c : FPSServerSPCContainer) :
    fps FPSServerSPCContainer :=
  let~ uuid := readBytes spc offset AES128_IV_SZ in
  let c := c <| protocolVersionUUID := uuid |> in
  let localOffset := uadd offset AES128_IV_SZ in
  demand bool_decide (uuid = V3_PROTOCOL_VERSION_UUID) else versionErr ;;
  let c := c <| aesWrappedKeySize := FPS_V2_WRAPPED_KEY_SZ |> in
  let~ wrapped := readBytes spc localOffset (aesWrappedKeySize c) in
  let c := c <| aesWrappedKey := wrapped |> in
  let localOffset := uadd localOffset (aesWrappedKeySize c) in
  let~ hash := readBytes spc localOffset FPS_V3_HASH_SZ in
  let c := c <| certificateHash256 := hash |> in
  let localOffset := uadd localOffset FPS_V3_HASH_SZ in
  let~ c := matchSha1withSha256 c in
  let localOffset := uadd localOffset 12 in
  let~ size := readBigEndianU32 spc localOffset in
  let localOffset := uadd localOffset 4 in
  data_in_spc spc (c <| spcDataSize := size |> <| spcDataOffset := localOffset |>).

Definition parseSPCContainer (spc : bytes) (c : FPSServerSPCContainer) : fps FPSServerSPCContainer :=
  let~ version := readBigEndianU32 spc 0 in
  let c := c <| spcVersion := version |> in
  let~ reserved := readBigEndianU32 spc 4 in
  let c := c <| reservedValue := reserved |> in
  if version =? 3 then parseSPCV3Header spc 8 c
  else
    demand (version =? 1) || (version =? 2) else spcVersionErr ;;
    let~ iv := readBytes spc 8 AES128_IV_SZ in
    let c := c <| spcAesKeyIV := iv |> in
    let offset := uadd 8 AES128_IV_SZ in
    let c := c <| aesWrappedKeySize := if version =? 2 then FPS_V2_WRAPPED_KEY_SZ
                                       else FPS_V1_WRAPPED_KEY_SZ |> in
    let~ wrapped := readBytes spc offset (aesWrappedKeySize c) in
    let c := c <| aesWrappedKey := wrapped |> in
    let offset := uadd offset (aesWrappedKeySize c) in
    let~ hash := readBytes spc offset FPS_V1_HASH_SZ in
    let c := c <| certificateHash := hash |> in
    let offset := uadd offset FPS_V1_HASH_SZ in
    let~ size := readBigEndianU32 spc offset in
    let offset := uadd offset 4 in
    data_in_spc spc (c <| spcDataSize := size |> <| spcDataOffset := offset |>).

(** The initialisation vector, kept in the container, and the encryption key. *)
Definition getEncryptionKeyAndIV (c : FPSServerSPCContainer) (masterKey : bytes) :
    fps (FPSServerSPCContainer * bytes) :=
  let~ iv := encryptDecryptWithAES V3_PROTOCOL_ENCRYPTION_IV_SEED masterKey [] aesEncrypt aesECB in
  let~ key := encryptDecryptWithAES V3_PROTOCOL_ENCRYPTION_KEY_SEED masterKey [] aesEncrypt aesECB in
  fret (c <| spcAesKeyIV := iv |>, key).

(** The tag is over the wrapped key, the certificate hash, the length and the encrypted data. *)
Definition integrity_buffer (c : FPSServerSPCContainer) (encrypted : bytes) : bytes :=
  aesWrappedKey c ++ certificateHash256 c ++ replicate 8 x00 ++ be_bytes 8 (spcDataSize c) ++ encrypted.

Definition verifySPCIntegrity (c : FPSServerSPCContainer) (spc masterKey : bytes) : fps unit :=
  let~ integrityKey :=
    encryptDecryptWithAES V3_PROTOCOL_INTEGRITY_KEY_SEED masterKey [] aesEncrypt aesECB in
  let integrityTagOffset := uadd (spcDataOffset c) (spcDataSize c) in
  let~ encrypted := fdo (zslice spc (spcDataOffset c) integrityTagOffset) in
  let~ tag := readBytes spc integrityTagOffset AES128_KEY_SZ in
  if negb (len integrityKey =? 16) || negb (len tag =? 16) then Panic else
  demand bool_decide (cmac integrityKey (integrity_buffer c encrypted) = tag) else integrityErr ;;
  fret tt.

Definition decryptSPCData (spc : bytes) (c : FPSServerSPCContainer) : fps FPSServerSPCContainer :=
  demand negb (len spc =? 0) else paramErr ;;
  let~ decrypted := decryptKeyRSACustom c in
  let localKey := take (Z.to_nat AES128_KEY_SZ) decrypted in
  let~ (c, localKey) :=
    (if spcVersion c =? 3 then
       let~ (c, key) := getEncryptionKeyAndIV c localKey in
       let~ _ := verifySPCIntegrity c spc localKey in
       fret (c, key)
     else fret (c, localKey)) in
  let~ encrypted := fdo (zslice spc (spcDataOffset c) (len spc)) in
  let~ data := encryptDecryptWithAES encrypted localKey (spcAesKeyIV c) aesDecrypt aesCBC in
  fret (c <| spcDecryptedData := data |>).

(** ** Tags (parse_spc_TLLVs) *)

Definition parseTagAntiReplay (t : FPSServerTLLV) (d : FPSServerSPCData) : fps FPSServerSPCData :=
  demand len (value t) =? AES128_KEY_SZ else parserErr ;;
  let~ b := readBytes (value t) 0 AES128_KEY_SZ in fret (d <| antiReplay := b |>).

(** [valid_up_to] of a UTF-8 error: the longest prefix that is valid. *)
Fixpoint valid_prefix (n : nat) (l : bytes) : bytes :=
  match n with
  | O => []
  | S m => if utf8_valid (take n l) then take n l else valid_prefix m l
  end.

Definition parseTagAssetID (t : FPSServerTLLV) (d : FPSServerSPCData) : fps FPSServerSPCData :=
  demand FPS_V1_ASSET_ID_MIN_SZ <=? len (value t) else parserErr ;;
  demand len (value t) <=? FPS_V1_ASSET_ID_MAX_SZ else parserErr ;;
  let assetId := match from_utf8 (value t) with
                 | Some r => r
                 | None => default "" (from_utf8 (valid_prefix (length (value t)) (value t)))
                 end in
  fret (d <| spcAssetInfo ::= fun a => a <| spcAssetId := assetId |> |>).

Definition parseTagClientCapabilities (t : FPSServerTLLV) (d : FPSServerSPCData) :
    fps FPSServerSPCData :=
  demand len (value t) =? FPS_CAPABILITIES_FLAGS_LENGTH else paramErr ;;
  fret (d <| clientCapabilities := value t |>).

Definition parseTagDeviceIdentity (t : FPSServerTLLV) (d : FPSServerSPCData) :
    fps FPSServerSPCData :=
  let~ version := readBigEndianU32 (value t) 0 in
  let~ class := readBigEndianU32 (value t) 4 in
  let~ vendor := readBytes (value t) 8 8 in
  let~ product := readBytes (value t) 16 8 in
  let~ ree := readBigEndianU32 (value t) 24 in
  let~ tee := readBigEndianU32 (value t) 28 in
  let~ os := readBigEndianU32 (value t) 32 in
  fret (d <| deviceIdentity := {| isDeviceIdentitySet := true; fpdiVersion := version;
    deviceClass := class; vendorHash := vendor; productHash := product; fpVersionREE := ree;
    fpVersionTEE := tee; identityOsVersion := os |} |>).

Definition parseTagDeviceInfo (t : FPSServerTLLV) (d : FPSServerSPCData) : fps FPSServerSPCData :=
  let~ type := readBigEndianU64 (value t) 0 in
  let~ os := readBigEndianU32 (value t) 8 in
  let~ _ := readBigEndianU32 (value t) 12 in
  fret (d <| deviceInfo := {| isDeviceInfoSet := true; deviceType := type; infoOsVersion := os |} |>).

Definition parseTagKDLVersionReport (t : FPSServerTLLV) (d : FPSServerSPCData) :
    fps FPSServerSPCData :=
  demand len (value t) =? 4 else parserErr ;;
  let~ v := readBigEndianU32 (value t) 0 in fret (d <| clientKextDenyListVersion := v |>).

Definition parseTagMediaPlaybackState (t : FPSServerTLLV) (d : FPSServerSPCData) :
    fps FPSServerSPCData :=
  demand len (value t) =? 4 * 2 + 8 else paramErr ;;
  let~ date := readBigEndianU32 (value t) 0 in
  let~ state := readBigEndianU32 (value t) 4 in
  let~ id := readBigEndianU64 (value t) 8 in
  fret (d <| spcAssetInfo ::= fun a => a <| playInfo :=
    {| date := date; playbackState := state; playbackId := id |} |> |>).

Definition parseTagOfflineSync (t : FPSServerTLLV) (d : FPSServerSPCData) : fps FPSServerSPCData :=
  let~ version := readBigEndianU32 (value t) 0 in
  let~ reserved := readBigEndianU32 (value t) 4 in
  let sync := default_sync <| syncVersion := version |> in
  let~ sync :=
    (if version =? 1 then
       demand reserved =? 0 else paramErr ;;
       let~ expiry := readBigEndianU32 (value t) 24 in
       fret (sync <| durationToRentalExpiry := expiry |>)
     else if version =? 2 then
       let~ challenge := readBigEndianU64 (value t) 8 in
       let~ flags := readBigEndianU64 (value t) 16 in
       let~ title := readBytes (value t) 24 FPS_MAX_TITLE_ID_LENGTH in
       let~ expiry := readBigEndianU32 (value t) 40 in
       let~ records := readBigEndianU32 (value t) 44 in
       let sync := {| syncVersion := version; syncServerChallenge := challenge;
                      syncFlags := flags; syncTitleId := title; durationToRentalExpiry := expiry;
                      recordsDeleted := records; deletedStreamIDs := [] |} in
       demand records <=? 250 else internalErr ;;
       if 0 <? records then
         let~ ids := readBytes (value t) 48 (records * FPS_OFFLINE_CONTENTID_LENGTH) in
         fret (sync <| deletedStreamIDs := ids |>)
       else fret sync
     else fret sync) in
  fret (d <| offlineSyncData := sync |>).

Definition parseTagProtocolVersionUsed (t : FPSServerTLLV) (d : FPSServerSPCData) :
    fps FPSServerSPCData :=
  demand len (value t) =? 4 else parserErr ;;
  let~ v := readBigEndianU32 (value t) 0 in fret (d <| versionUsed := v |>).

Fixpoint read_versions (fuel : nat) (v : bytes) (offset : Z) (versions : list Z) : fps (list Z) :=
  if offset <? len v then
    match fuel with
    | O => Panic
    | S fuel =>
      let~ version := readBigEndianU32 v offset in
      let versions := versions ++ [version] in
      demand Z.of_nat (length versions) <? FPS_MAX_NUM_CRYPTO_VERSIONS else paramErr ;;
      read_versions fuel v (uadd offset 4) versions
    end
  else fret versions.

Definition parseTagProtocolVersionsSupported (t : FPSServerTLLV) (d : FPSServerSPCData) :
    fps FPSServerSPCData :=
  demand len (value t) mod 4 =? 0 else parserErr ;;
  let~ versions := read_versions (length (value t)) (value t) 0 (versionsSupported d) in
  fret (d <| versionsSupported := versions |>).

Definition parseTagR2 (t : FPSServerTLLV) (d : FPSServerSPCData) : fps FPSServerSPCData :=
  demand len (value t) =? FPS_V1_R2_SZ else parserErr ;;
  let~ b := readBytes (value t) 0 FPS_V1_R2_SZ in fret (d <| r2 := b |>).

Definition parseTagR2_V3 (t : FPSServerTLLV) (d : FPSServerSPCData) : fps FPSServerSPCData :=
  demand len (value t) <=? FPS_V1_R2_V3_MAX_SZ else parserErr ;;
  fret (d <| r2_v3 := value t |>).

Definition parseTagReturnRequest (t : FPSServerTLLV) (d : FPSServerSPCData) : fps FPSServerSPCData :=
  demand len (value t) mod 8 =? 0 else parserErr ;;
  fret (d <| returnRequest ::= fun r => {| tag := tag r; value := value t |} |>).

Definition parseTagSecurityLevelReport (t : FPSServerTLLV) (d : FPSServerSPCData) :
    fps FPSServerSPCData :=
  if len (value t) =? FPS_ENCRYPTED_SECURITY_LEVEL_REPORT_TLLV_SIZE then fret d else
  let~ version := readBigEndianU32 (value t) 0 in
  if version =? 1 then
    let~ reserved := readBigEndianU32 (value t) 4 in
    demand reserved =? 0 else paramErr ;;
    let~ level := readBigEndianU64 (value t) 8 in
    let d := d <| supportedSecurityLevel := Some level |> in
    if clientKextDenyListVersion d =? 0 then
      let~ kdl := readBigEndianU32 (value t) 16 in
      fret (d <| clientKextDenyListVersion := kdl |>)
    else fret d
  else fret d.

Definition parseTagServerStreamingIndicator (t : FPSServerTLLV) (d : FPSServerSPCData) :
    fps FPSServerSPCData :=
  demand len (value t) =? 8 else parserErr ;;
  let~ v := readBigEndianU64 (value t) 0 in fret (d <| streamingIndicator := v |>).

Definition parseTagSessionKeyR1 (t : FPSServerTLLV) (d : FPSServerSPCData) : fps FPSServerSPCData :=
  demand len (value t) =? FPS_V1_SKR1_SZ else parserErr ;;
  let~ b := readBytes (value t) 0 FPS_V1_SKR1_SZ in fret (d <| skR1 := b |>).

Definition parseTagSessionKeyR1Integrity (t : FPSServerTLLV) (d : FPSServerSPCData) :
    fps FPSServerSPCData :=
  demand len (value t) =? FPS_V1_SKR1_INTEGRITY_SZ else parserErr ;;
  let~ b := readBytes (value t) 0 FPS_V1_SKR1_INTEGRITY_SZ in fret (d <| skR1IntegrityTag := b |>).

Definition parseTagSessionKeyR1_V3 (t : FPSServerTLLV) (d : FPSServerSPCData) :
    fps FPSServerSPCData :=
  demand len (value t) <=? FPS_V1_SKR1_V3_MAX_SZ else parserErr ;;
  fret (d <| sk_r1_v3 := value t |>).

(** [formats[i] = ..] for [i] from [i] on, [n] times. *)
Fixpoint read_formats (n : nat) (v : bytes) (i : nat) (offset : Z) (formats : list Z) :
    fps (list Z) :=
  match n with
  | O => fret formats
  | S n =>
    let~ format := readBigEndianU64 v offset in
    if (i <? length formats)%nat then
      read_formats n v (S i) (uadd offset 8) (<[i := format]> formats)
    else Panic
  end.

Definition parseTagSupportedKeyFormat (t : FPSServerTLLV) (d : FPSServerSPCData) :
    fps FPSServerSPCData :=
  let~ version := readBigEndianU32 (value t) 0 in
  if version =? 1 then
    let~ _ := readBigEndianU32 (value t) 4 in
    let~ count := readBigEndianU32 (value t) 8 in
    demand count <=? FPS_MAX_KEY_FORMATS else paramErr ;;
    let~ formats := read_formats (Z.to_nat count) (value t) 0 12 (supportedKeyFormats d) in
    fret (d <| numberOfSupportedKeyFormats := count |> <| supportedKeyFormats := formats |>)
  else fret d.

Definition parseTagTransactionID (t : FPSServerTLLV) (d : FPSServerSPCData) : fps FPSServerSPCData :=
  demand len (value t) =? 8 else parserErr ;;
  let~ v := readBigEndianU64 (value t) 0 in fret (d <| transactionId := v |>).

Definition parseTagVMDeviceInformation (t : FPSServerTLLV) (d : FPSServerSPCData) :
    fps FPSServerSPCData :=
  let~ version := readBigEndianU32 (value t) 0 in
  if version =? 1 then
    let~ host_class := readBigEndianU32 (value t) 4 in
    let~ host_os := readBigEndianU32 (value t) 8 in
    let~ host_vm := readBigEndianU32 (value t) 12 in
    let~ guest_class := readBigEndianU32 (value t) 16 in
    let~ guest_os := readBigEndianU32 (value t) 20 in
    let~ guest_vm := readBigEndianU32 (value t) 24 in
    fret (d <| vmDeviceInfo := Some {| hostDeviceClass := device_class_from host_class;
      hostOSVersion := host_os; hostVMProtocolVersion := host_vm;
      guestDeviceClass := device_class_from guest_class; guestOSVersion := guest_os;
      guestVMProtocolVersion := guest_vm |} |>)
  else fret (d <| vmDeviceInfo := None |>).

(** The parser of a tag; unknown tags are left to [parseTLLVCustom], which does nothing. *)
Definition tag_parser (tag : Z) : FPSServerTLLV -> FPSServerSPCData -> fps FPSServerSPCData :=
  if tag =? assetIDTag then parseTagAssetID
  else if tag =? mediaPlaybackStateTag then parseTagMediaPlaybackState
  else if tag =? sessionKeyR1Tag then parseTagSessionKeyR1
  else if tag =? sessionKeyR1IntegrityTag then parseTagSessionKeyR1Integrity
  else if tag =? antiReplayTag then parseTagAntiReplay
  else if tag =? r2Tag then parseTagR2
  else if tag =? returnRequestTag then parseTagReturnRequest
  else if tag =? transactionIDTag then parseTagTransactionID
  else if tag =? protocolVersionsSupportedTag then parseTagProtocolVersionsSupported
  else if tag =? protocolVersionUsedTag then parseTagProtocolVersionUsed
  else if tag =? streamingIndicatorTag then parseTagServerStreamingIndicator
  else if tag =? capabilitiesTag then parseTagClientCapabilities
  else if tag =? deviceInfoTag then parseTagDeviceInfo
  else if tag =? deviceIdentityTag then parseTagDeviceIdentity
  else if tag =? offlineSyncTag then parseTagOfflineSync
  else if tag =? supportedKeyFormatTag then parseTagSupportedKeyFormat
  else if tag =? securityLevelReportTag then parseTagSecurityLevelReport
  else if tag =? kdlVersionReportTag then parseTagKDLVersionReport
  else if tag =? sessionKeyR1V3Tag then parseTagSessionKeyR1_V3
  else if tag =? R2V3Tag then parseTagR2_V3
  else if tag =? vmDeviceInfoTag then parseTagVMDeviceInformation
  else fun _ d => fret d.

Definition parseTLLV (t : FPSServerTLLV) (d : FPSServerSPCData) : fps FPSServerSPCData :=
  demand negb (bool_decide (tag t ∈ parsedTagValues (spcDataParser d))) else dupTagErr ;;
  tag_parser (tag t) t
    (d <| spcDataParser ::= fun p => p <| parsedTagValues ::= fun l => l ++ [tag t] |> |>).

(** ** The data (base_spc_parse.rs) *)

(** The next TLLV and the offset behind it. *)
Definition readNextTLLV (dataToParse : bytes) (dataToParseSize currentOffset : Z) :
    fps (FPSServerTLLV * Z) :=
  demand negb (len dataToParse =? 0) else paramErr ;;
  demand 8 + 4 + 4 <=? dataToParseSize else paramErr ;;
  let~ tag := readBigEndianU64 dataToParse currentOffset in
  let currentOffset := uadd currentOffset 8 in
  let~ totalSize := readBigEndianU32 dataToParse currentOffset in
  let currentOffset := uadd currentOffset 4 in
  demand currentOffset <=? uadd (uadd currentOffset totalSize) 4 else paramErr ;;
  demand uadd (uadd currentOffset totalSize) 4 <=? dataToParseSize else paramErr ;;
  let~ valueSize := readBigEndianU32 dataToParse currentOffset in
  let currentOffset := uadd currentOffset 4 in
  demand valueSize <=? totalSize else paramErr ;;
  demand currentOffset <=? uadd currentOffset valueSize else paramErr ;;
  demand uadd currentOffset valueSize <=? dataToParseSize else paramErr ;;
  let~ v := fdo (zslice dataToParse currentOffset (uadd currentOffset valueSize)) in
  fret ({| tag := tag; value := v |}, uadd currentOffset totalSize).

(** The loop over the TLLVs. *)
Fixpoint parse_tllvs (fuel : nat) (data : bytes) (size : Z) (d : FPSServerSPCData) :
    fps FPSServerSPCData :=
  if currentOffset (spcDataParser d) <? size then
    match fuel with
    | O => Panic
    | S fuel =>
      let~ (t, offset) := readNextTLLV data size (currentOffset (spcDataParser d)) in
      let~ d := parseTLLV t (d <| spcDataParser ::= fun p => p <| currentOffset := offset |> |>) in
      parse_tllvs fuel data size (d <| spcDataParser ::= fun p => p <| TLLVs ::= fun l => l ++ [t] |> |>)
    end
  else fret d.

Definition find_tllv (t : Z) (l : list FPSServerTLLV) : option FPSServerTLLV :=
  snd <$> list_find (fun x => t = tag x) l.

(** The requested tags, each added once, from the TLLVs received. *)
Fixpoint return_tags (fuel : nat) (request : bytes) (offset : Z) (received returned : list FPSServerTLLV) :
    fps (list FPSServerTLLV) :=
  if offset <? len request then
    match fuel with
    | O => Panic
    | S fuel =>
      let~ t := readBigEndianU64 request offset in
      let offset := uadd offset 8 in
      match find_tllv t returned, find_tllv t received with
      | Some _, _ => return_tags fuel request offset received returned
      | None, Some x => return_tags fuel request offset received (returned ++ [x])
      | None, None => ferr missingRequiredTagErr
      end
    end
  else fret returned.

Definition extractReturnTags (d : FPSServerSPCData) : fps FPSServerSPCData :=
  let received := TLLVs (spcDataParser d) in
  demand negb (bool_decide (received = [])) else parserErr ;;
  let request := value (returnRequest d) in
  let~ returned := return_tags (length request) request 0 received (returnTLLVs d) in
  fret (d <| returnTLLVs := returned |>).

Definition requiredTags : list Z :=
  [sessionKeyR1Tag; antiReplayTag; r2Tag; assetIDTag; transactionIDTag; protocolVersionUsedTag;
   protocolVersionsSupportedTag; returnRequestTag; sessionKeyR1IntegrityTag].

Definition validateTLLVs (d : FPSServerSPCData) : fps unit :=
  require (forallb (fun t => bool_decide (t ∈ parsedTagValues (spcDataParser d))) requiredTags)
    missingRequiredTagErr.

Definition parseSPCData (c : FPSServerSPCContainer) : fps FPSServerSPCContainer :=
  let d := (spcData c) <| spcDataParser ::= fun p => p <| TLLVs := [] |> |>
                       <| spcAssetInfo ::= fun a => a <| playInfo := default_play_info |> |> in
  let~ d := parse_tllvs (length (spcDecryptedData c)) (spcDecryptedData c) (spcDataSize c) d in
  let~ d := extractReturnTags d in
  let~ _ := validateTLLVs d in
  fret (c <| spcData := d |>).

Definition features_of (bits : Z) : FPSServerClientFeatures :=
  {| supportsOfflineKeyTLLV := has_bit bits FPS_CAPABILITY_OFFLINE_KEY_V2_SUPPORTED;
     supportsOfflineKeyTLLVV2 := has_bit bits FPS_CAPABILITY_OFFLINE_KEY_V2_SUPPORTED;
     supportsSecurityLevelBaseline := has_bit bits FPS_CAPABILITY_SECURITY_LEVEL_BASELINE_SUPPORTED;
     supportsSecurityLevelMain := has_bit bits FPS_CAPABILITY_SECURITY_LEVEL_MAIN_SUPPORTED;
     supportsHDCPTypeOne := has_bit bits FPS_CAPABILITY_HDCP_TYPE1_ENFORCEMENT_SUPPORTED;
     supportsDualExpiry := has_bit bits FPS_CAPABILITY_OFFLINE_KEY_SUPPORTED;
     supportsCheckIn := has_bit bits FPS_CAPABILITY_CHECK_IN_SUPPORTED |}.

Definition checkSupportedFeatures (c : FPSServerSPCContainer) : fps FPSServerSPCContainer :=
  let flags := vec_resize (Z.to_nat FPS_CAPABILITIES_FLAGS_LENGTH) (clientCapabilities (spcData c)) in
  let~ bits := readBigEndianU64 flags 8 in
  fret (c <| spcData ::= fun d => d <| clientCapabilities := flags |>
                                    <| clientFeatures := features_of bits |> |>).

Definition parseSPC (spc : bytes) (c : FPSServerSPCContainer) : fps FPSServerSPCContainer :=
  let~ c := parseSPCContainer spc c in
  let~ c := decryptSPCData spc c in
  let~ c := parseSPCData c in
  checkSupportedFeatures c.
End Parsing.
End Spc.
