(* ===== verification/FpsSpcProps.v ===== *)
(** * Correctness of the parsing of license requests

    [tllvs_wire] is the format of the encrypted data.  The loop over a buffer with offsets
    accepts exactly that format and computes what a fold over the list of TLLVs does; no
    request makes the parser panic; and what an accepted request guarantees. *)
From coqutil Require Import Datatypes.RecordSettersUsingExistingGetters.
From S2P Require Import Prelude RustStr FpsTypes FpsSpc.
From stdpp Require Import list gmap strings.

#[local] Open Scope string_scope.
#[local] Open Scope list_scope.
#[local] Open Scope Z_scope.
#[local] Open Scope rust_scope.

(** ** The format *)

Definition tllv_bytes (t : FPSServerTLLV) (padding : bytes) : bytes :=
  be_bytes 8 (tag t) ++ be_bytes 4 (len (value t) + len padding) ++ be_bytes 4 (len (value t))
  ++ value t ++ padding.

Definition tllv_ok (t : FPSServerTLLV) (padding : bytes) : Prop :=
  in_u64 (tag t) /\ len (value t) + len padding < 2 ^ 32.

Inductive tllvs_wire : list FPSServerTLLV -> bytes -> Prop :=
| wire_nil : tllvs_wire [] []
| wire_cons t padding ts w :
    tllv_ok t padding -> tllvs_wire ts w -> tllvs_wire (t :: ts) (tllv_bytes t padding ++ w).

Lemma len_tllv_bytes t p : len (tllv_bytes t p) = 16 + len (value t) + len p.
Proof. unfold tllv_bytes. rewrite !len_app, !len_be_bytes. lia. Qed.

(** Reading a TLLV that is there, behind any bytes and before any rest. *)
Lemma read_next_app pre t p rest tail :
  tllv_ok t p -> len (pre ++ tllv_bytes t p ++ rest) < 2 ^ 32 ->
  readNextTLLV (pre ++ tllv_bytes t p ++ rest ++ tail) (len (pre ++ tllv_bytes t p ++ rest)) (len pre)
  = Done (Ok (t, len pre + len (tllv_bytes t p))).
Proof.
  intros [Ht Hs] Hlen. rewrite !len_app, len_tllv_bytes in *.
  pose proof (len_nonneg pre). pose proof (len_nonneg (value t)). pose proof (len_nonneg p).
  pose proof (len_nonneg rest). pose proof (len_nonneg tail).
  unfold readNextTLLV. rewrite !len_app, len_tllv_bytes.
  set (data := pre ++ tllv_bytes t p ++ rest ++ tail).
  assert (readBigEndianU64 data (len pre) = Done (Ok (tag t))) as H8.
  { unfold data, tllv_bytes, readBigEndianU64. rewrite <- !app_assoc.
    apply (readBigEndian_app pre 8); [exact Ht|lia]. }
  assert (readBigEndianU32 data (len pre + 8) = Done (Ok (len (value t) + len p))) as H4.
  { unfold data, tllv_bytes, readBigEndianU32. rewrite <- !app_assoc, app_assoc.
    replace (len pre + 8) with (len (pre ++ be_bytes 8 (tag t)))
      by (rewrite len_app, len_be_bytes; lia).
    apply (readBigEndian_app _ 4); [|rewrite len_app, len_be_bytes]; lia. }
  assert (readBigEndianU32 data (len pre + 12) = Done (Ok (len (value t)))) as H4'.
  { unfold data, tllv_bytes, readBigEndianU32. rewrite <- !app_assoc, !(app_assoc pre), app_assoc.
    replace (len pre + 12) with
      (len ((pre ++ be_bytes 8 (tag t)) ++ be_bytes 4 (len (value t) + len p)))
      by (rewrite !len_app, !len_be_bytes; lia).
    apply (readBigEndian_app _ 4); [|rewrite !len_app, !len_be_bytes]; lia. }
  assert (zslice data (len pre + 16) (len pre + 16 + len (value t)) = Done (value t)) as Hv.
  { replace data with ((pre ++ be_bytes 8 (tag t) ++ be_bytes 4 (len (value t) + len p)
        ++ be_bytes 4 (len (value t))) ++ value t ++ p ++ rest ++ tail)
      by (unfold data, tllv_bytes; by rewrite <- !app_assoc).
    apply zslice_app; rewrite !len_app, !len_be_bytes; lia. }
  rewrite H8. cbn [fbind]. rewrite (uadd_small (len pre) 8) by lia. rewrite H4. cbn [fbind].
  rewrite (uadd_small (len pre + 8) 4) by lia. replace (len pre + 8 + 4) with (len pre + 12) by lia.
  rewrite H4'. cbn [fbind]. rewrite (uadd_small (len pre + 12) 4) by lia.
  replace (len pre + 12 + 4) with (len pre + 16) by lia.
  rewrite (uadd_small (len pre + 12)) by lia. rewrite !uadd_small by lia. rewrite Hv.
  unfold require.
  repeat match goal with |- context [if ?b then _ else _] =>
    replace b with true by (symmetry; first [apply Z.leb_le; lia | apply negb_true_iff, Z.eqb_neq; lia]) end.
  cbn [fbind fret fdo]. replace (len pre + 16 + (len (value t) + len p))
    with (len pre + (16 + len (value t) + len p)) by lia. by destruct t.
Qed.

(** What was read is there. *)
Lemma take_drop_split (l : bytes) i n m i' m' :
  0 <= i -> 0 <= n <= m -> i' = i + n -> m' = m - n ->
  take (Z.to_nat m) (drop (Z.to_nat i) l)
  = take (Z.to_nat n) (drop (Z.to_nat i) l) ++ take (Z.to_nat m') (drop (Z.to_nat i') l).
Proof.
  intros ? ? -> ->. rewrite <- (take_drop (Z.to_nat n) (take (Z.to_nat m) _)) at 1.
  rewrite take_take, Nat.min_l, skipn_firstn_comm, drop_drop by lia. do 3 f_equal; lia.
Qed.

Lemma be_bytes_take (l : bytes) (n i : nat) :
  (i + n <= length l)%nat -> be_bytes n (be_to_Z (take n (drop i l))) = take n (drop i l).
Proof.
  intros. assert (length (take n (drop i l)) = n) as Hn by (rewrite length_take, length_drop; lia).
  rewrite <- Hn at 1. apply be_bytes_to_Z.
Qed.

(** The fields of a TLLV, without wrap-around. *)
Lemma read_next_fields data size o t o' :
  0 <= o < size -> size < 2 ^ 32 -> readNextTLLV data size o = Done (Ok (t, o')) ->
  exists total, readBigEndian 8 data o = Done (Ok (tag t)) /\
    readBigEndian 4 data (o + 8) = Done (Ok total) /\
    readBigEndian 4 data (o + 12) = Done (Ok (len (value t))) /\
    len (value t) <= total /\ o' = o + 16 + total /\ o' <= size /\
    value t = take (Z.to_nat (len (value t))) (drop (Z.to_nat (o + 16)) data).
Proof.
  intros Ho Hs32 H. unfold readNextTLLV, readBigEndianU64, readBigEndianU32 in H. fps_inv.
  uadd_arith. repeat match goal with H : readBigEndian 4 ?l ?i = Done (Ok ?z) |- _ =>
    assert (0 <= z < 2 ^ 32) by (apply (readBigEndian_range 4 l i z); [lia..|exact H]); revert H end.
  intros. uadd_arith.
  match goal with H : zslice _ _ _ = _ |- _ => apply zslice_Done in H as (? & ? & Hv) end.
  simplify_eq. cbn. eexists. rewrite len_take_drop by lia.
  replace (o + 12) with (o + 8 + 4) by lia. replace (o + 16) with (o + 8 + 4 + 4) by lia.
  rewrite Z.add_simpl_l. split_and!; [done..|lia|lia|lia|done].
Qed.

Lemma read_next_inv data size o t o' :
  0 <= o < size -> size <= len data -> size < 2 ^ 32 ->
  readNextTLLV data size o = Done (Ok (t, o')) ->
  exists p rest, drop (Z.to_nat o) (take (Z.to_nat size) data) = tllv_bytes t p ++ rest /\
    tllv_ok t p /\ o' = o + len (tllv_bytes t p) /\ o' <= size.
Proof.
  intros Ho Hs Hs32 H.
  apply read_next_fields in H as (total & Ht & H4 & H4' & Hle & -> & Hsize & Hv); [|lia..].
  apply readBigEndian_Ok in Ht as [_ Ht]; [|lia..]. apply readBigEndian_Ok in H4 as [_ H4]; [|lia..].
  apply readBigEndian_Ok in H4' as [_ H4']; [|lia..]. pose proof (len_nonneg (value t)).
  set (l := data) in *. set (vs := len (value t)) in *. unfold len in Hs.
  assert (len (take (Z.to_nat (total - vs)) (drop (Z.to_nat (o + 16 + vs)) l)) = total - vs) as Hp
    by (apply len_take_drop; unfold len; lia).
  exists (take (Z.to_nat (total - vs)) (drop (Z.to_nat (o + 16 + vs)) l)).
  exists (take (Z.to_nat (size - (o + 16 + total))) (drop (Z.to_nat (o + 16 + total)) l)).
  unfold tllv_ok. rewrite len_tllv_bytes, Hp. fold vs. split_and!; [|..|lia|lia].
  - unfold tllv_bytes. rewrite Hp. fold vs. replace (vs + (total - vs)) with total by lia.
    apply (f_equal (be_bytes 8)) in Ht. apply (f_equal (be_bytes 4)) in H4, H4'.
    rewrite be_bytes_take in Ht, H4, H4' by lia. rewrite Ht, H4, H4', Hv.
    rewrite skipn_firstn_comm, <- Z2Nat.inj_sub by lia. rewrite <- !app_assoc.
    rewrite (take_drop_split l o 8 _ (o + 8) (size - o - 8)) by lia. f_equal.
    rewrite (take_drop_split l (o + 8) 4 _ (o + 12) (size - o - 12)) by lia. f_equal.
    rewrite (take_drop_split l (o + 12) 4 _ (o + 16) (size - o - 16)) by lia. f_equal.
    rewrite (take_drop_split l (o + 16) vs _ (o + 16 + vs) (size - o - 16 - vs)) by lia. f_equal.
    apply take_drop_split; lia.
  - rewrite Ht. unfold in_u64. pose proof (be_to_Z_range (take (Z.to_nat 8) (drop (Z.to_nat o) l))) as Hr.
    rewrite len_take_drop in Hr by (unfold len; lia). exact Hr.
  - lia.
Qed.

(** ** The loop over the buffer and a fold over the list *)

Definition set_offset (o : Z) (d : FPSServerSPCData) : FPSServerSPCData :=
  d <| spcDataParser ::= fun p => p <| currentOffset := o |> |>.
Definition push_tllv (t : FPSServerTLLV) (d : FPSServerSPCData) : FPSServerSPCData :=
  d <| spcDataParser ::= fun p => p <| TLLVs ::= fun l => l ++ [t] |> |>.

(** The reference: the TLLVs one after the other, no buffer and no offsets. *)
Fixpoint parse_list (ts : list FPSServerTLLV) (d : FPSServerSPCData) : fps FPSServerSPCData :=
  match ts with
  | [] => fret d
  | t :: ts => let~ d := parseTLLV t d in parse_list ts (push_tllv t d)
  end.

Lemma set_offset_id o d : currentOffset (spcDataParser d) = o -> set_offset o d = d.
Proof. intros <-. by destruct d as [????????????[]]. Qed.
Lemma set_offset_twice a b d : set_offset a (set_offset b d) = set_offset a d.
Proof. by destruct d as [????????????[]]. Qed.
Lemma push_offset o t d : push_tllv t (set_offset o d) = set_offset o (push_tllv t d).
Proof. by destruct d as [????????????[]]. Qed.

Lemma fbind_assoc {A B C} (m : fps A) (f : A -> fps B) (g : B -> fps C) :
  fbind (fbind m f) g = fbind m (fun a => fbind (f a) g).
Proof. by destruct m as [[]|]. Qed.
Lemma fbind_ext {A B} (m : fps A) (f g : A -> fps B) : (forall a, f a = g a) -> fbind m f = fbind m g.
Proof. intros H. by destruct m as [[]|]; cbn. Qed.
Lemma fbind_fret {A B} (a : A) (f : A -> fps B) : fbind (fret a) f = f a.
Proof. done. Qed.
Lemma fbind_ferr {A B} e (f : A -> fps B) : fbind (ferr e) f = ferr e.
Proof. done. Qed.
Lemma fbind_if {A B} (b : bool) (m m' : fps A) (f : A -> fps B) :
  fbind (if b then m else m') f = if b then fbind m f else fbind m' f.
Proof. by destruct b. Qed.

(** The parsers of the tags do not look at the offset. *)
Ltac offset_free :=
  repeat first
    [ reflexivity
    | rewrite fbind_assoc
    | rewrite fbind_fret
    | rewrite fbind_ferr
    | rewrite fbind_if
    | apply fbind_ext; intros ?
    | match goal with |- (if ?b then _ else _) = (if ?b then _ else _) => destruct b end ].

Lemma tag_parser_offset g o t d :
  tag_parser g t (set_offset o d) = fbind (tag_parser g t d) (fun d' => fret (set_offset o d')).
Proof.
  unfold tag_parser. destruct d as [????????????[]].
  repeat match goal with |- context [if ?b then _ else _] =>
    match type of b with bool => idtac end; destruct b end; cbv beta;
  unfold parseTagAssetID, parseTagMediaPlaybackState, parseTagSessionKeyR1,
    parseTagSessionKeyR1Integrity, parseTagAntiReplay, parseTagR2, parseTagReturnRequest,
    parseTagTransactionID, parseTagProtocolVersionsSupported, parseTagProtocolVersionUsed,
    parseTagServerStreamingIndicator, parseTagClientCapabilities, parseTagDeviceInfo,
    parseTagDeviceIdentity, parseTagOfflineSync, parseTagSupportedKeyFormat,
    parseTagSecurityLevelReport, parseTagKDLVersionReport, parseTagSessionKeyR1_V3, parseTagR2_V3,
    parseTagVMDeviceInformation; offset_free.
Qed.

Lemma parseTLLV_offset o t d :
  parseTLLV t (set_offset o d) = fbind (parseTLLV t d) (fun d' => fret (set_offset o d')).
Proof.
  unfold parseTLLV. rewrite fbind_assoc. destruct d as [????????????[]]. cbn [set_offset].
  apply fbind_ext. intros _. rewrite <- tag_parser_offset. reflexivity.
Qed.

Lemma parse_list_offset o ts d :
  parse_list ts (set_offset o d) = fbind (parse_list ts d) (fun d' => fret (set_offset o d')).
Proof.
  revert d. induction ts as [|t ts IH]; intros d; [done|]. cbn [parse_list].
  rewrite parseTLLV_offset, !fbind_assoc. apply fbind_ext. intros d1.
  by rewrite fbind_fret, push_offset, IH.
Qed.

(** What no parser of a tag changes. *)
Ltac tag_cases H :=
  unfold tag_parser in H;
  repeat match type of H with context [if ?g =? ?c then _ else _] =>
    match type of c with Z => idtac end; destruct (Z.eqb_spec g c) end;
  unfold parseTagAssetID, parseTagMediaPlaybackState, parseTagSessionKeyR1,
    parseTagSessionKeyR1Integrity, parseTagAntiReplay, parseTagR2, parseTagReturnRequest,
    parseTagTransactionID, parseTagProtocolVersionsSupported, parseTagProtocolVersionUsed,
    parseTagServerStreamingIndicator, parseTagClientCapabilities, parseTagDeviceInfo,
    parseTagDeviceIdentity, parseTagOfflineSync, parseTagSupportedKeyFormat,
    parseTagSecurityLevelReport, parseTagKDLVersionReport, parseTagSessionKeyR1_V3, parseTagR2_V3,
    parseTagVMDeviceInformation in H;
  repeat (progress fps_inv || match type of H with (if ?b then _ else _) = _ => destruct b eqn:? end).

Lemma tag_parser_frame g t d d' :
  tag_parser g t d = Done (Ok d') ->
  spcDataParser d' = spcDataParser d /\ returnTLLVs d' = returnTLLVs d.
Proof. intros H. tag_cases H; subst; done. Qed.

Lemma parseTLLV_frame t d d' :
  parseTLLV t d = Done (Ok d') ->
  ~ (tag t ∈ parsedTagValues (spcDataParser d)) /\
  spcDataParser d' = ((spcDataParser d) <| parsedTagValues ::= fun l => l ++ [tag t] |>) /\
  returnTLLVs d' = returnTLLVs d.
Proof.
  unfold parseTLLV. intros [Hd [-> ->]%tag_parser_frame]%require_bind. by reflect_bools.
Qed.

(** On a stream of TLLVs the loop does what the fold over their list does, errors included. *)
Lemma parse_tllvs_wire ts w :
  tllvs_wire ts w -> forall fuel pre tail d,
  len (pre ++ w) < 2 ^ 32 -> (length w <= fuel)%nat -> currentOffset (spcDataParser d) = len pre ->
  parse_tllvs fuel (pre ++ w ++ tail) (len (pre ++ w)) d
  = fbind (parse_list ts d) (fun d' => fret (set_offset (len (pre ++ w)) d')).
Proof.
  induction 1 as [|t p ts w Hok Hw IH]; intros fuel pre tail d Hlen Hfuel Hoff.
  - cbn [parse_list fbind fret]. rewrite app_nil_r, set_offset_id by done.
    destruct fuel; cbn [parse_tllvs]; by rewrite Hoff, Z.ltb_irrefl.
  - pose proof (len_nonneg w). pose proof (len_nonneg p). pose proof (len_nonneg (value t)).
    pose proof (len_tllv_bytes t p) as Hb. rewrite !len_app in Hlen.
    assert (16 <= length (tllv_bytes t p))%nat by (unfold len in *; lia).
    destruct fuel as [|fuel]; [rewrite length_app in Hfuel; lia|]. cbn [parse_tllvs].
    rewrite Hoff. replace (len pre <? len (pre ++ tllv_bytes t p ++ w)) with true
      by (symmetry; apply Z.ltb_lt; rewrite !len_app; lia).
    rewrite <- (app_assoc (tllv_bytes t p)), read_next_app by (done || rewrite !len_app; lia).
    cbn [fbind]. fold (set_offset (len pre + len (tllv_bytes t p)) d).
    rewrite parseTLLV_offset, fbind_assoc. cbn [parse_list]. rewrite !fbind_assoc.
    apply fbind_ext. intros d'. rewrite fbind_fret. fold (push_tllv t (set_offset (len pre + len (tllv_bytes t p)) d')).
    rewrite push_offset. rewrite !app_assoc, <- (app_assoc _ w tail), <- len_app.
    rewrite (IH fuel (pre ++ tllv_bytes t p) tail).
    + rewrite parse_list_offset, fbind_assoc. apply fbind_ext. intros d2. rewrite fbind_fret.
      by rewrite set_offset_twice.
    + rewrite !len_app. lia.
    + rewrite length_app in Hfuel. lia.
    + done.
Qed.

(** What the loop accepts is a stream of TLLVs. *)
Lemma parse_tllvs_accepts fuel data size d d' :
  parse_tllvs fuel data size d = Done (Ok d') ->
  size <= len data -> size < 2 ^ 32 -> 0 <= currentOffset (spcDataParser d) <= size ->
  exists ts, tllvs_wire ts (drop (Z.to_nat (currentOffset (spcDataParser d))) (take (Z.to_nat size) data)).
Proof.
  revert d. induction fuel as [|fuel IH]; intros d H Hs Hs32 Ho; cbn [parse_tllvs] in H.
  - destruct (Z.ltb_spec (currentOffset (spcDataParser d)) size); [done|]. exists [].
    rewrite drop_ge by (rewrite length_take; lia). constructor.
  - destruct (Z.ltb_spec (currentOffset (spcDataParser d)) size) as [Hlt|].
    2: { exists []. rewrite drop_ge by (rewrite length_take; lia). constructor. }
    apply fbind_Ok in H as ((t & o') & Hread & H). apply fbind_Ok in H as (d1 & Hd1 & H).
    apply read_next_inv in Hread as (p & rest & Heq & Hok & -> & Hle); [|lia..].
    apply parseTLLV_frame in Hd1 as (_ & Hp & _).
    apply IH in H as (ts & Hts); [|done..|].
    + exists (t :: ts). rewrite Heq. constructor; [done|]. cbn in Hts. rewrite Hp in Hts.
      cbn in Hts. unfold RecordSettersUsingExistingGetters.const in Hts.
      rewrite Z2Nat.inj_add, <- drop_drop, Heq in Hts by (lia || apply len_nonneg).
      unfold len in Hts. by rewrite Nat2Z.id, drop_app_length in Hts.
    + cbn. rewrite Hp. cbn. unfold RecordSettersUsingExistingGetters.const.
      pose proof (len_nonneg (tllv_bytes t p)). lia.
Qed.

Lemma tllv_bytes_app_nonempty t p w : tllv_bytes t p ++ w <> [].
Proof.
  intros E%(f_equal len). rewrite len_app, len_tllv_bytes in E. pose proof (len_nonneg w).
  pose proof (len_nonneg (value t)). pose proof (len_nonneg p). change (len []) with 0 in E. lia.
Qed.

Lemma wire_empty ts : tllvs_wire ts [] -> ts = [].
Proof.
  remember [] as w eqn:E. intros H. destruct H as [|t p ts w' ? ?]; [done|].
  exfalso. exact (tllv_bytes_app_nonempty t p w' E).
Qed.

(** A stream is the stream of one list. *)
Lemma wire_unique ts ts' w : tllvs_wire ts w -> tllvs_wire ts' w -> len w < 2 ^ 32 -> ts = ts'.
Proof.
  intros H. revert ts'. induction H as [|t p ts w Hok Hw IH]; intros ts' H' Hlen.
  - by apply wire_empty in H' as ->.
  - remember (tllv_bytes t p ++ w) as w1 eqn:E. destruct H' as [|t' p' ts1 w' Hok' Hw'].
    + exfalso. by apply (tllv_bytes_app_nonempty t p w).
    + pose proof (read_next_app [] t p w [] Hok) as R.
      pose proof (read_next_app [] t' p' w' [] Hok' ltac:(cbn [app]; exact Hlen)) as R'.
      rewrite E in Hlen. specialize (R Hlen). rewrite !app_nil_r in R, R'. cbn [app] in R, R'.
      rewrite E in R'. change (len []) with 0 in R, R'. rewrite !Z.add_0_l in *.
      assert (t' = t) as -> by congruence.
      assert (length (tllv_bytes t p') = length (tllv_bytes t p)) as Hl3
        by (apply Nat2Z.inj; fold (len (tllv_bytes t p)) (len (tllv_bytes t p')); congruence).
      apply (app_inj_1 _ _ _ _ Hl3) in E as [_ ->]. f_equal. apply IH; [done|].
      rewrite len_app in Hlen. pose proof (len_nonneg (tllv_bytes t p)). lia.
Qed.

Lemma extract_offset o d :
  extractReturnTags (set_offset o d) = fbind (extractReturnTags d) (fun d' => fret (set_offset o d')).
Proof. destruct d as [????????????[]]. unfold extractReturnTags. cbn [set_offset]. offset_free. Qed.

Lemma validate_offset o d : validateTLLVs (set_offset o d) = validateTLLVs d.
Proof. by destruct d as [????????????[]]. Qed.

(** A container whose data has been decrypted and not yet parsed. *)
Definition decrypted (c : FPSServerSPCContainer) : Prop :=
  0 <= spcDataSize c <= len (spcDecryptedData c) /\ spcDataSize c < 2 ^ 32 /\
  currentOffset (spcDataParser (spcData c)) = 0.

Definition data_bytes (c : FPSServerSPCContainer) : bytes :=
  take (Z.to_nat (spcDataSize c)) (spcDecryptedData c).

Definition fresh_data (d : FPSServerSPCData) : FPSServerSPCData :=
  d <| spcDataParser ::= fun p => p <| TLLVs := [] |> |>
    <| spcAssetInfo ::= fun a => a <| playInfo := default_play_info |> |>.

Definition parse_data_list (c : FPSServerSPCContainer) (ts : list FPSServerTLLV) :
    fps FPSServerSPCContainer :=
  let~ d := parse_list ts (fresh_data (spcData c)) in
  let~ d := extractReturnTags d in
  let~ _ := validateTLLVs d in
  fret (c <| spcData := set_offset (spcDataSize c) d |>).

Lemma len_data_bytes c : decrypted c -> len (data_bytes c) = spcDataSize c.
Proof. intros (? & _). unfold data_bytes, len in *. rewrite length_take. lia. Qed.

Definition parse_buffer (c : FPSServerSPCContainer) : fps FPSServerSPCData :=
  parse_tllvs (length (spcDecryptedData c)) (spcDecryptedData c) (spcDataSize c)
    (fresh_data (spcData c)).

Lemma parse_buffer_wire c ts :
  decrypted c -> tllvs_wire ts (data_bytes c) ->
  parse_buffer c = fbind (parse_list ts (fresh_data (spcData c)))
                     (fun d => fret (set_offset (spcDataSize c) d)).
Proof.
  intros Hd Hw. pose proof (len_data_bytes c Hd) as Hlen. destruct Hd as (? & ? & Ho).
  pose proof (parse_tllvs_wire ts (data_bytes c) Hw (length (spcDecryptedData c)) []
    (drop (Z.to_nat (spcDataSize c)) (spcDecryptedData c)) (fresh_data (spcData c))) as E.
  cbn [app] in E. unfold data_bytes in E at 3. rewrite take_drop, Hlen in E.
  apply E; [lia|unfold data_bytes; rewrite length_take; lia|done].
Qed.

Lemma parse_buffer_stream c d :
  decrypted c -> parse_buffer c = Done (Ok d) ->
  exists ts d1, tllvs_wire ts (data_bytes c) /\
    parse_list ts (fresh_data (spcData c)) = Done (Ok d1) /\ d = set_offset (spcDataSize c) d1.
Proof.
  intros Hd H. pose proof Hd as (? & ? & Ho). pose proof H as (ts & Hts)%parse_tllvs_accepts;
    [|lia|lia|cbn; rewrite Ho; lia].
  cbn in Hts. rewrite Ho in Hts. rewrite (parse_buffer_wire c ts) in H by done. fps_inv. eauto.
Qed.

Lemma parse_data_wire c ts :
  decrypted c -> tllvs_wire ts (data_bytes c) -> parseSPCData c = parse_data_list c ts.
Proof.
  intros Hd Hw. unfold parseSPCData, parse_data_list. fold (fresh_data (spcData c)). fold (parse_buffer c).
  rewrite (parse_buffer_wire c ts), fbind_assoc by done.
  apply fbind_ext. intros d. rewrite fbind_fret, extract_offset, !fbind_assoc.
  apply fbind_ext. intros d1. by rewrite fbind_fret, validate_offset.
Qed.

Lemma parse_data_stream c r :
  decrypted c -> parseSPCData c = Done (Ok r) ->
  exists ts, tllvs_wire ts (data_bytes c) /\ parse_data_list c ts = Done (Ok r).
Proof.
  intros Hd H. pose proof H as H0. unfold parseSPCData in H0. apply fbind_Ok in H0 as (d & H0 & _).
  apply parse_buffer_stream in H0 as (ts & _ & Hts & _ & _); [|done].
  exists ts. split; [done|]. by rewrite <- parse_data_wire.
Qed.

(** C11: parsing the decrypted data succeeds, with a given result, exactly when the data is a
    stream of TLLVs and the fold over their list, with no buffer and no offsets, gives that
    result; on a stream the two agree on every error as well. *)
Theorem spc_data_equivalence c :
  decrypted c ->
  (forall r, parseSPCData c = Done (Ok r) <->
     exists ts, tllvs_wire ts (data_bytes c) /\ parse_data_list c ts = Done (Ok r)) /\
  (forall ts, tllvs_wire ts (data_bytes c) -> parseSPCData c = parse_data_list c ts).
Proof.
  intros Hd. split; [|intros ts; by apply parse_data_wire]. intros r. split.
  - by apply parse_data_stream.
  - intros (ts & Hts & H). by rewrite (parse_data_wire c ts).
Qed.

(** ** No request makes the parser panic *)

Lemma read_versions_safe fuel v o vs :
  0 <= o -> len v < 2 ^ 32 -> (Z.to_nat (len v - o) <= fuel)%nat -> fsafe (read_versions fuel v o vs).
Proof.
  revert o vs. induction fuel as [|fuel IH]; intros o vs Ho Hv Hf; cbn [read_versions];
    (destruct (Z.ltb_spec o (len v)); [|apply fsafe_ret]); [lia|].
  apply fsafe_bind; [apply readBigEndian_safe; lia|]. intros z _. apply fsafe_require. intros _.
  uadd_arith. apply IH; lia.
Qed.

Lemma read_formats_safe n v i o fs :
  0 <= o -> o + 8 * Z.of_nat n < 2 ^ 64 -> (i + n <= length fs)%nat -> fsafe (read_formats n v i o fs).
Proof.
  revert i o fs. induction n as [|n IH]; intros i o fs Ho Hn Hi; cbn [read_formats]; [apply fsafe_ret|].
  apply fsafe_bind; [apply readBigEndian_safe; lia|]. intros z _.
  destruct (Nat.ltb_spec i (length fs)); [|lia]. uadd_arith.
  apply IH; [lia..|]. rewrite length_insert. lia.
Qed.

Lemma length_read_formats n v i o fs fs' :
  read_formats n v i o fs = Done (Ok fs') -> length fs' = length fs.
Proof.
  revert i o fs. induction n as [|n IH]; intros i o fs H; cbn [read_formats] in H; fps_inv; [by subst|].
  destruct (_ <? _)%nat; [|done]. apply IH in H. by rewrite length_insert in H.
Qed.

Ltac fps_safe :=
  unfold readBigEndianU64, readBigEndianU32 in *;
  repeat match goal with
  | |- fsafe (fret _) => apply fsafe_ret
  | |- fsafe (ferr _) => apply fsafe_err
  | |- fsafe (readBigEndian _ _ _) => apply readBigEndian_safe; lia
  | |- fsafe (readBytes _ _ _) => apply readBytes_safe; try fps_lia
  | |- fsafe (fbind (require _ _) _) => apply fsafe_require; intros ?
  | |- fsafe (fbind _ _) => apply fsafe_bind; [|intros ? ?]
  | |- fsafe (if ?b then _ else _) => destruct b eqn:?
  end.

Definition formats_ok (d : FPSServerSPCData) : Prop :=
  length (supportedKeyFormats d) = Z.to_nat FPS_MAX_KEY_FORMATS.

Lemma offline_sync_safe t d : fsafe (parseTagOfflineSync t d).
Proof. unfold parseTagOfflineSync. fps_safe. Qed.

Lemma key_format_safe t d : formats_ok d -> fsafe (parseTagSupportedKeyFormat t d).
Proof.
  intros Hd. unfold parseTagSupportedKeyFormat. fps_safe. reflect_bools.
  match goal with H : readBigEndian 4 _ 8 = _ |- _ =>
    apply readBigEndian_range in H; [|lia..] end.
  apply read_formats_safe; [lia|unfold FPS_MAX_KEY_FORMATS in *; lia|rewrite Hd; lia].
Qed.

Lemma tag_parser_safe g t d : formats_ok d -> len (value t) < 2 ^ 32 -> fsafe (tag_parser g t d).
Proof.
  intros Hd Ht. pose proof (len_nonneg (value t)). unfold tag_parser.
  repeat match goal with |- context [if ?b then _ else _] => destruct b end;
    try (by apply offline_sync_safe); try (by apply key_format_safe);
    unfold parseTagAssetID, parseTagMediaPlaybackState, parseTagSessionKeyR1,
    parseTagSessionKeyR1Integrity, parseTagAntiReplay, parseTagR2, parseTagReturnRequest,
    parseTagTransactionID, parseTagProtocolVersionsSupported, parseTagProtocolVersionUsed,
    parseTagServerStreamingIndicator, parseTagClientCapabilities, parseTagDeviceInfo,
    parseTagDeviceIdentity,
    parseTagSecurityLevelReport, parseTagKDLVersionReport, parseTagSessionKeyR1_V3, parseTagR2_V3,
    parseTagVMDeviceInformation; fps_safe.
  apply read_versions_safe; unfold len in *; lia.
Qed.

Lemma tag_parser_formats g t d d' :
  tag_parser g t d = Done (Ok d') -> formats_ok d -> formats_ok d'.
Proof.
  unfold formats_ok. intros H Hd. tag_cases H; subst; cbn; try done.
  match goal with H : read_formats _ _ _ _ _ = _ |- _ => apply length_read_formats in H;
    exact (eq_trans H Hd) end.
Qed.

Lemma readNextTLLV_safe data size o :
  0 <= o < size -> size <= len data -> size < 2 ^ 32 -> fsafe (readNextTLLV data size o).
Proof.
  intros Ho Hs Hs32. unfold readNextTLLV. fps_safe; reflect_bools; uadd_arith;
  repeat match goal with H : readBigEndian 4 ?l ?i = Done (Ok ?z) |- _ =>
    assert (0 <= z < 2 ^ 32) by (apply (readBigEndian_range 4 l i z); [lia..|exact H]); revert H end;
  intros; uadd_arith; try (apply readBigEndian_safe; lia).
  unfold fsafe, fdo. by rewrite zslice_in_range by lia.
Qed.

Lemma parse_tllvs_safe fuel data size d :
  formats_ok d -> size <= len data -> size < 2 ^ 32 -> 0 <= currentOffset (spcDataParser d) ->
  (Z.to_nat (size - currentOffset (spcDataParser d)) <= fuel)%nat ->
  fsafe (parse_tllvs fuel data size d).
Proof.
  revert d. induction fuel as [|fuel IH]; intros d Hd Hs Hs32 Ho Hf; cbn [parse_tllvs];
    (destruct (Z.ltb_spec (currentOffset (spcDataParser d)) size); [|apply fsafe_ret]); [lia|].
  apply fsafe_bind; [apply readNextTLLV_safe; lia|]. intros [t o'] Ht.
  apply read_next_inv in Ht as (p & rest & _ & [_ Hok] & -> & Hle); [|lia..].
  pose proof (len_tllv_bytes t p). pose proof (len_nonneg (value t)). pose proof (len_nonneg p).
  apply fsafe_bind; [|intros d1 Hd1].
  - unfold parseTLLV. apply fsafe_require. intros _. apply tag_parser_safe; [done|lia].
  - pose proof Hd1 as (_ & Hp & _)%parseTLLV_frame. unfold parseTLLV in Hd1.
    apply require_bind in Hd1 as [_ Hd1]. apply tag_parser_formats in Hd1; [|done].
    apply IH; [done..| |]; cbn; rewrite Hp; cbn; unfold RecordSettersUsingExistingGetters.const; lia.
Qed.

Lemma return_tags_safe fuel request o received returned :
  0 <= o -> len request < 2 ^ 32 -> (Z.to_nat (len request - o) <= fuel)%nat ->
  fsafe (return_tags fuel request o received returned).
Proof.
  revert o returned. induction fuel as [|fuel IH]; intros o returned Ho Hv Hf; cbn [return_tags];
    (destruct (Z.ltb_spec o (len request)); [|apply fsafe_ret]); [lia|].
  apply fsafe_bind; [apply readBigEndian_safe; lia|]. intros z _. uadd_arith.
  destruct (find_tllv z returned); [|destruct (find_tllv z received); [|apply fsafe_err]]; apply IH; lia.
Qed.

(** Documented behaviour of the cryptographic crates: AES without padding keeps the length,
    decryption undoes encryption, and the digests have their sizes. *)
Class FpsCryptoLaws {crypto : FpsCrypto} := {
  cbc_encrypt_len k iv x : len k = 16 -> len iv = 16 -> len x mod 16 = 0 -> len (aes_cbc_encrypt k iv x) = len x;
  cbc_decrypt_len k iv x : len k = 16 -> len iv = 16 -> len x mod 16 = 0 -> len (aes_cbc_decrypt k iv x) = len x;
  cbc_decrypt_encrypt k iv x : len k = 16 -> len iv = 16 -> len x mod 16 = 0 ->
    aes_cbc_decrypt k iv (aes_cbc_encrypt k iv x) = x;
  ecb_encrypt_len k x : len k = 16 -> len x = 16 -> len (aes_ecb_encrypt k x) = 16;
  ecb_decrypt_len k x : len k = 16 -> len x = 16 -> len (aes_ecb_decrypt k x) = 16;
  sha1_len x : len (sha1 x) = 20;
  sha256_len x : len (sha256 x) = 32;
  hex_encode_decode x : hex_decode (hex_encode x) = Some x;
}.

Section Safety.
Context {crypto : FpsCrypto} {laws : FpsCryptoLaws} (certs : option Certificates).

(** What a parsed container header says of the buffer. *)
Definition in_buffer (spc : bytes) (d : FPSServerSPCData) (c' : FPSServerSPCContainer) : Prop :=
  0 <= spcDataOffset c' < 2 ^ 32 /\ 0 <= spcDataSize c' < 2 ^ 32 /\
  spcDataOffset c' + spcDataSize c' <= len spc /\ spcData c' = d.

Lemma data_in_spc_range spc c c' n off :
  data_in_spc spc (c <| spcDataSize := n |> <| spcDataOffset := off |>) = Done (Ok c') ->
  0 <= off < 2 ^ 32 -> 0 <= n < 2 ^ 32 -> in_buffer spc (spcData c) c' /\ spcVersion c' = spcVersion c.
Proof.
  unfold data_in_spc, in_buffer. intros H ? ?. fps_inv. subst c'. cbn in *.
  unfold RecordSettersUsingExistingGetters.const in *. uadd_arith. split_and!; (done || lia).
Qed.

Lemma v3_header_range spc c c' :
  parseSPCV3Header certs spc 8 c = Done (Ok c') ->
  in_buffer spc (spcData c) c' /\ spcVersion c' = spcVersion c.
Proof.
  unfold parseSPCV3Header, readBigEndianU32. intros H. fps_inv.
  match goal with H : matchSha1withSha256 _ _ = _ |- _ => rename H into Hm end.
  match goal with H : readBigEndian 4 _ _ = _ |- _ => rename H into Hn end.
  apply readBigEndian_range in Hn; [|by vm_compute..].
  apply data_in_spc_range in H; [|by vm_compute|done].
  unfold matchSha1withSha256 in Hm. repeat case_match; fps_inv; subst; done.
Qed.

Lemma container_range spc c c' :
  parseSPCContainer certs spc c = Done (Ok c') ->
  in_buffer spc (spcData c) c' /\ (spcVersion c' = 1 \/ spcVersion c' = 2 \/ spcVersion c' = 3).
Proof.
  unfold parseSPCContainer, readBigEndianU32. intros H. fps_inv.
  match type of H with (if ?b then _ else _) = _ => destruct b eqn:Hv end; reflect_bools.
  - apply v3_header_range in H as [? ->]. split; [done|]. cbn. auto.
  - fps_inv. match goal with H : (_ || _)%bool = true |- _ => apply orb_true_iff in H end.
    match goal with H : readBigEndian 4 _ (uadd _ _) = _ |- _ => rename H into Hn end.
    destruct H2 as [->%Z.eqb_eq | ->%Z.eqb_eq];
      (apply readBigEndian_range in Hn; [|by vm_compute..];
       apply data_in_spc_range in H as [? ->]; [|by vm_compute|done]; split; [done|cbn; auto]).
Qed.

Lemma container_safe spc c : fsafe (parseSPCContainer certs spc c).
Proof.
  unfold parseSPCContainer, parseSPCV3Header, data_in_spc, readBigEndianU32.
  repeat match goal with
  | |- fsafe (fret _) => apply fsafe_ret
  | |- fsafe (readBigEndian _ _ _) => apply readBigEndian_safe; by vm_compute
  | |- fsafe (readBytes _ _ _) => apply readBytes_safe; by vm_compute
  | H : ((?x =? 1) || (?x =? 2))%bool = true |- _ =>
      apply orb_true_iff in H as [->%Z.eqb_eq | ->%Z.eqb_eq]
  | |- fsafe (fbind (require _ _) _) => apply fsafe_require; intros ?
  | |- fsafe (fbind _ _) => apply fsafe_bind; [|intros ? ?]
  | |- fsafe (if ?x =? 3 then _ else _) => destruct (x =? 3)
  end.
  unfold matchSha1withSha256. by repeat case_match.
Qed.

Lemma aes_safe input key iv m c : fsafe (encryptDecryptWithAES input key iv m c).
Proof. unfold encryptDecryptWithAES. destruct c; fps_safe. Qed.

Lemma ecb_Ok input key iv r :
  encryptDecryptWithAES input key iv aesEncrypt aesECB = Done (Ok r) -> len r = 16.
Proof. unfold encryptDecryptWithAES. intros H. fps_inv. subst. by apply ecb_encrypt_len. Qed.

Lemma cbc_decrypt_Ok input key iv r :
  encryptDecryptWithAES input key iv aesDecrypt aesCBC = Done (Ok r) -> len r = len input.
Proof. unfold encryptDecryptWithAES. intros H. fps_inv. subst. by apply cbc_decrypt_len. Qed.

Lemma rsa_safe c : fsafe (decryptKeyRSACustom certs c).
Proof.
  unfold decryptKeyRSACustom, getPrivateKey, cert_info, decrypted_key. fps_safe; repeat case_match; fps_safe.
Qed.

Lemma integrity_safe spc d c key : in_buffer spc d c -> fsafe (verifySPCIntegrity c spc key).
Proof.
  intros (? & ? & ? & _). unfold verifySPCIntegrity. apply fsafe_bind; [apply aes_safe|].
  intros k Hk%ecb_Ok. uadd_arith. apply fsafe_bind; [|intros e He].
  - unfold fsafe, fdo. by rewrite zslice_in_range by lia.
  - apply fsafe_bind; [apply readBytes_safe; fps_lia|]. intros tag [? ->]%readBytes_Ok; [|fps_lia].
    rewrite Hk, len_take_drop by fps_lia. cbn. fps_safe.
Qed.

(** The integrity tag behind the data of a version 3 request. *)
Definition integrity_holds (spc key : bytes) (c : FPSServerSPCContainer) : Prop :=
  let behind := spcDataOffset c + spcDataSize c in
  cmac (aes_ecb_encrypt key V3_PROTOCOL_INTEGRITY_KEY_SEED)
    (integrity_buffer c (take (Z.to_nat (spcDataSize c)) (drop (Z.to_nat (spcDataOffset c)) spc)))
  = take 16 (drop (Z.to_nat behind) spc) /\ behind + 16 <= len spc.

Lemma integrity_Ok spc d c key u :
  in_buffer spc d c -> verifySPCIntegrity c spc key = Done (Ok u) -> integrity_holds spc key c.
Proof.
  intros (H0 & H1 & H2 & _) H. unfold verifySPCIntegrity in H. apply fbind_Ok in H as (k & Hk & H).
  unfold encryptDecryptWithAES in Hk. fps_inv. subst k. uadd_arith.
  match goal with H : (if ?b then _ else _) = _ |- _ => destruct b; [done|] end. fps_inv.
  match goal with H : zslice _ _ _ = _ |- _ => apply zslice_Done in H as (_ & _ & ->) end.
  match goal with H : readBytes _ _ _ = _ |- _ => apply readBytes_Ok in H as [? ->]; [|fps_lia] end.
  rewrite Z.add_simpl_l in *. split; [done|fps_lia].
Qed.

(** The keys of the data: for version 3 they are derived and the integrity tag is checked. *)
Lemma data_key_safe spc d c key :
  in_buffer spc d c ->
  fsafe (if spcVersion c =? 3 then
       let~ (c, k) := getEncryptionKeyAndIV c key in
       let~ _ := verifySPCIntegrity c spc key in
       fret (c, k)
     else fret (c, key)).
Proof.
  intros Hc. destruct (spcVersion c =? 3); [|apply fsafe_ret]. unfold getEncryptionKeyAndIV.
  apply fsafe_bind.
  - apply fsafe_bind; [apply aes_safe|]. intros ? _.
    apply fsafe_bind; [apply aes_safe|]. intros ? _. apply fsafe_ret.
  - intros [c1 k] Hk. apply fsafe_bind; [|intros; apply fsafe_ret]. apply (integrity_safe _ d).
    fps_inv. simplify_eq. exact Hc.
Qed.

Lemma data_key_Ok spc d c key c' k :
  in_buffer spc d c ->
  (if spcVersion c =? 3 then
       let~ (c, k) := getEncryptionKeyAndIV c key in
       let~ _ := verifySPCIntegrity c spc key in
       fret (c, k)
     else fret (c, key)) = Done (Ok (c', k)) ->
  (exists iv, c' = c <| spcAesKeyIV := iv |>) /\ (spcVersion c = 3 -> integrity_holds spc key c).
Proof.
  intros Hc H. destruct (Z.eqb_spec (spcVersion c) 3).
  - unfold getEncryptionKeyAndIV in H. fps_inv. destruct x as [c1 k1]. fps_inv. simplify_eq.
    split; [eauto|]. intros _. match goal with H : verifySPCIntegrity _ _ _ = _ |- _ =>
      by apply (integrity_Ok spc d) in H end.
  - fps_inv. simplify_eq. split; [|done]. exists (spcAesKeyIV c'). by destruct c'.
Qed.

Lemma decrypt_safe spc d c : in_buffer spc d c -> fsafe (decryptSPCData certs spc c).
Proof.
  intros Hc. pose proof Hc as (? & ? & ? & _). unfold decryptSPCData. apply fsafe_require. intros _.
  apply fsafe_bind; [apply rsa_safe|]. intros key _. apply fsafe_bind; [by apply (data_key_safe _ d)|].
  intros [c1 k] [[iv ->] _]%(data_key_Ok _ d); [|done].
  apply fsafe_bind; [|intros ? _; apply fsafe_bind; [apply aes_safe|intros; apply fsafe_ret]].
  unfold fsafe, fdo. by rewrite zslice_in_range by (cbn; lia).
Qed.

Lemma decrypt_Ok spc d c c' :
  in_buffer spc d c -> decryptSPCData certs spc c = Done (Ok c') ->
  exists key iv data, c' = (c <| spcAesKeyIV := iv |> <| spcDecryptedData := data |>) /\
    len data = len spc - spcDataOffset c /\
    decryptKeyRSACustom certs c = Done (Ok key) /\
    (spcVersion c = 3 -> integrity_holds spc (take 16 key) c).
Proof.
  intros Hc H. pose proof Hc as (Hc1 & Hc2 & Hc3 & _). unfold decryptSPCData in H.
  apply require_bind in H as [_ H]. apply fbind_Ok in H as (key & Hkey & H).
  apply fbind_Ok in H as ([c1 k] & Hk & H). apply (data_key_Ok _ d) in Hk as [[iv ->] Hi]; [|done].
  fps_inv. subst c'. match goal with H : encryptDecryptWithAES _ _ _ _ _ = _ |- _ => apply cbc_decrypt_Ok in H as Hl end.
  match goal with H : zslice _ _ _ = _ |- _ => apply zslice_Done in H as (_ & _ & ->) end. cbn in Hl.
  rewrite len_take_drop in Hl by lia. exists key. do 2 eexists.
  split_and!; [done|exact Hl|exact Hkey|exact Hi].
Qed.
End Safety.
