(* ===== verification/FpsRequest.v ===== *)
(** * What an accepted license request guarantees

    The TLLVs of a request and the fields of its data, the TLLVs returned to the client, and
    the absence of panics, on top of the parsing of the format. *)
From coqutil Require Import Datatypes.RecordSettersUsingExistingGetters.
From S2P Require Import Prelude RustStr FpsTypes FpsSpc FpsSpcProps.
From stdpp Require Import list gmap strings.

#[local] Open Scope string_scope.
#[local] Open Scope list_scope.
#[local] Open Scope Z_scope.
#[local] Open Scope rust_scope.

(** Computes the updates of records. *)
Ltac record_simpl :=
  unfold RecordSettersUsingExistingGetters.tset, RecordSettersUsingExistingGetters.set;
  cbn; unfold RecordSettersUsingExistingGetters.const.

(** ** The list of TLLVs *)

Lemma parse_list_tags ts d d' :
  parse_list ts d = Done (Ok d') ->
  parsedTagValues (spcDataParser d') = parsedTagValues (spcDataParser d) ++ (tag <$> ts) /\
  TLLVs (spcDataParser d') = TLLVs (spcDataParser d) ++ ts /\
  returnTLLVs d' = returnTLLVs d /\
  (forall t, t ∈ ts -> ~ (tag t ∈ parsedTagValues (spcDataParser d))) /\ NoDup (tag <$> ts).
Proof.
  revert d. induction ts as [|t ts IH]; intros d H; cbn [parse_list] in H.
  - fps_inv. subst. rewrite !app_nil_r. split_and!; try done; [set_solver|constructor].
  - apply fbind_Ok in H as (d1 & Hd1 & H). apply parseTLLV_frame in Hd1 as (Hn & Hp & Hr).
    apply IH in H as (-> & -> & -> & Hts & Hnd). unfold push_tllv in *. cbn in Hts |- *.
    rewrite Hp in Hts |- *. cbn in Hts |- *. rewrite <- !app_assoc. split_and!; try done.
    + intros x [-> | Hx]%elem_of_cons; [done|]. specialize (Hts x Hx). set_solver.
    + constructor; [|done]. intros (x & Hx & Hin)%list_elem_of_fmap. specialize (Hts x Hin). set_solver.
Qed.

(** ** Layout

    Numbers, big-endian, and bytes at an offset. *)

Definition bytes_at (i n : nat) (b : bytes) : bytes := take n (drop i b).
Definition u32_at (i : nat) (b : bytes) : Z := be_to_Z (bytes_at i 4 b).
Definition u64_at (i : nat) (b : bytes) : Z := be_to_Z (bytes_at i 8 b).

Lemma u32_read l i z : 0 <= i < 2 ^ 32 -> readBigEndianU32 l i = Done (Ok z) -> z = u32_at (Z.to_nat i) l.
Proof. intros ? H. unfold readBigEndianU32 in H. apply readBigEndian_Ok in H as [_ ->]; [done|lia..]. Qed.
Lemma u64_read l i z : 0 <= i < 2 ^ 32 -> readBigEndianU64 l i = Done (Ok z) -> z = u64_at (Z.to_nat i) l.
Proof. intros ? H. unfold readBigEndianU64 in H. apply readBigEndian_Ok in H as [_ ->]; [done|lia..]. Qed.
Lemma bytes_read l i n b :
  0 <= i < 2 ^ 32 -> 0 <= n < 2 ^ 32 -> readBytes l i n = Done (Ok b) ->
  b = bytes_at (Z.to_nat i) (Z.to_nat n) l.
Proof. intros ? ? H. apply readBytes_Ok in H as [_ ->]; [done|lia..]. Qed.

(** The layout of the values of TLLVs. *)
Definition play_of (v : bytes) : FPSServerMediaPlaybackState :=
  {| date := u32_at 0 v; playbackState := u32_at 4 v; playbackId := u64_at 8 v |}.

Definition identity_of (v : bytes) : FPSDeviceIdentity :=
  {| isDeviceIdentitySet := true; fpdiVersion := u32_at 0 v; deviceClass := u32_at 4 v;
     vendorHash := bytes_at 8 8 v; productHash := bytes_at 16 8 v; fpVersionREE := u32_at 24 v;
     fpVersionTEE := u32_at 28 v; identityOsVersion := u32_at 32 v |}.

Definition info_of (v : bytes) : FPSDeviceInfo :=
  {| isDeviceInfoSet := true; deviceType := u64_at 0 v; infoOsVersion := u32_at 8 v |}.

(** The records of an expired rental: version 1 has the time left only. *)
Definition sync_of (v : bytes) : FPSOfflineSyncData :=
  if u32_at 0 v =? 1 then
    {| syncVersion := 1; syncServerChallenge := 0; syncFlags := 0; syncTitleId := [];
       durationToRentalExpiry := u32_at 24 v; recordsDeleted := 0; deletedStreamIDs := [] |}
  else if u32_at 0 v =? 2 then
    {| syncVersion := 2; syncServerChallenge := u64_at 8 v; syncFlags := u64_at 16 v;
       syncTitleId := bytes_at 24 16 v; durationToRentalExpiry := u32_at 40 v;
       recordsDeleted := u32_at 44 v; deletedStreamIDs := bytes_at 48 (Z.to_nat (u32_at 44 v * 16)) v |}
  else
    {| syncVersion := u32_at 0 v; syncServerChallenge := 0; syncFlags := 0; syncTitleId := [];
       durationToRentalExpiry := 0; recordsDeleted := 0; deletedStreamIDs := [] |}.

Definition vm_of (v : bytes) : option VMDeviceInfo :=
  if u32_at 0 v =? 1 then
    Some {| hostDeviceClass := device_class_from (u32_at 4 v); hostOSVersion := u32_at 8 v;
            hostVMProtocolVersion := u32_at 12 v;
            guestDeviceClass := device_class_from (u32_at 16 v); guestOSVersion := u32_at 20 v;
            guestVMProtocolVersion := u32_at 24 v |}
  else None.

(** A security level report that is not encrypted, of version 1. *)
Definition plain_report (v : bytes) : bool := negb (len v =? 32) && (u32_at 0 v =? 1).

Definition u32s_of (v : bytes) : list Z := (fun k => u32_at (4 * k) v) <$> seq 0 (length v / 4).
#[local] Arguments u32s_of : simpl never.

(** The formats listed, at the start of the table of 64. *)
Definition formats_of (old : list Z) (v : bytes) : list Z :=
  let n := Z.to_nat (u32_at 8 v) in ((fun k => u64_at (12 + 8 * k) v) <$> seq 0 n) ++ drop n old.

(** ** Fields *)

(** A field that only the parser of one tag changes, as [f] says. *)
Definition sets {A} (g : Z) (F : FPSServerSPCData -> A) (f : A -> bytes -> A) : Prop :=
  (forall t d d', tag_parser (tag t) t d = Done (Ok d') ->
     F d' = if tag t =? g then f (F d) (value t) else F d) /\
  (forall p d, F (d <| spcDataParser ::= p |>) = F d).

(** A field that is the value of a TLLV. *)
Definition owned (g : Z) (F : FPSServerSPCData -> bytes) : Prop := sets g F (fun _ v => v).

Lemma readBytes_all l n b : readBytes l 0 n = Done (Ok b) -> len l = n -> n < 2 ^ 64 -> b = l.
Proof.
  intros H Hn ?. pose proof (len_nonneg l). apply readBytes_Ok in H as [_ ->]; [|lia].
  rewrite take_ge; [done|]. rewrite length_drop. unfold len in *. lia.
Qed.

Ltac sets_cases :=
  split; [|done]; intros t d d' H; tag_cases H; subst; cbn;
  unfold RecordSettersUsingExistingGetters.const;
  repeat match goal with
  | H : tag ?t = _ |- _ => rewrite H; clear H
  | H : tag ?t <> ?g |- context [tag ?t =? ?g] => rewrite (proj2 (Z.eqb_neq _ _) H)
  end; try done.

Ltac owned_tac :=
  sets_cases;
  repeat match goal with H : readBytes _ 0 _ = _ |- _ => apply readBytes_all in H; [|fps_lia..] end;
  subst; try done.

(** Replaces what was read by what is at the offset. *)
Ltac layout :=
  repeat match goal with
  | H : readBigEndianU32 _ _ = _ |- _ => apply u32_read in H; [|fps_lia]
  | H : readBigEndianU64 _ _ = _ |- _ => apply u64_read in H; [|fps_lia]
  | H : readBytes _ _ _ = _ |- _ => apply bytes_read in H; [|fps_lia..]
  end; subst.

Lemma owned_antiReplay : owned antiReplayTag antiReplay.
Proof. owned_tac. Qed.
Lemma owned_r2 : owned r2Tag r2.
Proof. owned_tac. Qed.
Lemma owned_skR1 : owned sessionKeyR1Tag skR1.
Proof. owned_tac. Qed.
Lemma owned_integrity : owned sessionKeyR1IntegrityTag skR1IntegrityTag.
Proof. owned_tac. Qed.
Lemma owned_request : owned returnRequestTag (fun d => value (returnRequest d)).
Proof. owned_tac. Qed.
Lemma owned_sk_r1_v3 : owned sessionKeyR1V3Tag sk_r1_v3.
Proof. owned_tac. Qed.
Lemma owned_r2_v3 : owned R2V3Tag r2_v3.
Proof. owned_tac. Qed.
Lemma owned_capabilities : owned capabilitiesTag clientCapabilities.
Proof. owned_tac. Qed.

Lemma sets_play : sets mediaPlaybackStateTag (fun d => playInfo (spcAssetInfo d)) (fun _ => play_of).
Proof. sets_cases. layout. done. Qed.
Lemma sets_transaction : sets transactionIDTag transactionId (fun _ => u64_at 0).
Proof. sets_cases. layout. done. Qed.
Lemma sets_version : sets protocolVersionUsedTag versionUsed (fun _ => u32_at 0).
Proof. sets_cases. layout. done. Qed.
Lemma sets_streaming : sets streamingIndicatorTag streamingIndicator (fun _ => u64_at 0).
Proof. sets_cases. layout. done. Qed.
Lemma sets_info : sets deviceInfoTag deviceInfo (fun _ => info_of).
Proof. sets_cases. layout. done. Qed.
Lemma sets_identity : sets deviceIdentityTag deviceIdentity (fun _ => identity_of).
Proof. sets_cases. layout. done. Qed.

Lemma u32_nonneg i v : 0 <= u32_at i v.
Proof. apply be_to_Z_range. Qed.

Lemma sync_read t d d' : parseTagOfflineSync t d = Done (Ok d') -> offlineSyncData d' = sync_of (value t).
Proof.
  unfold parseTagOfflineSync, sync_of. intros H. fps_inv. subst d'. record_simpl. layout.
  change (Z.to_nat 0) with 0%nat in *. change (Z.to_nat 4) with 4%nat in *.
  destruct (Z.eqb_spec (u32_at 0 (value t)) 1) as [E|_]; [fps_inv; layout; record_simpl; by rewrite E|].
  destruct (Z.eqb_spec (u32_at 0 (value t)) 2) as [E|_]; [|fps_inv; by subst].
  fps_inv. layout. change (Z.to_nat 44) with 44%nat in *. pose proof (u32_nonneg 44 (value t)).
  match goal with H : (if ?b then _ else _) = _ |- _ => destruct b eqn:Hr end; fps_inv.
  - layout. record_simpl. by rewrite E.
  - subst. rewrite E. f_equal. by replace (u32_at 44 (value t)) with 0 by lia.
Qed.

Lemma sets_sync : sets offlineSyncTag offlineSyncData (fun _ => sync_of).
Proof.
  split; [|done]. intros t d d' H. destruct (Z.eqb_spec (tag t) offlineSyncTag) as [E|Hn].
  - unfold tag_parser in H. rewrite E in H. by apply sync_read in H.
  - tag_cases H; subst; done.
Qed.

Lemma sets_vm : sets vmDeviceInfoTag vmDeviceInfo (fun _ => vm_of).
Proof.
  sets_cases; unfold vm_of; layout; change (Z.to_nat 0) with 0%nat in *;
    destruct (Z.eqb_spec (u32_at 0 (value t)) 1); (done || lia).
Qed.

Lemma sets_level :
  sets securityLevelReportTag supportedSecurityLevel
    (fun old v => if plain_report v then Some (u64_at 8 v) else old).
Proof.
  sets_cases; unfold plain_report; layout; change (Z.to_nat 0) with 0%nat in *;
    unfold FPS_ENCRYPTED_SECURITY_LEVEL_REPORT_TLLV_SIZE in *;
    destruct (Z.eqb_spec (len (value t)) 32), (Z.eqb_spec (u32_at 0 (value t)) 1); (done || lia).
Qed.

Lemma versions_read fuel v q k vs r :
  (length v = q * 4)%nat -> (k <= q)%nat -> Z.of_nat k < 2 ^ 20 -> (k <= length vs)%nat ->
  read_versions fuel v (4 * Z.of_nat k) vs = Done (Ok r) ->
  r = vs ++ ((fun j => u32_at (4 * j) v) <$> seq k (q - k)).
Proof.
  intros Hq. revert k vs. induction fuel as [|fuel IH]; intros k vs Hk Hb Hl H; cbn [read_versions] in H;
    (destruct (Z.ltb_spec (4 * Z.of_nat k) (len v)) as [Hlt|Hge]; unfold len in *;
      [|fps_inv; subst; replace (q - k)%nat with 0%nat by lia; by rewrite app_nil_r]); [done|].
  fps_inv. layout. rewrite uadd_small in H by lia.
  replace (4 * Z.of_nat k + 4) with (4 * Z.of_nat (S k)) in H by lia.
  rewrite length_app in *. cbn [length] in *. unfold FPS_MAX_NUM_CRYPTO_VERSIONS in *.
  apply IH in H as ->; [|lia|lia|rewrite length_app; cbn [length]; lia].
  assert (q - k = S (q - S k))%nat as -> by lia.
  rewrite <- app_assoc. cbn. do 3 f_equal. lia.
Qed.

Lemma sets_versions : sets protocolVersionsSupportedTag versionsSupported (fun old v => old ++ u32s_of v).
Proof.
  sets_cases. unfold u32s_of.
  assert (exists q, length (value t) = q * 4)%nat as [q Hq].
  { match goal with H : len _ mod 4 = 0 |- _ => apply Z.mod_divide in H as [z Hz]; [|done] end.
    exists (Z.to_nat z). unfold len in Hz. lia. }
  match goal with H : read_versions _ _ _ _ = _ |- _ =>
    apply (versions_read _ _ q 0) in H as ->; [|lia..] end.
  by rewrite Hq, Nat.div_mul, Nat.sub_0_r.
Qed.

Lemma formats_read n v i formats r :
  Z.of_nat (i + n) < 2 ^ 20 -> (i <= length formats)%nat ->
  read_formats n v i (12 + 8 * Z.of_nat i) formats = Done (Ok r) ->
  r = take i formats ++ ((fun k => u64_at (12 + 8 * k) v) <$> seq i n) ++ drop (i + n) formats.
Proof.
  revert i formats. induction n as [|n IH]; intros i formats Hn Hi H; cbn [read_formats] in H.
  - fps_inv. subst. cbn. by rewrite Nat.add_0_r, take_drop.
  - fps_inv. layout. destruct (Nat.ltb_spec i (length formats)) as [Hl|]; [|done].
    rewrite uadd_small in H by lia.
    replace (12 + 8 * Z.of_nat i + 8) with (12 + 8 * Z.of_nat (S i)) in H by lia.
    apply IH in H as ->; [|lia|rewrite length_insert; lia].
    replace (Z.to_nat (12 + 8 * Z.of_nat i)) with (12 + 8 * i)%nat by lia.
    rewrite (take_S_r _ i (u64_at (12 + 8 * i) v)) by (by apply list_lookup_insert_eq).
    rewrite take_insert_ge by lia. rewrite drop_insert_lt by lia.
    cbn [seq fmap list_fmap]. rewrite <- !app_assoc. cbn. by rewrite Nat.add_succ_r.
Qed.

Lemma sets_formats :
  sets supportedKeyFormatTag supportedKeyFormats
    (fun old v => if u32_at 0 v =? 1 then formats_of old v else old).
Proof.
  sets_cases; layout; change (Z.to_nat 0) with 0%nat in *; change (Z.to_nat 8) with 8%nat in *;
    destruct (Z.eqb_spec (u32_at 0 (value t)) 1); try (done || lia).
  unfold formats_of, FPS_MAX_KEY_FORMATS in *. pose proof (u32_nonneg 8 (value t)).
  match goal with H : read_formats _ _ _ _ _ = _ |- _ =>
    apply (formats_read _ _ 0) in H as ->; [done|lia..] end.
Qed.

Lemma sets_format_count :
  sets supportedKeyFormatTag numberOfSupportedKeyFormats
    (fun old v => if u32_at 0 v =? 1 then u32_at 8 v else old).
Proof.
  sets_cases; layout; change (Z.to_nat 0) with 0%nat in *;
    destruct (Z.eqb_spec (u32_at 0 (value t)) 1); (done || lia).
Qed.

(** The version of the deny list is in its own report and, if that has none, in the security
    level report. *)
Definition kdl_step (k : Z) (t : FPSServerTLLV) : Z :=
  if tag t =? kdlVersionReportTag then u32_at 0 (value t)
  else if (tag t =? securityLevelReportTag) && plain_report (value t) && (k =? 0)
  then u32_at 16 (value t) else k.

Lemma kdl_parsed t d d' :
  tag_parser (tag t) t d = Done (Ok d') ->
  clientKextDenyListVersion d' = kdl_step (clientKextDenyListVersion d) t.
Proof.
  intros H. unfold kdl_step, plain_report. tag_cases H; subst; cbn;
  unfold RecordSettersUsingExistingGetters.const;
  repeat match goal with
  | H : tag ?t = _ |- _ => rewrite H; clear H
  | H : tag ?t <> ?g |- context [tag ?t =? ?g] => rewrite (proj2 (Z.eqb_neq _ _) H)
  end; try done; layout; change (Z.to_nat 0) with 0%nat in *; change (Z.to_nat 16) with 16%nat in *;
    unfold FPS_ENCRYPTED_SECURITY_LEVEL_REPORT_TLLV_SIZE in *; cbn in *;
    destruct (Z.eqb_spec (len (value t)) 32), (Z.eqb_spec (u32_at 0 (value t)) 1); cbn; try (done || lia);
    match goal with |- context [clientKextDenyListVersion ?d =? 0] =>
      destruct (Z.eqb_spec (clientKextDenyListVersion d) 0); (done || lia) end.
Qed.

(** The longest prefix that is text. *)
Definition longest_text (v : bytes) (s : string) : Prop :=
  as_bytes s `prefix_of` v /\ utf8_valid (as_bytes s) = true /\
  forall p, p `prefix_of` v -> utf8_valid p = true -> (length p <= length (as_bytes s))%nat.

Lemma valid_prefix_spec n l :
  exists k, (k <= n)%nat /\ valid_prefix n l = take k l /\ utf8_valid (take k l) = true /\
    forall j, (j <= n)%nat -> utf8_valid (take j l) = true -> (j <= k)%nat.
Proof.
  induction n as [|n IH]; cbn [valid_prefix].
  - exists 0%nat. split_and!; [done..|]. intros. lia.
  - destruct (utf8_valid (take (S n) l)) eqn:E; [exists (S n); by split_and!|].
    destruct IH as (k & ? & ? & ? & Hk). exists k. split_and!; [lia|done..|]. intros j Hj Hv.
    destruct (decide (j = S n)) as [->|]; [congruence|]. apply Hk; [lia|done].
Qed.

Lemma asset_text_longest v :
  longest_text v match from_utf8 v with
                 | Some r => r
                 | None => default "" (from_utf8 (valid_prefix (length v) v))
                 end.
Proof.
  destruct (from_utf8 v) as [r|] eqn:E.
  - pose proof (from_utf8_as_bytes _ _ E) as Er. unfold longest_text. rewrite Er. split_and!; [done| |].
    + unfold from_utf8 in E. by destruct (utf8_valid v).
    + intros p Hp _. by apply prefix_length.
  - destruct (valid_prefix_spec (length v) v) as (k & Hk & -> & Hv & Hmax).
    unfold from_utf8 at 1. rewrite Hv. cbn.
    unfold longest_text, as_bytes. rewrite list_byte_of_string_of_list_byte. split_and!; [|done|].
    + exists (drop k v). by rewrite take_drop.
    + intros p [q ->] Hp. rewrite length_take. rewrite length_app in *.
      specialize (Hmax (length p)). rewrite take_app_length in Hmax. specialize (Hmax ltac:(lia) Hp). lia.
Qed.

Lemma asset_parsed t d d' :
  tag_parser (tag t) t d = Done (Ok d') ->
  (tag t = assetIDTag -> longest_text (value t) (spcAssetId (spcAssetInfo d'))) /\
  (tag t <> assetIDTag -> spcAssetId (spcAssetInfo d') = spcAssetId (spcAssetInfo d)).
Proof.
  intros H. tag_cases H; subst; (split; [|done]); intros Ht; try done; try congruence.
  cbn. unfold RecordSettersUsingExistingGetters.const. apply asset_text_longest.
Qed.

Lemma find_tllv_cons g t ts :
  find_tllv g (t :: ts) = if g =? tag t then Some t else find_tllv g ts.
Proof.
  unfold find_tllv. cbn. destruct (Z.eqb_spec g (tag t)); [by rewrite decide_True|].
  rewrite decide_False by done. by destruct (list_find _ ts) as [[]|].
Qed.

Lemma find_tllv_Some g ts t : find_tllv g ts = Some t -> t ∈ ts /\ tag t = g.
Proof.
  induction ts as [|x ts IH]; [done|]. rewrite find_tllv_cons.
  destruct (Z.eqb_spec g (tag x)) as [->|]; [|intros [? ?]%IH; split; [by right|done]].
  intros [= ->]. split; [by left|done].
Qed.

Lemma find_tllv_None g ts : find_tllv g ts = None -> ~ (g ∈ tag <$> ts).
Proof.
  induction ts as [|x ts IH]; [set_solver|]. rewrite find_tllv_cons. cbn.
  destruct (Z.eqb_spec g (tag x)); [done|]. intros ?%IH. set_solver.
Qed.

Lemma find_tllv_is_Some g ts : g ∈ tag <$> ts -> exists t, find_tllv g ts = Some t.
Proof. intros H. destruct (find_tllv g ts) eqn:E; [eauto|]. by apply find_tllv_None in E. Qed.

Lemma sets_list {A} g (F : FPSServerSPCData -> A) f ts d d' :
  sets g F f -> parse_list ts d = Done (Ok d') ->
  F d' = match find_tllv g ts with Some t => f (F d) (value t) | None => F d end.
Proof.
  intros [HF Hpush]. revert d. induction ts as [|t ts IH]; intros d H.
  - cbn in *. fps_inv. by subst.
  - pose proof H as (_ & _ & _ & _ & Hnd)%parse_list_tags. cbn in Hnd. inversion_clear Hnd as [|? ? Hn _].
    cbn [parse_list] in H. apply fbind_Ok in H as (d1 & Hd1 & H). apply IH in H. rewrite H, find_tllv_cons.
    unfold parseTLLV in Hd1. apply require_bind in Hd1 as [_ Hd1]. apply HF in Hd1.
    unfold push_tllv. rewrite Hpush, Hd1, Hpush. rewrite Z.eqb_sym. destruct (Z.eqb_spec g (tag t)) as [->|]; [|done].
    destruct (find_tllv (tag t) ts) as [x|] eqn:E; [|done].
    apply find_tllv_Some in E as [? Hx]. exfalso. apply Hn. rewrite <- Hx. by apply list_elem_of_fmap_2.
Qed.

Lemma kdl_list ts d d' :
  parse_list ts d = Done (Ok d') ->
  clientKextDenyListVersion d' = foldl kdl_step (clientKextDenyListVersion d) ts.
Proof.
  revert d. induction ts as [|t ts IH]; intros d H; cbn [parse_list] in H; [fps_inv; by subst|].
  apply fbind_Ok in H as (d1 & Hd1 & ->%IH). unfold parseTLLV in Hd1.
  apply require_bind in Hd1 as [_ Hd1%kdl_parsed]. cbn. by rewrite Hd1.
Qed.

Lemma asset_list ts d d' :
  parse_list ts d = Done (Ok d') ->
  (exists t, t ∈ ts /\ tag t = assetIDTag /\ longest_text (value t) (spcAssetId (spcAssetInfo d'))) \/
  (~ (assetIDTag ∈ tag <$> ts) /\ spcAssetId (spcAssetInfo d') = spcAssetId (spcAssetInfo d)).
Proof.
  revert d. induction ts as [|t ts IH]; intros d H; cbn [parse_list] in H.
  { fps_inv. subst. right. split; [set_solver|done]. }
  apply fbind_Ok in H as (d1 & Hd1 & H). apply IH in H as [(x & ? & ?)|[Hn H]].
  { left. exists x. split; [by right|done]. }
  unfold parseTLLV in Hd1. apply require_bind in Hd1 as [_ [Ha Ho]%asset_parsed]. cbn in H.
  rewrite H. destruct (decide (tag t = assetIDTag)) as [E|E].
  - left. exists t. split; [by left|]. auto.
  - right. split; [cbn; set_solver|by apply Ho].
Qed.

Lemma wire_value_size ts w t : tllvs_wire ts w -> t ∈ ts -> len (value t) < 2 ^ 32.
Proof.
  induction 1 as [|x p ts w [_ Hx] _ IH]; [set_solver|]. pose proof (len_nonneg p).
  intros [-> | ?]%elem_of_cons; [lia|auto].
Qed.

(** ** The TLLVs returned to the client *)

(** The tags a return request names. *)
Definition requested (request : bytes) (g : Z) : Prop :=
  exists k : nat, 8 * Z.of_nat k < len request /\
    readBigEndianU64 request (8 * Z.of_nat k) = Done (Ok g).

(** What is returned for the part of a request read so far. *)
Definition answers (request : bytes) (upto : nat) (received returned : list FPSServerTLLV) : Prop :=
  NoDup (tag <$> returned) /\
  (forall t, t ∈ returned -> t ∈ received /\ exists k, (k < upto)%nat /\
     readBigEndianU64 request (8 * Z.of_nat k) = Done (Ok (tag t))) /\
  (forall k, (k < upto)%nat -> exists g,
     readBigEndianU64 request (8 * Z.of_nat k) = Done (Ok g) /\ g ∈ tag <$> returned).

Lemma answers_known request k received returned g :
  answers request k received returned ->
  readBigEndianU64 request (8 * Z.of_nat k) = Done (Ok g) -> g ∈ tag <$> returned ->
  answers request (S k) received returned.
Proof.
  intros (Hnd & Hin & Hall) Hg Hr. split_and!; [done| |].
  - intros t Ht. destruct (Hin t Ht) as (? & j & ? & ?).
    split; [done|]. exists j. split; [lia|done].
  - intros j Hj. destruct (decide (j = k)) as [->|]; [by exists g|]. apply Hall. lia.
Qed.

Lemma answers_new request k received returned x :
  answers request k received returned ->
  readBigEndianU64 request (8 * Z.of_nat k) = Done (Ok (tag x)) -> x ∈ received ->
  ~ (tag x ∈ tag <$> returned) ->
  answers request (S k) received (returned ++ [x]).
Proof.
  intros (Hnd & Hin & Hall) Hg Hx Hn. split_and!.
  - rewrite fmap_app. apply NoDup_app. split_and!; [done| |apply NoDup_singleton].
    intros g Hg1 ->%list_elem_of_singleton. done.
  - intros t [Ht| ->%list_elem_of_singleton]%elem_of_app;
      [|split; [done|]; exists k; split; [lia|done]].
    destruct (Hin t Ht) as (? & j & ? & ?).
    split; [done|]. exists j. split; [lia|done].
  - intros j Hj. rewrite fmap_app. destruct (decide (j = k)) as [->|].
    + exists (tag x). split; [done|]. set_solver.
    + destruct (Hall j) as (g & ? & ?); [lia|]. exists g. set_solver.
Qed.

Lemma return_tags_answers fuel request k received returned r :
  len request < 2 ^ 32 -> len request mod 8 = 0 -> 8 * Z.of_nat k <= len request ->
  answers request k received returned ->
  return_tags fuel request (8 * Z.of_nat k) received returned = Done (Ok r) ->
  answers request (Z.to_nat (len request / 8)) received r.
Proof.
  revert k returned. induction fuel as [|fuel IH]; intros k returned Hl Hm Hk Ha H; cbn [return_tags] in H;
    (destruct (Z.ltb_spec (8 * Z.of_nat k) (len request)) as [Hlt|Hge];
      [|fps_inv; subst; replace (Z.to_nat (len request / 8)) with k; [done|];
        pose proof (Z.div_mod (len request) 8 ltac:(lia)); lia]); [done|].
  apply fbind_Ok in H as (g & Hg & H). uadd_arith.
  replace (8 * Z.of_nat k + 8) with (8 * Z.of_nat (S k)) in H by lia.
  assert (8 * Z.of_nat (S k) <= len request)
    by (pose proof (Z.div_mod (len request) 8 ltac:(lia)); lia).
  destruct (find_tllv g returned) as [x|] eqn:Er.
  - apply find_tllv_Some in Er as [Hx <-]. apply IH in H; [done..|].
    eapply answers_known; [done..|]. by apply list_elem_of_fmap_2.
  - destruct (find_tllv g received) as [x|] eqn:Ec; [|done].
    apply find_tllv_Some in Ec as [Hx <-]. apply IH in H; [done..|].
    apply answers_new; [done..|]. by apply find_tllv_None.
Qed.

(** ** Parsing of the data *)

(** A request whose parsing has not begun, as [Default] makes it. *)
Definition untouched (d : FPSServerSPCData) : Prop :=
  formats_ok d /\ currentOffset (spcDataParser d) = 0 /\ parsedTagValues (spcDataParser d) = [] /\
  returnTLLVs d = [] /\ value (returnRequest d) = [] /\ len (antiReplay d) = 16.

(** The TLLV with tag [g] has the value [b]. *)
Definition has_value (ts : list FPSServerTLLV) (g : Z) (b : bytes) : Prop :=
  exists t, t ∈ ts /\ tag t = g /\ value t = b.

(** The TLLVs of a request and what the data of the container has of them. *)
Record accepted_data (ts : list FPSServerTLLV) (d : FPSServerSPCData) : Prop := {
  acc_received : TLLVs (spcDataParser d) = ts;
  acc_distinct : NoDup (tag <$> ts);
  acc_required : forall g, g ∈ requiredTags -> g ∈ tag <$> ts;
  acc_antiReplay : has_value ts antiReplayTag (antiReplay d);
  acc_seed : len (antiReplay d) = 16;
  acc_r2 : has_value ts r2Tag (r2 d);
  acc_skR1 : has_value ts sessionKeyR1Tag (skR1 d);
  acc_integrity : has_value ts sessionKeyR1IntegrityTag (skR1IntegrityTag d);
  acc_request : has_value ts returnRequestTag (value (returnRequest d));
  acc_returned : answers (value (returnRequest d)) (Z.to_nat (len (value (returnRequest d)) / 8)) ts
    (returnTLLVs d);
}.

(** What the TLLV with tag [g] makes of a field that is [a] without it. *)
Definition field {A} (ts : list FPSServerTLLV) (g : Z) (f : A -> bytes -> A) (a : A) : A :=
  match find_tllv g ts with Some t => f a (value t) | None => a end.

(** The other fields of an accepted request: the TLLVs at their layout, or the defaults. *)
Record read_fields (ts : list FPSServerTLLV) (d : FPSServerSPCData) : Prop := {
  rf_asset : exists t, t ∈ ts /\ tag t = assetIDTag /\ longest_text (value t) (spcAssetId (spcAssetInfo d));
  rf_play : playInfo (spcAssetInfo d) = field ts mediaPlaybackStateTag (fun _ => play_of) default_play_info;
  rf_transaction : transactionId d = field ts transactionIDTag (fun _ => u64_at 0) 0;
  rf_version : versionUsed d = field ts protocolVersionUsedTag (fun _ => u32_at 0) 0;
  rf_versions : versionsSupported d = field ts protocolVersionsSupportedTag (fun _ => u32s_of) [];
  rf_streaming : streamingIndicator d = field ts streamingIndicatorTag (fun _ => u64_at 0) 0;
  rf_info : deviceInfo d = field ts deviceInfoTag (fun _ => info_of) default_device_info;
  rf_identity : deviceIdentity d = field ts deviceIdentityTag (fun _ => identity_of) default_identity;
  rf_sync : offlineSyncData d = field ts offlineSyncTag (fun _ => sync_of) default_sync;
  rf_vm : vmDeviceInfo d = field ts vmDeviceInfoTag (fun _ => vm_of) None;
  rf_level : supportedSecurityLevel d = field ts securityLevelReportTag
    (fun old v => if plain_report v then Some (u64_at 8 v) else old) None;
  rf_kdl : clientKextDenyListVersion d = foldl kdl_step 0 ts;
  rf_format_count : numberOfSupportedKeyFormats d = field ts supportedKeyFormatTag
    (fun old v => if u32_at 0 v =? 1 then u32_at 8 v else old) 0;
  rf_formats : supportedKeyFormats d = field ts supportedKeyFormatTag
    (fun old v => if u32_at 0 v =? 1 then formats_of old v else old) (replicate 64 0);
  rf_video_key : sk_r1_v3 d = field ts sessionKeyR1V3Tag (fun _ v => v) [];
  rf_video_r2 : r2_v3 d = field ts R2V3Tag (fun _ v => v) [];
}.

(** The capabilities and what they say of the client. *)
Record read_capabilities (ts : list FPSServerTLLV) (d : FPSServerSPCData) : Prop := {
  rc_capabilities : clientCapabilities d = field ts capabilitiesTag (fun _ v => v) (replicate 16 x00);
  rc_features : let bits := u64_at 8 (clientCapabilities d) in
    clientFeatures d =
    {| supportsOfflineKeyTLLV := Z.testbit bits 3; supportsOfflineKeyTLLVV2 := Z.testbit bits 3;
       supportsSecurityLevelBaseline := Z.testbit bits 4; supportsSecurityLevelMain := Z.testbit bits 5;
       supportsHDCPTypeOne := Z.testbit bits 0; supportsDualExpiry := Z.testbit bits 1;
       supportsCheckIn := Z.testbit bits 2 |};
}.

Lemma fields_read ts d :
  parse_list ts (fresh_data default_spc_data) = Done (Ok d) -> assetIDTag ∈ tag <$> ts -> read_fields ts d.
Proof.
  intros H Ha. split.
  - apply asset_list in H as [?|[? _]]; done.
  - exact (sets_list _ _ _ _ _ _ sets_play H).
  - exact (sets_list _ _ _ _ _ _ sets_transaction H).
  - exact (sets_list _ _ _ _ _ _ sets_version H).
  - exact (sets_list _ _ _ _ _ _ sets_versions H).
  - exact (sets_list _ _ _ _ _ _ sets_streaming H).
  - exact (sets_list _ _ _ _ _ _ sets_info H).
  - exact (sets_list _ _ _ _ _ _ sets_identity H).
  - exact (sets_list _ _ _ _ _ _ sets_sync H).
  - exact (sets_list _ _ _ _ _ _ sets_vm H).
  - exact (sets_list _ _ _ _ _ _ sets_level H).
  - by apply kdl_list in H.
  - exact (sets_list _ _ _ _ _ _ sets_format_count H).
  - exact (sets_list _ _ _ _ _ _ sets_formats H).
  - exact (sets_list _ _ _ _ _ _ owned_sk_r1_v3 H).
  - exact (sets_list _ _ _ _ _ _ owned_r2_v3 H).
Qed.

Lemma owned_has_value g F ts d d' :
  owned g F -> parse_list ts d = Done (Ok d') -> g ∈ tag <$> ts -> has_value ts g (F d').
Proof.
  intros Ho H Hg. apply (sets_list g F (fun _ v => v)) in H as ->; [|done].
  apply find_tllv_is_Some in Hg as (t & E). rewrite E. apply find_tllv_Some in E as [? ?]. by exists t.
Qed.

Lemma tag_parser_request g t d d' :
  tag_parser g t d = Done (Ok d') -> len (value (returnRequest d)) mod 8 = 0 ->
  len (value (returnRequest d')) mod 8 = 0.
Proof. intros H Hd. tag_cases H; subst; done. Qed.

Lemma parse_list_request ts d d' :
  parse_list ts d = Done (Ok d') -> len (value (returnRequest d)) mod 8 = 0 ->
  len (value (returnRequest d')) mod 8 = 0.
Proof.
  revert d. induction ts as [|t ts IH]; intros d H Hd; cbn [parse_list] in H; [fps_inv; by subst|].
  apply fbind_Ok in H as (d1 & Hd1 & H). apply IH in H; [done|].
  unfold parseTLLV in Hd1. apply require_bind in Hd1 as [_ Hd1]. by apply tag_parser_request in Hd1.
Qed.

Lemma tag_parser_seed g t d d' :
  tag_parser g t d = Done (Ok d') -> len (antiReplay d) = 16 -> len (antiReplay d') = 16.
Proof.
  intros H Hd. tag_cases H; subst; try done.
  match goal with H : readBytes _ 0 _ = _ |- _ => apply readBytes_all in H; [|fps_lia..] end. by subst.
Qed.

Lemma parse_list_seed ts d d' :
  parse_list ts d = Done (Ok d') -> len (antiReplay d) = 16 -> len (antiReplay d') = 16.
Proof.
  revert d. induction ts as [|t ts IH]; intros d H Hd; cbn [parse_list] in H; [fps_inv; by subst|].
  apply fbind_Ok in H as (d1 & Hd1 & H). apply IH in H; [done|].
  unfold parseTLLV in Hd1. apply require_bind in Hd1 as [_ Hd1]. by apply tag_parser_seed in Hd1.
Qed.

Lemma parse_list_capabilities ts d d' t :
  parse_list ts d = Done (Ok d') -> t ∈ ts -> tag t = capabilitiesTag -> len (value t) = 16.
Proof.
  revert d. induction ts as [|x ts IH]; intros d H Hin Ht; cbn [parse_list] in H; [set_solver|].
  apply fbind_Ok in H as (d1 & Hd1 & H). apply elem_of_cons in Hin as [<-|Hin]; [|by eapply IH].
  unfold parseTLLV in Hd1. apply require_bind in Hd1 as [_ Hd1]. rewrite Ht in Hd1.
  unfold tag_parser, parseTagClientCapabilities in Hd1. cbn in Hd1. by apply require_bind in Hd1 as [?%Z.eqb_eq _].
Qed.

Lemma extract_Ok d d' :
  extractReturnTags d = Done (Ok d') ->
  len (value (returnRequest d)) < 2 ^ 32 -> len (value (returnRequest d)) mod 8 = 0 ->
  returnTLLVs d = [] ->
  exists r, d' = (d <| returnTLLVs := r |>) /\
    answers (value (returnRequest d)) (Z.to_nat (len (value (returnRequest d)) / 8))
      (TLLVs (spcDataParser d)) r.
Proof.
  unfold extractReturnTags. intros H Hl Hm Hr. fps_inv. subst d'. eexists. split; [done|].
  match goal with H : return_tags _ _ _ _ _ = _ |- _ => rewrite Hr in H;
    apply (return_tags_answers _ _ 0) in H; [exact H|done|done|apply len_nonneg|] end.
  split_and!; [apply NoDup_nil_2|set_solver|lia].
Qed.

Lemma request_small ts w d d' :
  tllvs_wire ts w -> parse_list ts d = Done (Ok d') -> len (value (returnRequest d)) < 2 ^ 32 ->
  len (value (returnRequest d')) < 2 ^ 32.
Proof.
  intros Hw H Hd. pose proof (sets_list _ _ _ _ _ _ owned_request H) as E. cbn beta in E. rewrite E.
  destruct (find_tllv returnRequestTag ts) as [t|] eqn:Ef; [|done].
  apply find_tllv_Some in Ef as [? _]. by eapply wire_value_size.
Qed.

Lemma parse_data_accepted c c' :
  decrypted c -> untouched (spcData c) -> parseSPCData c = Done (Ok c') ->
  exists ts d, tllvs_wire ts (data_bytes c) /\ accepted_data ts d /\ c' = (c <| spcData := d |>) /\
    (spcData c = default_spc_data -> read_fields ts d /\
       (forall t, t ∈ ts -> tag t = capabilitiesTag -> len (value t) = 16) /\
       clientCapabilities d = field ts capabilitiesTag (fun _ v => v) []).
Proof.
  intros Hd (_ & Ho & Hp & Hr & Hq & Hseed) H.
  pose proof H as (ts & Hts & H1)%parse_data_stream; [|done].
  unfold parse_data_list in H1. apply fbind_Ok in H1 as (d1 & Hd1 & H1).
  apply fbind_Ok in H1 as (d2 & Hd2 & H1). apply fbind_Ok in H1 as (u & Hv & H1). fps_inv.
  pose proof Hd1 as (Hpt & Htl & Hrt & _ & Hnd)%parse_list_tags. cbn in Hpt, Htl, Hrt.
  rewrite Hp in Hpt. rewrite Hr in Hrt. cbn in Hpt.
  pose proof Hd1 as Hmod%parse_list_request; [|cbn; by rewrite Hq].
  pose proof (request_small _ _ _ _ Hts Hd1 ltac:(cbn; by rewrite Hq)) as Hlen.
  pose proof Hd1 as Hs16%parse_list_seed; [|exact Hseed].
  apply extract_Ok in Hd2 as (r & -> & Ha); [|done..]. rewrite Htl in Ha.
  unfold validateTLLVs in Hv. apply fps_require_Ok in Hv. rewrite forallb_forall in Hv. cbn in Hv.
  assert (forall g, g ∈ requiredTags -> g ∈ tag <$> ts) as Hreq.
  { intros g Hg%list_elem_of_In. specialize (Hv g Hg). rewrite Hpt in Hv. by reflect_bools. }
  exists ts. eexists. split_and!; [done| |symmetry; exact H1|].
  2: { intros E. rewrite E in Hd1. split_and!.
       - pose proof (fields_read ts d1 Hd1 ltac:(by apply Hreq, (bool_decide_unpack _); vm_compute)) as [].
         by split.
       - intros t. by eapply parse_list_capabilities.
       - exact (sets_list _ _ _ _ _ _ owned_capabilities Hd1). }
  assert (forall g F, owned g F -> g ∈ requiredTags -> has_value ts g (F d1)) as HF
    by (intros; eapply owned_has_value; eauto).
  split; try done.
  - exact (HF _ _ owned_antiReplay ltac:(by apply (bool_decide_unpack _); vm_compute)).
  - exact (HF _ _ owned_r2 ltac:(by apply (bool_decide_unpack _); vm_compute)).
  - exact (HF _ _ owned_skR1 ltac:(by apply (bool_decide_unpack _); vm_compute)).
  - exact (HF _ _ owned_integrity ltac:(by apply (bool_decide_unpack _); vm_compute)).
  - exact (HF _ _ owned_request ltac:(by apply (bool_decide_unpack _); vm_compute)).
Qed.

Lemma parse_data_safe c : decrypted c -> untouched (spcData c) -> fsafe (parseSPCData c).
Proof.
  intros Hd Hu. pose proof Hd as (Hs & ? & _). pose proof Hu as (Hf & Ho & _ & _ & Hq & _).
  unfold parseSPCData. apply fsafe_bind.
  - apply parse_tllvs_safe; [done|lia|lia|cbn; lia|]. cbn. rewrite Ho. unfold len in Hs. lia.
  - intros d Hd1. apply fsafe_bind; [|intros; unfold validateTLLVs, require; by case_match].
    apply parse_buffer_stream in Hd1 as (ts & d1 & Hts & Hd1 & ->); [|done].
    pose proof (request_small _ _ _ _ Hts Hd1 ltac:(cbn; by rewrite Hq)) as Hlen.
    unfold extractReturnTags. apply fsafe_require. intros _. apply fsafe_bind; [|done].
    apply return_tags_safe; [lia|exact Hlen|unfold len; cbn; lia].
Qed.

Section Request.
Context {crypto : FpsCrypto} {laws : FpsCryptoLaws} (certs : option Certificates).

Lemma container_decrypted spc c c1 c2 :
  currentOffset (spcDataParser (spcData c)) = 0 ->
  parseSPCContainer certs spc c = Done (Ok c1) -> decryptSPCData certs spc c1 = Done (Ok c2) ->
  decrypted c2 /\ spcData c2 = spcData c.
Proof.
  intros Ho [Hb _]%container_range H2. pose proof Hb as (? & ? & ? & Hd).
  apply (decrypt_Ok _ _ _ _ _ Hb) in H2 as (key & iv & data & -> & Hl & _ & _).
  unfold decrypted. cbn. unfold RecordSettersUsingExistingGetters.const. rewrite Hd. split_and!; (done || lia).
Qed.

(** Parsing a request panics on no input and with no certificates. *)
Lemma parse_spc_safe spc c : untouched (spcData c) -> fsafe (parseSPC certs spc c).
Proof.
  intros Hu. pose proof Hu as (_ & Ho & _). unfold parseSPC.
  apply fsafe_bind; [apply container_safe|]. intros c1 H1. pose proof H1 as [Hb _]%container_range.
  apply fsafe_bind; [by apply (decrypt_safe _ _ _ _ Hb)|]. intros c2 H2.
  destruct (container_decrypted _ _ _ _ Ho H1 H2) as [Hd E].
  apply fsafe_bind; [apply parse_data_safe; by rewrite ?E|]. intros c3 _.
  unfold checkSupportedFeatures. apply fsafe_bind; [apply readBigEndian_safe; lia|done].
Qed.

(** *** The header *)

(** The header of versions 1 and 2, whose wrapped key has [n] bytes. *)
Record header (n : nat) (spc : bytes) (c : FPSServerSPCContainer) : Prop := {
  h_wrapped : aesWrappedKey c = bytes_at 24 n spc;
  h_hash : certificateHash c = bytes_at (24 + n) 20 spc;
  h_size : spcDataSize c = u32_at (44 + n) spc;
  h_offset : spcDataOffset c = Z.of_nat (48 + n);
}.

(** The header of version 3, whose certificate is found by its SHA-256. *)
Record header_v3 (spc : bytes) (c : FPSServerSPCContainer) : Prop := {
  h3_uuid : bytes_at 8 16 spc = V3_PROTOCOL_VERSION_UUID;
  h3_wrapped : aesWrappedKey c = bytes_at 24 256 spc;
  h3_hash : exists m h, certs = Some m /\
    cert_convert_map m !! hex_encode (bytes_at 280 32 spc) = Some h /\ hex_decode h = Some (certificateHash c);
  h3_size : spcDataSize c = u32_at 324 spc;
  h3_offset : spcDataOffset c = 328;
}.

Definition header_of (spc : bytes) (c : FPSServerSPCContainer) : Prop :=
  spcVersion c = u32_at 0 spc /\
  (spcVersion c = 1 /\ header 128 spc c \/ spcVersion c = 2 /\ header 256 spc c \/
   spcVersion c = 3 /\ header_v3 spc c).

(** Computes the offsets of a header. *)
Ltac header_arith :=
  cbn -[uadd Z.add len u32_at bytes_at] in *;
  unfold RecordSettersUsingExistingGetters.const, AES128_IV_SZ, FPS_V1_WRAPPED_KEY_SZ,
    FPS_V2_WRAPPED_KEY_SZ, FPS_V1_HASH_SZ, FPS_V3_HASH_SZ in *; uadd_arith.

Lemma container_header spc c c' :
  parseSPCContainer certs spc c = Done (Ok c') ->
  header_of spc c' /\ aesWrappedKeySize c' = (if spcVersion c' =? 1 then 128 else 256) /\
  (spcVersion c' <> 3 -> spcAesKeyIV c' = bytes_at 8 16 spc).
Proof.
  unfold parseSPCContainer, header_of. intros H. fps_inv. layout. change (Z.to_nat 0) with 0%nat in *.
  destruct (Z.eqb_spec (u32_at 0 spc) 3) as [E|Hn].
  - unfold parseSPCV3Header in H. fps_inv.
    match goal with H : matchSha1withSha256 _ _ = _ |- _ => rename H into Hm end.
    unfold matchSha1withSha256 in Hm. destruct certs as [m|] eqn:Ec; [|done].
    destruct (cert_convert_map m !! _) as [h|] eqn:Eh; [|done].
    destruct (hex_decode h) as [r|] eqn:Er; [|done]. fps_inv. unfold data_in_spc in H. fps_inv. subst.
    header_arith. layout. rewrite E. split; [|by split]. split; [done|]. right. right. split; [done|]. split; [done|done| |done|done].
    exists m, h. done.
  - fps_inv. match goal with H : (_ || _)%bool = true |- _ => apply orb_true_iff in H as [Hv|Hv] end;
      apply Z.eqb_eq in Hv; rewrite Hv in *; unfold data_in_spc in H; fps_inv; subst;
      header_arith; layout; rewrite ?Hv; (split; [|by split]); (split; [done|]).
    + left. split; [done|]. by split.
    + right. left. split; [done|]. by split.
Qed.

(** *** Decryption *)

(** The first 16 bytes of what the key of the request's certificate unwraps. *)
Definition unwraps (c : FPSServerSPCContainer) (key : bytes) : Prop :=
  exists m info plain, certs = Some m /\ cert_map m !! hex_encode (certificateHash c) = Some info /\
    (if spcVersion c =? 1 then rsa_oaep_sha1 else rsa_oaep_sha256) (privateKey info) (aesWrappedKey c)
      = Some plain /\
    key = take 16 (vec_resize (rsa_size (privateKey info)) plain).

(** The data is decrypted with the unwrapped key and the initialisation vector of the header; in
    version 3 both are derived from the key, under which the data has an integrity tag. *)
Definition decrypts (spc : bytes) (c : FPSServerSPCContainer) (key : bytes) : Prop :=
  let encrypted := drop (Z.to_nat (spcDataOffset c)) spc in
  (spcVersion c <> 3 -> spcDecryptedData c = aes_cbc_decrypt key (bytes_at 8 16 spc) encrypted) /\
  (spcVersion c = 3 ->
    spcDecryptedData c = aes_cbc_decrypt (aes_ecb_encrypt key V3_PROTOCOL_ENCRYPTION_KEY_SEED)
      (aes_ecb_encrypt key V3_PROTOCOL_ENCRYPTION_IV_SEED) encrypted /\
    integrity_holds spc key c).

Lemma unwrap_Ok c key :
  aesWrappedKeySize c = (if spcVersion c =? 1 then 128 else 256) ->
  decryptKeyRSACustom certs c = Done (Ok key) -> unwraps c (take 16 key).
Proof.
  intros Hs. unfold decryptKeyRSACustom, getPrivateKey, cert_info, decrypted_key, unwraps. intros H.
  apply require_bind in H as [_ H]. apply fbind_Ok in H as (rsa & Hr & H). apply fbind_Ok in Hr as (info & Hi & Hr).
  destruct certs as [m|]; [|done]. destruct (cert_map m !! _) as [i|] eqn:E; [|done].
  apply (proj1 (fret_Ok _ _)) in Hi, Hr. subst. rewrite Hs in H.
  destruct (spcVersion c =? 1); cbn in H; case_match; try done;
    apply (proj1 (fret_Ok _ _)) in H; subst; by eexists m, info, _.
Qed.

Lemma aes_Ok input key iv mode r :
  encryptDecryptWithAES input key iv mode aesECB = Done (Ok r) ->
  r = match mode with aesEncrypt => aes_ecb_encrypt key input | aesDecrypt => aes_ecb_decrypt key input end.
Proof. unfold encryptDecryptWithAES. intros H. fps_inv. by subst. Qed.

Lemma decrypts_Ok spc d c c' :
  in_buffer spc d c -> aesWrappedKeySize c = (if spcVersion c =? 1 then 128 else 256) ->
  (spcVersion c <> 3 -> spcAesKeyIV c = bytes_at 8 16 spc) ->
  decryptSPCData certs spc c = Done (Ok c') -> exists key, unwraps c key /\ decrypts spc c' key.
Proof.
  intros Hc Hw Hiv H. pose proof Hc as (? & ? & ? & _). unfold decryptSPCData in H.
  apply require_bind in H as [_ H]. apply fbind_Ok in H as (key & Hkey & H).
  apply fbind_Ok in H as ([c1 k] & Hk & H). exists (take 16 key). split; [by apply unwrap_Ok|].
  pose proof Hk as [[iv Hc1] Hi]%(data_key_Ok _ d); [|done]. subst c1.
  apply fbind_Ok in H as (encrypted & He & H). apply (proj1 (fdo_Ok _ _)) in He.
  apply zslice_Done in He as (_ & _ & He).
  apply fbind_Ok in H as (data & Hd & H). apply (proj1 (fret_Ok _ _)) in H.
  unfold encryptDecryptWithAES in Hd. fps_inv. subst c' data encrypted.
  unfold decrypts. cbn -[Z.to_nat] in *. unfold RecordSettersUsingExistingGetters.const in *.
  rewrite take_ge by (rewrite length_drop; unfold len; lia).
  destruct (Z.eqb_spec (spcVersion c) 3) as [E|E].
  - split; [done|]. intros _. split; [|by apply Hi].
    apply fbind_Ok in Hk as ([c2 k2] & Hk & Hv3). unfold getEncryptionKeyAndIV in Hk.
    apply fbind_Ok in Hk as (iv' & Hiv'%aes_Ok & Hk). apply fbind_Ok in Hk as (k' & Hk'%aes_Ok & Hk).
    fps_inv. simplify_eq. done.
  - split; [|done]. intros _. apply (proj1 (fret_Ok _ _)) in Hk. injection Hk as Hcc <-.
    apply (f_equal spcAesKeyIV) in Hcc. cbn in Hcc. unfold RecordSettersUsingExistingGetters.const in Hcc.
    by rewrite <- Hcc, Hiv.
Qed.

(** *** Requests *)

Lemma has_bit_testbit b k : 0 <= k -> has_bit b (Z.shiftl 1 k) = Z.testbit b k.
Proof.
  intros Hk. unfold has_bit. rewrite Z.shiftl_1_l.
  destruct (Z.testbit b k) eqn:E; [apply negb_true_iff, Z.eqb_neq|apply negb_false_iff, Z.eqb_eq].
  - intros H. apply (f_equal (fun z => Z.testbit z k)) in H.
    rewrite Z.land_spec, E, Z.pow2_bits_true, Z.bits_0 in H by done. done.
  - apply Z.bits_inj. intros j. rewrite Z.land_spec, Z.bits_0.
    destruct (decide (j = k)) as [->|]; [by rewrite E|]. by rewrite Z.pow2_bits_false, andb_false_r by done.
Qed.

Lemma features_bits bits :
  features_of bits =
  {| supportsOfflineKeyTLLV := Z.testbit bits 3; supportsOfflineKeyTLLVV2 := Z.testbit bits 3;
     supportsSecurityLevelBaseline := Z.testbit bits 4; supportsSecurityLevelMain := Z.testbit bits 5;
     supportsHDCPTypeOne := Z.testbit bits 0; supportsDualExpiry := Z.testbit bits 1;
     supportsCheckIn := Z.testbit bits 2 |}.
Proof. unfold features_of. by rewrite <- !has_bit_testbit by done. Qed.

Lemma features_read ts c c' :
  checkSupportedFeatures c = Done (Ok c') ->
  (forall t, t ∈ ts -> tag t = capabilitiesTag -> len (value t) = 16) ->
  clientCapabilities (spcData c) = field ts capabilitiesTag (fun _ v => v) [] ->
  read_capabilities ts (spcData c').
Proof.
  unfold checkSupportedFeatures. intros H Hl Hf. fps_inv. layout. unfold FPS_CAPABILITIES_FLAGS_LENGTH in *.
  split.
  - record_simpl. unfold field in *. rewrite Hf.
    destruct (find_tllv capabilitiesTag ts) as [t|] eqn:E; [|done].
    apply find_tllv_Some in E as [Hin Ht]. specialize (Hl t Hin Ht). unfold len in Hl.
    unfold vec_resize. change (Z.to_nat 16) with 16%nat.
    rewrite take_ge by lia. by replace (16 - length (value t))%nat with 0%nat by lia; rewrite app_nil_r.
  - exact (features_bits _).
Qed.

Lemma parse_spc_Ok spc c :
  parseSPC certs spc default_spc_container = Done (Ok c) ->
  (exists ts, tllvs_wire ts (data_bytes c) /\ accepted_data ts (spcData c) /\
     read_fields ts (spcData c) /\ read_capabilities ts (spcData c)) /\
  (exists key, unwraps c key /\ decrypts spc c key) /\ header_of spc c /\
  len (data_bytes c) <= len spc.
Proof.
  unfold parseSPC. intros H. apply fbind_Ok in H as (c1 & H1 & H). apply fbind_Ok in H as (c2 & H2 & H).
  apply fbind_Ok in H as (c3 & H3 & H). pose proof H1 as [Hb _]%container_range.
  pose proof H1 as (Hh & Hw & Hiv)%container_header.
  destruct (container_decrypted spc default_spc_container _ _ eq_refl H1 H2) as [Hd E].
  pose proof (len_data_bytes c2 Hd) as Hsz. pose proof (decrypts_Ok _ _ _ _ Hb Hw Hiv H2) as (key & Hu & Hdec).
  apply (decrypt_Ok _ _ _ _ _ Hb) in H2 as (key' & iv & data & -> & _ & _ & _).
  apply parse_data_accepted in H3 as (ts & d & Hts & Ha & -> & Hr); [|done|by rewrite E].
  destruct (Hr E) as (Hf & Hl & Hc). pose proof (features_read ts _ _ H Hl Hc) as Hcap.
  unfold checkSupportedFeatures in H. fps_inv. subst c. split_and!.
  - exists ts. split; [exact Hts|]. split; [by destruct Ha; split|]. split; [by destruct Hf; split|done].
  - exists key. split; [exact Hu|exact Hdec].
  - destruct Hh as [Hv [[? []]|[[? []]|[? []]]]]; (split; [exact Hv|]); [left|right; left|right; right];
      (split; [done|by split]).
  - destruct Hb as (? & ? & ? & _). etransitivity; [apply Z.eq_le_incl; exact Hsz|]. cbn. lia.
Qed.

(** C10: what an accepted request is.  Its header has the layout of its version; its data is
    decrypted with the key that the private key of its certificate unwraps, and in version 3
    carries the integrity tag of the data under that key; it decrypts to a stream of TLLVs with
    distinct tags and every required one.  Every field the response and the rules are derived
    from is what the TLLV of its tag has at its layout, or the default where there is none; and
    what is returned to the client is what it asked for, once each and of this request. *)
Theorem accepted_request spc c :
  parseSPC certs spc default_spc_container = Done (Ok c) ->
  header_of spc c /\ (exists key, unwraps c key /\ decrypts spc c key) /\
  exists ts, tllvs_wire ts (take (Z.to_nat (spcDataSize c)) (spcDecryptedData c)) /\
    accepted_data ts (spcData c) /\ read_fields ts (spcData c) /\ read_capabilities ts (spcData c).
Proof. intros (? & ? & ? & _)%parse_spc_Ok. done. Qed.
End Request.
