(* ===== verification/FpsCkc.v ===== *)
(** * The FairPlay SDK: content key contexts (src/vendor/fpssdk/src)

    The checks of a request against the business rules (extension/business_rules.rs), the
    call of the key library (extension/construct_ckc_TLLVs/createContentKeyPayload.rs), and
    the license response (CKC): base_ckc_parse.rs, base_ckc_generate.rs and
    construct_ckc_TLLVs.  Random bytes, the call of the precompiled library, the environment
    and files are [SdkEvent]s.  The hooks of extension.rs that do nothing are left out. *)
From coqutil Require Import Datatypes.RecordSettersUsingExistingGetters.
From S2P Require Import Prelude RustStr Services FpsTypes FpsSpc.
From stdpp Require Import list.

#[local] Open Scope string_scope.
#[local] Open Scope list_scope.
#[local] Open Scope Z_scope.
#[local] Open Scope rust_scope.

(** The structure passed to the key library: each buffer with the length it is declared to
    have, and the answer, with what the library wrote to the output buffers. *)
Record KSMKeyPayload := {
  ksmVersion : Z;
  contentKey : bytes * Z;
  contentIV : bytes * Z;
  ksmContentType : Z;
  SK_R1 : bytes * Z;
  R2 : bytes * Z;
  R1Integrity : bytes * Z;
  ksmKeyFormats : list Z * Z;
  cryptoVersionUsed : Z;
  ksmProvisioningData : bytes * Z;
  certHash : bytes * Z;
  clientHU : bytes * Z;
  ksmPayloadBuffer : bytes * Z;
  R1Buffer : bytes * Z;
  SK_R1Video : bytes * Z;
  R2Video : bytes * Z;
  sessionKeyToUse : Z;
}.

Record KSMAnswer := {
  ksmStatus : FPSStatus;
  ksmHU : bytes;
  ksmTag : Z;
  ksmPayload : bytes;
  ksmPayloadLength : Z;
  ksmR1 : bytes;
  ksmSessionKey : Z;
  ksmR1Key : Z;
}.

Inductive SdkEvent : Type -> Type :=
| GenRandom (n : nat) : SdkEvent bytes
| KSMCreateKeyPayload (payload : KSMKeyPayload) : SdkEvent KSMAnswer
| SdkEnv (name : string) : SdkEvent (option string)
| SdkReadFile (path : string) : SdkEvent (result bytes string).

Abbreviation sdk A := (prog SdkEvent (fps A)).

Definition sdkbind {A B} (m : sdk A) (k : A -> sdk B) : sdk B :=
  bind m (fun o => match o with
                   | Done (Ok a) => k a
                   | Done (Err e) => Ret (Done (Err e))
                   | Panic => Ret Panic
                   end).

Notation "'let@' x := m 'in' k" := (sdkbind m (fun x => k))
  (at level 10, x pattern, m at level 100, k at level 200) : rust_scope.

Definition spure {A} (m : fps A) : sdk A := Ret m.

(** Writing to a buffer from its start. *)
Definition overwrite (buffer written : bytes) : bytes :=
  take (length buffer) (written ++ drop (length written) buffer).

(** [genRandom] of [n] bytes. *)
Definition genRandom (n : nat) : sdk bytes :=
  bind (trigger (GenRandom n)) (fun r => Ret (fret (vec_resize n r))).

Section Ckc.
Context {crypto : FpsCrypto}.
(** [env::consts::ARCH] *)
Context (arch : string).

(** ** Business rules *)

Definition level_reported (d : FPSServerSPCData) (least : FPSSecurityLevel) : bool :=
  match supportedSecurityLevel d with
  | Some level => security_level least <=? level
  | None => true
  end.

(** The requirements of a content type; the level that is required of the client. *)
Definition check_content_type (a : AssetInfo) (d : FPSServerSPCData) : fps FPSSecurityLevel :=
  match contentType a with
  | contentUhd =>
    demand match supportedSecurityLevel d with
           | Some level => security_level levelMain <=? level
           | None => negb (supportsSecurityLevelBaseline (clientFeatures d)
                           && negb (supportsSecurityLevelMain (clientFeatures d)))
           end else clientSecurityLevelErr ;;
    demand hdcpReq a =? hdcpType1 else paramErr ;;
    fret levelMain
  | contentHd =>
    demand level_reported d levelBaseline else clientSecurityLevelErr ;;
    demand negb (hdcpReq a =? hdcpNotRequired) else paramErr ;;
    fret levelBaseline
  | contentSd =>
    demand level_reported d levelBaseline else clientSecurityLevelErr ;;
    fret levelBaseline
  | contentAudio => fret levelAudio
  | contentUnknown => ferr paramErr
  end.

Definition set_asset (f : FPSServerCKCAssetInfo -> FPSServerCKCAssetInfo) (c : FPSServerCKCContainer) :
    FPSServerCKCContainer :=
  c <| ckcData ::= fun d => d <| ckcAssetInfo ::= f |> |>.

Definition checkBusinessRules (isCheckIn : bool) (a : AssetInfo) (ctx : FPSServerCtx) :
    fps FPSServerCtx :=
  let d := spcData (spcContainer ctx) in
  demand negb ((0 <? clientKextDenyListVersion d) && (clientKextDenyListVersion d <? MIN_KDL_VERSION))
    else clientSecurityLevelErr ;;
  demand negb (negb (leaseDuration a =? NO_LEASE_DURATION) && negb (leaseDuration a =? 0)
               && (licenseType a =? licenseOfflineHLS)) else paramErr ;;
  demand negb (isCheckIn && (syncFlags (offlineSyncData d) =? 0)) else paramErr ;;
  let~ level := check_content_type a d in
  demand negb ((hdcpReq a =? hdcpType1) && negb (supportsHDCPTypeOne (clientFeatures d)))
    else clientSecurityLevelErr ;;
  fret (ctx <| ckcContainer ::= set_asset (fun i => i <| requiredSecurityLevel := level |>) |>).

Definition validateRequestCustom (op : FPSOperation) (ctx : FPSServerCtx) : fps FPSServerCtx :=
  match operationType op with
  | createCKC => checkBusinessRules (isCheckIn op) (assetInfo op) ctx
  | getClientInfo => fret ctx
  end.

(** ** The results (base_ckc_parse.rs) *)

Definition offline_duration (a : AssetInfo) (k : FPSServerKeyDuration) : FPSServerKeyDuration :=
  {| keyLeaseDuration := keyLeaseDuration k; keyRentalDuration := rentalDuration a;
     keyPlaybackDuration := playbackDuration a;
     keyType := if negb (rentalDuration a =? 0) || negb (playbackDuration a =? 0)
                then durationPersistenceAndDuration else durationPersistence |}.

Definition lease_duration (a : AssetInfo) : FPSServerKeyDuration :=
  {| keyLeaseDuration := leaseDuration a; keyRentalDuration := rentalDuration a;
     keyPlaybackDuration := playbackDuration a; keyType := durationLease |}.

(** What the CKC says of the asset. *)
Definition ckc_asset_info (a : AssetInfo) (i : FPSServerCKCAssetInfo) : FPSServerCKCAssetInfo :=
  let i := if licenseType a =? licenseOfflineHLS then
             i <| ckcStreamId ::= fun s => match streamId a with Some b => Some b | None => s end |>
               <| ckcTitleId ::= fun s => match titleId a with Some b => Some b | None => s end |>
               <| keyDuration ::= offline_duration a |>
           else i in
  let i := if negb (leaseDuration a =? NO_LEASE_DURATION)
           then i <| keyDuration := lease_duration a |> else i in
  i <| hdcpRequirement := hdcpReq a |>.

Definition populateServerCtxResult (ctx : FPSServerCtx) (op : FPSOperation) (r : FPSResult) :
    fps (FPSServerCtx * FPSResult) :=
  let d := spcData (spcContainer ctx) in
  let ctx := ctx <| ckcContainer ::= set_asset (ckc_asset_info (assetInfo op)) |> in
  let r := {| resultOperationType := resultOperationType r; resultId := resultId r;
    status := status r; resultHu := resultHu r; resultCkc := resultCkc r;
    resultAssetId := spcAssetId (spcAssetInfo d); resultPlayInfo := playInfo (spcAssetInfo d);
    resultStreamingIndicator := streamingIndicator d; resultTransactionId := transactionId d;
    capabilities := clientCapabilities d; resultSecurityLevel := supportedSecurityLevel d;
    resultKextDenyListVersion := clientKextDenyListVersion d; resultIsCheckIn := isCheckIn op;
    resultSyncData := offlineSyncData d; resultDeviceIdentity := deviceIdentity d;
    resultDeviceInfo := deviceInfo d; resultVmDeviceInfo := vmDeviceInfo d |} in
  let sync := offlineSyncData d in
  if isCheckIn op && has_bit (syncFlags sync) KD_SYNC_SPC_FLAG_TITLEID_VALID then
    let~ title := fdo (zslice (syncTitleId sync) 0 FPS_MAX_TITLE_ID_LENGTH) in
    fret (ctx <| ckcContainer ::= set_asset (fun i => i <| ckcTitleId := Some (syncTitleId sync) |>) |>,
          r <| resultSyncData ::= fun s => s <| syncTitleId := title |> |>)
  else fret (ctx, r).

(** ** The key library *)

Definition ksm_content_type (t : ContentType) : Z :=
  match t with
  | contentUhd | contentHd | contentSd => 1
  | contentAudio => 3
  | contentUnknown => 0
  end.

(** Older devices send no key formats. *)
Definition default_formats (d : FPSServerSPCData) : FPSServerSPCData :=
  if numberOfSupportedKeyFormats d =? 0 then
    d <| numberOfSupportedKeyFormats := 1 |> <| supportedKeyFormats ::= fun l => <[0%nat := buf16Byte]> l |>
  else d.

Definition with_len (b : bytes) : bytes * Z := (b, len b).

Definition is_video (t : ContentType) : bool :=
  match t with contentSd | contentHd | contentUhd => true | _ => false end.

Definition key_payload (a : AssetInfo) (prov : bytes) (c : FPSServerSPCContainer)
    (tlv_buffer r1_buffer : bytes) : KSMKeyPayload :=
  let d := spcData c in
  let video := (0 <? len (sk_r1_v3 d)) && (0 <? len (r2_v3 d)) in
  {| ksmVersion := 2;
     contentKey := (key a, AES128_KEY_SZ); contentIV := (iv a, AES128_IV_SZ);
     ksmContentType := ksm_content_type (contentType a);
     SK_R1 := with_len (skR1 d); R2 := with_len (r2 d); R1Integrity := with_len (skR1IntegrityTag d);
     ksmKeyFormats := (supportedKeyFormats d, numberOfSupportedKeyFormats d);
     cryptoVersionUsed := versionUsed d; ksmProvisioningData := with_len prov;
     certHash := (certificateHash c, FPS_V1_HASH_SZ); clientHU := with_len (hu d);
     ksmPayloadBuffer := with_len tlv_buffer; R1Buffer := with_len r1_buffer;
     SK_R1Video := if video then with_len (sk_r1_v3 d) else ([], 0);
     R2Video := if video then with_len (r2_v3 d) else ([], 0);
     sessionKeyToUse :=
       if video && (versionUsed d =? 1) && bool_decide (encryptionScheme a = cbcs)
          && is_video (contentType a) then 2 else 1 |}.

(** What the answer of the library changes. *)
Definition key_answer (ans : KSMAnswer) (tlv_buffer r1_buffer : bytes) (ctx : FPSServerCtx) :
    fps FPSServerCtx :=
  let payload := vec_resize (Z.to_nat (ksmPayloadLength ans)) (overwrite tlv_buffer (ksmPayload ans)) in
  demand bool_decide (ksmStatus ans = noErr) else (ksmStatus ans) ;;
  demand AES128_KEY_SZ <? len payload else internalErr ;;
  fret {| spcContainer := (spcContainer ctx) <| spcData ::= fun d =>
            d <| hu := overwrite (hu d) (ksmHU ans) |> |>;
          ckcContainer := (ckcContainer ctx)
            <| ckcVersion := if ksmR1Key ans =? 2 then 2 else 1 |>
            <| ckcData ::= fun k => {| r1 := overwrite r1_buffer (ksmR1 ans);
                 ckcAssetInfo := (ckcAssetInfo k)
                   <| contentKeyTLLVTag := ksmTag ans |> <| contentKeyTLLVPayload := payload |>
                   <| sessionKeyUsed := if ksmSessionKey ans =? 2 then sessionKeyVideo
                                        else sessionKeyGeneric |> |} |> |}.

Definition createContentKeyPayloadCustomImpl (certs : option Certificates) (a : AssetInfo)
    (ctx : FPSServerCtx) : sdk FPSServerCtx :=
  let@ prov := spure (getProvisioningData certs (spcContainer ctx)) in
  let ctx := ctx <| spcContainer ::= fun c => c <| spcData ::= default_formats |> |> in
  let r1_buffer := zeros FPS_V1_R1_SZ in
  let tlv_buffer := zeros FPS_CONTENT_KEY_TLLV_MAX_PAYLOAD in
  let* ans := trigger (KSMCreateKeyPayload
                (key_payload a prov (spcContainer ctx) tlv_buffer r1_buffer)) in
  spure (key_answer ans tlv_buffer r1_buffer ctx).

Definition createContentKeyPayloadCustom (certs : option Certificates) (op : FPSOperation)
    (ctx : FPSServerCtx) (r : FPSResult) : sdk (FPSServerCtx * FPSResult) :=
  let@ ctx := createContentKeyPayloadCustomImpl certs (assetInfo op) ctx in
  spure (fret (ctx, r <| resultHu := hu (spcData (spcContainer ctx)) |>)).

(** ** TLLVs of the CKC (construct_ckc_TLLVs) *)

Definition appendRandomBytes (v : bytes) (n : nat) : sdk bytes :=
  let@ r := genRandom n in spure (fret (v ++ r)).

Definition min_padding (valueSize : Z) : Z :=
  if valueSize mod AES128_BLOCK_SIZE =? 0 then 0
  else AES128_BLOCK_SIZE - valueSize mod AES128_BLOCK_SIZE.

Definition serializeTLLV (tag : Z) (value : bytes) (c : FPSServerCKCContainer) :
    sdk FPSServerCKCContainer :=
  let@ extra := genRandom 1 in
  let paddingSize := min_padding (len value)
    + AES128_BLOCK_SIZE * (b2z (default x00 (head extra)) mod 4) in
  let@ padding := genRandom (Z.to_nat paddingSize) in
  let p := appendBigEndianU64 (ckcDataPtr c) tag in
  let p := appendBigEndianU32 p (len value + paddingSize) in
  let p := appendBigEndianU32 p (len value) in
  spure (fret (c <| ckcDataPtr := p ++ value ++ padding |>)).

Definition on_ckc (ctx : FPSServerCtx) (m : sdk FPSServerCKCContainer) : sdk FPSServerCtx :=
  let@ c := m in spure (fret (ctx <| ckcContainer := c |>)).

Definition asset_of (ctx : FPSServerCtx) : FPSServerCKCAssetInfo :=
  ckcAssetInfo (ckcData (ckcContainer ctx)).

Definition populateTagCK (ctx : FPSServerCtx) : sdk FPSServerCtx :=
  on_ckc ctx (serializeTLLV (contentKeyTLLVTag (asset_of ctx)) (contentKeyTLLVPayload (asset_of ctx))
    (ckcContainer ctx)).

Definition populateTagR1 (ctx : FPSServerCtx) : sdk FPSServerCtx :=
  on_ckc ctx (serializeTLLV r1Tag (r1 (ckcData (ckcContainer ctx))) (ckcContainer ctx)).

Fixpoint serialize_all (ts : list FPSServerTLLV) (c : FPSServerCKCContainer) :
    sdk FPSServerCKCContainer :=
  match ts with
  | [] => spure (fret c)
  | t :: ts => let@ c := serializeTLLV (tag t) (value t) c in serialize_all ts c
  end.

Definition populateTagServerReturnTags (ctx : FPSServerCtx) : sdk FPSServerCtx :=
  on_ckc ctx (serialize_all (returnTLLVs (spcData (spcContainer ctx))) (ckcContainer ctx)).

Definition session_key_version (i : FPSServerCKCAssetInfo) : bytes :=
  be_bytes 4 1 ++ be_bytes 4 0 ++ be_bytes 8 (sessionKeyUsed i).

Definition populateTagSessionKeyVersionUsed (ctx : FPSServerCtx) : sdk FPSServerCtx :=
  on_ckc ctx (serializeTLLV sessionKeyVersionUsedTag (session_key_version (asset_of ctx))
    (ckcContainer ctx)).

Definition populateTagServerHDCPInformation (ctx : FPSServerCtx) : sdk FPSServerCtx :=
  let@ hdcp := appendRandomBytes (be_bytes 8 (hdcpRequirement (asset_of ctx))) 8 in
  on_ckc ctx (serializeTLLV hdcpInformationTag hdcp (ckcContainer ctx)).

Definition security_level_value (i : FPSServerCKCAssetInfo) : bytes :=
  be_bytes 4 1 ++ be_bytes 4 0 ++ be_bytes 8 (security_level (requiredSecurityLevel i)).

Definition populateTagSecurityLevel (ctx : FPSServerCtx) : sdk FPSServerCtx :=
  on_ckc ctx (serializeTLLV securityLevelTag (security_level_value (asset_of ctx)) (ckcContainer ctx)).

Definition key_duration_value (k : FPSServerKeyDuration) : bytes :=
  be_bytes 4 (keyLeaseDuration k) ++ be_bytes 4 (keyRentalDuration k) ++ be_bytes 4 (keyType k)
  ++ be_bytes 4 FPS_KEY_DURATION_RESERVED_FIELD_VALUE.

Definition populateTagServerKeyDuration (ctx : FPSServerCtx) : sdk FPSServerCtx :=
  on_ckc ctx (serializeTLLV keyDurationTag (key_duration_value (keyDuration (asset_of ctx)))
    (ckcContainer ctx)).

(** The value of the offline key TLLV; of the two identifiers, a missing title panics. *)
Definition offline_key_value (features : FPSServerClientFeatures) (i : FPSServerCKCAssetInfo) :
    fps bytes :=
  let version2 := bool_decide (is_Some (ckcStreamId i)) || bool_decide (is_Some (ckcTitleId i)) in
  demand negb (version2 && negb (supportsOfflineKeyTLLVV2 features)) else paramErr ;;
  let v := be_bytes 4 (if version2 then 2 else 1) ++ be_bytes 4 0
    ++ match ckcStreamId i with
       | Some s => vec_resize (Z.to_nat FPS_MAX_STREAM_ID_LENGTH) s
       | None => zeros 16
       end
    ++ be_bytes 4 (keyRentalDuration (keyDuration i))
    ++ be_bytes 4 (keyPlaybackDuration (keyDuration i)) in
  if version2 then
    match ckcTitleId i with
    | Some t => fret (v ++ vec_resize (Z.to_nat FPS_MAX_TITLE_ID_LENGTH) t)
    | None => Panic
    end
  else fret v.

Definition resize_ids (i : FPSServerCKCAssetInfo) : FPSServerCKCAssetInfo :=
  i <| ckcStreamId ::= fmap (vec_resize (Z.to_nat FPS_MAX_STREAM_ID_LENGTH)) |>
    <| ckcTitleId ::= fmap (vec_resize (Z.to_nat FPS_MAX_TITLE_ID_LENGTH)) |>.

Definition populateTagServerOfflineKey (ctx : FPSServerCtx) : sdk FPSServerCtx :=
  let@ v := spure (offline_key_value (clientFeatures (spcData (spcContainer ctx))) (asset_of ctx)) in
  let ctx := ctx <| ckcContainer ::= set_asset resize_ids |> in
  on_ckc ctx (serializeTLLV offlineKeyTag v (ckcContainer ctx)).

Definition populateTagsCustom (ctx : FPSServerCtx) : sdk FPSServerCtx :=
  let d := spcData (spcContainer ctx) in
  let kt := keyType (keyDuration (asset_of ctx)) in
  if bool_decide (mediaPlaybackStateTag ∈ parsedTagValues (spcDataParser d))
     && negb (kt =? durationNone) then
    if ((kt =? durationPersistenceAndDuration) || (kt =? durationPersistence))
       && supportsOfflineKeyTLLV (clientFeatures d)
    then populateTagServerOfflineKey ctx
    else populateTagServerKeyDuration ctx
  else spure (fret ctx).

Definition populateCKCTLLVs (ctx : FPSServerCtx) : sdk FPSServerCtx :=
  let@ ctx := populateTagCK ctx in
  let@ ctx := populateTagR1 ctx in
  let@ ctx := populateTagServerReturnTags ctx in
  let@ ctx := populateTagSessionKeyVersionUsed ctx in
  let@ ctx := populateTagServerHDCPInformation ctx in
  let@ ctx := populateTagSecurityLevel ctx in
  populateTagsCustom ctx.

(** ** The container (base_ckc_generate.rs) *)

(** The seed's whole blocks encrypted, in a buffer of zeros; its first block is the key. *)
Definition deriveAntiReplayKey (arSeed R1 : bytes) : fps bytes :=
  demand negb (len arSeed =? 0) else paramErr ;;
  demand negb (len R1 =? 0) else paramErr ;;
  let~ hashKey := fdo (zslice (sha1 R1) 0 16) in
  let whole := take (length arSeed / 16 * 16)%nat arSeed in
  let ciphertext := vec_resize (length arSeed + 16) (aes_ecb_encrypt hashKey whole) in
  fret (take 16 ciphertext).

Definition encryptCKCData (c : FPSServerCKCContainer) (key : bytes) : fps FPSServerCKCContainer :=
  let~ tempCKC := encryptDecryptWithAES (ckcDataPtr c) key (ckcAesKeyIV c) aesEncrypt aesCBC in
  fret (c <| ckcDataPtr := tempCKC |>).

Definition reportServerInformation : Z :=
  let platform := if bool_decide (arch = "x86_64") then 1
                  else if bool_decide (arch = "aarch64") then 2 else 0 in
  let bits := FPS_SDK_MAJOR_VERSION in
  let bits := Z.lor (Z.shiftl bits 4) FPS_SDK_MINOR_VERSION in
  let bits := Z.lor (Z.shiftl bits 2) 2 in
  Z.lor (Z.shiftl bits 3) platform.

Definition serializeCKCContainer (c : FPSServerCKCContainer) : fps FPSServerCKCContainer :=
  let local := appendBigEndianU32 [] (ckcVersion c) in
  let local := appendBigEndianU32 local reportServerInformation in
  demand len (ckcAesKeyIV c) =? AES128_IV_SZ else paramErr ;;
  let local := local ++ ckcAesKeyIV c in
  let local := appendBigEndianU32 local (len (ckcDataPtr c)) in
  fret (c <| ckc := local ++ ckcDataPtr c |>).

Definition generateCKC (ctx : FPSServerCtx) : sdk FPSServerCtx :=
  let@ iv := genRandom 16 in
  let ctx := ctx <| ckcContainer ::= fun c => c <| ckcAesKeyIV := overwrite (ckcAesKeyIV c) iv |> |> in
  let@ ctx := populateCKCTLLVs ctx in
  let@ key := spure (deriveAntiReplayKey (antiReplay (spcData (spcContainer ctx)))
                       (r1 (ckcData (ckcContainer ctx)))) in
  let@ c := spure (encryptCKCData (ckcContainer ctx) key) in
  let@ c := spure (serializeCKCContainer c) in
  spure (fret (ctx <| ckcContainer := c |>)).

(** ** One operation (base_ckc_parse.rs) *)

Definition genCKCWithCKAndIV (certs : option Certificates) (op : FPSOperation) (r : FPSResult) :
    sdk FPSResult :=
  let@ localVersion := spure (readBigEndianU32 (spc op) 0) in
  if (localVersion =? 1) || (localVersion =? 2) || (localVersion =? 3) then
    let@ c := spure (parseSPC certs (spc op) default_spc_container) in
    let ctx := default_server_ctx <| spcContainer := c |> in
    let@ ctx := spure (validateRequestCustom op ctx) in
    let@ (ctx, r) := spure (populateServerCtxResult ctx op r) in
    let@ (ctx, r) := createContentKeyPayloadCustom certs op ctx r in
    if bool_decide (operationType op = createCKC) && returnCKC (ckcContainer ctx) then
      let@ ctx := generateCKC ctx in
      spure (fret (r <| resultCkc := ckc (ckcContainer ctx) |>))
    else spure (fret r)
  else spure (ferr spcVersionErr).

Definition createResults (certs : option Certificates) (op : FPSOperation) (r : FPSResult) :
    sdk FPSResult :=
  genCKCWithCKAndIV certs op (r <| resultId := id op |>).
End Ckc.
