(* ===== verification/FpsCkcProps.v ===== *)
(** * Correctness of the license responses

    The TLLVs of a response and how the client reads them back, and what the SDK has checked
    and given to the key library before it answers with one. *)
From coqutil Require Import Datatypes.RecordSettersUsingExistingGetters.
From S2P Require Import Prelude RustStr Services FpsTypes FpsSpc FpsSpcProps FpsRequest FpsCkc.
From stdpp Require Import list gmap strings.

#[local] Open Scope string_scope.
#[local] Open Scope list_scope.
#[local] Open Scope Z_scope.
#[local] Open Scope rust_scope.

(** ** Executions of the SDK *)

Lemma path_sdkbind_Ok {A B} (m : sdk A) (k : A -> sdk B) tr b :
  path (sdkbind m k) tr (Done (Ok b)) ->
  exists a t1 t2, tr = t1 ++ t2 /\ path m t1 (Done (Ok a)) /\ path (k a) t2 (Done (Ok b)).
Proof.
  unfold sdkbind. intros (o & t1 & t2 & -> & Hm & H)%path_bind.
  destruct o as [[a|e]|]; [eauto 10|by apply path_ret in H as [_ ?]..].
Qed.

Lemma path_sdkbind_Panic {A B} (m : sdk A) (k : A -> sdk B) tr :
  path (sdkbind m k) tr Panic ->
  path m tr Panic \/
  exists a t1 t2, tr = t1 ++ t2 /\ path m t1 (Done (Ok a)) /\ path (k a) t2 Panic.
Proof.
  unfold sdkbind. intros (o & t1 & t2 & -> & Hm & H)%path_bind.
  destruct o as [[a|e]|]; [right; eauto 10|by apply path_ret in H as [_ ?]|].
  apply path_ret in H as [-> _]. rewrite app_nil_r. by left.
Qed.

Lemma path_spure {A} (m : fps A) tr r : path (spure m) tr r -> tr = [] /\ r = m.
Proof. unfold spure. by intros [-> <-]%path_ret. Qed.

Lemma path_genRandom n tr r :
  path (genRandom n) tr r -> exists b, r = Done (Ok b) /\ length b = n.
Proof.
  unfold genRandom. intros (x & t1 & t2 & -> & _ & [-> <-]%path_ret)%path_bind.
  eexists. split; [done|]. apply length_vec_resize.
Qed.

(** Takes a successful execution apart. *)
Ltac sdk_inv :=
  repeat match goal with
  | H : path (sdkbind _ _) _ (Done (Ok _)) |- _ => apply path_sdkbind_Ok in H as (? & ? & ? & -> & ? & H)
  | H : path (spure _) _ _ |- _ => apply path_spure in H as [-> H]; symmetry in H
  | H : path (genRandom _) _ _ |- _ => apply path_genRandom in H as (? & ? & ?); simplify_eq
  end.

(** ** TLLVs written *)

Lemma wire_app ts ts' w w' : tllvs_wire ts w -> tllvs_wire ts' w' -> tllvs_wire (ts ++ ts') (w ++ w').
Proof. induction 1; intros; [done|]. cbn. rewrite <- app_assoc. by constructor; auto. Qed.

(** What can be written with up to 63 bytes of padding. *)
Definition writable (t : FPSServerTLLV) : Prop := in_u64 (tag t) /\ len (value t) < 2 ^ 31.

(** [ts] has been written behind the data of [c], in whole blocks. *)
Definition appended (ts : list FPSServerTLLV) (c c' : FPSServerCKCContainer) : Prop :=
  exists w, tllvs_wire ts w /\ len w mod 16 = 0 /\ c' = (c <| ckcDataPtr ::= fun p => p ++ w |>).

Lemma appended_nil c : appended [] c c.
Proof. exists []. split_and!; [constructor|done|]. destruct c. record_simpl. by rewrite app_nil_r. Qed.

Lemma appended_app ts ts' c c1 c2 : appended ts c c1 -> appended ts' c1 c2 -> appended (ts ++ ts') c c2.
Proof.
  intros (w & Hw & Hm & ->) (w' & Hw' & Hm' & ->). exists (w ++ w').
  split_and!; [by apply wire_app| |destruct c; record_simpl; by rewrite app_assoc].
  rewrite len_app, Z.add_mod by lia. by rewrite Hm, Hm'.
Qed.

Lemma padded (v e : Z) : 0 <= v -> 0 <= e < 4 ->
  (16 + v + (min_padding v + 16 * e)) mod 16 = 0 /\ 0 <= min_padding v + 16 * e < 64.
Proof.
  intros. unfold min_padding, AES128_BLOCK_SIZE.
  pose proof (Z.mod_pos_bound v 16 ltac:(lia)). pose proof (Z.div_mod v 16 ltac:(lia)) as E.
  destruct (Z.eqb_spec (v mod 16) 0) as [E0|E0]; (split; [|lia]).
  - replace (16 + v + (0 + 16 * e)) with ((1 + v / 16 + e) * 16) by lia. apply Z.mod_mul. lia.
  - replace (16 + v + (16 - v mod 16 + 16 * e)) with ((2 + v / 16 + e) * 16) by lia. apply Z.mod_mul. lia.
Qed.

Lemma serialize_appends g v c tr r :
  writable {| tag := g; value := v |} -> path (serializeTLLV g v c) tr r ->
  exists c', r = Done (Ok c') /\ appended [{| tag := g; value := v |}] c c'.
Proof.
  intros [Hg Hv]. cbn in Hg, Hv. unfold serializeTLLV, sdkbind.
  intros (o & t1 & t2 & -> & (extra & -> & _)%path_genRandom & H)%path_bind.
  apply path_bind in H as (o2 & t3 & t4 & -> & (padding & -> & Hp)%path_genRandom & H).
  apply path_spure in H as [_ ->]. set (e := b2z (default x00 (head extra)) mod 4) in *.
  pose proof (len_nonneg v). destruct (padded (len v) e) as [Hm Hb]; [done|apply Z.mod_pos_bound; lia|].
  assert (len padding = min_padding (len v) + 16 * e) as Hl
    by (change (len padding) with (Z.of_nat (length padding)); rewrite Hp; unfold AES128_BLOCK_SIZE; lia).
  eexists. split; [done|]. exists (tllv_bytes {| tag := g; value := v |} padding).
  split_and!; [|by rewrite len_tllv_bytes; cbn [value]; rewrite Hl|].
  - rewrite <- (app_nil_r (tllv_bytes _ _)). constructor; [|constructor]. split; cbn [tag value]; [done|lia].
  - destruct c. unfold tllv_bytes, appendBigEndianU64, appendBigEndianU32, AES128_BLOCK_SIZE.
    record_simpl. rewrite Hl. by rewrite <- !app_assoc.
Qed.

(** [ts] has been written and nothing else has changed. *)
Definition extends (ts : list FPSServerTLLV) (ctx ctx' : FPSServerCtx) : Prop :=
  exists c', appended ts (ckcContainer ctx) c' /\ ctx' = (ctx <| ckcContainer := c' |>).

Lemma extends_app ts ts' ctx ctx1 ctx2 :
  extends ts ctx ctx1 -> extends ts' ctx1 ctx2 -> extends (ts ++ ts') ctx ctx2.
Proof.
  intros (c1 & H1 & ->) (c2 & H2 & ->). exists c2. split; [|by destruct ctx].
  by eapply appended_app.
Qed.

Lemma extends_asset ts ctx ctx' :
  extends ts ctx ctx' -> asset_of ctx' = asset_of ctx /\
    r1 (ckcData (ckcContainer ctx')) = r1 (ckcData (ckcContainer ctx)) /\
    ckcAesKeyIV (ckcContainer ctx') = ckcAesKeyIV (ckcContainer ctx) /\
    ckcVersion (ckcContainer ctx') = ckcVersion (ckcContainer ctx) /\
    spcContainer ctx' = spcContainer ctx.
Proof. intros (c' & (w & _ & _ & ->) & ->). done. Qed.

Lemma on_ckc_serialize g v ctx tr r :
  writable {| tag := g; value := v |} ->
  path (on_ckc ctx (serializeTLLV g v (ckcContainer ctx))) tr r ->
  exists ctx', r = Done (Ok ctx') /\ extends [{| tag := g; value := v |}] ctx ctx'.
Proof.
  intros Hw. unfold on_ckc, sdkbind. intros (o & t1 & t2 & -> & H1 & H)%path_bind.
  apply serialize_appends in H1 as (c' & -> & Ha); [|done]. apply path_spure in H as [_ ->].
  eexists. split; [done|]. by exists c'.
Qed.

Lemma serialize_all_appends ts c tr r :
  Forall writable ts -> path (serialize_all ts c) tr r ->
  exists c', r = Done (Ok c') /\ appended ts c c'.
Proof.
  intros Hts. revert c tr. induction Hts as [|[g v] ts Ht _ IH]; intros c tr; cbn [serialize_all].
  - intros [_ ->]%path_spure. exists c. split; [done|apply appended_nil].
  - unfold sdkbind. intros (o & t1 & t2 & -> & H1 & H)%path_bind.
    apply serialize_appends in H1 as (c1 & -> & Ha); [|done]. apply IH in H as (c' & -> & Ha').
    exists c'. split; [done|]. by apply (appended_app [_] ts c c1).
Qed.

(** The TLLVs of a response: the content key and R1 of the key library, what the client asked
    to have returned, the version of the session key, the requirements on the client, and the
    terms of the license. *)
Definition license_tllvs (ctx : FPSServerCtx) (random : bytes) : list FPSServerTLLV :=
  [{| tag := contentKeyTLLVTag (asset_of ctx); value := contentKeyTLLVPayload (asset_of ctx) |};
   {| tag := r1Tag; value := r1 (ckcData (ckcContainer ctx)) |}]
  ++ returnTLLVs (spcData (spcContainer ctx))
  ++ [{| tag := sessionKeyVersionUsedTag; value := session_key_version (asset_of ctx) |};
      {| tag := hdcpInformationTag; value := be_bytes 8 (hdcpRequirement (asset_of ctx)) ++ random |};
      {| tag := securityLevelTag; value := security_level_value (asset_of ctx) |}].

Definition terms_tllvs (d : FPSServerSPCData) (i : FPSServerCKCAssetInfo) : fps (list FPSServerTLLV) :=
  let kt := keyType (keyDuration i) in
  if bool_decide (mediaPlaybackStateTag ∈ parsedTagValues (spcDataParser d))
     && negb (kt =? durationNone) then
    if ((kt =? durationPersistenceAndDuration) || (kt =? durationPersistence))
       && supportsOfflineKeyTLLV (clientFeatures d)
    then let~ v := offline_key_value (clientFeatures d) i in
         fret [{| tag := offlineKeyTag; value := v |}]
    else fret [{| tag := keyDurationTag; value := key_duration_value (keyDuration i) |}]
  else fret [].

(** What [ctx] has to have for its TLLVs to be written. *)
Record license_writable (ctx : FPSServerCtx) : Prop := {
  lw_key : writable {| tag := contentKeyTLLVTag (asset_of ctx); value := contentKeyTLLVPayload (asset_of ctx) |};
  lw_r1 : len (r1 (ckcData (ckcContainer ctx))) < 2 ^ 31;
  lw_return : Forall writable (returnTLLVs (spcData (spcContainer ctx)));
}.

Ltac writable_tac :=
  split; cbn [tag value]; [by vm_compute|]; rewrite ?len_app, ?len_be_bytes; lia.

Lemma path_append_random v n tr r :
  path (appendRandomBytes v n) tr r -> exists b, r = Done (Ok (v ++ b)) /\ length b = n.
Proof.
  unfold appendRandomBytes, sdkbind. intros (o & t1 & t2 & -> & (b & -> & Hb)%path_genRandom & H)%path_bind.
  apply path_spure in H as [_ ->]. eauto.
Qed.

Lemma path_hdcp ctx tr r :
  path (populateTagServerHDCPInformation ctx) tr r ->
  exists random ctx', r = Done (Ok ctx') /\ length random = 8%nat /\
    extends [{| tag := hdcpInformationTag; value := be_bytes 8 (hdcpRequirement (asset_of ctx)) ++ random |}]
      ctx ctx'.
Proof.
  unfold populateTagServerHDCPInformation, sdkbind.
  intros (o & t1 & t2 & -> & (b & -> & Hb)%path_append_random & H)%path_bind.
  apply on_ckc_serialize in H as (ctx' & -> & Hx); [by eauto 10|].
  assert (len b = 8) by (unfold len; lia). writable_tac.
Qed.

Lemma path_return_tags ctx tr r :
  Forall writable (returnTLLVs (spcData (spcContainer ctx))) ->
  path (populateTagServerReturnTags ctx) tr r ->
  exists ctx', r = Done (Ok ctx') /\ extends (returnTLLVs (spcData (spcContainer ctx))) ctx ctx'.
Proof.
  intros Hw. unfold populateTagServerReturnTags, on_ckc, sdkbind.
  intros (o & t1 & t2 & -> & (c' & -> & Ha)%serialize_all_appends & H)%path_bind; [|done].
  apply path_spure in H as [_ ->]. eexists. split; [done|]. by exists c'.
Qed.

(** A step that always succeeds. *)
Lemma path_step {A B} (m : sdk A) (k : A -> sdk B) (P : A -> Prop) tr r :
  (forall t o, path m t o -> exists a, o = Done (Ok a) /\ P a) ->
  path (sdkbind m k) tr r -> exists a t, P a /\ path (k a) t r.
Proof.
  unfold sdkbind. intros Hm (o & t1 & t2 & -> & H1 & H)%path_bind.
  destruct (Hm _ _ H1) as (a & -> & Ha). eauto.
Qed.

Lemma path_ck ctx tr r :
  license_writable ctx -> path (populateTagCK ctx) tr r ->
  exists ctx', r = Done (Ok ctx') /\
    extends [{| tag := contentKeyTLLVTag (asset_of ctx); value := contentKeyTLLVPayload (asset_of ctx) |}]
      ctx ctx'.
Proof. intros Hw. apply on_ckc_serialize, Hw. Qed.

Lemma path_r1 ctx tr r :
  len (r1 (ckcData (ckcContainer ctx))) < 2 ^ 31 -> path (populateTagR1 ctx) tr r ->
  exists ctx', r = Done (Ok ctx') /\
    extends [{| tag := r1Tag; value := r1 (ckcData (ckcContainer ctx)) |}] ctx ctx'.
Proof. intros Hr. apply on_ckc_serialize. writable_tac. Qed.

Lemma path_session ctx tr r :
  path (populateTagSessionKeyVersionUsed ctx) tr r ->
  exists ctx', r = Done (Ok ctx') /\
    extends [{| tag := sessionKeyVersionUsedTag; value := session_key_version (asset_of ctx) |}] ctx ctx'.
Proof. apply on_ckc_serialize. unfold session_key_version. writable_tac. Qed.

Lemma path_level ctx tr r :
  path (populateTagSecurityLevel ctx) tr r ->
  exists ctx', r = Done (Ok ctx') /\
    extends [{| tag := securityLevelTag; value := security_level_value (asset_of ctx) |}] ctx ctx'.
Proof. apply on_ckc_serialize. unfold security_level_value. writable_tac. Qed.

Lemma path_license ctx tr r :
  license_writable ctx -> path (populateCKCTLLVs ctx) tr r ->
  exists random ctx' t, length random = 8%nat /\ extends (license_tllvs ctx random) ctx ctx' /\
    path (populateTagsCustom ctx') t r.
Proof.
  intros Hw H. unfold populateCKCTLLVs in H.
  apply (path_step _ _ _ _ _ (fun t o => path_ck _ t o Hw)) in H as (c1 & t1 & H1 & H).
  destruct (extends_asset _ _ _ H1) as (E1 & Er & _ & _ & Es1).
  assert (len (r1 (ckcData (ckcContainer c1))) < 2 ^ 31) as Hr by (rewrite Er; apply Hw).
  apply (path_step _ _ _ _ _ (fun t o => path_r1 _ t o Hr)) in H as (c2 & t2 & H2 & H).
  destruct (extends_asset _ _ _ H2) as (E2 & _ & _ & _ & Es2).
  assert (Forall writable (returnTLLVs (spcData (spcContainer c2)))) as Hret
    by (rewrite Es2, Es1; apply Hw).
  apply (path_step _ _ _ _ _ (fun t o => path_return_tags _ t o Hret)) in H as (c3 & t3 & H3 & H).
  destruct (extends_asset _ _ _ H3) as (E3 & _ & _ & _ & Es3).
  apply (path_step _ _ _ _ _ (path_session _)) in H as (c4 & t4 & H4 & H).
  destruct (extends_asset _ _ _ H4) as (E4 & _ & _ & _ & _).
  unfold sdkbind at 1 in H. apply path_bind in H as (o & t5 & t6 & -> & H5 & H).
  apply path_hdcp in H5 as (random & c5 & -> & Hlen & H5).
  destruct (extends_asset _ _ _ H5) as (E5 & _ & _ & _ & _).
  apply (path_step _ _ _ _ _ (path_level _)) in H as (c6 & t & H6 & H).
  exists random, c6, t. split_and!; [done| |done].
  rewrite E5, E4, E3, E2, E1 in H6. rewrite E4, E3, E2, E1 in H5. rewrite E3, E2, E1 in H4.
  rewrite Es2, Es1 in H3. rewrite Er in H2.
  unfold license_tllvs. apply (extends_app [_; _] _ ctx c2); [by apply (extends_app [_] [_] ctx c1)|].
  apply (extends_app _ _ c2 c3); [done|]. apply (extends_app [_] _ c3 c4); [done|].
  by apply (extends_app [_] [_] c4 c5).
Qed.

(** What the container of the response needs of the data written. *)
Definition written (ts : list FPSServerTLLV) (ctx ctx' : FPSServerCtx) : Prop :=
  exists w, tllvs_wire ts w /\ len w mod 16 = 0 /\
    ckcDataPtr (ckcContainer ctx') = ckcDataPtr (ckcContainer ctx) ++ w /\
    ckcAesKeyIV (ckcContainer ctx') = ckcAesKeyIV (ckcContainer ctx) /\
    ckcVersion (ckcContainer ctx') = ckcVersion (ckcContainer ctx) /\
    r1 (ckcData (ckcContainer ctx')) = r1 (ckcData (ckcContainer ctx)) /\
    spcContainer ctx' = spcContainer ctx.

Lemma extends_written ts ctx ctx' : extends ts ctx ctx' -> written ts ctx ctx'.
Proof. intros (c' & (w & Hw & Hm & ->) & ->). exists w. done. Qed.

Lemma written_app ts ts' ctx ctx1 ctx2 :
  written ts ctx ctx1 -> written ts' ctx1 ctx2 -> written (ts ++ ts') ctx ctx2.
Proof.
  intros (w & Hw & Hm & H1 & H2 & H3 & H4 & H5) (w' & Hw' & Hm' & H1' & H2' & H3' & H4' & H5').
  exists (w ++ w'). split_and!; [by apply wire_app| |by rewrite H1', H1, app_assoc|congruence..].
  rewrite len_app, Z.add_mod by lia. by rewrite Hm, Hm'.
Qed.

Lemma offline_value_len features i v : offline_key_value features i = Done (Ok v) -> len v < 100.
Proof.
  unfold offline_key_value. intros H. fps_inv.
  assert (len match ckcStreamId i with
              | Some s => vec_resize (Z.to_nat FPS_MAX_STREAM_ID_LENGTH) s
              | None => zeros 16
              end = 16) as E.
  { destruct (ckcStreamId i); unfold len; by rewrite ?length_vec_resize. }
  destruct (_ || _); [destruct (ckcTitleId i) as [b|]; [|done]|]; fps_inv; subst v;
    rewrite !len_app, !len_be_bytes, E; [|lia].
  unfold len. rewrite length_vec_resize. unfold FPS_MAX_TITLE_ID_LENGTH. lia.
Qed.

Lemma path_terms ctx tr r :
  path (populateTagsCustom ctx) tr r ->
  match terms_tllvs (spcData (spcContainer ctx)) (asset_of ctx) with
  | Done (Ok ts) => exists ctx', r = Done (Ok ctx') /\ written ts ctx ctx'
  | Done (Err e) => r = Done (Err e)
  | Panic => r = Panic
  end.
Proof.
  unfold populateTagsCustom, terms_tllvs. destruct (_ && _).
  2: { intros [_ ->]%path_spure. exists ctx. split; [done|]. exists [].
       split_and!; [constructor|done|by rewrite app_nil_r|done..]. }
  destruct (_ && _).
  - unfold populateTagServerOfflineKey, sdkbind at 1.
    intros (o & t1 & t2 & -> & [_ ->]%path_spure & H)%path_bind.
    destruct (offline_key_value _ _) as [[v|e]|] eqn:Ev; [|by apply path_ret in H as [_ <-]..]. cbn [fbind fret].
    apply on_ckc_serialize in H as (ctx' & -> & Hx%extends_written).
    + exists ctx'. split; [done|]. exact Hx.
    + apply offline_value_len in Ev. split; cbn [tag value]; [by vm_compute|lia].
  - unfold populateTagServerKeyDuration. intros H.
    apply on_ckc_serialize in H as (ctx' & -> & Hx%extends_written); [by exists ctx'|].
    unfold key_duration_value. writable_tac.
Qed.

Lemma take_vec_resize n m l : length l = n -> (n <= m)%nat -> take n (vec_resize m l) = l.
Proof.
  intros <- Hm. unfold vec_resize. by rewrite (take_ge l m), take_app_le, take_ge by lia.
Qed.

(** The keys and the container. *)
Section Container.
Context {crypto : FpsCrypto} {laws : FpsCryptoLaws} (arch : string).

(** The key a client derives from the seed of its request and R1. *)
Definition anti_replay_key (seed R1 : bytes) : bytes := aes_ecb_encrypt (take 16 (sha1 R1)) seed.

Lemma len_anti_replay_key seed R1 : len seed = 16 -> len (anti_replay_key seed R1) = 16.
Proof.
  intros Hs. apply ecb_encrypt_len; [|done]. pose proof (sha1_len R1) as E. unfold len in *.
  rewrite length_take. lia.
Qed.

Lemma derive_key seed R1 :
  len seed = 16 -> R1 <> [] -> deriveAntiReplayKey seed R1 = Done (Ok (anti_replay_key seed R1)).
Proof.
  intros Hs HR. pose proof (len_anti_replay_key seed R1 Hs) as Hk. unfold deriveAntiReplayKey.
  rewrite Hs. assert ((len R1 =? 0) = false) as -> by (apply Z.eqb_neq; unfold len; destruct R1; [done|cbn; lia]).
  cbn [Z.eqb negb require fbind fret]. rewrite zslice_in_range by (rewrite ?sha1_len; lia).
  cbn [fdo fbind]. change (Z.to_nat (16 - 0)) with 16%nat. change (Z.to_nat 0) with 0%nat. rewrite drop_0.
  assert (length seed = 16%nat) as Hl by (unfold len in Hs; lia). rewrite Hl.
  change (16 / 16 * 16)%nat with 16%nat. rewrite (take_ge seed) by lia.
  change (16 + 16)%nat with 32%nat. rewrite fbind_fret. fold (anti_replay_key seed R1).
  by rewrite take_vec_resize by (unfold len in Hk; lia).
Qed.

(** A response: its header, and the TLLVs [ts] encrypted in whole blocks. *)
Definition opens_to (seed R1 response : bytes) (ts : list FPSServerTLLV) : Prop :=
  exists version info iv data,
    response = be_bytes 4 version ++ be_bytes 4 info ++ iv ++ be_bytes 4 (len data) ++ data /\
    len iv = 16 /\ tllvs_wire ts (aes_cbc_decrypt (anti_replay_key seed R1) iv data).

Lemma derive_key_nonempty seed R1 key : deriveAntiReplayKey seed R1 = Done (Ok key) -> R1 <> [].
Proof. unfold deriveAntiReplayKey. intros H ->. fps_inv. done. Qed.

Lemma sealed_opens c c1 c2 key :
  encryptCKCData c key = Done (Ok c1) -> serializeCKCContainer arch c1 = Done (Ok c2) ->
  len (ckcAesKeyIV c) = 16 /\ exists data,
  ckc c2 = be_bytes 4 (ckcVersion c) ++ be_bytes 4 (reportServerInformation arch) ++ ckcAesKeyIV c
           ++ be_bytes 4 (len data) ++ data /\
  aes_cbc_decrypt key (ckcAesKeyIV c) data = ckcDataPtr c.
Proof.
  unfold encryptCKCData, encryptDecryptWithAES, serializeCKCContainer. intros H1 H2. fps_inv. subst.
  split; [done|]. exists (aes_cbc_encrypt key (ckcAesKeyIV c) (ckcDataPtr c)). split.
  - cbn. unfold RecordSettersUsingExistingGetters.const, appendBigEndianU32. cbn [app]. by rewrite <- !app_assoc.
  - by apply cbc_decrypt_encrypt.
Qed.

Lemma generate_opens ctx tr ctx' :
  path (generateCKC arch ctx) tr (Done (Ok ctx')) ->
  license_writable ctx -> ckcDataPtr (ckcContainer ctx) = [] ->
  len (ckcAesKeyIV (ckcContainer ctx)) = 16 ->
  len (antiReplay (spcData (spcContainer ctx))) = 16 ->
  exists random terms, length random = 8%nat /\ terms_tllvs (spcData (spcContainer ctx)) (asset_of ctx) = Done (Ok terms) /\
    opens_to (antiReplay (spcData (spcContainer ctx))) (r1 (ckcData (ckcContainer ctx)))
      (ckc (ckcContainer ctx')) (license_tllvs ctx random ++ terms).
Proof.
  intros H Hw Hp Hiv Hs. unfold generateCKC in H.
  apply path_sdkbind_Ok in H as (iv & t1 & t2 & -> & Hr & H). apply path_genRandom in Hr as (b & [= <-] & Hb).
  apply path_sdkbind_Ok in H as (ctx1 & t3 & t4 & -> & Hpop & H).
  set (ctx0 := ctx <| ckcContainer ::= _ |>) in *.
  apply path_license in Hpop as (random & ctx2 & t5 & Hrnd & Hx & Hterms); [|by destruct Hw; split].
  apply path_terms in Hterms. destruct (extends_asset _ _ _ Hx) as (Ea & _ & _ & _ & Es).
  rewrite Ea, Es in Hterms.
  change (asset_of ctx0) with (asset_of ctx) in Hterms.
  change (spcContainer ctx0) with (spcContainer ctx) in Hterms.
  destruct (terms_tllvs _ _) as [[terms|e]|]; [|done..].
  destruct Hterms as (? & [= <-] & Hx'). apply extends_written in Hx.
  pose proof (written_app _ _ _ _ _ Hx Hx') as (w & Hw' & Hm & Hd & Hiv' & _ & Hr1 & Hsp).
  exists random, terms. split_and!; [done..|].
  sdk_inv. fps_inv. subst ctx'. rewrite Hsp, Hr1 in *. rename x into key.
  match goal with H : deriveAntiReplayKey _ _ = _ |- _ =>
    pose proof (derive_key_nonempty _ _ _ H); rewrite derive_key in H by done; injection H as <- end.
  match goal with H : encryptCKCData _ _ = _, H' : serializeCKCContainer _ _ = _ |- _ =>
    destruct (sealed_opens _ _ _ _ H H') as (Hl & data & Hc & Hdec) end.
  do 4 eexists. split; [exact Hc|]. split; [done|]. rewrite Hdec, Hd.
  unfold ctx0 at 1. cbn. rewrite Hp. exact Hw'.
Qed.
(** ** Business rules *)

(** What the type of the content asks of the license and of the client. *)
Definition content_allowed (a : AssetInfo) (d : FPSServerSPCData) (level : FPSSecurityLevel) : Prop :=
  match contentType a with
  | contentUhd =>
    level = levelMain /\ hdcpReq a = hdcpType1 /\
    match supportedSecurityLevel d with
    | Some l => security_level levelMain <= l
    | None => supportsSecurityLevelBaseline (clientFeatures d) = true ->
              supportsSecurityLevelMain (clientFeatures d) = true
    end
  | contentHd =>
    level = levelBaseline /\ hdcpReq a <> hdcpNotRequired /\
    (forall l, supportedSecurityLevel d = Some l -> security_level levelBaseline <= l)
  | contentSd =>
    level = levelBaseline /\ (forall l, supportedSecurityLevel d = Some l -> security_level levelBaseline <= l)
  | contentAudio => level = levelAudio
  | contentUnknown => False
  end.

Record rules (checkin : bool) (a : AssetInfo) (d : FPSServerSPCData) (level : FPSSecurityLevel) : Prop := {
  rules_denylist : clientKextDenyListVersion d <= 0 \/ MIN_KDL_VERSION <= clientKextDenyListVersion d;
  rules_offline : licenseType a = licenseOfflineHLS -> leaseDuration a = NO_LEASE_DURATION \/ leaseDuration a = 0;
  rules_checkin : checkin = true -> syncFlags (offlineSyncData d) <> 0;
  rules_content : content_allowed a d level;
  rules_hdcp : hdcpReq a = hdcpType1 -> supportsHDCPTypeOne (clientFeatures d) = true;
}.

Lemma level_reported_spec d least :
  level_reported d least = true <->
  forall l, supportedSecurityLevel d = Some l -> security_level least <= l.
Proof.
  unfold level_reported. destruct (supportedSecurityLevel d) as [l|].
  - rewrite Z.leb_le. split; [by intros ? ? [= <-]|by intros H; apply H].
  - split; [by intros _ ? ?|done].
Qed.

Lemma content_type_spec a d level :
  check_content_type a d = Done (Ok level) <-> content_allowed a d level.
Proof.
  unfold check_content_type, content_allowed. destruct (contentType a);
    rewrite ?require_bind, ?fret_Ok, ?level_reported_spec, ?negb_true_iff, ?Z.eqb_eq, ?Z.eqb_neq;
    try (split; [by intros|by intros]); try (split; naive_solver).
  destruct (supportedSecurityLevel d); [rewrite Z.leb_le; naive_solver|].
  destruct (supportsSecurityLevelBaseline _), (supportsSecurityLevelMain _); cbn; naive_solver.
Qed.

Lemma rules_spec checkin a ctx ctx' :
  checkBusinessRules checkin a ctx = Done (Ok ctx') <->
  exists level, rules checkin a (spcData (spcContainer ctx)) level /\
    ctx' = (ctx <| ckcContainer ::= set_asset (fun i => i <| requiredSecurityLevel := level |>) |>).
Proof.
  unfold checkBusinessRules. rewrite !require_bind, fbind_Ok. split.
  - intros (H1 & H2 & H3 & level & Hc%content_type_spec & H). apply require_bind in H as [H4 H].
    apply (proj1 (fret_Ok _ _)) in H. exists level. split; [|done]. split; [| | |done|].
    + reflect_bools. destruct (0 <? _) eqn:E, (_ <? MIN_KDL_VERSION) eqn:E'; reflect_bools; try done; lia.
    + intros Ht. apply negb_true_iff in H2. rewrite Ht, Z.eqb_refl, andb_true_r in H2.
      destruct (Z.eqb_spec (leaseDuration a) NO_LEASE_DURATION), (Z.eqb_spec (leaseDuration a) 0);
        [by left|by left|by right|done].
    + intros ->. reflect_bools. destruct (Z.eqb_spec (syncFlags (offlineSyncData (spcData (spcContainer ctx)))) 0); done.
    + intros E. rewrite E, Z.eqb_refl in H4. by destruct (supportsHDCPTypeOne _).
  - intros (level & [H1 H2 H3 Hc H4] & ->). split_and!.
    + apply negb_true_iff, andb_false_iff. rewrite Z.ltb_ge, Z.ltb_ge. done.
    + destruct (Z.eqb_spec (licenseType a) licenseOfflineHLS) as [E|]; [|by rewrite andb_false_r].
      destruct (H2 E) as [-> | ->]; by rewrite ?andb_false_r.
    + destruct checkin; [|done]. cbn. by apply negb_true_iff, Z.eqb_neq, H3.
    + exists level. split; [by apply content_type_spec|]. apply require_bind. split; [|done].
      destruct (Z.eqb_spec (hdcpReq a) hdcpType1) as [E|]; [|done]. by rewrite H4.
Qed.
End Container.
