(* ===== verification/FpsLicense.v ===== *)
(** * Licenses from requests

    One operation of the SDK from the request to the response: what has been checked before a
    response exists, what the key library was given, and what the client reads. *)
From coqutil Require Import Datatypes.RecordSettersUsingExistingGetters.
From S2P Require Import Prelude RustStr Services FpsTypes FpsSpc FpsSpcProps FpsRequest FpsCkc FpsCkcProps.
From stdpp Require Import list gmap strings.

#[local] Open Scope string_scope.
#[local] Open Scope list_scope.
#[local] Open Scope Z_scope.
#[local] Open Scope rust_scope.

(** The title of a client that checks its licenses in. *)
Definition checked_in (checkin : bool) (d : FPSServerSPCData) (i : FPSServerCKCAssetInfo) :
    FPSServerCKCAssetInfo :=
  if checkin && has_bit (syncFlags (offlineSyncData d)) KD_SYNC_SPC_FLAG_TITLEID_VALID
  then i <| ckcTitleId := Some (syncTitleId (offlineSyncData d)) |> else i.

(** The terms of the license of an operation. *)
Definition granted (op : FPSOperation) (d : FPSServerSPCData) : FPSServerCKCAssetInfo :=
  checked_in (isCheckIn op) d (ckc_asset_info (assetInfo op) (asset_of default_server_ctx)).

Definition payload_of (ans : KSMAnswer) : bytes :=
  vec_resize (Z.to_nat (ksmPayloadLength ans))
    (overwrite (zeros FPS_CONTENT_KEY_TLLV_MAX_PAYLOAD) (ksmPayload ans)).
Definition R1_of (ans : KSMAnswer) : bytes := overwrite (zeros FPS_V1_R1_SZ) (ksmR1 ans).

(** The TLLVs of the response: [ans] is the answer of the key library. *)
Definition response_tllvs (a : AssetInfo) (d : FPSServerSPCData) (level : FPSSecurityLevel)
    (ans : KSMAnswer) (random : bytes) : list FPSServerTLLV :=
  [{| tag := ksmTag ans; value := payload_of ans |}; {| tag := r1Tag; value := R1_of ans |}]
  ++ returnTLLVs d
  ++ [{| tag := sessionKeyVersionUsedTag;
         value := be_bytes 4 1 ++ be_bytes 4 0
           ++ be_bytes 8 (if ksmSessionKey ans =? 2 then sessionKeyVideo else sessionKeyGeneric) |};
      {| tag := hdcpInformationTag; value := be_bytes 8 (hdcpReq a) ++ random |};
      {| tag := securityLevelTag;
         value := be_bytes 4 1 ++ be_bytes 4 0 ++ be_bytes 8 (security_level level) |}].

Lemma populate_Ok ctx op r ctx' r' :
  populateServerCtxResult ctx op r = Done (Ok (ctx', r')) ->
  ctx' = (ctx <| ckcContainer ::= set_asset (fun i =>
    checked_in (isCheckIn op) (spcData (spcContainer ctx)) (ckc_asset_info (assetInfo op) i)) |>).
Proof.
  unfold populateServerCtxResult, checked_in. destruct (_ && _); intros H; fps_inv; simplify_eq.
  - by destruct ctx as [? [????? []]].
  - done.
Qed.

Lemma default_formats_frame d :
  returnTLLVs (default_formats d) = returnTLLVs d /\ antiReplay (default_formats d) = antiReplay d /\
  spcDataParser (default_formats d) = spcDataParser d /\
  clientFeatures (default_formats d) = clientFeatures d.
Proof. unfold default_formats. by destruct (_ =? _). Qed.

Lemma wire_member ts w t : tllvs_wire ts w -> t ∈ ts -> in_u64 (tag t) /\ len (value t) <= len w.
Proof.
  induction 1 as [|x p ts w [Hx _] _ IH]; [set_solver|]. rewrite len_app, len_tllv_bytes.
  pose proof (len_nonneg p). pose proof (len_nonneg w). pose proof (len_nonneg (value x)).
  intros [-> | [? ?]%IH]%elem_of_cons; (split; [done|lia]).
Qed.

(** Executions that only ask for random bytes. *)
Definition is_random (e : answer SdkEvent) : Prop := exists n b, e = answered (GenRandom n) b.
Definition random_only {A} (m : sdk A) : Prop := forall tr r, path m tr r -> Forall is_random tr.

Lemma random_pure {A} (m : fps A) : random_only (spure m).
Proof. intros tr r [-> _]%path_spure. constructor. Qed.
Lemma random_gen n : random_only (genRandom n).
Proof.
  unfold genRandom. intros tr r (x & t1 & t2 & -> & Ht & [-> _]%path_ret)%path_bind.
  apply path_trigger in Ht as ->. constructor; [by eexists _, _|constructor].
Qed.
Lemma random_bind {A B} (m : sdk A) (k : A -> sdk B) :
  random_only m -> (forall a, random_only (k a)) -> random_only (sdkbind m k).
Proof.
  unfold sdkbind. intros Hm Hk tr r (o & t1 & t2 & -> & H1 & H2)%path_bind.
  apply Forall_app. split; [by eapply Hm|]. destruct o as [[a|e]|]; [by eapply Hk|..];
    apply path_ret in H2 as [-> _]; constructor.
Qed.
Lemma random_if {A} (b : bool) (m m' : sdk A) :
  random_only m -> random_only m' -> random_only (if b then m else m').
Proof. by destruct b. Qed.

Create HintDb sdk.
#[export] Hint Resolve random_pure random_gen random_bind random_if : sdk.

Lemma random_serialize g v c : random_only (serializeTLLV g v c).
Proof. unfold serializeTLLV. auto with sdk. Qed.
Lemma random_serialize_all ts c : random_only (serialize_all ts c).
Proof.
  revert c. induction ts as [|t ts IH]; intros c; cbn [serialize_all]; auto using random_serialize with sdk.
Qed.
Lemma random_on_ckc ctx m : random_only m -> random_only (on_ckc ctx m).
Proof. unfold on_ckc. auto with sdk. Qed.
#[export] Hint Resolve random_serialize random_serialize_all random_on_ckc : sdk.

Lemma random_generate {crypto : FpsCrypto} arch ctx : random_only (generateCKC arch ctx).
Proof.
  unfold generateCKC, populateCKCTLLVs, populateTagCK, populateTagR1, populateTagServerReturnTags,
    populateTagSessionKeyVersionUsed, populateTagServerHDCPInformation, appendRandomBytes,
    populateTagSecurityLevel, populateTagsCustom, populateTagServerOfflineKey,
    populateTagServerKeyDuration.
  repeat ((apply random_bind; [|intros ?]) || apply random_if); auto 8 with sdk.
Qed.

Section License.
Context {crypto : FpsCrypto} {laws : FpsCryptoLaws} (arch : string) (certs : option Certificates).

(** The call of the key library for a request. *)
Definition library_call (a : AssetInfo) (prov : bytes) (c : FPSServerSPCContainer) : KSMKeyPayload :=
  key_payload a prov (c <| spcData ::= default_formats |>)
    (zeros FPS_CONTENT_KEY_TLLV_MAX_PAYLOAD) (zeros FPS_V1_R1_SZ).

(** The fields of the call for an asset, the provisioning data [prov] and a request [c]: the
    key and initialisation vector of the asset, the session data and the certificate hash of
    the request, the formats it supports or the default, and the video session keys where the
    request has both, which are to be used for CBCS video of version 1. *)
Record asks_for (a : AssetInfo) (prov : bytes) (c : FPSServerSPCContainer) (p : KSMKeyPayload) : Prop := {
  ask_version : ksmVersion p = 2;
  ask_key : contentKey p = (key a, 16);
  ask_iv : contentIV p = (iv a, 16);
  ask_type : ksmContentType p =
    match contentType a with contentUhd | contentHd | contentSd => 1 | contentAudio => 3 | contentUnknown => 0 end;
  ask_session_key : SK_R1 p = (skR1 (spcData c), len (skR1 (spcData c)));
  ask_r2 : R2 p = (r2 (spcData c), len (r2 (spcData c)));
  ask_integrity : R1Integrity p = (skR1IntegrityTag (spcData c), len (skR1IntegrityTag (spcData c)));
  ask_formats : numberOfSupportedKeyFormats (spcData c) <> 0 ->
    ksmKeyFormats p = (supportedKeyFormats (spcData c), numberOfSupportedKeyFormats (spcData c));
  ask_default_format : numberOfSupportedKeyFormats (spcData c) = 0 ->
    ksmKeyFormats p = (<[0%nat := buf16Byte]> (supportedKeyFormats (spcData c)), 1);
  ask_crypto : cryptoVersionUsed p = versionUsed (spcData c);
  ask_provisioning : ksmProvisioningData p = (prov, len prov);
  ask_certificate : certHash p = (certificateHash c, 20);
  ask_hu : clientHU p = (hu (spcData c), len (hu (spcData c)));
  ask_output : ksmPayloadBuffer p = (replicate 1024 x00, 1024) /\ R1Buffer p = (replicate 44 x00, 44);
  ask_video : sk_r1_v3 (spcData c) <> [] -> r2_v3 (spcData c) <> [] ->
    SK_R1Video p = (sk_r1_v3 (spcData c), len (sk_r1_v3 (spcData c))) /\
    R2Video p = (r2_v3 (spcData c), len (r2_v3 (spcData c)));
  ask_no_video : sk_r1_v3 (spcData c) = [] \/ r2_v3 (spcData c) = [] ->
    SK_R1Video p = ([], 0) /\ R2Video p = ([], 0);
  ask_use : sessionKeyToUse p = 1 \/ sessionKeyToUse p = 2;
  ask_use_video : sessionKeyToUse p = 2 <->
    sk_r1_v3 (spcData c) <> [] /\ r2_v3 (spcData c) <> [] /\ versionUsed (spcData c) = 1 /\
    encryptionScheme a = cbcs /\ contentType a ∈ [contentSd; contentHd; contentUhd];
}.

Lemma len_pos (b : bytes) : (0 <? len b) = bool_decide (b <> []).
Proof. by destruct b. Qed.

Lemma default_formats_list d :
  supportedKeyFormats (default_formats d) =
    (if numberOfSupportedKeyFormats d =? 0 then <[0%nat := buf16Byte]> (supportedKeyFormats d)
     else supportedKeyFormats d) /\
  numberOfSupportedKeyFormats (default_formats d) =
    (if numberOfSupportedKeyFormats d =? 0 then 1 else numberOfSupportedKeyFormats d).
Proof. unfold default_formats. by destruct (_ =? _). Qed.

Lemma library_call_fields a prov c :
  library_call a prov c =
  key_payload a prov (c <| spcData ::= fun d => d
      <| supportedKeyFormats := (ksmKeyFormats (library_call a prov c)).1 |>
      <| numberOfSupportedKeyFormats := (ksmKeyFormats (library_call a prov c)).2 |> |>)
    (zeros FPS_CONTENT_KEY_TLLV_MAX_PAYLOAD) (zeros FPS_V1_R1_SZ).
Proof.
  unfold library_call. f_equal. destruct c as [????? ????? d ?].
  record_simpl. f_equal. unfold default_formats. destruct (_ =? _); by destruct d.
Qed.

Lemma library_call_asks a prov c : asks_for a prov c (library_call a prov c).
Proof.
  pose proof (default_formats_list (spcData c)) as [Hf Hn].
  rewrite library_call_fields. unfold library_call.
  split; cbn -[len replicate zeros]; unfold RecordSettersUsingExistingGetters.const; try done.
  - intros E%Z.eqb_neq. by rewrite Hf, Hn, E.
  - intros E%Z.eqb_eq. by rewrite Hf, Hn, E.
  - by rewrite !len_pos; intros; rewrite !bool_decide_eq_true_2.
  - rewrite !len_pos. intros [-> | ->]; by rewrite ?andb_false_r.
  - destruct (_ && is_video _); auto.
  - rewrite !len_pos. split.
    + destruct (_ && is_video _) eqn:E; [|done]. intros _.
      repeat (apply andb_true_iff in E as [E ?]). reflect_bools.
      split_and!; try done. destruct (contentType a); try done; set_solver.
    + intros (H1 & H2 & -> & -> & Hc). rewrite !bool_decide_eq_true_2 by done. cbn.
      by repeat (apply elem_of_cons in Hc as [->|Hc]); [..|set_solver].
Qed.

(** The context the response is generated from. *)
Definition response_ctx (op : FPSOperation) (c : FPSServerSPCContainer) (level : FPSSecurityLevel)
    (ans : KSMAnswer) : FPSServerCtx :=
  {| spcContainer := c <| spcData ::= fun d =>
       (default_formats d) <| hu := overwrite (hu (default_formats d)) (ksmHU ans) |> |>;
     ckcContainer := default_ckc_container
       <| ckcVersion := if ksmR1Key ans =? 2 then 2 else 1 |>
       <| ckcData := {| r1 := R1_of ans;
            ckcAssetInfo :=
              (checked_in (isCheckIn op) (spcData c) (ckc_asset_info (assetInfo op)
                 ((asset_of default_server_ctx) <| requiredSecurityLevel := level |>)))
              <| contentKeyTLLVTag := ksmTag ans |> <| contentKeyTLLVPayload := payload_of ans |>
              <| sessionKeyUsed := if ksmSessionKey ans =? 2 then sessionKeyVideo
                                   else sessionKeyGeneric |> |} |> |}.

Lemma path_library a ctx tr ctx' :
  path (createContentKeyPayloadCustomImpl certs a ctx) tr (Done (Ok ctx')) ->
  exists prov ans, getProvisioningData certs (spcContainer ctx) = Done (Ok prov) /\
    tr = [answered (KSMCreateKeyPayload (library_call a prov (spcContainer ctx))) ans] /\
    key_answer ans (zeros FPS_CONTENT_KEY_TLLV_MAX_PAYLOAD) (zeros FPS_V1_R1_SZ)
      (ctx <| spcContainer ::= fun c => c <| spcData ::= default_formats |> |>) = Done (Ok ctx').
Proof.
  unfold createContentKeyPayloadCustomImpl. intros H. sdk_inv.
  apply path_bind in H as (ans & t1 & t2 & -> & Ht & H). apply path_trigger in Ht as ->.
  apply path_spure in H as [-> H]. symmetry in H. eauto 10.
Qed.
Lemma key_answer_Ok ans op c level ctx' :
  key_answer ans (zeros FPS_CONTENT_KEY_TLLV_MAX_PAYLOAD) (zeros FPS_V1_R1_SZ)
    {| spcContainer := c <| spcData ::= default_formats |>;
       ckcContainer := set_asset (fun i => checked_in (isCheckIn op) (spcData c)
         (ckc_asset_info (assetInfo op) (i <| requiredSecurityLevel := level |>))) default_ckc_container |}
    = Done (Ok ctx') ->
  ksmStatus ans = noErr /\ 16 < len (payload_of ans) /\ ctx' = response_ctx op c level ans.
Proof. unfold key_answer. intros H. fps_inv. subst ctx'. done. Qed.

Lemma path_created op r tr r' :
  path (createResults arch certs op r) tr (Done (Ok r')) -> operationType op = createCKC ->
  exists c level prov ans t ctx',
    parseSPC certs (spc op) default_spc_container = Done (Ok c) /\
    rules (isCheckIn op) (assetInfo op) (spcData c) level /\
    getProvisioningData certs c = Done (Ok prov) /\
    tr = answered (KSMCreateKeyPayload (library_call (assetInfo op) prov c)) ans :: t /\
    ksmStatus ans = noErr /\ 16 < len (payload_of ans) /\
    path (generateCKC arch (response_ctx op c level ans)) t (Done (Ok ctx')) /\
    resultCkc r' = ckc (ckcContainer ctx').
Proof.
  unfold createResults, genCKCWithCKAndIV. intros H Hop.
  apply path_sdkbind_Ok in H as (version & ? & ? & -> & Hv & H). apply path_spure in Hv as [-> _].
  destruct (_ || _); [|by apply path_spure in H as [_ ?]].
  apply path_sdkbind_Ok in H as (c & ? & ? & -> & Hc & H). apply path_spure in Hc as [-> Hc].
  unfold validateRequestCustom in H. rewrite Hop in H.
  apply path_sdkbind_Ok in H as (ctx1 & t1 & t2 & -> & Hv & H). apply path_spure in Hv as [-> Hv].
  symmetry in Hv. apply rules_spec in Hv as (level & Hrules & ->).
  apply path_sdkbind_Ok in H as ([ctx2 r2] & t3 & t4 & -> & Hp & H). apply path_spure in Hp as [-> Hp].
  symmetry in Hp. apply populate_Ok in Hp as ->.
  apply path_sdkbind_Ok in H as ([ctx3 r3] & t5 & t6 & -> & Hk & H).
  unfold createContentKeyPayloadCustom in Hk.
  apply path_sdkbind_Ok in Hk as (ctx4 & t7 & t8 & -> & Hlib & Hk). apply path_spure in Hk as [-> Hk].
  symmetry in Hk. apply (proj1 (fret_Ok _ _)) in Hk. simplify_eq.
  apply path_library in Hlib as (prov & ans & Hprov & -> & Hans).
  apply key_answer_Ok in Hans as (Hst & Hlen & ->).
  match type of H with path (if ?b then _ else _) _ _ => destruct b eqn:Eb; [|discriminate Eb] end.
  apply path_sdkbind_Ok in H as (ctx' & t9 & t10 & -> & Hg & H). apply path_spure in H as [-> H].
  symmetry in H. apply (proj1 (fret_Ok _ _)) in H. subst r'. cbn [app]. rewrite !app_nil_r.
  exists c, level, prov, ans, t9, ctx'. split_and!; try done.
Qed.

Lemma provisioning_Ok c prov :
  getProvisioningData certs c = Done (Ok prov) ->
  exists m info, certs = Some m /\ cert_map m !! hex_encode (certificateHash c) = Some info /\
    prov = provisioningData info.
Proof.
  unfold getProvisioningData, cert_info. intros (info & Hi & H)%fbind_Ok.
  destruct certs as [m|]; [|done]. destruct (cert_map m !! _) as [i|] eqn:E; [|done].
  apply (proj1 (fret_Ok _ _)) in Hi, H. subst. by exists m, info.
Qed.

(** C8: a license response exists only for a request the SDK has accepted and that the business
    rules allow; the key library was asked once, with the key and initialisation vector of the
    operation, the session data, certificate hash and key formats of that request and the
    provisioning data of its certificate ([asks_for] gives every field), and it answered
    without an error. *)
Theorem license_checked op r tr r' :
  path (createResults arch certs op r) tr (Done (Ok r')) -> operationType op = createCKC ->
  exists c level m info payload ans t,
    parseSPC certs (spc op) default_spc_container = Done (Ok c) /\
    rules (isCheckIn op) (assetInfo op) (spcData c) level /\
    certs = Some m /\ cert_map m !! hex_encode (certificateHash c) = Some info /\
    asks_for (assetInfo op) (provisioningData info) c payload /\
    tr = answered (KSMCreateKeyPayload payload) ans :: t /\
    ksmStatus ans = noErr /\ Forall is_random t.
Proof.
  intros H Hop. apply path_created in H as (c & level & prov & ans & t & ctx' & Hc & Hr & Hp & -> & Hs & _ & Hg & _);
    [|done].
  apply provisioning_Ok in Hp as (m & info & Hm & Hi & ->).
  exists c, level, m, info. do 3 eexists.
  split_and!; [done|done|done|done|apply library_call_asks|done|done|by apply random_generate in Hg].
Qed.

(** What the key library promises of its answers. *)
Definition answers_sized (tr : list (answer SdkEvent)) : Prop :=
  forall p ans, answered (KSMCreateKeyPayload p) ans ∈ tr ->
    in_u64 (ksmTag ans) /\ ksmPayloadLength ans < 2 ^ 31.

Lemma response_writable op c level ans :
  parseSPC certs (spc op) default_spc_container = Done (Ok c) -> len (spc op) < 2 ^ 31 ->
  in_u64 (ksmTag ans) -> ksmPayloadLength ans < 2 ^ 31 ->
  license_writable (response_ctx op c level ans).
Proof.
  intros ((ts & Hts & Ha & _) & _ & _ & Hl)%parse_spc_Ok Hs Ht Hp. split.
  - split; [done|]. cbn. unfold RecordSettersUsingExistingGetters.const, payload_of, len.
    rewrite length_vec_resize. lia.
  - cbn. unfold R1_of, overwrite, len. rewrite length_take. unfold zeros. rewrite length_replicate.
    unfold FPS_V1_R1_SZ. lia.
  - cbn. destruct (default_formats_frame (spcData c)) as (-> & _). apply Forall_forall. intros t Hin.
    destruct Ha as [? ? ? ? ? ? ? ? ? (_ & Hret & _)]. destruct (Hret t Hin) as [Hin' _].
    destruct (wire_member _ _ _ Hts Hin'). split; [done|lia].
Qed.

Lemma granted_fields op d level i :
  let i' := checked_in (isCheckIn op) d (ckc_asset_info (assetInfo op) (i <| requiredSecurityLevel := level |>)) in
  let g := checked_in (isCheckIn op) d (ckc_asset_info (assetInfo op) i) in
  keyDuration i' = keyDuration g /\ ckcStreamId i' = ckcStreamId g /\ ckcTitleId i' = ckcTitleId g /\
  hdcpRequirement i' = hdcpReq (assetInfo op) /\ requiredSecurityLevel i' = level.
Proof.
  unfold checked_in, ckc_asset_info.
  destruct (isCheckIn op && _), (licenseType _ =? _), (negb _); done.
Qed.

Lemma response_list op c level ans random :
  license_tllvs (response_ctx op c level ans) random
  = response_tllvs (assetInfo op) (spcData c) level ans random.
Proof.
  destruct (granted_fields op (spcData c) level (asset_of default_server_ctx)) as (_ & _ & _ & Hh & Hl).
  destruct (default_formats_frame (spcData c)) as (Er & _).
  unfold license_tllvs, response_tllvs, session_key_version, security_level_value, asset_of in *.
  cbn in Hh, Hl |- *. rewrite Hh, Hl, Er. done.
Qed.

Lemma terms_cong d d' i i' :
  spcDataParser d = spcDataParser d' -> clientFeatures d = clientFeatures d' ->
  keyDuration i = keyDuration i' -> ckcStreamId i = ckcStreamId i' -> ckcTitleId i = ckcTitleId i' ->
  terms_tllvs d i = terms_tllvs d' i'.
Proof.
  intros Hp Hf Hk Hs Ht. unfold terms_tllvs, offline_key_value. by rewrite Hp, Hf, Hk, Hs, Ht.
Qed.

Lemma response_terms op c level ans :
  terms_tllvs (spcData (spcContainer (response_ctx op c level ans))) (asset_of (response_ctx op c level ans))
  = terms_tllvs (spcData c) (granted op (spcData c)).
Proof.
  destruct (granted_fields op (spcData c) level (asset_of default_server_ctx)) as (Hk & Hs & Ht & _).
  destruct (default_formats_frame (spcData c)) as (_ & _ & Ep & Ef).
  apply terms_cong; [exact Ep|exact Ef|exact Hk|exact Hs|exact Ht].
Qed.

(** C9: what the client decrypts from a response, with the key derived from the seed of its
    request and R1, is the content key of the library, R1, the TLLVs of its request that it
    asked to have returned, the version of the session key, the output protection and the
    security level that apply, and the terms of the license, in this order and nothing else. *)
Theorem license_roundtrip op r tr r' :
  path (createResults arch certs op r) tr (Done (Ok r')) -> operationType op = createCKC ->
  len (spc op) < 2 ^ 31 -> answers_sized tr ->
  exists c level prov ans random terms,
    parseSPC certs (spc op) default_spc_container = Done (Ok c) /\
    rules (isCheckIn op) (assetInfo op) (spcData c) level /\
    answered (KSMCreateKeyPayload (library_call (assetInfo op) prov c)) ans ∈ tr /\
    length random = 8%nat /\
    terms_tllvs (spcData c) (granted op (spcData c)) = Done (Ok terms) /\
    opens_to (antiReplay (spcData c)) (R1_of ans) (resultCkc r')
      (response_tllvs (assetInfo op) (spcData c) level ans random ++ terms).
Proof.
  intros H Hop Hs Hsized.
  apply path_created in H as (c & level & prov & ans & t & ctx' & Hc & Hr & _ & -> & _ & _ & Hg & ->); [|done].
  destruct (Hsized _ ans ltac:(by left)) as [Ht Hp].
  pose proof Hc as ((ts & Hts & Ha & _) & _)%parse_spc_Ok.
  destruct (default_formats_frame (spcData c)) as (_ & Es & _).
  apply generate_opens in Hg as (random & terms & Hlen & Hterms & Ho).
  - rewrite response_terms in Hterms. rewrite response_list in Ho. cbn in Ho. rewrite Es in Ho.
    exists c, level, prov, ans, random, terms. split_and!; try done. by left.
  - by apply response_writable.
  - done.
  - done.
  - cbn. rewrite Es. apply Ha.
Qed.
End License.
