(* ===== verification/FpsCerts.v ===== *)
(** * The FairPlay SDK: certificates (src/vendor/fpssdk/src/base/parse_json/parse_certificates.rs)

    The list of certificates, their private keys and provisioning data, read from the files
    it names, and the two maps by which a request finds its key.  The X.509, RSA, JSON and
    base64 crates are the class [CertCrates]. *)
From S2P Require Import Prelude RustStr Json Services FpsTypes FpsSpc FpsCkc.
From stdpp Require Import list gmap strings.

#[local] Open Scope string_scope.
#[local] Open Scope list_scope.
#[local] Open Scope Z_scope.
#[local] Open Scope rust_scope.

(** [x509_modulus] is the modulus of the RSA key in a certificate; [x509_extensions] are the
    identifiers and values of the extensions that x509-parser finds in an encoding. *)
Class CertCrates {crypto : FpsCrypto} := {
  x509_from_der : bytes -> option X509;
  x509_from_pem : bytes -> option X509;
  x509_to_der : X509 -> option bytes;
  x509_modulus : X509 -> option Z;
  x509_extensions : bytes -> option (list (string * bytes));
  rsa_from_der : bytes -> option RsaKey;
  rsa_from_pem : bytes -> option RsaKey;
  rsa_modulus : RsaKey -> Z;
  certs_json : bytes -> option Value;
  sdk_b64_encode : bytes -> string;
  sdk_b64_decode : string -> option bytes;
}.

Record CertificateBundle := {
  certBundle : string;
  bundlePkey1024 : string;
  bundlePkey2048 : string;
  bundleProvisioningData : string;
}.

Record LegacyCertificate := { legacyCert : string; legacyPkey1024 : string; ask : string }.

Inductive FPSCertificateStructs :=
| CertBundle (bundle : CertificateBundle)
| LegacyCert (legacy : LegacyCertificate).

(** The derived deserialization: the first of the two structures whose fields are there. *)
Definition str_field (k : string) (v : Value) : option string := x ← get k v; as_str x.

Definition certificate_struct (v : Value) : option FPSCertificateStructs :=
  match str_field "certificate" v, str_field "1024-private-key" v, str_field "2048-private-key" v,
        str_field "provisioning-data" v, str_field "ask" v with
  | Some c, Some k1, Some k2, Some p, _ =>
    Some (CertBundle {| certBundle := c; bundlePkey1024 := k1; bundlePkey2048 := k2;
                        bundleProvisioningData := p |})
  | Some c, Some k, _, _, Some a =>
    Some (LegacyCert {| legacyCert := c; legacyPkey1024 := k; ask := a |})
  | _, _, _, _, _ => None
  end.

Definition certificate_list (v : Value) : option (list FPSCertificateStructs) :=
  x ← get "certificates" v; l ← as_array x; mapM certificate_struct l.

Section Certs.
Context {crypto : FpsCrypto} {crates : CertCrates}.

Definition or_err {A} (e : FPSStatus) (o : option A) : fps A :=
  match o with Some a => fret a | None => ferr e end.

Definition getFullPath (parentPath fileName : string) : string :=
  match RustStr.strip_prefix "/" fileName with
  | Some _ => fileName
  | None => parentPath +:+ "/" +:+ fileName
  end.

(** Opening a file and reading it to its end. *)
Definition read_file (path : string) : sdk bytes :=
  let* r := trigger (SdkReadFile path) in
  spure (match r with Ok b => fret b | Err _ => ferr paramErr end).

Definition parseCertificateBundle (bundleBytes : bytes) : fps (X509 * X509) :=
  let~ cert1024 := or_err invalidCertificateErr (x509_from_der bundleBytes) in
  let~ der := or_err invalidCertificateErr (x509_to_der cert1024) in
  let~ rest := fdo (zslice bundleBytes (len der) (len bundleBytes)) in
  let~ cert2048 := or_err invalidCertificateErr (x509_from_der rest) in
  fret (cert1024, cert2048).

Definition parsePrivateKey (keyBytes : bytes) : fps RsaKey :=
  match rsa_from_der keyBytes with
  | Some key => fret key
  | None => or_err invalidCertificateErr (rsa_from_pem keyBytes)
  end.

Definition validatePrivateKey (certificate : X509) (privateKey : RsaKey) : fps unit :=
  let~ n := or_err invalidCertificateErr (x509_modulus certificate) in
  require (n =? rsa_modulus privateKey) invalidCertificateErr.

(** A version extension: an octet string of two bytes, the version of the SDK. *)
Definition check_version_value (v : bytes) : fps unit :=
  demand (len v =? 4) && bool_decide (take 2 v = [x02; x02]) else invalidCertificateErr ;;
  let~ sdk_version := readBigEndianU16 v 2 in
  let major := Z.land (Z.shiftr sdk_version 8) 0xFF in
  let minor := Z.land sdk_version 0xFF in
  require (negb ((FPS_SDK_MAJOR_VERSION <? major)
                 || ((major =? FPS_SDK_MAJOR_VERSION) && (FPS_SDK_MINOR_VERSION <? minor))))
    invalidCertificateErr.

Definition checkCertificateVersion (certificate : X509) : fps unit :=
  match x509_to_der certificate with
  | None => Panic
  | Some der =>
    let~ extensions := or_err invalidCertificateErr (x509_extensions der) in
    match list_find (fun x => x.1 = FPS_SDK_VERSION_CERTIFICATE_OID) extensions with
    | Some (_, (_, v)) => check_version_value v
    | None => fret tt
    end
  end.

(** The entries of a certificate, under the hashes of [b]. *)
Definition add_cert (b : bytes) (info : CertData) (m : Certificates) : Certificates :=
  let shaString := hex_encode (sha1 b) in
  {| cert_map := <[shaString := info]> (cert_map m);
     cert_convert_map := <[hex_encode (sha256 b) := shaString]> (cert_convert_map m) |}.

Definition generateCertBundleHashes (parentPath : string) (m : Certificates)
    (bundle : CertificateBundle) : sdk Certificates :=
  let@ bundleBytes := read_file (getFullPath parentPath (certBundle bundle)) in
  let@ (cert1024, cert2048) := spure (parseCertificateBundle bundleBytes) in
  let@ _ := spure (checkCertificateVersion cert2048) in
  let@ b := read_file (getFullPath parentPath (bundlePkey1024 bundle)) in
  let@ pkey1024 := spure (parsePrivateKey b) in
  let@ _ := spure (validatePrivateKey cert1024 pkey1024) in
  let@ b := read_file (getFullPath parentPath (bundlePkey2048 bundle)) in
  let@ pkey2048 := spure (parsePrivateKey b) in
  let@ _ := spure (validatePrivateKey cert2048 pkey2048) in
  let@ prov := read_file (getFullPath parentPath (bundleProvisioningData bundle)) in
  let info1024 := {| certificate := cert1024; privateKey := pkey1024; provisioningData := prov |} in
  let@ der := spure (or_err invalidCertificateErr (x509_to_der cert1024)) in
  let m := add_cert der info1024 m in
  let@ der := spure (or_err invalidCertificateErr (x509_to_der cert2048)) in
  let m := add_cert der {| certificate := cert2048; privateKey := pkey2048;
                           provisioningData := prov |} m in
  spure (fret (add_cert bundleBytes info1024 m)).

Definition generateLegacyCertHash (parentPath : string) (m : Certificates)
    (legacy : LegacyCertificate) : sdk Certificates :=
  let@ certBytes := read_file (getFullPath parentPath (legacyCert legacy)) in
  let@ cert := spure (match x509_from_der certBytes with
                      | Some c => fret c
                      | None => or_err invalidCertificateErr (x509_from_pem certBytes)
                      end) in
  let@ der := spure (or_err invalidCertificateErr (x509_to_der cert)) in
  let@ b := read_file (getFullPath parentPath (legacyPkey1024 legacy)) in
  let@ pkey := spure (parsePrivateKey b) in
  let@ prov := spure (match hex_decode (ask legacy) with
                      | Some d => fret d
                      | None => or_err paramErr (sdk_b64_decode (ask legacy))
                      end) in
  let@ _ := spure (require (len prov =? 16) paramErr) in
  spure (fret (add_cert der {| certificate := cert; privateKey := pkey; provisioningData := prov |} m)).

Fixpoint add_certificates (parentPath : string) (l : list FPSCertificateStructs) (m : Certificates) :
    sdk Certificates :=
  match l with
  | [] => spure (fret m)
  | CertBundle bundle :: l =>
    let@ m := generateCertBundleHashes parentPath m bundle in add_certificates parentPath l m
  | LegacyCert legacy :: l =>
    let@ m := generateLegacyCertHash parentPath m legacy in add_certificates parentPath l m
  end.

(** [Path::parent], empty where there is none: without its last component, and without the
    separators and dots before that. *)
Fixpoint trim_slashes (r : bytes) : bytes :=
  match r with
  | x2f :: r' => trim_slashes r'
  | x2e :: (x2f :: _ as r') => trim_slashes r'
  | _ => r
  end.

Fixpoint drop_name (r : bytes) : bytes :=
  match r with
  | [] => []
  | b :: r' => if Byte.eqb b x2f then r else drop_name r'
  end.

Definition parent_of (path : string) : string :=
  match trim_slashes (reverse (as_bytes path)) with
  | [] => ""
  | r => match trim_slashes (drop_name r) with
         | [] => match as_bytes path with x2f :: _ => "/" | _ => "" end
         | dir => of_bytes (reverse dir)
         end
  end.

Definition DEFAULT_FPS_CERT_PATH : string := "../credentials/certificates.json".

Definition readCertificates : sdk Certificates :=
  let* path := trigger (SdkEnv "FPS_CERT_PATH") in
  let fileLocation := default DEFAULT_FPS_CERT_PATH path in
  let@ content := read_file fileLocation in
  let@ json := spure (or_err paramErr (certs_json content)) in
  let@ certList := spure (or_err paramErr (certificate_list json)) in
  add_certificates (parent_of fileLocation) certList {| cert_map := ∅; cert_convert_map := ∅ |}.
End Certs.
