(* ===== verification/FpsSdk.v ===== *)
(** * The FairPlay SDK: operations in JSON (src/vendor/fpssdk/src)

    The parsing of a request (base/parse_json/base_parse_json_core.rs and
    base_parse_json_helper.rs, base/base_parse_verification.rs), the serialization of the
    results (extension/serialize.rs), and the functions of lib.rs that the wrapper calls.
    [SdkJson] are the parser and the printer of serde_jsonrc. *)
From coqutil Require Import Datatypes.RecordSettersUsingExistingGetters.
From S2P Require Import Prelude RustStr Json Services FpsTypes FpsSpc FpsCkc FpsCerts.
From stdpp Require Import list.

#[local] Open Scope string_scope.
#[local] Open Scope list_scope.
#[local] Open Scope Z_scope.
#[local] Open Scope rust_scope.

Class SdkJson := { sdk_from_str : string -> option Value; sdk_to_string : Value -> string }.

Section Sdk.
Context {crypto : FpsCrypto} {crates : CertCrates} {json : SdkJson} (arch : string).

(** [Value::as_u64] and [Value::as_i64] *)
Definition as_u64 (v : Value) : option Z :=
  match v with VNumber (PosInt n) => Some n | _ => None end.
Definition as_i64 (v : Value) : option Z :=
  match v with
  | VNumber (PosInt n) => if n <? 2 ^ 63 then Some n else None
  | VNumber (NegInt n) => Some n
  | _ => None
  end.

Definition as_u32 (z : Z) : Z := z mod 2 ^ 32.

(** ** Requests *)

(** Functions that go on after an error keep it as a status; a later one replaces it. *)
Definition status_after (s : result unit FPSStatus) (r : result unit FPSStatus) : result unit FPSStatus :=
  match r with Ok _ => s | Err e => Err e end.

(** Hexadecimal text of a key or vector: an initial [0x] is dropped, an odd number of digits
    completed by a zero; [None] if that does not help. *)
Definition hex_field (s : string) (old : bytes) : option bytes :=
  let s := match RustStr.strip_prefix "0x" s with Some r => r | None => s end in
  if bool_decide (s = "") || bool_decide (s = "0") then Some old else
  match hex_decode s with
  | Some b => Some b
  | None => hex_decode ("0" +:+ s)
  end.

Definition parse_key (field : string) (obj : Value) (old : bytes) :
    option (bytes * result unit FPSStatus) :=
  match as_str (at_key field obj) with
  | None => None
  | Some s =>
    Some match hex_field s old with
         | Some b => (vec_resize 16 b, Ok tt)
         | None => (vec_resize 16 old, Err paramErr)
         end
  end.

Definition parseHDCPType (hdcpType : Z) (a : AssetInfo) : AssetInfo * result unit FPSStatus :=
  if hdcpType =? -1 then (a <| hdcpReq := hdcpNotRequired |>, Ok tt)
  else if hdcpType =? 0 then (a <| hdcpReq := hdcpType0 |>, Ok tt)
  else if hdcpType =? 1 then (a <| hdcpReq := hdcpType1 |>, Ok tt)
  else (a, Err paramErr).

(** An identifier in the offline object; text that is not hexadecimal panics. *)
Definition offline_id (k : string) (m : Map) (old : option bytes) : outcome (option bytes) :=
  match v ← map_get k m; as_str v with
  | Some s =>
    if bool_decide (s = "") then Done old
    else match hex_decode s with Some b => Done (Some b) | None => Panic end
  | None => Done old
  end.

Definition offline_duration_field (k : string) (m : Map) (old : Z) : Z :=
  match map_get k m with
  | Some v =>
    match as_u64 v, as_str v with
    | Some n, _ => as_u32 n
    | None, Some s => default 0 (parse_u32 s)
    | None, None => old
    end
  | None => old
  end.

Definition verifyOfflineHLS (a : AssetInfo) : result unit FPSStatus :=
  if Bool.eqb (bool_decide (is_Some (streamId a))) (bool_decide (is_Some (titleId a)))
  then Ok tt else Err paramErr.

Definition parseOfflineHLS (m : Map) (a : AssetInfo) : outcome (AssetInfo * result unit FPSStatus) :=
  let! s := offline_id "stream-id" m (streamId a) in
  let! t := offline_id "title-id" m (titleId a) in
  let a := a <| streamId := s |> <| titleId := t |>
             <| rentalDuration ::= offline_duration_field "rental-duration" m |>
             <| playbackDuration ::= offline_duration_field "playback-duration" m |> in
  Done (a, verifyOfflineHLS a).

Definition parseAssetInfoCustom (obj : Value) (a : AssetInfo) : AssetInfo :=
  a <| contentType :=
    match as_str (at_key "content-type" obj) with
    | Some "uhd" => contentUhd
    | Some "hd" => contentHd
    | Some "sd" => contentSd
    | Some "audio" => contentAudio
    | _ => contentUnknown
    end |>.

Definition parse_hdcp (obj : Value) (a : AssetInfo) : AssetInfo * result unit FPSStatus :=
  match as_i64 (at_key "hdcp-type" obj), as_str (at_key "hdcp-type" obj) with
  | Some t, _ => parseHDCPType (wrap_signed 32 t) a
  | None, Some s => parseHDCPType (default (-2) (parse_i32 s)) a
  | None, None => (a <| hdcpReq := hdcpType0 |>, Ok tt)
  end.

Definition parse_lease (obj : Value) : Z :=
  match as_u64 (at_key "lease-duration" obj) with
  | Some n => if as_u32 n =? 0 then NO_LEASE_DURATION else as_u32 n
  | None => NO_LEASE_DURATION
  end.

Definition parseAssetInfo (obj : Value) (a : AssetInfo) : outcome (AssetInfo * result unit FPSStatus) :=
  let k := parse_key "content-key" obj (key a) in
  let v := parse_key "content-iv" obj (iv a) in
  let a := a <| isCKProvided := bool_decide (is_Some k) && bool_decide (is_Some v) |>
             <| key ::= fun old => match k with Some (b, _) => b | None => old end |>
             <| iv ::= fun old => match v with Some (b, _) => b | None => old end |>
             <| leaseDuration := parse_lease obj |> in
  let st := match k with Some (_, s) => s | None => Ok tt end in
  let st := match v with Some (_, s) => status_after st s | None => st end in
  let! offline := match as_object (at_key "offline-hls" obj) with
                  | Some m => parseOfflineHLS m (a <| licenseType := licenseOfflineHLS |>)
                  | None => Done (a, Ok tt)
                  end in
  let (a, s) := offline in
  let st := status_after st s in
  let (a, s) := parse_hdcp obj a in
  let st := status_after st s in
  let a := a <| encryptionScheme := match as_str (at_key "encryption-scheme" obj) with
                                    | Some s => encryption_scheme_from s
                                    | None => schemeUnknown
                                    end |> in
  Done (parseAssetInfoCustom obj a, st).

Definition parse_id (obj : Value) : Z :=
  match as_u64 (at_key "id" obj), as_str (at_key "id" obj) with
  | Some n, _ => n
  | None, Some s => default 0 (parse_u64 s)
  | None, None => 0
  end.

Definition parse_spc (obj : Value) : bytes * result unit FPSStatus :=
  match as_str (at_key "spc" obj) with
  | Some s => match sdk_b64_decode s with Some b => (b, Ok tt) | None => ([], Err parserErr) end
  | None => ([], Err paramErr)
  end.

(** The asset of a [create-ckc] object: one entry at most. *)
Definition parse_asset (obj : Value) (st : result unit FPSStatus) : fps (AssetInfo * result unit FPSStatus) :=
  match as_array (at_key "asset-info" obj) with
  | None => fret (default_asset_info, st)
  | Some [x] =>
    let~ (a, s) := fdo (parseAssetInfo x default_asset_info) in
    match s with Ok _ => fret (a, st) | Err e => ferr e end
  | Some _ => fret (default_asset_info, Err paramErr)
  end.

Definition parseOperation (operationType : FPSOperationType) (obj : Value) : fps FPSOperation :=
  let (spc, st) := parse_spc obj in
  let op a ci := {| operationType := operationType; id := parse_id obj; spc := spc;
                       isCheckIn := ci; assetInfo := a |} in
  match operationType with
  | createCKC =>
    let~ (a, st) := parse_asset obj st in
    let~ _ := Done st in
    fret (op a (default false (as_bool (at_key "check-in" obj))))
  | getClientInfo =>
    let~ _ := Done st in fret (op default_asset_info false)
  end.

Fixpoint parse_all (t : FPSOperationType) (objs : list Value) : fps (list FPSOperation) :=
  match objs with
  | [] => fret []
  | obj :: objs => let~ op := parseOperation t obj in let~ ops := parse_all t objs in fret (op :: ops)
  end.

Definition parseOperations (v : Value) : fps (list FPSOperation) :=
  let~ root := or_err paramErr (as_object (at_key "fairplay-streaming-request" v)) in
  match map_get "create-ckc" root, map_get "get-client-info" root with
  | Some x, _ => let~ objs := or_err paramErr (as_array x) in parse_all createCKC objs
  | None, Some x => let~ objs := or_err paramErr (as_array x) in parse_all getClientInfo objs
  | None, None => ferr paramErr
  end.

(** ** Operations *)

(** A failed operation is reported with its identifier and status; what it had filled in
    besides is not serialized and left out here. *)
Definition process_operation (certs : option Certificates) (op : FPSOperation) :
    prog SdkEvent (outcome FPSResult) :=
  let r := default_result <| resultOperationType := operationType op |> in
  let* o := createResults arch certs op r in
  Ret match o with
      | Done (Ok r) => Done (r <| status := noErr |>)
      | Done (Err e) => Done (r <| resultId := id op |> <| status := e |>)
      | Panic => Panic
      end.

Fixpoint process_all (certs : option Certificates) (ops : list FPSOperation) :
    prog SdkEvent (outcome (list FPSResult)) :=
  match ops with
  | [] => Ret (Done [])
  | op :: ops =>
    let* o := process_operation certs op in
    match o with
    | Panic => Ret Panic
    | Done r => let* rs := process_all certs ops in Ret (obind rs (fun rs => Done (r :: rs)))
    end
  end.

Definition processOperations (certs : option Certificates) (v : Value) :
    prog SdkEvent (outcome (list FPSResult)) :=
  match parseOperations v with
  | Done (Ok ops) => process_all certs ops
  | Done (Err e) => Ret (Done [default_result <| status := e |>])
  | Panic => Ret Panic
  end.

(** ** Results (extension/serialize.rs) *)

(** Members are listed in the order of insertion; in which order an object is written is the
    printer's. *)

Definition vint (z : Z) : Value := VNumber (if z <? 0 then NegInt z else PosInt z).

Definition security_level_text (l : option Z) : string :=
  if bool_decide (l = Some (security_level levelMain)) then "main"
  else if bool_decide (l = Some (security_level levelBaseline)) then "baseline"
  else format_hex 16 (default 0 l).

Definition capabilities_json (flags : bytes) : Value :=
  let bits := match readBigEndianU64 flags 8 with Done (Ok z) => z | _ => 0 end in
  VObject [("hdcp", VBool (has_bit bits FPS_CAPABILITY_HDCP_TYPE1_ENFORCEMENT_SUPPORTED));
           ("offline-key", VBool (has_bit bits FPS_CAPABILITY_OFFLINE_KEY_SUPPORTED));
           ("secure-invalidation", VBool (has_bit bits FPS_CAPABILITY_CHECK_IN_SUPPORTED));
           ("offline-key-2", VBool (has_bit bits FPS_CAPABILITY_OFFLINE_KEY_V2_SUPPORTED));
           ("security-level-baseline", VBool (has_bit bits FPS_CAPABILITY_SECURITY_LEVEL_BASELINE_SUPPORTED));
           ("security-level-main", VBool (has_bit bits FPS_CAPABILITY_SECURITY_LEVEL_MAIN_SUPPORTED))].

Definition device_identity_json (d : FPSDeviceIdentity) : Value :=
  VObject [("fpdi-version", vint (fpdiVersion d)); ("device-class", vint (deviceClass d));
           ("vendor-hash", VString (hex_encode_upper (vendorHash d)));
           ("product-hash", VString (hex_encode_upper (productHash d)));
           ("fps-ree-version", VString (format_hex 8 (fpVersionREE d)));
           ("fps-tee-version", VString (format_hex 8 (fpVersionTEE d)));
           ("os-version", VString (format_hex 8 (identityOsVersion d)))].

Definition vm_device_info_json (v : VMDeviceInfo) : Value :=
  VObject [("host-device-class", vint (device_class (hostDeviceClass v)));
           ("host-os-version", VString (format_hex 8 (hostOSVersion v)));
           ("host-vm-protocol-version", vint (hostVMProtocolVersion v));
           ("guest-device-class", vint (device_class (guestDeviceClass v)));
           ("guest-os-version", VString (format_hex 8 (guestOSVersion v)));
           ("guest-vm-protocol-version", vint (guestVMProtocolVersion v))].

Definition sync_flags_json (flags : Z) : Value :=
  VObject [("report", VBool (has_bit flags KD_SYNC_SPC_FLAG_REPORT));
           ("secure-invalidation", VBool (has_bit flags KD_SYNC_SPC_FLAG_SECURE_INVALIDATION));
           ("secure-invalidation-all", VBool (has_bit flags KD_SYNC_SPC_FLAG_SECURE_INVALIDATION_ALL));
           ("title-id-valid", VBool (has_bit flags KD_SYNC_SPC_FLAG_TITLEID_VALID));
           ("success", VBool (has_bit flags KD_SYNC_SPC_FLAG_SUCCESS));
           ("obj-not-found", VBool (has_bit flags KD_SYNC_SPC_FLAG_OBJ_NOT_FOUND));
           ("obj-expired", VBool (has_bit flags KD_SYNC_SPC_FLAG_OBJ_EXPIRED))].

(** The identifiers from index [i] on, [n] of them. *)
Fixpoint stream_ids (n : nat) (i : Z) (ids : bytes) : outcome (list Value) :=
  match n with
  | O => Done []
  | S n =>
    let! b := zslice ids (i * FPS_OFFLINE_CONTENTID_LENGTH) ((i + 1) * FPS_OFFLINE_CONTENTID_LENGTH) in
    let! l := stream_ids n (i + 1) ids in
    Done (VString (hex_encode_upper b) :: l)
  end.

Definition offline_sync_json (s : FPSOfflineSyncData) : outcome Value :=
  let first := [("version", vint (syncVersion s)); ("duration-to-expiry", vint (durationToRentalExpiry s))] in
  if 2 <=? syncVersion s then
    let! ids := (if (0 <? recordsDeleted s) && negb (bool_decide (deletedStreamIDs s = []))
                 then stream_ids (Z.to_nat (recordsDeleted s)) 0 (deletedStreamIDs s) else Done []) in
    Done (VObject (first ++
      [("server-challenge", vint (syncServerChallenge s)); ("flags", sync_flags_json (syncFlags s));
       ("title-id", VString (if has_bit (syncFlags s) KD_SYNC_SPC_FLAG_TITLEID_VALID
                             then hex_encode_upper (syncTitleId s) else ""));
       ("records-invalidated", vint (recordsDeleted s)); ("invalidated-stream-ids", VArray ids)]))
  else Done (VObject first).

(** The entries of a successful result. *)
Definition success_entries (r : FPSResult) (sync : list (string * Value)) : Map :=
  [("asset-id", VString (resultAssetId r));
   ("playback-state", VObject [("creation-date", vint (date (resultPlayInfo r)));
      ("state", vint (playbackState (resultPlayInfo r))); ("session-id", vint (playbackId (resultPlayInfo r)))]);
   ("hu", VString (hex_encode_upper (resultHu r)));
   ("streaming-indicator", vint (resultStreamingIndicator r));
   ("transaction-id", vint (resultTransactionId r));
   ("security-level", VString (security_level_text (resultSecurityLevel r)));
   ("kdl-version", vint (resultKextDenyListVersion r));
   ("capabilities", capabilities_json (capabilities r))]
  ++ (if isDeviceIdentitySet (resultDeviceIdentity r)
      then [("device-identity", device_identity_json (resultDeviceIdentity r))] else [])
  ++ (if isDeviceInfoSet (resultDeviceInfo r)
      then [("device-info", VObject
              [("device-type", VString (format_hex 16 (deviceType (resultDeviceInfo r))));
               ("os-version", VString (format_hex 8 (identityOsVersion (resultDeviceIdentity r))))])] else [])
  ++ match resultVmDeviceInfo r with
     | Some v => [("vm-device-info", vm_device_info_json v)]
     | None => []
     end
  ++ sync
  ++ (if bool_decide (resultOperationType r = createCKC) && negb (resultIsCheckIn r)
         && negb (bool_decide (resultCkc r = []))
      then [("ckc", VString (sdk_b64_encode (resultCkc r)))] else []).

Definition result_json (r : FPSResult) : outcome Value :=
  let first := [("id", vint (resultId r)); ("status", vint (status_code (status r)))] in
  if bool_decide (status r = noErr) then
    let! sync := (if 0 <? syncVersion (resultSyncData r) then
                    let! v := offline_sync_json (resultSyncData r) in Done [("offline-sync", v)]
                  else Done []) in
    Done (VObject (first ++ success_entries r sync))
  else Done (VObject first).

Fixpoint results_array (rs : list FPSResult) : outcome (list Value) :=
  match rs with
  | [] => Done []
  | r :: rs => let! v := result_json r in let! l := results_array rs in Done (v :: l)
  end.

Definition results_json (rs : list FPSResult) : outcome Value :=
  let! l := results_array rs in
  let field := match rs with
               | r :: _ => if bool_decide (resultOperationType r = getClientInfo)
                           then "get-client-info" else "create-ckc"
               | [] => "create-ckc"
               end in
  Done (VObject [("fairplay-streaming-response", VObject [(field, VArray l)])]).

(** ** The interface (lib.rs) *)

(** Whether [INIT] has run, and the certificates if they could be read. *)
Record SdkState := { initialised : bool; certificates : option Certificates }.

(** [INIT.call_once]; a panic here is not caught and aborts. *)
Definition sdk_init (st : SdkState) : prog SdkEvent (outcome SdkState) :=
  if initialised st then Ret (Done st) else
  let* o := readCertificates in
  Ret match o with
      | Done (Ok certs) => Done {| initialised := true; certificates := Some certs |}
      | Done (Err _) => Done {| initialised := true; certificates := None |}
      | Panic => Panic
      end.

Definition json_fail : Value :=
  VObject [("fairplay-streaming-response", VObject [("create-ckc",
    VArray [VObject [("id", vint 1); ("status", vint (status_code internalErr))]])])].

(** What is under [catch_unwind]. *)
Definition process_caught (certs : option Certificates) (in_json : string) :
    prog SdkEvent (outcome string) :=
  match sdk_from_str in_json with
  | None => Ret Panic
  | Some root =>
    let* output := processOperations certs root in
    Ret (obind output (fun rs => obind (results_json rs) (fun v => Done (sdk_to_string v))))
  end.

Definition fpsProcessOperations (st : SdkState) (in_json : string) :
    prog SdkEvent (outcome (Z * string * SdkState)) :=
  let* o := sdk_init st in
  match o with
  | Panic => Ret Panic
  | Done st =>
    let* r := process_caught (certificates st) in_json in
    Ret (Done match r with
              | Done out => (status_code noErr, out, st)
              | Panic => (status_code internalErr, sdk_to_string json_fail, st)
              end)
  end.

Definition fpsGetVersion : Z * string := (status_code noErr, "26.0.0").
End Sdk.
