(* ===== verification/FpsSdkProps.v ===== *)
(** * The SDK as a whole: buffers, certificates and panics

    What the parsing of operations and of certificates guarantees: the buffers handed to the
    key library have the lengths they are declared to have.  Processing an operation that
    could be parsed does not panic, whatever the request, the certificates, the random bytes
    and the answers of the key library; what is left is text that is not JSON and identifiers
    that are not hexadecimal, and that is caught. *)
From coqutil Require Import Datatypes.RecordSettersUsingExistingGetters.
From S2P Require Import Prelude RustStr Json Services FpsTypes FpsSpc FpsSpcProps FpsRequest FpsCkc FpsCkcProps.
From S2P Require Import FpsLicense FpsCerts FpsSdk.
From stdpp Require Import list gmap strings.

#[local] Open Scope string_scope.
#[local] Open Scope list_scope.
#[local] Open Scope Z_scope.
#[local] Open Scope rust_scope.

Lemma obind_Done {A B} (o : outcome A) (k : A -> outcome B) b :
  obind o k = Done b <-> exists a, o = Done a /\ k a = Done b.
Proof. destruct o; cbn; split; [eauto|by intros (? & [= <-] & ?)|done|by intros (? & ? & _)]. Qed.

(** ** Certificates *)

Section Certificates.
Context {crypto : FpsCrypto} {laws : FpsCryptoLaws} {crates : CertCrates}.

(** Every entry is under the digest of an encoding, and every digest of version 3 requests
    leads to an entry. *)
Definition certs_ok (m : Certificates) : Prop :=
  (forall k, is_Some (cert_map m !! k) -> exists b, k = hex_encode (sha1 b)) /\
  (forall k v, cert_convert_map m !! k = Some v ->
     is_Some (cert_map m !! v) /\ exists b, k = hex_encode (sha256 b) /\ v = hex_encode (sha1 b)).

Lemma add_cert_ok b info m : certs_ok m -> certs_ok (add_cert b info m).
Proof.
  intros [Hm Hc]. unfold add_cert. split; cbn.
  - intros k. destruct (decide (k = hex_encode (sha1 b))) as [->|Hk]; [by exists b|].
    rewrite lookup_insert_ne by done. apply Hm.
  - intros k v. destruct (decide (k = hex_encode (sha256 b))) as [->|Hk].
    + rewrite lookup_insert_eq. intros [= <-]. split; [rewrite lookup_insert_eq; by eexists|by exists b].
    + rewrite lookup_insert_ne by done. intros [Hs Hb]%Hc. split; [|done].
      destruct (decide (v = hex_encode (sha1 b))) as [->|]; [rewrite lookup_insert_eq; by eexists|].
      by rewrite lookup_insert_ne.
Qed.

Lemma path_read_file p tr b :
  path (read_file p) tr (Done (Ok b)) -> tr = [answered (SdkReadFile p) (Ok b)].
Proof.
  unfold read_file. intros (r & t1 & t2 & -> & Ht & H)%path_bind. apply path_trigger in Ht as ->.
  apply path_spure in H as [-> H]. destruct r; [by injection H as ->|discriminate H].
Qed.

Lemma bundle_ok parent m bundle tr m' :
  path (generateCertBundleHashes parent m bundle) tr (Done (Ok m')) -> certs_ok m -> certs_ok m'.
Proof.
  unfold generateCertBundleHashes. intros H Hm.
  repeat (apply path_sdkbind_Ok in H as (? & ? & ? & -> & _ & H)
          || match goal with p : (X509 * X509)%type |- _ => destruct p end).
  apply path_spure in H as [_ [= ->]]. by repeat apply add_cert_ok.
Qed.

Lemma legacy_ok parent m legacy tr m' :
  path (generateLegacyCertHash parent m legacy) tr (Done (Ok m')) -> certs_ok m -> certs_ok m'.
Proof.
  unfold generateLegacyCertHash. intros H Hm.
  repeat apply path_sdkbind_Ok in H as (? & ? & ? & -> & _ & H).
  apply path_spure in H as [_ [= ->]]. by apply add_cert_ok.
Qed.

Lemma add_certificates_ok parent l m tr m' :
  path (add_certificates parent l m) tr (Done (Ok m')) -> certs_ok m -> certs_ok m'.
Proof.
  revert m tr. induction l as [|[bundle|legacy] l IH]; intros m tr H Hm; cbn [add_certificates] in H.
  - by apply path_spure in H as [_ [= ->]].
  - apply path_sdkbind_Ok in H as (m1 & t1 & t2 & -> & H1%bundle_ok & H); [|done]. by eapply IH.
  - apply path_sdkbind_Ok in H as (m1 & t1 & t2 & -> & H1%legacy_ok & H); [|done]. by eapply IH.
Qed.

Lemma read_certificates_ok tr m :
  path readCertificates tr (Done (Ok m)) -> certs_ok m.
Proof.
  unfold readCertificates. intros (p & t1 & t2 & -> & _ & H)%path_bind.
  repeat apply path_sdkbind_Ok in H as (? & ? & ? & -> & _ & H).
  apply add_certificates_ok in H; [done|]. split; [intros k [? ?]; done|done].
Qed.

(** *** Panics while the certificates are read *)

(** A file that starts with a certificate whose encoding is longer than the file, or that
    holds a second certificate that has no encoding. *)
Definition unencodable (file : bytes) : Prop :=
  exists c1 der, x509_from_der file = Some c1 /\ x509_to_der c1 = Some der /\
    (len file < len der \/
     exists c2, x509_from_der (drop (length der) file) = Some c2 /\ x509_to_der c2 = None).

Definition unencodable_read (tr : list (answer SdkEvent)) : Prop :=
  exists p b, answered (SdkReadFile p) (Ok b) ∈ tr /\ unencodable b.

Lemma or_err_safe {A} e (o : option A) : or_err e o <> Panic.
Proof. by destruct o. Qed.

Lemma or_err_Ok {A} e (o : option A) a : or_err e o = Done (Ok a) -> o = Some a.
Proof. destruct o; [|done]. by intros [= ->]. Qed.

Lemma bundle_parsed b c1 c2 :
  parseCertificateBundle b = Done (Ok (c1, c2)) ->
  exists der, x509_from_der b = Some c1 /\ x509_to_der c1 = Some der /\
    x509_from_der (drop (length der) b) = Some c2.
Proof.
  unfold parseCertificateBundle. intros H. fps_inv.
  repeat match goal with H : or_err _ _ = Done (Ok _) |- _ => apply or_err_Ok in H end. simplify_eq.
  match goal with H : zslice _ _ _ = _ |- _ => apply zslice_Done in H as (? & _ & ->) end.
  eexists. split_and!; [done..|].
  match goal with H : x509_from_der (take _ _) = _ |- _ => rewrite <- H end.
  f_equal. unfold len in *. rewrite take_ge; [by rewrite Nat2Z.id|]. rewrite length_drop. lia.
Qed.

Lemma parse_bundle_Panic b : parseCertificateBundle b = Panic -> unencodable b.
Proof.
  unfold parseCertificateBundle.
  intros [?|(c1 & H1%or_err_Ok & H)]%fbind_Panic; [by destruct (or_err_safe _ _ ltac:(eassumption))|].
  apply fbind_Panic in H as [?|(der & H2%or_err_Ok & H)]; [by destruct (or_err_safe _ _ ltac:(eassumption))|].
  exists c1, der. split; [done|]. split; [done|]. left.
  apply fbind_Panic in H as [H|(r & _ & [?|(c2 & _ & H)]%fbind_Panic)];
    [|by destruct (or_err_safe _ _ ltac:(eassumption))|done].
  destruct (decide (len der <= len b)) as [Hl|]; [|lia]. pose proof (len_nonneg der).
  by rewrite zslice_in_range in H by lia.
Qed.

Lemma check_version_Panic c : checkCertificateVersion c = Panic -> x509_to_der c = None.
Proof.
  unfold checkCertificateVersion. destruct (x509_to_der c) as [der|]; [|done].
  intros [?|(ext & _ & H)]%fbind_Panic; [by destruct (or_err_safe _ _ ltac:(eassumption))|].
  destruct (list_find _ ext) as [[_ [_ v]]|]; [|done]. exfalso. revert H. unfold check_version_value.
  destruct (len v =? 4) eqn:Hl; [|done]. cbn [andb]. case_bool_decide; [|done].
  intros [?|(u & _ & H1)]%fbind_Panic; [done|].
  apply fbind_Panic in H1 as [H1|(z & _ & H1)]; [|by destruct (negb _)]. revert H1. apply Z.eqb_eq in Hl.
  unfold len in Hl. destruct v as [|? [|? [|? [|? [|]]]]]; cbn in Hl; try lia. done.
Qed.

Lemma read_file_safe p tr : ~ path (read_file p) tr Panic.
Proof.
  unfold read_file. intros (r & t1 & t2 & -> & _ & [_ H]%path_spure)%path_bind. by destruct r.
Qed.

(** Past a step that does not panic. *)
Lemma sdk_past {A B} (m : sdk A) (k : A -> sdk B) tr :
  (forall t, ~ path m t Panic) -> path (sdkbind m k) tr Panic ->
  exists a t1 t2, tr = t1 ++ t2 /\ path m t1 (Done (Ok a)) /\ path (k a) t2 Panic.
Proof. intros Hm [H|H]%path_sdkbind_Panic; [by destruct (Hm _ H)|done]. Qed.

Lemma spure_safe {A} (m : fps A) t : m <> Panic -> ~ path (spure m) t Panic.
Proof. by intros Hm [_ H]%path_spure. Qed.

Lemma parse_key_safe b : parsePrivateKey b <> Panic.
Proof. unfold parsePrivateKey. destruct (rsa_from_der b); [done|apply or_err_safe]. Qed.

Lemma validate_key_safe c k : validatePrivateKey c k <> Panic.
Proof.
  unfold validatePrivateKey. intros [?|(n & _ & H)]%fbind_Panic;
    [by destruct (or_err_safe _ _ ltac:(eassumption))|]. by destruct (_ =? _).
Qed.

Create HintDb certs.
#[local] Hint Resolve read_file_safe spure_safe or_err_safe parse_key_safe validate_key_safe : certs.

Ltac past H := apply sdk_past in H as (? & ? & ? & -> & _ & H); [|solve [auto with certs]].

Lemma bundle_panics parent m bundle tr :
  path (generateCertBundleHashes parent m bundle) tr Panic -> unencodable_read tr.
Proof.
  unfold generateCertBundleHashes. intros H.
  apply sdk_past in H as (b & t1 & t2 & -> & ->%path_read_file & H); [|auto with certs].
  eexists _, b. split; [by left|].
  apply path_sdkbind_Panic in H as [[_ H]%path_spure|([c1 c2] & t3 & t4 & -> & [_ Hp]%path_spure & H)].
  { by apply parse_bundle_Panic. }
  symmetry in Hp. apply bundle_parsed in Hp as (der & H1 & H2 & H3).
  apply path_sdkbind_Panic in H as [[_ H]%path_spure|(? & ? & ? & -> & _ & H)].
  { symmetry in H. apply check_version_Panic in H. exists c1, der. split_and!; [done..|]. right. by exists c2. }
  exfalso. do 9 past H. by apply path_spure in H as [_ ?].
Qed.

Lemma legacy_safe parent m legacy tr : ~ path (generateLegacyCertHash parent m legacy) tr Panic.
Proof.
  unfold generateLegacyCertHash. intros H. past H.
  apply sdk_past in H as (? & ? & ? & -> & _ & H);
    [|intros t; apply spure_safe; destruct (x509_from_der _); [done|apply or_err_safe]].
  do 3 past H.
  apply sdk_past in H as (? & ? & ? & -> & _ & H);
    [|intros t; apply spure_safe; destruct (hex_decode _); [done|apply or_err_safe]].
  apply sdk_past in H as (? & ? & ? & -> & _ & H);
    [|intros t; apply spure_safe; by destruct (_ =? _)].
  by apply path_spure in H as [_ ?].
Qed.

Lemma unencodable_read_app t1 t2 : unencodable_read t2 -> unencodable_read (t1 ++ t2).
Proof. intros (p & b & Hin & Hb). exists p, b. rewrite elem_of_app. auto. Qed.

Lemma add_certificates_panics parent l m tr :
  path (add_certificates parent l m) tr Panic -> unencodable_read tr.
Proof.
  revert m tr. induction l as [|[bundle|legacy] l IH]; intros m tr H; cbn [add_certificates] in H.
  - by apply path_spure in H as [_ ?].
  - apply path_sdkbind_Panic in H as [H|(m1 & t1 & t2 & -> & _ & H)]; [by eapply bundle_panics|].
    by eapply unencodable_read_app, IH.
  - apply path_sdkbind_Panic in H as [H|(m1 & t1 & t2 & -> & _ & H)]; [by apply legacy_safe in H|].
    by eapply unencodable_read_app, IH.
Qed.

Lemma read_certificates_panics tr : path readCertificates tr Panic -> unencodable_read tr.
Proof.
  unfold readCertificates. intros (p & t1 & t2 & -> & _ & H)%path_bind. cbv zeta in H.
  do 3 past H. repeat apply unencodable_read_app. by eapply add_certificates_panics.
Qed.
End Certificates.

(** ** Operations *)

(** What parsing guarantees of the asset of an operation. *)
Definition asset_ok (a : AssetInfo) : Prop :=
  length (key a) = 16%nat /\ length (iv a) = 16%nat /\ (is_Some (streamId a) <-> is_Some (titleId a)).

Lemma default_asset_ok : asset_ok default_asset_info.
Proof. split_and!; [done..|]. cbn. split; by intros [? ?]. Qed.

Section Operations.
Context {crypto : FpsCrypto} {laws : FpsCryptoLaws} {crates : CertCrates} {json : SdkJson}.

Lemma parse_key_len f obj old b s : parse_key f obj old = Some (b, s) -> length b = 16%nat.
Proof.
  unfold parse_key. destruct (as_str _); [|done]. intros [= H]. destruct (hex_field _ _); simplify_eq;
    apply length_vec_resize.
Qed.

Lemma offline_paired m a a' s :
  parseOfflineHLS m a = Done (a', s) ->
  key a' = key a /\ iv a' = iv a /\ (s = Ok tt -> is_Some (streamId a') <-> is_Some (titleId a')).
Proof.
  unfold parseOfflineHLS. destruct (offline_id "stream-id" _ _) as [si|]; [|done].
  destruct (offline_id "title-id" _ _) as [ti|]; [|done]. cbn [obind]. intros [= <- <-].
  split_and!; [done..|]. unfold verifyOfflineHLS. cbn. unfold RecordSettersUsingExistingGetters.const.
  destruct (Bool.eqb _ _) eqn:E; [|done]. intros _. apply eqb_prop in E.
  rewrite <- (bool_decide_eq_true (is_Some si)), <- (bool_decide_eq_true (is_Some ti)). by rewrite E.
Qed.

Lemma status_after_Ok s r : status_after s r = Ok tt -> s = Ok tt /\ r = Ok tt.
Proof. destruct r as [[]|]; cbn; [done|done]. Qed.

Lemma parse_hdcp_frame obj a a' s :
  parse_hdcp obj a = (a', s) ->
  key a' = key a /\ iv a' = iv a /\ streamId a' = streamId a /\ titleId a' = titleId a.
Proof.
  unfold parse_hdcp, parseHDCPType. intros H. repeat case_match; simplify_eq; done.
Qed.

Lemma parse_asset_info_ok obj a :
  parseAssetInfo obj default_asset_info = Done (a, Ok tt) -> asset_ok a.
Proof.
  unfold parseAssetInfo. set (a0 := default_asset_info <| isCKProvided := _ |> <| key ::= _ |> <| iv ::= _ |> <| leaseDuration := _ |>).
  assert (length (key a0) = 16%nat /\ length (iv a0) = 16%nat) as [Hk Hv].
  { unfold a0. cbn. split.
    - destruct (parse_key "content-key" _ _) as [[b s]|] eqn:E; [by apply parse_key_len in E|done].
    - destruct (parse_key "content-iv" _ _) as [[b s]|] eqn:E; [by apply parse_key_len in E|done]. }
  intros H. apply obind_Done in H as ([a1 s1] & Ho & H).
  destruct (parse_hdcp obj a1) as [a2 s2] eqn:Eh. apply parse_hdcp_frame in Eh as (E1 & E2 & E3 & E4).
  injection H as <- Hst. apply status_after_Ok in Hst as [Hst _]. apply status_after_Ok in Hst as [_ ->].
  unfold asset_ok, parseAssetInfoCustom. cbn. rewrite E1, E2, E3, E4.
  destruct (as_object _) as [m|].
  - apply offline_paired in Ho as (-> & -> & Hp). cbn. auto.
  - injection Ho as <-. split_and!; [done..|]. unfold a0. cbn. split; by intros [? ?].
Qed.

Lemma parse_asset_ok obj st a st' : parse_asset obj st = Done (Ok (a, st')) -> asset_ok a.
Proof.
  unfold parse_asset. destruct (as_array _) as [[|y [|]]|]; intros H.
  2: { apply fbind_Ok in H as ([a1 s1] & Hp & H). apply (proj1 (fdo_Ok _ _)) in Hp.
       destruct s1 as [[]|]; [|done]. apply (proj1 (fret_Ok _ _)) in H. simplify_eq.
       by apply parse_asset_info_ok in Hp. }
  all: apply (proj1 (fret_Ok _ _)) in H; simplify_eq; apply default_asset_ok.
Qed.

Lemma parse_operation_ok t obj op : parseOperation t obj = Done (Ok op) -> asset_ok (assetInfo op).
Proof.
  unfold parseOperation. destruct (parse_spc obj) as [sp st]. destruct t; intros H.
  - apply fbind_Ok in H as ([a st'] & Ha%parse_asset_ok & H). fps_inv. by subst op.
  - fps_inv. subst op. apply default_asset_ok.
Qed.

Lemma parse_all_ok t objs ops : parse_all t objs = Done (Ok ops) -> Forall (fun op => asset_ok (assetInfo op)) ops.
Proof.
  revert ops. induction objs as [|obj objs IH]; intros ops H; cbn [parse_all] in H; fps_inv; subst ops; [done|].
  constructor; [by eapply parse_operation_ok|auto].
Qed.

Lemma parse_operations_ok v ops :
  parseOperations v = Done (Ok ops) -> Forall (fun op => asset_ok (assetInfo op)) ops.
Proof.
  unfold parseOperations. intros H. fps_inv. destruct (map_get "create-ckc" x).
  - fps_inv. by eapply parse_all_ok.
  - destruct (map_get "get-client-info" x); fps_inv; by eapply parse_all_ok.
Qed.
End Operations.

(** ** Invariants of the data of a request *)

(** A property that every parser of a tag keeps and that the rest of the parsing does not
    see. *)
Record kept (P : FPSServerSPCData -> Prop) : Prop := {
  kept_tag : forall g t d d', tag_parser g t d = Done (Ok d') -> P d -> P d';
  kept_parser : forall f d, P d -> P (d <| spcDataParser ::= f |>);
  kept_return : forall r d, P d -> P (d <| returnTLLVs := r |>);
  kept_asset : forall f d, P d -> P (d <| spcAssetInfo ::= f |>);
  kept_features : forall b f d, P d -> P (d <| clientCapabilities := b |> <| clientFeatures := f |>);
}.

Lemma kept_list P ts d d' : kept P -> parse_list ts d = Done (Ok d') -> P d -> P d'.
Proof.
  intros [Ht Hp _ _ _]. revert d. induction ts as [|t ts IH]; intros d H Hd; cbn [parse_list] in H.
  - fps_inv. by subst.
  - apply fbind_Ok in H as (d1 & Hd1 & H). apply IH in H; [done|]. unfold push_tllv. apply Hp.
    unfold parseTLLV in Hd1. apply require_bind in Hd1 as [_ Hd1]. eapply Ht; [exact Hd1|]. by apply Hp.
Qed.

Lemma kept_spc {crypto : FpsCrypto} {laws : FpsCryptoLaws} P certs spc c :
  kept P -> P default_spc_data -> parseSPC certs spc default_spc_container = Done (Ok c) -> P (spcData c).
Proof.
  intros HP Hd H. unfold parseSPC in H. apply fbind_Ok in H as (c1 & H1 & H).
  apply fbind_Ok in H as (c2 & H2 & H). apply fbind_Ok in H as (c3 & H3 & H).
  destruct (container_decrypted certs spc default_spc_container _ _ eq_refl H1 H2) as [Hdec E].
  apply parse_data_stream in H3 as (ts & _ & H3); [|done]. unfold parse_data_list in H3.
  rewrite E in H3. fps_inv. subst c3. unfold checkSupportedFeatures in H. fps_inv. subst c. cbn.
  apply (kept_features P HP). unfold set_offset. apply (kept_parser P HP).
  unfold extractReturnTags in *. fps_inv. subst. apply (kept_return P HP).
  eapply kept_list; [done..|]. unfold fresh_data. apply (kept_asset P HP), (kept_parser P HP), Hd.
Qed.

(** The formats and their number. *)
Definition formats_counted (d : FPSServerSPCData) : Prop :=
  formats_ok d /\ 0 <= numberOfSupportedKeyFormats d <= FPS_MAX_KEY_FORMATS.

Lemma formats_kept : kept formats_counted.
Proof.
  split; try done. intros g t d d' H [Hf Hn]. pose proof H as Hf'%tag_parser_formats; [|done].
  split; [done|]. clear Hf'. tag_cases H; subst; try done. cbn.
  unfold RecordSettersUsingExistingGetters.const.
  match goal with H : readBigEndianU32 _ 8 = _ |- _ => apply readBigEndian_range in H; [|lia..] end. lia.
Qed.

(** The identifiers in the synchronization data. *)
Definition sync_ok (s : FPSOfflineSyncData) : Prop :=
  (syncFlags s <> 0 -> len (syncTitleId s) = FPS_MAX_TITLE_ID_LENGTH) /\
  0 <= recordsDeleted s /\
  (deletedStreamIDs s <> [] -> len (deletedStreamIDs s) = recordsDeleted s * FPS_OFFLINE_CONTENTID_LENGTH).

Lemma sync_kept : kept (fun d => sync_ok (offlineSyncData d)).
Proof.
  split; try done. intros g t d d' H Hd. tag_cases H; subst; try done.
  match goal with H : (if _ then _ else _) = Done (Ok ?x) |- _ => rename H into Hs; rename x into s end.
  change (sync_ok s). destruct (_ =? 1); [fps_inv; subst; done|]. destruct (_ =? 2); [|fps_inv; subst; done].
  fps_inv. match goal with H : readBytes _ 24 _ = _ |- _ =>
    apply readBytes_Ok in H as [? ->]; [|fps_lia] end.
  match goal with H : readBigEndianU32 _ 44 = _ |- _ => apply readBigEndian_range in H; [|lia..] end.
  destruct (0 <? _) eqn:E; fps_inv; subst; (split; [intros _; cbn; by rewrite len_take_drop by fps_lia|]);
    (split; [cbn; lia|]); [|done].
  intros _. cbn. unfold RecordSettersUsingExistingGetters.const. match goal with H : readBytes _ 48 _ = _ |- _ =>
    apply readBytes_Ok in H as [? ->]; [|fps_lia] end. by rewrite len_take_drop by fps_lia.
Qed.

(** ** Buffers for the key library *)

Section Buffers.
Context {crypto : FpsCrypto} {laws : FpsCryptoLaws}.

Lemma container_hash m spc c c' :
  certs_ok m -> parseSPCContainer (Some m) spc c = Done (Ok c') -> len (certificateHash c') = 20.
Proof.
  intros [_ Hm] H. unfold parseSPCContainer in H. apply fbind_Ok in H as (version & _ & H).
  apply fbind_Ok in H as (reserved & _ & H). destruct (version =? 3).
  - unfold parseSPCV3Header, data_in_spc in H. fps_inv. subst c'. cbn.
    match goal with H : matchSha1withSha256 _ _ = _ |- _ => unfold matchSha1withSha256 in H; rename H into Hc end.
    destruct (cert_convert_map m !! _) as [v|] eqn:E; [|done].
    apply Hm in E as (_ & b & _ & ->). rewrite hex_encode_decode in Hc. fps_inv. subst. cbn.
    apply sha1_len.
  - apply require_bind in H as [Hv H]. apply orb_true_iff in Hv.
    apply fbind_Ok in H as (iv & _ & H). apply fbind_Ok in H as (wrapped & _ & H).
    apply fbind_Ok in H as (hash & Hh & H). unfold data_in_spc in H. fps_inv. subst c'.
    change (len hash = 20). apply readBytes_Ok in Hh as [Hl ->].
    + destruct Hv as [->%Z.eqb_eq | ->%Z.eqb_eq]; (rewrite len_take_drop; [done|by vm_compute|by vm_compute|exact Hl]).
    + destruct Hv as [->%Z.eqb_eq | ->%Z.eqb_eq]; by vm_compute.
Qed.

Lemma parse_spc_hash m spc c :
  certs_ok m -> parseSPC (Some m) spc default_spc_container = Done (Ok c) -> len (certificateHash c) = 20.
Proof.
  intros Hm H. unfold parseSPC in H. apply fbind_Ok in H as (c1 & H1 & H).
  apply fbind_Ok in H as (c2 & H2 & H). apply fbind_Ok in H as (c3 & H3 & H).
  pose proof H1 as Hh%container_hash; [|done]. pose proof H1 as [Hb _]%container_range.
  apply (decrypt_Ok _ _ _ _ _ Hb) in H2 as (key & iv & data & -> & _ & _ & _).
  unfold parseSPCData in H3. fps_inv. subst c3. unfold checkSupportedFeatures in H. fps_inv. by subst c.
Qed.

(** Each buffer with its declared length. *)
Definition declared (b : bytes * Z) : Prop := b.2 = len b.1.

Record declared_lengths (p : KSMKeyPayload) : Prop := {
  dl_key : declared (contentKey p) /\ (contentKey p).2 = 16;
  dl_iv : declared (contentIV p) /\ (contentIV p).2 = 16;
  dl_session : declared (SK_R1 p) /\ declared (R2 p) /\ declared (R1Integrity p);
  dl_formats : 0 < (ksmKeyFormats p).2 <= Z.of_nat (length (ksmKeyFormats p).1);
  dl_certificate : declared (ksmProvisioningData p) /\ declared (certHash p) /\ (certHash p).2 = 20;
  dl_output : declared (clientHU p) /\ declared (ksmPayloadBuffer p) /\ declared (R1Buffer p);
  dl_video : declared (SK_R1Video p) /\ declared (R2Video p);
}.

Lemma default_formats_counted d :
  formats_counted d -> 0 < numberOfSupportedKeyFormats (default_formats d)
    <= Z.of_nat (length (supportedKeyFormats (default_formats d))).
Proof.
  intros [Hf Hn]. unfold formats_ok in Hf. unfold default_formats.
  destruct (Z.eqb_spec (numberOfSupportedKeyFormats d) 0).
  - cbn. unfold RecordSettersUsingExistingGetters.const. rewrite length_insert, Hf. fps_lia.
  - rewrite Hf. fps_lia.
Qed.

(** C36: the buffers passed by pointer to the key library, for an operation that could be parsed
    and a request that was accepted with certificates read from files, have exactly the lengths
    they are declared to have, and there are as many key formats as are announced. *)
Theorem library_buffers {crates : CertCrates} v ops op tr m c prov :
  parseOperations v = Done (Ok ops) -> op ∈ ops -> path readCertificates tr (Done (Ok m)) ->
  parseSPC (Some m) (spc op) default_spc_container = Done (Ok c) ->
  declared_lengths (library_call (assetInfo op) prov c).
Proof.
  intros Hops%parse_operations_ok Hin Hm%read_certificates_ok Hc.
  rewrite Forall_forall in Hops. destruct (Hops op Hin) as (Hk & Hv & _).
  pose proof (parse_spc_hash _ _ _ Hm Hc) as Hh.
  assert (formats_counted (spcData c)) as Hf
    by (eapply kept_spc; [apply formats_kept| |done]; split; by vm_compute).
  split; unfold library_call, key_payload, declared, with_len; cbn.
  - unfold len. by rewrite Hk.
  - unfold len. by rewrite Hv.
  - done.
  - by apply default_formats_counted.
  - by rewrite Hh.
  - done.
  - by destruct (_ && _).
Qed.
End Buffers.

(** ** Panics *)

(** Executions that do not panic. *)
Definition sdk_safe {A} (m : sdk A) : Prop := forall tr, ~ path m tr Panic.

Lemma sdk_safe_pure {A} (m : fps A) : fsafe m -> sdk_safe (spure m).
Proof. intros Hm tr [_ H]%path_spure. by apply Hm. Qed.

Lemma sdk_safe_bind {A B} (m : sdk A) (k : A -> sdk B) :
  sdk_safe m -> (forall a tr, path m tr (Done (Ok a)) -> sdk_safe (k a)) -> sdk_safe (sdkbind m k).
Proof.
  intros Hm Hk tr [H|(a & t1 & t2 & -> & H1 & H2)]%path_sdkbind_Panic; [by apply Hm in H|].
  by eapply Hk.
Qed.

Lemma sdk_safe_pure_bind {A B} (m : fps A) (k : A -> sdk B) :
  fsafe m -> (forall a, m = Done (Ok a) -> sdk_safe (k a)) -> sdk_safe (sdkbind (spure m) k).
Proof.
  intros Hm Hk. apply sdk_safe_bind; [by apply sdk_safe_pure|]. intros a tr [_ H]%path_spure. by apply Hk.
Qed.

(** ** Writing TLLVs *)

(** Steps that always succeed and change only the data written. *)
Definition writes (m : sdk FPSServerCtx) (ctx : FPSServerCtx) : Prop :=
  forall tr r, path m tr r -> exists p, r = Done (Ok (ctx <| ckcContainer ::= fun c => c <| ckcDataPtr := p |> |>)).

Lemma serialize_writes g v c tr r :
  path (serializeTLLV g v c) tr r -> exists p, r = Done (Ok (c <| ckcDataPtr := p |>)).
Proof.
  unfold serializeTLLV, sdkbind.
  intros (o & t1 & t2 & -> & (extra & -> & _)%path_genRandom & H)%path_bind.
  apply path_bind in H as (o2 & t3 & t4 & -> & (padding & -> & _)%path_genRandom & H).
  apply path_spure in H as [_ ->]. eauto.
Qed.

Lemma serialize_all_writes ts c tr r :
  path (serialize_all ts c) tr r -> exists p, r = Done (Ok (c <| ckcDataPtr := p |>)).
Proof.
  revert c tr. induction ts as [|t ts IH]; intros c tr; cbn [serialize_all].
  - intros [_ ->]%path_spure. exists (ckcDataPtr c). by destruct c.
  - unfold sdkbind. intros (o & t1 & t2 & -> & (p & ->)%serialize_writes & H)%path_bind.
    apply IH in H as (p' & ->). exists p'. by destruct c.
Qed.

Lemma on_ckc_writes ctx m :
  (forall tr r, path m tr r -> exists p, r = Done (Ok ((ckcContainer ctx) <| ckcDataPtr := p |>))) ->
  writes (on_ckc ctx m) ctx.
Proof.
  intros Hm tr r. unfold on_ckc, sdkbind. intros (o & t1 & t2 & -> & (p & ->)%Hm & H)%path_bind.
  apply path_spure in H as [_ ->]. exists p. by destruct ctx.
Qed.

Lemma hdcp_writes ctx : writes (populateTagServerHDCPInformation ctx) ctx.
Proof.
  intros tr r. unfold populateTagServerHDCPInformation, sdkbind.
  intros (o & t1 & t2 & -> & (b & -> & _)%path_append_random & H)%path_bind.
  eapply on_ckc_writes, H. apply serialize_writes.
Qed.

(** After a step that writes. *)
Lemma writes_bind {B} (m : sdk FPSServerCtx) ctx (k : FPSServerCtx -> sdk B) :
  writes m ctx -> (forall p, sdk_safe (k (ctx <| ckcContainer ::= fun c => c <| ckcDataPtr := p |> |>))) ->
  sdk_safe (sdkbind m k).
Proof.
  intros Hm Hk. apply sdk_safe_bind.
  - intros tr H. by apply Hm in H as (p & H).
  - intros a tr H. apply Hm in H as (p & [= ->]). apply Hk.
Qed.

(** Of the two identifiers of an offline key the title is there if the stream is. *)
Definition titled (i : FPSServerCKCAssetInfo) : Prop := is_Some (ckcStreamId i) -> is_Some (ckcTitleId i).

Lemma offline_value_safe f i : titled i -> fsafe (offline_key_value f i).
Proof.
  intros Hi. unfold offline_key_value. apply fsafe_require. intros _.
  destruct (ckcTitleId i) as [t|] eqn:Et; [by destruct (_ || _)|].
  destruct (ckcStreamId i) as [s|] eqn:Es; [|done].
  destruct Hi as [? Hi]; [by rewrite Es|]. congruence.
Qed.

Lemma terms_safe ctx : titled (asset_of ctx) -> sdk_safe (populateTagsCustom ctx).
Proof.
  intros Hi tr H%path_terms. unfold terms_tllvs in H. revert H.
  destruct (_ && _); [destruct (_ && _)|]; [|by intros (? & ? & _)..].
  destruct (offline_key_value _ _) eqn:E; [|by apply offline_value_safe in E].
  destruct a; cbn; [by intros (? & ? & _)|done].
Qed.

Lemma populate_safe ctx : titled (asset_of ctx) -> sdk_safe (populateCKCTLLVs ctx).
Proof.
  intros Hi. unfold populateCKCTLLVs.
  apply (writes_bind _ ctx); [apply on_ckc_writes, serialize_writes|]. intros p1.
  eapply writes_bind; [apply on_ckc_writes, serialize_writes|]. intros p2.
  eapply writes_bind; [apply on_ckc_writes, serialize_all_writes|]. intros p3.
  eapply writes_bind; [apply on_ckc_writes, serialize_writes|]. intros p4.
  eapply writes_bind; [apply hdcp_writes|]. intros p5.
  eapply writes_bind; [apply on_ckc_writes, serialize_writes|]. intros p6.
  by apply terms_safe.
Qed.

Section Panics.
Context {crypto : FpsCrypto} {laws : FpsCryptoLaws} (arch : string) (certs : option Certificates).

Lemma spc_sync spc c :
  parseSPC certs spc default_spc_container = Done (Ok c) -> sync_ok (offlineSyncData (spcData c)).
Proof. intros H. eapply (kept_spc _ _ _ _ sync_kept); [|exact H]. by vm_compute. Qed.

Lemma generate_safe ctx : titled (asset_of ctx) -> sdk_safe (generateCKC arch ctx).
Proof.
  intros Hi. unfold generateCKC. apply sdk_safe_bind; [by intros tr (? & ? & _)%path_genRandom|].
  intros iv _ _. apply sdk_safe_bind; [by apply populate_safe|]. intros ctx1 _ _.
  apply sdk_safe_pure_bind.
  { unfold deriveAntiReplayKey. do 2 (apply fsafe_require; intros _). apply fsafe_bind; [|done].
    unfold fsafe, fdo. by rewrite zslice_in_range by (rewrite ?sha1_len; lia). }
  intros key _. apply sdk_safe_pure_bind.
  { unfold encryptCKCData. apply fsafe_bind; [apply aes_safe|done]. }
  intros c _. apply sdk_safe_pure_bind; [|intros; by apply sdk_safe_pure].
  unfold serializeCKCContainer. by apply fsafe_require.
Qed.

Lemma rules_safe op ctx : fsafe (validateRequestCustom op ctx).
Proof.
  unfold validateRequestCustom, checkBusinessRules, check_content_type.
  destruct (operationType op); [|done]. fps_safe. destruct (contentType (assetInfo op)); fps_safe.
Qed.

Lemma populate_result_safe ctx op r :
  sync_ok (offlineSyncData (spcData (spcContainer ctx))) -> fsafe (populateServerCtxResult ctx op r).
Proof.
  intros [Ht _]. unfold populateServerCtxResult. destruct (_ && _) eqn:E; [|done].
  apply andb_true_iff in E as [_ E]. apply fsafe_bind; [|done]. unfold fsafe, fdo.
  rewrite zslice_in_range; [done|fps_lia|]. rewrite Ht; [lia|]. intros E0. by rewrite E0 in E.
Qed.

Lemma granted_titled op d level :
  asset_ok (assetInfo op) ->
  titled (checked_in (isCheckIn op) d (ckc_asset_info (assetInfo op)
    ((asset_of default_server_ctx) <| requiredSecurityLevel := level |>))).
Proof.
  intros (_ & _ & Hp). unfold titled, checked_in, ckc_asset_info.
  destruct (isCheckIn op && _), (licenseType _ =? _), (negb _); cbn;
    destruct (streamId (assetInfo op)), (titleId (assetInfo op)); naive_solver.
Qed.

Lemma create_safe op r : asset_ok (assetInfo op) -> sdk_safe (createResults arch certs op r).
Proof.
  intros Ha. unfold createResults, genCKCWithCKAndIV.
  apply sdk_safe_pure_bind; [apply readBigEndian_safe; lia|]. intros version _.
  destruct (_ || _); [|by apply sdk_safe_pure].
  apply sdk_safe_pure_bind; [by apply parse_spc_safe|]. intros c Hc.
  pose proof (spc_sync _ _ Hc) as Hs.
  apply sdk_safe_pure_bind; [apply rules_safe|]. intros ctx1 H1.
  assert (exists level, ctx1 = default_server_ctx <| spcContainer := c |>
    <| ckcContainer ::= set_asset (fun i => i <| requiredSecurityLevel := level |>) |>) as [level ->].
  { unfold validateRequestCustom in H1. destruct (operationType op).
    - apply rules_spec in H1 as (level & _ & ->). by exists level.
    - apply (proj1 (fret_Ok _ _)) in H1. subst ctx1. by exists levelMain. }
  apply sdk_safe_pure_bind; [by apply populate_result_safe|]. intros [ctx2 r2] ->%populate_Ok.
  unfold createContentKeyPayloadCustom.
  apply sdk_safe_bind.
  - apply sdk_safe_bind; [|intros; by apply sdk_safe_pure]. unfold createContentKeyPayloadCustomImpl.
    apply sdk_safe_pure_bind; [unfold getProvisioningData, cert_info; by repeat case_match|].
    intros prov _ tr (ans & t1 & t2 & -> & _ & H)%path_bind. revert H. apply sdk_safe_pure.
    unfold key_answer. fps_safe.
  - intros [ctx3 r3] tr H. apply path_sdkbind_Ok in H as (ctx4 & t1 & t2 & -> & H & Hr).
    apply path_spure in Hr as [-> Hr]. symmetry in Hr. apply (proj1 (fret_Ok _ _)) in Hr. simplify_eq.
    apply path_library in H as (prov & ans & _ & -> & H).
    apply (key_answer_Ok ans op c level) in H as (_ & _ & ->).
    destruct (_ && _); [|by apply sdk_safe_pure].
    apply sdk_safe_bind; [|intros; by apply sdk_safe_pure]. apply generate_safe.
    by apply (granted_titled op (spcData c) level).
Qed.

(** ** Results *)

Definition ids_complete (s : FPSOfflineSyncData) : Prop :=
  deletedStreamIDs s <> [] -> len (deletedStreamIDs s) = recordsDeleted s * FPS_OFFLINE_CONTENTID_LENGTH.

Lemma populate_sync ctx op r ctx' r' :
  populateServerCtxResult ctx op r = Done (Ok (ctx', r')) ->
  ids_complete (offlineSyncData (spcData (spcContainer ctx))) -> ids_complete (resultSyncData r').
Proof. unfold populateServerCtxResult. destruct (_ && _); intros H Hs; fps_inv; by simplify_eq. Qed.

Lemma created_sync op r tr r' :
  path (createResults arch certs op r) tr (Done (Ok r')) -> ids_complete (resultSyncData r').
Proof.
  unfold createResults, genCKCWithCKAndIV. intros H.
  apply path_sdkbind_Ok in H as (version & ? & ? & -> & _ & H).
  destruct (_ || _); [|by apply path_spure in H as [_ ?]].
  apply path_sdkbind_Ok in H as (c & ? & ? & -> & Hc & H). apply path_spure in Hc as [-> Hc].
  assert (ids_complete (offlineSyncData (spcData c))) as Hs
    by (symmetry in Hc; apply spc_sync in Hc as (_ & _ & Hc); exact Hc).
  apply path_sdkbind_Ok in H as (ctx1 & ? & ? & -> & H1 & H). apply path_spure in H1 as [-> H1].
  assert (spcContainer ctx1 = c) as Ec.
  { unfold validateRequestCustom in H1. destruct (operationType op); symmetry in H1.
    - apply rules_spec in H1 as (level & _ & ->). done.
    - apply (proj1 (fret_Ok _ _)) in H1. by subst ctx1. }
  apply path_sdkbind_Ok in H as ([ctx2 r2] & ? & ? & -> & H2 & H). apply path_spure in H2 as [-> H2].
  symmetry in H2. apply populate_sync in H2; [|by rewrite Ec].
  apply path_sdkbind_Ok in H as ([ctx3 r3] & ? & ? & -> & H3 & H).
  unfold createContentKeyPayloadCustom in H3. apply path_sdkbind_Ok in H3 as (ctx4 & ? & ? & -> & _ & H3).
  apply path_spure in H3 as [-> H3]. injection H3 as -> ->.
  destruct (_ && _); [apply path_sdkbind_Ok in H as (ctx5 & ? & ? & -> & _ & H)|];
    apply path_spure in H as [-> H]; injection H as ->; exact H2.
Qed.

Lemma stream_ids_safe n i ids :
  0 <= i -> (i + Z.of_nat n) * FPS_OFFLINE_CONTENTID_LENGTH <= len ids -> stream_ids n i ids <> Panic.
Proof.
  revert i. induction n as [|n IH]; intros i Hi Hl; cbn [stream_ids]; [done|].
  rewrite zslice_in_range by fps_lia. cbn [obind].
  destruct (stream_ids n (i + 1) ids) eqn:E; [done|]. by apply IH in E; [|lia|fps_lia].
Qed.

Context {crates : CertCrates}.

Lemma result_json_safe r : ids_complete (resultSyncData r) -> result_json r <> Panic.
Proof.
  intros Hs. unfold result_json. case_bool_decide; [|done].
  destruct (0 <? syncVersion (resultSyncData r)); [|done]. unfold offline_sync_json.
  destruct (2 <=? _); [|done]. destruct (_ && _) eqn:E; [|done].
  apply andb_true_iff in E as [E1 E2]. apply negb_true_iff, bool_decide_eq_false in E2.
  apply Z.ltb_lt in E1. specialize (Hs E2). destruct (stream_ids _ _ _) eqn:E; [done|].
  apply stream_ids_safe in E; [done|lia|]. rewrite Hs, Z.add_0_l, Z2Nat.id by lia. lia.
Qed.

Lemma results_json_safe rs :
  Forall (fun r => ids_complete (resultSyncData r)) rs -> results_json rs <> Panic.
Proof.
  intros Hrs. unfold results_json. assert (results_array rs <> Panic) as Ha.
  { induction Hrs as [|r rs Hr _ IH]; cbn [results_array]; [done|].
    destruct (result_json r) eqn:E; [|by apply result_json_safe in E]. cbn [obind].
    by destruct (results_array rs). }
  by destruct (results_array rs).
Qed.
End Panics.

Section Interface.
Context {crypto : FpsCrypto} {laws : FpsCryptoLaws} {crates : CertCrates} {json : SdkJson} (arch : string).

Lemma process_operation_safe certs op tr o :
  asset_ok (assetInfo op) -> path (process_operation arch certs op) tr o ->
  exists r, o = Done r /\ ids_complete (resultSyncData r).
Proof.
  intros Ha. unfold process_operation. intros (x & t1 & t2 & -> & H & [-> <-]%path_ret)%path_bind.
  destruct x as [[r|e]|].
  - eexists. split; [done|]. by apply created_sync in H.
  - eexists. split; [done|]. by vm_compute.
  - by apply create_safe in H.
Qed.

Lemma process_all_safe certs ops tr o :
  Forall (fun op => asset_ok (assetInfo op)) ops -> path (process_all arch certs ops) tr o ->
  exists rs, o = Done rs /\ Forall (fun r => ids_complete (resultSyncData r)) rs.
Proof.
  intros Hops. revert tr o. induction Hops as [|op ops Hop _ IH]; intros tr o; cbn [process_all].
  - intros [_ <-]%path_ret. by exists [].
  - intros (x & t1 & t2 & -> & (r & -> & Hr)%process_operation_safe & H)%path_bind; [|done].
    apply path_bind in H as (y & t3 & t4 & -> & (rs & -> & Hrs)%IH & [-> <-]%path_ret).
    exists (r :: rs). split; [done|]. by constructor.
Qed.

(** Identifiers of an offline license that are neither empty nor hexadecimal. *)
Definition bad_offline_id (v : Value) : Prop :=
  exists root objs obj x m k s,
    as_object (at_key "fairplay-streaming-request" v) = Some root /\
    map_get "create-ckc" root = Some (VArray objs) /\ obj ∈ objs /\
    as_array (at_key "asset-info" obj) = Some [x] /\ as_object (at_key "offline-hls" x) = Some m /\
    (k = "stream-id" \/ k = "title-id") /\ map_get k m = Some (VString s) /\
    s <> "" /\ hex_decode s = None.

Lemma offline_id_Panic k m old :
  offline_id k m old = Panic -> exists s, map_get k m = Some (VString s) /\ s <> "" /\ hex_decode s = None.
Proof.
  unfold offline_id. destruct (map_get k m) as [v|]; cbn; [|done].
  destruct v as [| | |s| |]; cbn; try done. case_bool_decide; [done|].
  destruct (hex_decode s) eqn:E; [done|]. intros _. by exists s.
Qed.

Lemma parse_asset_Panic obj st :
  parse_asset obj st = Panic ->
  exists x m k s, as_array (at_key "asset-info" obj) = Some [x] /\
    as_object (at_key "offline-hls" x) = Some m /\ (k = "stream-id" \/ k = "title-id") /\
    map_get k m = Some (VString s) /\ s <> "" /\ hex_decode s = None.
Proof.
  unfold parse_asset. destruct (as_array _) as [[|x [|]]|]; try done. intros H.
  destruct (parseAssetInfo x default_asset_info) as [[a [u|e]]|] eqn:E; [done..|]. clear H.
  unfold parseAssetInfo in E. destruct (as_object _) as [m|] eqn:Em.
  - unfold parseOfflineHLS in E.
    destruct (offline_id "stream-id" m _) as [si|] eqn:Es.
    + destruct (offline_id "title-id" m _) as [ti|] eqn:Et.
      * cbn [obind] in E. by destruct (parse_hdcp _ _).
      * apply offline_id_Panic in Et as (s & ? & ? & ?). exists x, m, "title-id", s. split_and!; auto.
    + apply offline_id_Panic in Es as (s & ? & ? & ?). exists x, m, "stream-id", s. split_and!; auto.
  - cbn [obind] in E. by destruct (parse_hdcp _ _).
Qed.

Lemma parse_operation_Panic t obj :
  parseOperation t obj = Panic -> t = createCKC /\ exists st, parse_asset obj st = Panic.
Proof.
  unfold parseOperation. destruct (parse_spc obj) as [sp st], t.
  - intros [H|([a st'] & _ & H)]%fbind_Panic; [by eauto|]. by destruct st'.
  - by destruct st.
Qed.

Lemma parse_all_Panic t objs :
  parse_all t objs = Panic -> t = createCKC /\ exists obj st, obj ∈ objs /\ parse_asset obj st = Panic.
Proof.
  induction objs as [|obj objs IH]; cbn [parse_all]; [done|].
  intros [H|(op & _ & [H|(ops & _ & H)]%fbind_Panic)]%fbind_Panic; [| |done].
  - apply parse_operation_Panic in H as (-> & st & H). split; [done|]. exists obj, st. split; [by left|done].
  - apply IH in H as (-> & o & st & Ho & H). split; [done|]. exists o, st. split; [by right|done].
Qed.

Lemma parse_operations_Panic v : parseOperations v = Panic -> bad_offline_id v.
Proof.
  unfold parseOperations. intros [H|(root & Hroot & H)]%fbind_Panic.
  { unfold or_err in H. by destruct (as_object _). }
  unfold or_err in Hroot. destruct (as_object _) as [root'|] eqn:Er; [|done].
  apply (proj1 (fret_Ok _ _)) in Hroot. subst root'.
  destruct (map_get "create-ckc" root) as [y|] eqn:Ec.
  - destruct y as [| | | |objs|]; try done. cbn in H.
    apply parse_all_Panic in H as (_ & obj & st & Hin & H).
    apply parse_asset_Panic in H as (x & m & k & s & H). unfold bad_offline_id.
    exists root, objs, obj, x, m, k, s. split_and!; try done; apply H.
  - destruct (map_get "get-client-info" root) as [y|]; [|done].
    destruct y as [| | | |objs|]; try done. cbn in H. by apply parse_all_Panic in H as [? _].
Qed.

Lemma process_caught_panics certs in_json tr :
  path (process_caught arch certs in_json) tr Panic ->
  sdk_from_str in_json = None \/ exists v, sdk_from_str in_json = Some v /\ bad_offline_id v.
Proof.
  unfold process_caught. destruct (sdk_from_str in_json) as [v|]; [|by left]. intros H.
  right. exists v. split; [done|]. apply path_bind in H as (o & t1 & t2 & -> & Ho & [-> H]%path_ret). unfold processOperations in Ho.
  destruct (parseOperations v) as [[ops|e]|] eqn:E; [| |by apply parse_operations_Panic].
  - apply process_all_safe in Ho as (rs & -> & Hrs); [|by eapply parse_operations_ok].
    cbn [obind] in H. pose proof (results_json_safe rs Hrs). by destruct (results_json rs).
  - apply path_ret in Ho as [_ <-]. cbn [obind] in H.
    assert (results_json [default_result <| status := e |>] <> Panic) as Hs
      by (apply results_json_safe; constructor; [by vm_compute|constructor]).
    by destruct (results_json _).
Qed.

(** The initialisation, which the first call runs. *)
Lemma sdk_init_runs st tr o :
  path (sdk_init st) tr o ->
  (exists st', o = Done st' /\ initialised st' = true /\ (initialised st = true -> st' = st)) \/
  (o = Panic /\ initialised st = false /\ unencodable_read tr).
Proof.
  unfold sdk_init. destruct (initialised st) eqn:Hi.
  - intros [-> <-]%path_ret. left. by exists st.
  - intros (r & t1 & t2 & -> & Hr & [-> <-]%path_ret)%path_bind. rewrite app_nil_r.
    destruct r as [[certs|e]|].
    + left. by eexists.
    + left. by eexists.
    + right. split; [done|]. split; [done|]. by apply read_certificates_panics.
Qed.

(** C37: what a call of the SDK can do, for every input and whether or not the SDK was used
    before.  It returns, with its answer or, for text that is not JSON and for identifiers of
    offline licenses that are not hexadecimal, with an internal error, and it leaves the
    certificates that were read as they are; or it is the first call, and reading the
    certificates panicked, outside of what is caught, on a bundle that holds a certificate
    that cannot be encoded again, or not in its length.  No request, random byte or answer of
    the key library makes it panic. *)
Theorem sdk_answers st in_json tr o :
  path (fpsProcessOperations arch st in_json) tr o ->
  (exists status out st', o = Done (status, out, st') /\
    initialised st' = true /\ (initialised st = true -> st' = st) /\
    (status = status_code noErr \/
     status = status_code internalErr /\ out = sdk_to_string json_fail /\
       (sdk_from_str in_json = None \/ exists v, sdk_from_str in_json = Some v /\ bad_offline_id v))) \/
  (o = Panic /\ initialised st = false /\ unencodable_read tr).
Proof.
  unfold fpsProcessOperations. intros (o1 & t1 & t2 & -> & Hi & H)%path_bind.
  apply sdk_init_runs in Hi as [(st' & -> & Hst & Hsame)|(-> & Hst & Hread)].
  - left. apply path_bind in H as (r & t3 & t4 & -> & Hr & [-> <-]%path_ret). destruct r as [out|].
    + do 3 eexists. split_and!; [done..|]. by left.
    + do 3 eexists. split_and!; [done..|]. right. split_and!; [done..|]. by eapply process_caught_panics.
  - right. apply path_ret in H as [-> <-]. by rewrite app_nil_r.
Qed.
End Interface.
