(* ===== verification/FpsWrapper.v ===== *)
(** * The wrapper on top of the SDK

    [process_spc] of the wrapper with its call of the SDK answered by the SDK.  The JSON
    libraries on the two sides are related by [JsonAgree]. *)
From coqutil Require Import Datatypes.RecordSettersUsingExistingGetters.
From S2P Require Import Prelude RustStr Json Services FpsTypes FpsSpc FpsSpcProps FpsRequest FpsCkc FpsCkcProps.
From S2P Require Import FpsLicense FpsCerts FpsSdk FpsSdkProps FairPlay.
From stdpp Require Import list gmap strings.

#[local] Open Scope string_scope.
#[local] Open Scope list_scope.
#[local] Open Scope Z_scope.
#[local] Open Scope rust_scope.

(** Each side reads the values that the other side has written. *)
Class JsonAgree {crates : FpsCrates} {json : SdkJson} := {
  agree_request : forall v s, fps_to_string v = Ok s -> sdk_from_str s = Some v;
  agree_response : forall v w, fps_from_str (sdk_to_string v) = Ok w -> w = v;
}.

Section Wrapper.
Context {crypto : FpsCrypto} {laws : FpsCryptoLaws} {certs : CertCrates} {json : SdkJson}
  {crates : FpsCrates} {agree : JsonAgree} (arch : string).

(** The operation that the SDK reads in a request of the wrapper: no asset information. *)
Definition wrapper_operation (obj : Value) (spc : bytes) : FPSOperation :=
  {| operationType := createCKC; id := parse_id obj; spc := spc; isCheckIn := false;
     assetInfo := default_asset_info |}.

Definition wrapper_object (request : SpcRequest) : Value :=
  VObject
    [("id", VNumber (PosInt 1)); ("content-id", VString (spc_content_id request));
     ("spc", VString (fps_b64_encode (spc_bytes request)));
     ("asset-id", VString (spc_asset_id request));
     ("ck", VString (fps_b64_encode (spc_content_key request)))].

Lemma wrapper_operations request :
  parseOperations (spc_json request) = Done (Err parserErr) \/
  exists obj b, parseOperations (spc_json request) = Done (Ok [wrapper_operation obj b]).
Proof.
  set (obj := wrapper_object request).
  change (parseOperations (spc_json request)) with (parse_all createCKC [obj]).
  cbn [parse_all]. unfold parseOperation, parse_spc, parse_asset.
  change (as_str (at_key "spc" obj)) with (Some (fps_b64_encode (spc_bytes request))).
  change (as_array (at_key "asset-info" obj)) with (@None (list Value)).
  change (as_bool (at_key "check-in" obj)) with (@None bool).
  cbv beta iota. destruct (sdk_b64_decode (fps_b64_encode (spc_bytes request))) as [b|];
    [right; by exists obj, b|by left].
Qed.

(** The SDK refuses such an operation: its content type is unknown. *)
Lemma wrapper_refused cs obj b r tr r' : ~ path (createResults arch cs (wrapper_operation obj b) r) tr (Done (Ok r')).
Proof.
  intros H. apply path_created in H as (c & level & prov & ans & t & ctx' & _ & [_ _ _ Hc _] & _); [|done].
  exact Hc.
Qed.

Lemma refused_json r v :
  resultCkc r = [] -> result_json r = Done v -> get "ckc" v = None.
Proof.
  intros Hr. unfold result_json. case_bool_decide; [|by intros [= <-]].
  intros (sync & Hs & [= <-])%obind_Done. unfold get. cbn [as_object mbind option_bind]. unfold success_entries.
  rewrite Hr, andb_false_r.
  assert (map_get "ckc" sync = None) as Hn.
  { destruct (0 <? _); [|by injection Hs as <-]. by apply obind_Done in Hs as (? & _ & [= <-]). }
  destruct (isDeviceIdentitySet _), (isDeviceInfoSet _), (resultVmDeviceInfo r); cbn;
    rewrite app_nil_r; exact Hn.
Qed.

Lemma refused_response rs v :
  Forall (fun r => resultCkc r = []) rs -> results_json rs = Done v -> response_ckc v = None.
Proof.
  intros Hrs. unfold results_json. intros (l & Hl & [= <-])%obind_Done.
  unfold response_ckc. cbn. destruct rs as [|r rs]; [by injection Hl as <-|].
  apply Forall_cons in Hrs as [Hr _]. cbn [results_array] in Hl.
  apply obind_Done in Hl as (x & Hx & Hl). apply obind_Done in Hl as (l' & _ & [= <-]).
  apply refused_json in Hx; [|done].
  destruct (bool_decide (resultOperationType r = getClientInfo)); [reflexivity|].
  change ((get "ckc" x ≫= fun ckc => as_str ckc) = None). by rewrite Hx.
Qed.

(** What the SDK answers to a request of the wrapper. *)
Lemma sdk_refuses cs request s tr out :
  sdk_from_str s = Some (spc_json request) -> path (process_caught arch cs s) tr (Done out) ->
  exists v, out = sdk_to_string v /\ response_ckc v = None.
Proof.
  intros Hs. unfold process_caught. rewrite Hs.
  intros (o & t1 & t2 & -> & Ho & [-> H]%path_ret)%path_bind.
  apply obind_Done in H as (rs & -> & H). apply obind_Done in H as (v & Hv & [= <-]).
  exists v. split; [done|]. eapply refused_response, Hv. unfold processOperations in Ho.
  destruct (wrapper_operations request) as [E|(obj & b & E)]; rewrite E in Ho.
  - apply path_ret in Ho as [_ [= <-]]. by constructor.
  - cbn [process_all] in Ho. apply path_bind in Ho as (x & t3 & t4 & -> & Hx & Ho).
    unfold process_operation in Hx. apply path_bind in Hx as (y & t5 & t6 & -> & Hy & [-> <-]%path_ret).
    destruct y as [[r|e]|]; [by apply wrapper_refused in Hy| |by apply path_ret in Ho as [_ ?]].
    apply path_bind in Ho as (z & t7 & t8 & -> & [-> <-]%path_ret & [-> Ho]%path_ret).
    injection Ho as <-. by constructor.
Qed.

Lemma sdk_call_refuses request st s tr text st' :
  sdk_from_str s = Some (spc_json request) ->
  path (fpsProcessOperations arch st s) tr (Done (0, text, st')) ->
  exists v, text = sdk_to_string v /\ response_ckc v = None.
Proof.
  intros Hs. unfold fpsProcessOperations. intros (o & t1 & t2 & -> & _ & H)%path_bind.
  destruct o as [st1|]; [|by apply path_ret in H as [_ ?]].
  apply path_bind in H as (r & t3 & t4 & -> & Hr & [-> H]%path_ret).
  destruct r as [out|]; [|discriminate H]. injection H as -> _. by eapply sdk_refuses.
Qed.

(** C38: with the SDK as it is in the repository, the FairPlay wrapper never returns a license: the
    request it writes names no content type, which the business rules of the SDK refuse, so
    that every call ends with an error, whatever the client sent. *)
Theorem wrapper_never_licenses request wtr r :
  path (process_spc request) wtr r ->
  (forall s x, answered (FpsProcess s) x ∈ wtr ->
     exists st tr st', path (fpsProcessOperations arch st s) tr (Done (x, st'))) ->
  exists e, r = Err e.
Proof.
  intros H Hsdk. destruct r as [ckc|e]; [|by exists e]. exfalso. unfold process_spc in H.
  apply path_bind_ok in H as (s & t1 & t2 & -> & Hs & H). apply path_ret in Hs as [-> Hs].
  apply path_bind_ok in H as ([] & t3 & t4 & -> & Hn & H). apply path_ret in Hn as [-> _].
  apply path_bind in H as ([status text] & t5 & t6 & -> & Hp & H). apply path_trigger in Hp as ->.
  destruct (Z.eqb_spec status 0) as [->|]; [|by apply path_ret in H as [_ ?]].
  apply path_bind_ok in H as (v & t7 & t8 & -> & Hv & H). apply path_ret in Hv as [-> Hv].
  apply path_bind in H as ([] & t9 & t10 & -> & _ & H).
  apply path_bind_ok in H as (b & t11 & t12 & -> & Hb & _). apply path_ret in Hb as [-> Hb].
  apply map_err_Ok in Hs, Hv. apply agree_request in Hs.
  destruct (Hsdk s (0, text) ltac:(set_solver)) as (st & tr & st' & Hx).
  apply sdk_call_refuses with (request := request) in Hx as (w & -> & Hw); [|done].
  apply agree_response in Hv. subst v. by rewrite Hw in Hb.
Qed.
End Wrapper.
