(* ===== verification/FpsSample.v ===== *)
(** * A concrete SDK

    Functions in the place of the cryptographic and format crates, a certificate, a request
    and an operation with which the theorems on the FairPlay SDK are used.  The block cipher
    reverses its input, digests pad theirs, and JSON is one text per value. *)
From Stdlib Require Import Floats.SpecFloat.
From S2P Require Import Prelude RustStr Json Services CryptoSample.
From S2P Require Import FpsTypes FpsSpc FpsSpcProps FpsRequest FpsCkc FpsCkcProps.
From S2P Require Import FpsLicense FpsCerts FpsSdk FpsSdkProps FairPlay FpsWrapper.
From stdpp Require Import list gmap strings.

#[local] Open Scope string_scope.
#[local] Open Scope list_scope.
#[local] Open Scope Z_scope.

(** ** Crates *)

#[export] Instance sample_fps_crypto : FpsCrypto := {|
  X509 := bytes; RsaKey := unit; rsa_size _ := 16%nat;
  rsa_oaep_sha1 _ b := Some (take 16 b); rsa_oaep_sha256 _ b := Some (take 16 b);
  aes_cbc_encrypt _ _ b := reverse b; aes_cbc_decrypt _ _ b := reverse b;
  aes_ecb_encrypt _ b := b; aes_ecb_decrypt _ b := b;
  sha1 := vec_resize 20; sha256 := vec_resize 32; cmac _ := vec_resize 16;
  hex_encode := sample_hex_encode; hex_encode_upper := sample_hex_encode;
  hex_decode s := match sample_hex_decode s with Ok b => Some b | Err _ => None end |}.

#[export] Instance sample_fps_laws : FpsCryptoLaws.
Proof.
  split; cbn; intros; unfold len in *; rewrite ?length_reverse, ?length_vec_resize; try done.
  - apply reverse_involutive.
  - by rewrite sample_hex_roundtrip.
Qed.

Definition sample_certificate_list : Value :=
  VObject [("certificates", VArray [VObject [("certificate", VString "fps.der");
    ("1024-private-key", VString "fps.key"); ("ask", VString (sample_hex_encode (replicate 16 x07)))]])].

#[export] Instance sample_cert_crates : CertCrates := {|
  x509_from_der b := Some b; x509_from_pem _ := None; x509_to_der b := Some b;
  x509_modulus _ := Some 0; x509_extensions _ := Some [];
  rsa_from_der _ := Some tt; rsa_from_pem _ := None; rsa_modulus _ := 0;
  certs_json _ := Some sample_certificate_list;
  sdk_b64_encode := of_bytes; sdk_b64_decode s := Some (as_bytes s) |}.

(** An execution with every event answered by [h]. *)
Fixpoint answer_all {E : Type -> Type} {A} (h : forall X, E X -> X) (m : prog E A) : list (answer E) * A :=
  match m with
  | Ret a => ([], a)
  | Vis e k => let (tr, a) := answer_all h (k (h _ e)) in (answered e (h _ e) :: tr, a)
  end.

Lemma answer_all_path {E : Type -> Type} {A} (h : forall X, E X -> X) (m : prog E A) :
  path m (answer_all h m).1 (answer_all h m).2.
Proof.
  induction m as [a|X e k IH]; cbn; [done|]. specialize (IH (h X e)).
  destruct (answer_all h (k (h X e))) as [tr a]. cbn. by eexists.
Qed.

Lemma answer_all_Forall {E : Type -> Type} {A} (h : forall X, E X -> X) (P : answer E -> Prop) (m : prog E A) :
  (forall X (e : E X), P (answered e (h X e))) -> Forall P (answer_all h m).1.
Proof.
  intros HP. induction m as [a|X e k IH]; cbn; [constructor|]. specialize (IH (h X e)).
  destruct (answer_all h (k (h X e))) as [tr a]. constructor; [apply HP|exact IH].
Qed.

Definition sample_library : KSMAnswer :=
  {| ksmStatus := noErr; ksmHU := replicate 20 x0a; ksmTag := 0x58b38165af0e3d5a;
     ksmPayload := replicate 32 x0b; ksmPayloadLength := 32; ksmR1 := replicate 44 x0c;
     ksmSessionKey := 1; ksmR1Key := 1 |}.

(** Random bytes that are zeros, one answer of the library, a certificate file. *)
Definition sample_world (X : Type) (e : SdkEvent X) : X :=
  match e with
  | GenRandom n => replicate n x00
  | KSMCreateKeyPayload _ => sample_library
  | SdkEnv _ => None
  | SdkReadFile _ => Ok (replicate 24 x05)
  end.

Definition sample_reading := answer_all sample_world readCertificates.
Definition sample_certificates : Certificates :=
  match sample_reading.2 with
  | Done (Ok m) => m
  | _ => {| cert_map := ∅; cert_convert_map := ∅ |}
  end.

Lemma sample_reading_path : path readCertificates sample_reading.1 (Done (Ok sample_certificates)).
Proof. apply answer_all_path. Qed.

(** ** A request *)

Definition sample_tllvs : list FPSServerTLLV :=
  [{| tag := sessionKeyR1Tag; value := replicate 112 x01 |};
   {| tag := antiReplayTag; value := replicate 16 x02 |};
   {| tag := r2Tag; value := replicate 21 x03 |};
   {| tag := assetIDTag; value := as_bytes "asset" |};
   {| tag := transactionIDTag; value := be_bytes 8 77 |};
   {| tag := protocolVersionUsedTag; value := be_bytes 4 1 |};
   {| tag := protocolVersionsSupportedTag; value := be_bytes 4 1 |};
   {| tag := returnRequestTag; value := be_bytes 8 transactionIDTag ++ be_bytes 8 assetIDTag |};
   {| tag := sessionKeyR1IntegrityTag; value := replicate 16 x04 |};
   {| tag := mediaPlaybackStateTag; value := be_bytes 4 5 ++ be_bytes 4 6 ++ be_bytes 8 7 |}].

Definition sample_stream : bytes :=
  concat ((fun t => tllv_bytes t (replicate (Z.to_nat (min_padding (len (value t)))) x00)) <$> sample_tllvs).

Definition sample_spc : bytes :=
  be_bytes 4 1 ++ be_bytes 4 0 ++ replicate 16 x0d ++ replicate 128 x0e
  ++ sha1 (replicate 24 x05) ++ be_bytes 4 (len sample_stream) ++ reverse sample_stream.

Definition sample_container : FPSServerSPCContainer :=
  match parseSPC (Some sample_certificates) sample_spc default_spc_container with
  | Done (Ok c) => c
  | _ => default_spc_container
  end.

Lemma sample_accepted :
  parseSPC (Some sample_certificates) sample_spc default_spc_container = Done (Ok sample_container).
Proof. vm_compute. reflexivity. Qed.

Lemma sample_wire : tllvs_wire sample_tllvs sample_stream.
Proof.
  unfold sample_stream, sample_tllvs. cbn [concat fmap list_fmap].
  repeat (apply wire_cons; [split; by vm_compute|]). constructor.
Qed.

Definition sample_decrypted : FPSServerSPCContainer :=
  {| spcVersion := 1; reservedValue := 0; spcAesKeyIV := []; aesWrappedKey := []; aesWrappedKeySize := 0;
     certificateHash := []; certificateHash256 := []; spcDecryptedData := sample_stream;
     spcDataSize := len sample_stream; spcDataOffset := 0; spcData := default_spc_data;
     protocolVersionUUID := [] |}.

Lemma sample_decrypted_bytes : data_bytes sample_decrypted = sample_stream.
Proof. vm_compute. reflexivity. Qed.

(** The sample request, read from its buffer and as a list. *)
Lemma spc_data_equivalence_witness :
  decrypted sample_decrypted /\
  exists r, parseSPCData sample_decrypted = Done (Ok r) /\
    TLLVs (spcDataParser (spcData r)) = sample_tllvs /\
    parse_data_list sample_decrypted sample_tllvs = Done (Ok r).
Proof.
  assert (decrypted sample_decrypted) as Hd by (split_and!; by vm_compute). split; [exact Hd|].
  destruct (spc_data_equivalence sample_decrypted Hd) as [_ Hw].
  specialize (Hw sample_tllvs). rewrite sample_decrypted_bytes in Hw. specialize (Hw sample_wire).
  destruct (parseSPCData sample_decrypted) as [[r|e]|] eqn:E; [|vm_compute in E; discriminate E..].
  exists r. split; [done|]. split; [|by rewrite <- Hw].
  vm_compute in E. injection E as <-. vm_compute. reflexivity.
Defined.

(** The sample request is accepted. *)
Lemma accepted_request_witness :
  parseSPC (Some sample_certificates) sample_spc default_spc_container = Done (Ok sample_container) /\
  header_of (Some sample_certificates) sample_spc sample_container /\
  exists key, unwraps (Some sample_certificates) sample_container key /\ decrypts sample_spc sample_container key.
Proof.
  split; [exact sample_accepted|].
  destruct (accepted_request (Some sample_certificates) sample_spc sample_container sample_accepted)
    as (Hh & Hk & _).
  split; [exact Hh|exact Hk].
Defined.

(** ** An operation *)

Definition sample_request : Value :=
  VObject [("fairplay-streaming-request", VObject [("create-ckc", VArray [VObject
    [("id", VNumber (PosInt 9)); ("spc", VString (of_bytes sample_spc));
     ("asset-info", VArray [VObject
       [("content-key", VString (sample_hex_encode (replicate 16 x11)));
        ("content-iv", VString (sample_hex_encode (replicate 16 x12)));
        ("content-type", VString "sd"); ("lease-duration", VNumber (PosInt 3600))]])]])])].

Definition sample_operation : FPSOperation :=
  {| operationType := createCKC; id := 9; spc := sample_spc; isCheckIn := false;
     assetInfo := {| assetId := ""; key := replicate 16 x11; iv := replicate 16 x12;
       isCKProvided := true; hdcpReq := hdcpType0; leaseDuration := 3600; rentalDuration := 0;
       playbackDuration := 0; licenseType := licenseStreaming; streamId := None; titleId := None;
       encryptionScheme := schemeUnknown; contentType := contentSd |} |}.

Lemma sample_operations : parseOperations sample_request = Done (Ok [sample_operation]).
Proof. vm_compute. reflexivity. Qed.

Definition sample_run :=
  answer_all sample_world
    (createResults "x86_64" (Some sample_certificates) sample_operation default_result).
Definition sample_result : FPSResult :=
  match sample_run.2 with Done (Ok r) => r | _ => default_result end.

Lemma sample_run_path :
  path (createResults "x86_64" (Some sample_certificates) sample_operation default_result)
    sample_run.1 (Done (Ok sample_result)).
Proof.
  assert (sample_run.2 = Done (Ok sample_result)) as <- by (vm_compute; reflexivity).
  exact (answer_all_path sample_world
    (createResults "x86_64" (Some sample_certificates) sample_operation default_result)).
Qed.

(** The sample operation gets a license. *)
Lemma license_checked_witness :
  exists c level, parseSPC (Some sample_certificates) (spc sample_operation) default_spc_container = Done (Ok c) /\
    rules (isCheckIn sample_operation) (assetInfo sample_operation) (spcData c) level.
Proof.
  destruct (license_checked "x86_64" (Some sample_certificates) sample_operation default_result
    sample_run.1 sample_result sample_run_path eq_refl)
    as (c & level & m & info & payload & ans & t & Hc & Hr & _ & _ & Ha & Htr & _).
  exists c, level. split; [exact Hc|exact Hr].
Defined.

Definition sized_answer (a : answer SdkEvent) : Prop :=
  match a with existT _ (e, x) =>
    match e in SdkEvent X return X -> Prop with
    | KSMCreateKeyPayload _ => fun x => in_u64 (ksmTag x) /\ ksmPayloadLength x < 2 ^ 31
    | _ => fun _ => True
    end x
  end.

Lemma sample_sized : answers_sized sample_run.1.
Proof.
  intros p ans H. assert (Forall sized_answer sample_run.1) as Hall.
  { apply answer_all_Forall. intros X e. destruct e; cbn; try exact I. split; [split|]; by vm_compute. }
  rewrite Forall_forall in Hall. exact (Hall _ H).
Qed.

(** The client reads the license of the sample operation. *)
Lemma license_roundtrip_witness :
  len (spc sample_operation) < 2 ^ 31 /\
  exists c level ans random terms,
    parseSPC (Some sample_certificates) (spc sample_operation) default_spc_container = Done (Ok c) /\
    opens_to (antiReplay (spcData c)) (R1_of ans) (resultCkc sample_result)
      (response_tllvs (assetInfo sample_operation) (spcData c) level ans random ++ terms).
Proof.
  assert (len (spc sample_operation) < 2 ^ 31) as Hl by (vm_compute; reflexivity). split; [exact Hl|].
  destruct (license_roundtrip "x86_64" (Some sample_certificates) sample_operation default_result
    sample_run.1 sample_result sample_run_path eq_refl Hl sample_sized)
    as (c & level & prov & ans & random & terms & Hc & _ & _ & _ & _ & Ho).
  exists c, level, ans, random, terms. split; [exact Hc|exact Ho].
Defined.

(** The buffers for the sample operation. *)
Lemma library_buffers_witness :
  declared_lengths (library_call (assetInfo sample_operation) (replicate 16 x07) sample_container).
Proof.
  exact (library_buffers sample_request [sample_operation] sample_operation sample_reading.1
    sample_certificates sample_container (replicate 16 x07) sample_operations
    (list_elem_of_here _ _) sample_reading_path sample_accepted).
Defined.

(** ** JSON

    Structural equality of values, and the texts of the request of the wrapper and of the
    refusal it gets. *)

#[export] Instance spec_float_eq_dec : EqDecision spec_float.
Proof. solve_decision. Defined.
#[export] Instance number_eq_dec : EqDecision Number.
Proof. solve_decision. Defined.

Fixpoint value_same (x y : Value) : bool :=
  match x, y with
  | VNull, VNull => true
  | VBool a, VBool b => Bool.eqb a b
  | VNumber a, VNumber b => bool_decide (a = b)
  | VString a, VString b => String.eqb a b
  | VArray a, VArray b =>
    (fix go (a b : list Value) : bool :=
       match a, b with
       | [], [] => true
       | x :: a, y :: b => value_same x y && go a b
       | _, _ => false
       end) a b
  | VObject a, VObject b =>
    (fix go (a b : list (string * Value)) : bool :=
       match a, b with
       | [], [] => true
       | (k, x) :: a, (l, y) :: b => String.eqb k l && value_same x y && go a b
       | _, _ => false
       end) a b
  | _, _ => false
  end.

Lemma value_same_eq : forall x y, value_same x y = true -> x = y.
Proof.
  fix IH 1. intros [|b1|n1|s1|a|a] [|b2|n2|s2|b|b]; try discriminate; cbn; intros H.
  - reflexivity.
  - f_equal. by apply eqb_prop.
  - f_equal. by apply bool_decide_eq_true in H.
  - f_equal. by apply String.eqb_eq.
  - f_equal. revert b H. induction a as [|x a IHa]; intros [|y b] H; try discriminate; [reflexivity|].
    apply andb_true_iff in H as [Hx H]. f_equal; [by apply IH|by apply IHa].
  - f_equal. revert b H. induction a as [|[k x] a IHa]; intros [|[l y] b] H; try discriminate; [reflexivity|].
    apply andb_true_iff in H as [Hx H]. apply andb_true_iff in Hx as [Hk Hx].
    apply String.eqb_eq in Hk. subst l. f_equal; [f_equal; by apply IH|by apply IHa].
Qed.

Definition sample_wrapper_request : SpcRequest :=
  {| spc_content_id := "movie"; spc_bytes := sample_spc; spc_asset_id := "asset";
     spc_content_key := replicate 16 x11 |}.

(** The request and the answer to it, with base64 as the identity. *)
Definition sample_spc_json : Value :=
  VObject [("fairplay-streaming-request", VObject [("create-ckc", VArray [VObject
    [("id", VNumber (PosInt 1)); ("content-id", VString "movie"); ("spc", VString (of_bytes sample_spc));
     ("asset-id", VString "asset"); ("ck", VString (of_bytes (replicate 16 x11)))]])])].
Definition sample_refusal : Value :=
  VObject [("fairplay-streaming-response", VObject [("create-ckc", VArray [VObject
    [("id", vint 1); ("status", vint (status_code paramErr))]])])].

#[export] Instance sample_fps_crates : FpsCrates := {|
  fps_to_string v := if value_same v sample_spc_json then Ok "request" else Err "unknown";
  fps_from_str s := if String.eqb s "refusal" then Ok sample_refusal else Err "unknown";
  fps_b64_encode := of_bytes; fps_b64_decode s := Ok (as_bytes s) |}.

#[export] Instance sample_sdk_json : SdkJson := {|
  sdk_from_str s := if String.eqb s "request" then Some sample_spc_json else None;
  sdk_to_string v := if value_same v sample_refusal then "refusal" else "other" |}.

#[export] Instance sample_agree : JsonAgree.
Proof.
  split; cbn.
  - intros v s. destruct (value_same v sample_spc_json) eqn:E; [|done]. intros [= <-].
    by rewrite (value_same_eq _ _ E).
  - intros v w. destruct (value_same v sample_refusal) eqn:E; cbn; [|done]. intros [= <-].
    symmetry. by apply value_same_eq.
Qed.

Definition sample_sdk : SdkState :=
  {| initialised := true; certificates := Some sample_certificates |}.

Definition sample_call := answer_all sample_world (fpsProcessOperations "x86_64" sample_sdk "request").

Definition answer_text (o : outcome (Z * string * SdkState)) : option (Z * string) :=
  match o with Done (x, _) => Some x | Panic => None end.

Lemma sample_call_refused : answer_text sample_call.2 = Some (0, "refusal").
Proof. vm_compute. reflexivity. Qed.

Lemma sample_call_path :
  exists st', path (fpsProcessOperations "x86_64" sample_sdk "request") sample_call.1 (Done (0, "refusal", st')).
Proof.
  assert (path (fpsProcessOperations "x86_64" sample_sdk "request") sample_call.1 sample_call.2) as H
    by exact (answer_all_path sample_world (fpsProcessOperations "x86_64" sample_sdk "request")).
  pose proof sample_call_refused as E. revert H E. generalize sample_call. intros [tr o]. cbn [fst snd].
  intros H E. destruct o as [[x st']|]; [|discriminate E]. cbn [answer_text] in E.
  exists st'. injection E as ->. exact H.
Qed.

(** The SDK answers the request of the wrapper. *)
Lemma sdk_answers_witness :
  exists st', path (fpsProcessOperations "x86_64" sample_sdk "request") sample_call.1 (Done (0, "refusal", st')) /\
    st' = sample_sdk.
Proof.
  destruct sample_call_path as [st' H]. exists st'. split; [exact H|].
  destruct (sdk_answers "x86_64" sample_sdk "request" sample_call.1 (Done (0, "refusal", st')) H)
    as [(status & out & st2 & E & _ & Hs & _)|(E & _)]; [|discriminate E].
  specialize (Hs eq_refl). congruence.
Defined.

Definition sample_wrapper_trace : list (answer FpsEvent) :=
  [answered (FpsProcess "request") (0, "refusal"); answered FpsDisposeResponse tt].

Definition process_answer (a : answer FpsEvent) : option (string * (Z * string)) :=
  match a with existT _ (e, x) =>
    match e in FpsEvent X return X -> option (string * (Z * string)) with
    | FpsProcess s => fun x => Some (s, x)
    | _ => fun _ => None
    end x
  end.

Lemma sample_request_text : fps_to_string (spc_json sample_wrapper_request) = Ok "request".
Proof. vm_compute. reflexivity. Qed.

(** The wrapper, with the sample request and this SDK, has no license. *)
Lemma wrapper_never_licenses_witness :
  path (process_spc sample_wrapper_request) sample_wrapper_trace (Err InvalidResponse) /\
  exists e, Err (A := bytes) InvalidResponse = Err e.
Proof.
  assert (path (process_spc sample_wrapper_request) sample_wrapper_trace (Err InvalidResponse)) as H.
  { unfold process_spc. rewrite sample_request_text. cbn.
    exists (0, "refusal"). split; [reflexivity|]. cbn. exists tt. split; [reflexivity|]. reflexivity. }
  split; [exact H|].
  apply (wrapper_never_licenses "x86_64" sample_wrapper_request sample_wrapper_trace _ H).
  intros s x Hin. apply elem_of_cons in Hin as [Hin|Hin].
  - apply (f_equal process_answer) in Hin. injection Hin as -> ->.
    destruct sample_call_path as [st' Hp]. exists sample_sdk, sample_call.1, st'. exact Hp.
  - apply list_elem_of_singleton, (f_equal process_answer) in Hin. discriminate Hin.
Defined.
