(* ===== verification/H3.v ===== *)
(** * HTTP/3 (src/src/modules/h3.rs)

    The bridge from a QUIC stream to the router, and the server's connections as a state
    machine.  The chunks of a request's body and the frames of a response's body are lists:
    a stream that never ends keeps its task waiting.  Sending and the router are
    [H3Event]s; the TLS crates are the class [TlsCrates], and the QUIC transport, which
    decides whether a peer may open another stream, the class [Quic]. *)
From S2P Require Import Prelude RustStr Services HttpHeaders ServerConfig HttpRewrap.
From stdpp Require Import list gmap.

#[local] Open Scope string_scope.
#[local] Open Scope nat_scope.
#[local] Open Scope list_scope.
#[local] Open Scope rust_scope.

(** ** TLS *)

(** The PEM readers of rustls-pemfile and [ServerConfig::with_single_cert]. *)
Class TlsCrates := {
  Cert : Type;
  Key : Type;
  certs : bytes -> result (list Cert) string;
  pkcs8_private_keys : bytes -> result (list Key) string;
  ServerConfig : Type;
  with_single_cert : list Cert -> Key -> result ServerConfig string;
}.

(** A configuration with the fields that are set on it; [max_early_data_size] is zero by
    default. *)
Record TlsConfig `{!TlsCrates} := {
  single_cert : ServerConfig;
  max_early_data_size : Z;
  alpn_protocols : list string;
}.

(** [OpenFile] opens a file and reads it. *)
Inductive TlsEvent : Type -> Type :=
| OpenFile (path : string) : TlsEvent (result bytes string).

Section Tls.
Context {crates : TlsCrates}.

Definition cert_and_key (missing cert_path key_path : string) :
    prog TlsEvent (result (list Cert * Key) string) :=
  let*? f := trigger (OpenFile cert_path) in
  let*? cert_chain := Ret (certs f) in
  let*? f := trigger (OpenFile key_path) in
  let*? keys := Ret (pkcs8_private_keys f) in
  Ret match keys with
  | [] => Err missing
  | key :: _ => Ok (cert_chain, key)
  end.

Definition build_h3_rustls_config (cert_path key_path : string) :
    prog TlsEvent (result TlsConfig string) :=
  let*? (cert_chain, key) :=
    cert_and_key "No PKCS#8 private key found for HTTP/3" cert_path key_path in
  let*? config := Ret (with_single_cert cert_chain key) in
  Ret (Ok {| single_cert := config; max_early_data_size := 0; alpn_protocols := ["h3"] |}).

(** The configuration of the TCP listener, in main.rs. *)
Definition load_rustls_config (cert_path key_path : string) :
    prog TlsEvent (result TlsConfig string) :=
  let*? (cert_chain, key) :=
    cert_and_key "No private keys found in key file" cert_path key_path in
  let*? config := Ret (map_err (fun e => "Failed to create TLS config: " +:+ e)
    (with_single_cert cert_chain key)) in
  Ret (Ok {| single_cert := config; max_early_data_size := 0;
             alpn_protocols := ["h2"; "http/1.1"] |}).
End Tls.

(** ** Requests *)

Definition MAX_H3_BODY : Z := 2 * 1024 * 1024.

Section Requests.
Context {headers : Headers}.

Definition alt_svc_header_value (port : Z) : outcome bytes :=
  match value_from_str ("h3=" +:+ String "034" (":" +:+ display_Z port +:+
      String "034" "; ma=86400")) with
  | Some v => Done v
  | None => Panic
  end.

(** A request without its body, the request for the router with the address of the peer
    ([ConnectInfo]), and the router's response: status, headers, the exact size of the body
    if it is known, and its frames, data or trailers. *)
Record H3Request := { h3_method : string; h3_uri : string; h3_headers : header_map }.

Record AxumRequest := {
  ax_method : string;
  ax_uri : string;
  ax_headers : header_map;
  ax_body : bytes;
  ax_remote : string;
}.

Record AxumResponse := {
  ax_status : Z;
  ax_resp_headers : header_map;
  exact_size : option Z;
  frames : list (result (option bytes) string);
}.

Inductive H3Event : Type -> Type :=
| SendResponse (status : Z) (h : header_map) : H3Event (result unit string)
| SendData (data : bytes) : H3Event (result unit string)
| Finish : H3Event (result unit string)
| Oneshot (req : AxumRequest) : H3Event AxumResponse.

Definition header_str (n : string) (h : header_map) : option string :=
  v ← header_get n h; value_to_str v.

Definition is_grpc (req : H3Request) : bool :=
  match header_str "content-type" (h3_headers req) with
  | Some ct => starts_with "application/grpc" ct && negb (starts_with "application/grpc-web" ct)
  | None => false
  end.

Definition declared_too_large (req : H3Request) : bool :=
  match v ← header_str "content-length" (h3_headers req); parse_unsigned (2 ^ 64 - 1) v with
  | Some declared => (MAX_H3_BODY <? declared)%Z
  | None => false
  end.

(** The loop over the chunks: [Ok None] is a body that is too large. *)
Fixpoint recv_body (chunks : list (result bytes string)) (body : bytes) :
    result (option bytes) string :=
  match chunks with
  | [] => Ok (Some body)
  | Err e :: _ => Err e
  | Ok chunk :: chunks =>
    if (MAX_H3_BODY <? Z.of_nat (length body + length chunk))%Z then Ok None
    else recv_body chunks (body ++ chunk)
  end.

(** A response without a body ends the stream. *)
Definition reject (status : Z) : prog H3Event (result unit string) :=
  let*? _ := trigger (SendResponse status no_headers) in
  let*? _ := trigger Finish in
  Ret (Ok tt).

Definition axum_request (req : H3Request) (remote : string) (body : bytes) : AxumRequest :=
  let h := header_remove "content-length" (h3_headers req) in
  {| ax_method := h3_method req; ax_uri := h3_uri req;
     ax_headers := match body with
       | [] => h
       | _ => header_insert "content-length" (value_from_u64 (Z.of_nat (length body))) h
       end;
     ax_body := body; ax_remote := remote |}.

Definition with_content_length (resp : AxumResponse) : header_map :=
  let h := ax_resp_headers resp in
  if header_contains "content-length" h then h else
  match len ← exact_size resp; value_from_str (display_Z len) with
  | Some value => header_insert "content-length" value h
  | None => h
  end.

Fixpoint send_frames (fs : list (result (option bytes) string)) :
    prog H3Event (result unit string) :=
  match fs with
  | [] => Ret (Ok tt)
  | Err e :: _ => Ret (Err e)
  | Ok None :: fs | Ok (Some []) :: fs => send_frames fs
  | Ok (Some data) :: fs => let*? _ := trigger (SendData data) in send_frames fs
  end.

Definition handle_h3_request (req : H3Request) (chunks : list (result bytes string))
    (remote : string) : prog H3Event (result unit string) :=
  if is_grpc req then reject 501
  else if declared_too_large req then reject 413
  else match recv_body chunks [] with
  | Err e => Ret (Err e)
  | Ok None => reject 413
  | Ok (Some body) =>
    let is_head := bool_decide (h3_method req = "HEAD") in
    let* resp := trigger (Oneshot (axum_request req remote body)) in
    let*? _ := trigger (SendResponse (ax_status resp) (with_content_length resp)) in
    let*? _ := if is_head then Ret (Ok tt) else send_frames (frames resp) in
    let*? _ := trigger Finish in
    Ret (Ok tt)
  end.
End Requests.

(** ** Connections

    The state of a server: its accept loop, the free permits, the connections with their
    tasks, and the requests in flight, each with the connection it came from. *)

Definition MAX_H3_CONNECTIONS : nat := 1024.

(** The transport configuration of quinn with its setters; [may_open] says whether a peer that
    has that many bidirectional streams open may open another. *)
Class Quic := {
  TransportConfig : Type;
  transport_default : TransportConfig;
  max_concurrent_uni_streams : Z -> TransportConfig -> TransportConfig;
  max_concurrent_bidi_streams : Z -> TransportConfig -> TransportConfig;
  may_open : TransportConfig -> nat -> bool;
}.

(** The documented meaning of the setting: the number of incoming bidirectional streams that
    may be open at once. *)
Class QuicLaws `{!Quic} := {
  bidi_limit : forall n t k,
    may_open (max_concurrent_bidi_streams n t) k = true <-> (Z.of_nat k < n)%Z;
}.

(** The transport that the server configures. *)
Definition h3_transport `{!Quic} : TransportConfig :=
  max_concurrent_bidi_streams 32 (max_concurrent_uni_streams 16 transport_default).

Inductive AcceptLoop : Set := Accepting | Acquiring | Stopped.
Inductive ConnTask : Set := Handshaking | Serving.

Record H3Server := {
  accept_loop : AcceptLoop;
  permits : nat;
  conns : gmap nat ConnTask;
  requests : list nat;
}.

Definition h3_init : H3Server :=
  {| accept_loop := Accepting; permits := MAX_H3_CONNECTIONS; conns := ∅; requests := [] |}.

(** What can happen next: a peer connects, or the endpoint closes; a permit is acquired and
    the task of connection [c] spawned; its handshake succeeds or fails; it accepts a request
    that the peer could open, whose task it spawns; a request's task, which holds the stream,
    ends; the connection ends. *)
Inductive H3Move : Set :=
| PeerConnects
| EndpointCloses
| Acquire (c : nat)
| HandshakeOk (c : nat)
| HandshakeFails (c : nat)
| AcceptRequest (c : nat)
| RequestEnds (i : nat)
| ConnectionEnds (c : nat).

Definition open_requests (c : nat) (s : H3Server) : list nat := filter (fun d => d = c) (requests s).

(** The end of a connection's task, which drops its permit. *)
Definition end_task (c : nat) (s : H3Server) : H3Server :=
  {| accept_loop := accept_loop s; permits := S (permits s); conns := delete c (conns s);
     requests := requests s |}.

Section Server.
Context {quic : Quic}.

Definition h3_next (s : H3Server) (mv : H3Move) : option H3Server :=
  match mv with
  | PeerConnects =>
    match accept_loop s with
    | Accepting => Some {| accept_loop := Acquiring; permits := permits s; conns := conns s;
                           requests := requests s |}
    | _ => None
    end
  | EndpointCloses =>
    match accept_loop s with
    | Accepting => Some {| accept_loop := Stopped; permits := permits s; conns := conns s;
                           requests := requests s |}
    | _ => None
    end
  | Acquire c =>
    match accept_loop s, permits s, conns s !! c, open_requests c s with
    | Acquiring, S n, None, [] =>
      Some {| accept_loop := Accepting; permits := n; conns := <[c := Handshaking]> (conns s);
              requests := requests s |}
    | _, _, _, _ => None
    end
  | HandshakeOk c =>
    match conns s !! c with
    | Some Handshaking =>
      Some {| accept_loop := accept_loop s; permits := permits s;
              conns := <[c := Serving]> (conns s); requests := requests s |}
    | _ => None
    end
  | HandshakeFails c =>
    match conns s !! c with Some Handshaking => Some (end_task c s) | _ => None end
  | AcceptRequest c =>
    match conns s !! c with
    | Some Serving =>
      if may_open h3_transport (length (open_requests c s)) then
        Some {| accept_loop := accept_loop s; permits := permits s; conns := conns s;
                requests := c :: requests s |}
      else None
    | _ => None
    end
  | RequestEnds i =>
    match requests s !! i with
    | Some _ => Some {| accept_loop := accept_loop s; permits := permits s; conns := conns s;
                        requests := delete i (requests s) |}
    | None => None
    end
  | ConnectionEnds c =>
    match conns s !! c with Some Serving => Some (end_task c s) | _ => None end
  end.

Inductive h3_reachable : H3Server -> Prop :=
| h3_start : h3_reachable h3_init
| h3_step s mv s' : h3_reachable s -> h3_next s mv = Some s' -> h3_reachable s'.

(** A whole sequence of moves. *)
Fixpoint h3_run (s : H3Server) (mvs : list H3Move) : option H3Server :=
  match mvs with
  | [] => Some s
  | mv :: mvs => s' ← h3_next s mv; h3_run s' mvs
  end.
End Server.
