(* ===== verification/H3Props.v ===== *)
(** * Correctness of HTTP/3

    What a served request and its response are, the bound on connections, and that requests
    in flight have none. *)
From Stdlib Require Import DecimalString.
From S2P Require Import Prelude RustStr Services HttpHeaders ServerConfig HttpRewrap H3.
From stdpp Require Import list gmap.

#[local] Open Scope string_scope.
#[local] Open Scope nat_scope.
#[local] Open Scope list_scope.
#[local] Open Scope rust_scope.

(** ** Decimal numbers are visible text *)

Definition visible (s : string) : Prop := Forall (fun b => within 32 126 b = true) (as_bytes s).

Lemma visible_app s t : visible (s +:+ t) <-> visible s /\ visible t.
Proof. unfold visible. by rewrite as_bytes_app, Forall_app. Qed.

Lemma visible_uint d : visible (NilEmpty.string_of_uint d).
Proof. induction d; [by constructor|by constructor..]. Qed.

Lemma visible_display_Z z : visible (display_Z z).
Proof.
  assert (forall d, visible (NilZero.string_of_uint d)) as Hd.
  { intros []; [by repeat constructor|..]; apply visible_uint. }
  unfold display_Z. destruct (Z.to_int z) as [d|d]; [apply Hd|]. constructor; [done|apply Hd].
Qed.

Section Requests.
Context {headers : Headers} {laws : HeadersLaws}.

Lemma value_from_display z : value_from_str (display_Z z) = Some (as_bytes (display_Z z)).
Proof. apply value_from_str_visible, visible_display_Z. Qed.

(** The advertised service never panics. *)
Theorem alt_svc_total port : exists v, alt_svc_header_value port = Done v.
Proof.
  unfold alt_svc_header_value. eexists. rewrite value_from_str_visible; [done|].
  apply (visible_app (String "h" (String "3" (String "=" (String "034" ":")))) _).
  split; [by repeat constructor|]. apply visible_app. split; [apply visible_display_Z|].
  by repeat constructor.
Qed.

(** ** The body of a request *)

Lemma recv_body_Some chunks acc b :
  (Z.of_nat (length acc) <= MAX_H3_BODY)%Z ->
  recv_body chunks acc = Ok (Some b) <->
  exists parts, chunks = Ok <$> parts /\ b = acc ++ concat parts /\ (Z.of_nat (length b) <= MAX_H3_BODY)%Z.
Proof.
  revert acc. induction chunks as [|[c|e] chunks IH]; intros acc Hacc; cbn [recv_body].
  - split.
    + intros [= <-]. exists []. cbn. by rewrite app_nil_r.
    + intros ([|p parts] & Hp & -> & _); [|done]. cbn. by rewrite app_nil_r.
  - destruct (Z.ltb_spec MAX_H3_BODY (Z.of_nat (length acc + length c))) as [Hl|Hl].
    + split; [done|]. intros ([|p parts] & [= <- _] & -> & Hb). cbn in Hb.
      rewrite !length_app in Hb. lia.
    + rewrite IH by (rewrite length_app; lia). split.
      * intros (parts & -> & -> & Hb). exists (c :: parts). cbn. by rewrite <- app_assoc in *.
      * intros ([|p parts] & [= <- ->] & -> & Hb). exists parts. cbn in *. by rewrite <- app_assoc.
  - split; [done|]. by intros ([|p parts] & Hp & _).
Qed.

Lemma recv_body_None chunks acc :
  recv_body chunks acc = Ok None <->
  exists parts rest, chunks = (Ok <$> parts) ++ rest /\
    (MAX_H3_BODY < Z.of_nat (length (acc ++ concat parts)))%Z /\ parts <> [].
Proof.
  revert acc. induction chunks as [|[c|e] chunks IH]; intros acc; cbn [recv_body].
  - split; [done|]. by intros ([|p parts] & rest & Hp & _ & ?).
  - destruct (Z.ltb_spec MAX_H3_BODY (Z.of_nat (length acc + length c))) as [Hl|Hl].
    + split; [|done]. intros _. exists [c], chunks. cbn. rewrite app_nil_r, length_app. done.
    + rewrite IH. split.
      * intros (parts & rest & -> & Hb & _). exists (c :: parts), rest. cbn.
        by rewrite <- app_assoc in Hb.
      * intros ([|p [|p' parts]] & rest & Hp & Hb & Hn); [done| |]; injection Hp as <- ->.
        { cbn in Hb. rewrite app_nil_r, length_app in Hb. lia. }
        exists (p' :: parts), rest. split; [done|]. split; [|done]. cbn in *. by rewrite <- app_assoc.
  - split; [done|]. by intros ([|p parts] & rest & Hp & _ & ?).
Qed.

(** ** Traces *)

Inductive Sent :=
| SResponse (status : Z) (h : header_map)
| SData (data : bytes)
| SFinish.

(** What an answered event sent to the peer, and what it asked the router. *)
Definition sent_of (a : answer H3Event) : option Sent :=
  match a with
  | existT _ (e, _) =>
    match e with
    | SendResponse status h => Some (SResponse status h)
    | SendData d => Some (SData d)
    | Finish => Some SFinish
    | Oneshot _ => None
    end
  end.

Definition routed_of (a : answer H3Event) : option (AxumRequest * AxumResponse) :=
  match a with
  | existT _ (e, x) =>
    match e in H3Event X return X -> option _ with
    | Oneshot req => fun resp => Some (req, resp)
    | _ => fun _ => None
    end x
  end.

Definition sent (tr : list (answer H3Event)) : list Sent := omap sent_of tr.
Definition routed (tr : list (answer H3Event)) : list (AxumRequest * AxumResponse) := omap routed_of tr.

Lemma sent_app tr tr' : sent (tr ++ tr') = sent tr ++ sent tr'.
Proof. apply omap_app. Qed.
Lemma routed_app tr tr' : routed (tr ++ tr') = routed tr ++ routed tr'.
Proof. apply omap_app. Qed.

(** A sequence of sends that all succeeded. *)
Lemma reject_runs status tr :
  path (reject status) tr (Ok tt) ->
  sent tr = [SResponse status no_headers; SFinish] /\ routed tr = [].
Proof.
  unfold reject. intros (u & t1 & t2 & -> & H1 & H)%path_bind_ok.
  apply path_trigger in H1 as ->. apply path_bind_ok in H as (v & t3 & t4 & -> & H3 & H).
  apply path_trigger in H3 as ->. by apply path_ret in H as [-> _].
Qed.

(** The non-empty data frames. *)
Definition data_frames (fs : list (result (option bytes) string)) : list bytes :=
  omap (M := list) (fun f => match f with Ok (Some (b :: d)) => Some (b :: d) | _ => None end) fs.

Lemma send_frames_runs fs tr :
  path (send_frames fs) tr (Ok tt) ->
  sent tr = SData <$> data_frames fs /\ routed tr = [] /\ Forall (fun f => exists d, f = Ok d) fs.
Proof.
  revert tr. induction fs as [|f fs IH]; intros tr; cbn [send_frames].
  { by intros [-> _]%path_ret. }
  destruct f as [[[|b d]|]|e].
  - intros H%IH. destruct H as (? & ? & ?). split_and!; [done..|]. constructor; [by eexists|done].
  - intros (u & t1 & t2 & -> & H1 & H)%path_bind_ok. apply path_trigger in H1 as ->.
    apply IH in H as (Hs & Hr & Hf). rewrite sent_app, routed_app, Hs, Hr.
    split_and!; [done..|]. constructor; [by eexists|done].
  - intros H%IH. destruct H as (? & ? & ?). split_and!; [done..|]. constructor; [by eexists|done].
  - by intros [_ ?]%path_ret.
Qed.

(** ** Headers *)

Definition decimal_header (n : Z) : bytes := as_bytes (display_Z n).

(** A header map that differs from another in the content length only, which is [v]. *)
Definition content_length_is (v : list bytes) (h h' : header_map) : Prop :=
  forall n, get_all n h' = if decide (n = "content-length") then v else get_all n h.

Definition body_length (body : bytes) : list bytes :=
  match body with [] => [] | _ => [decimal_header (Z.of_nat (length body))] end.

Lemma axum_request_headers req remote body :
  content_length_is (body_length body) (h3_headers req) (ax_headers (axum_request req remote body)).
Proof.
  intros n. unfold axum_request. cbn [ax_headers]. destruct body as [|b body].
  - apply get_all_remove.
  - rewrite get_all_insert, get_all_remove, value_from_u64_decimal. by case_decide.
Qed.

Definition response_length (resp : AxumResponse) : list bytes :=
  match get_all "content-length" (ax_resp_headers resp) with
  | [] => match exact_size resp with Some n => [decimal_header n] | None => [] end
  | l => l
  end.

Lemma with_content_length_headers resp :
  content_length_is (response_length resp) (ax_resp_headers resp) (with_content_length resp).
Proof.
  intros n. unfold with_content_length, response_length, header_contains. cbv zeta.
  destruct (get_all "content-length" (ax_resp_headers resp)) as [|v l] eqn:Hl.
  - destruct (exact_size resp) as [len|]; cbn [mbind option_bind].
    + rewrite value_from_display, get_all_insert. done.
    + case_decide; by subst.
  - case_decide; by subst.
Qed.

(** C26: A request over HTTP/3 that is served to its end.  A gRPC call is answered 501, and a
    body that is declared or found to exceed 2 MiB 413, without asking the router.  Otherwise
    the router is asked once, with the method, the URI and the address of the peer, the whole
    body, which is the concatenation of all chunks and within the bound, and the headers of
    the request, with the content length replaced by the true one or dropped if there is no
    body.  The peer is sent the router's status and headers, with a content length if they
    had none and the size is known, then, unless the method is HEAD, every non-empty data
    frame in order, and then the end of the stream. *)
Theorem h3_request_served req chunks remote tr :
  path (handle_h3_request req chunks remote) tr (Ok tt) ->
  is_grpc req = true /\ sent tr = [SResponse 501 no_headers; SFinish] /\ routed tr = [] \/
  is_grpc req = false /\
    (declared_too_large req = true \/ exists parts rest,
       chunks = (Ok <$> parts) ++ rest /\ (MAX_H3_BODY < Z.of_nat (length (concat parts)))%Z) /\
    sent tr = [SResponse 413 no_headers; SFinish] /\ routed tr = [] \/
  is_grpc req = false /\ declared_too_large req = false /\
    exists parts ax resp h, chunks = Ok <$> parts /\ (Z.of_nat (length (concat parts)) <= MAX_H3_BODY)%Z /\
      routed tr = [(ax, resp)] /\ ax_method ax = h3_method req /\ ax_uri ax = h3_uri req /\
      ax_remote ax = remote /\ ax_body ax = concat parts /\
      content_length_is (body_length (concat parts)) (h3_headers req) (ax_headers ax) /\
      content_length_is (response_length resp) (ax_resp_headers resp) h /\
      sent tr = SResponse (ax_status resp) h ::
        (if decide (h3_method req = "HEAD") then [] else SData <$> data_frames (frames resp)) ++ [SFinish] /\
      (h3_method req <> "HEAD" -> Forall (fun f => exists d, f = Ok d) (frames resp)).
Proof.
  unfold handle_h3_request. destruct (is_grpc req); [intros H%reject_runs; tauto|].
  destruct (declared_too_large req); [intros H%reject_runs; right; left; tauto|].
  destruct (recv_body chunks []) as [[body|]|e] eqn:Hb; [| |by intros [_ ?]%path_ret].
  2: { intros [? ?]%reject_runs. right. left. split; [done|]. split; [|done]. right.
       apply recv_body_None in Hb as (parts & rest & ? & ? & _). by exists parts, rest. }
  apply recv_body_Some in Hb as (parts & -> & -> & Hl); [|by vm_compute]. rewrite app_nil_l in *.
  cbv zeta. intros (resp & t1 & t2 & -> & H1 & H)%path_bind. apply path_trigger in H1 as ->.
  apply path_bind_ok in H as (u & t3 & t4 & -> & H3 & H). apply path_trigger in H3 as ->.
  apply path_bind_ok in H as (v & t5 & t6 & -> & H5 & H).
  apply path_bind_ok in H as (w & t7 & t8 & -> & H7 & H). apply path_trigger in H7 as ->.
  apply path_ret in H as [-> _]. right. right. split; [done|]. split; [done|].
  exists parts, (axum_request req remote (concat parts)), resp, (with_content_length resp).
  destruct v. assert (sent t5 = (if decide (h3_method req = "HEAD") then [] else
      SData <$> data_frames (frames resp)) /\ routed t5 = [] /\
    (h3_method req <> "HEAD" -> Forall (fun f => exists d, f = Ok d) (frames resp))) as (Hs & Hr & Hf).
  { case_bool_decide; case_decide; try done; [by apply path_ret in H5 as [-> _]|].
    by apply send_frames_runs in H5 as (? & ? & ?). }
  rewrite !sent_app, !routed_app, Hs, Hr. do 2 (split; [done|]). do 5 (split; [done|]).
  split; [apply axum_request_headers|]. split; [apply with_content_length_headers|].
  split; [|done]. by case_decide.
Qed.
End Requests.

(** ** Connections *)

(** The permits that are out are those of the connections, and no connection has more than
    32 requests in flight. *)
Definition h3_ok (s : H3Server) : Prop :=
  permits s + size (conns s) = MAX_H3_CONNECTIONS /\
  forall c, length (open_requests c s) <= 32.

Lemma end_task_ok c s t : conns s !! c = Some t -> h3_ok s -> h3_ok (end_task c s).
Proof.
  intros Hc [Hp Hr]. split; [|done]. cbn. rewrite map_size_delete_Some by done.
  assert (size (conns s) <> 0); [|lia]. rewrite map_size_empty_iff. intros He.
  by rewrite He in Hc.
Qed.

Lemma filter_delete_length {A} (P : A -> Prop) `{!forall x, Decision (P x)} i (l : list A) :
  length (filter P (delete i l)) <= length (filter P l).
Proof.
  revert i. induction l as [|x l IH]; intros [|i]; try done.
  - change (delete 0 (x :: l)) with l. rewrite filter_cons. case_decide; cbn; lia.
  - specialize (IH i). change (delete (S i) (x :: l)) with (x :: delete i l). rewrite !filter_cons. case_decide; cbn; lia.
Qed.

Section Server.
Context {quic : Quic} {qlaws : QuicLaws}.

Lemma h3_next_ok s mv s' : h3_ok s -> h3_next s mv = Some s' -> h3_ok s'.
Proof.
  intros Hok H. pose proof Hok as [Hp Hr]. destruct mv; cbn [h3_next] in H.
  - destruct (accept_loop s); try done. by injection H as <-.
  - destruct (accept_loop s); try done. by injection H as <-.
  - destruct (accept_loop s), (permits s) as [|n] eqn:Hn, (conns s !! c) eqn:Hc, (open_requests c s);
      try done. injection H as <-. split; [|done]. cbn. rewrite map_size_insert_None by done. lia.
  - destruct (conns s !! c) as [[]|] eqn:Hc; try done. injection H as <-. split; [|done]. cbn.
    by rewrite map_size_insert_Some by by eexists.
  - destruct (conns s !! c) as [[]|] eqn:Hc; try done. injection H as <-. by eapply end_task_ok.
  - destruct (conns s !! c) as [[]|] eqn:Hc; try done.
    destruct (may_open h3_transport _) eqn:Hlt; [|done]. apply bidi_limit in Hlt.
    injection H as <-. split; [done|]. intros d. unfold open_requests in *. cbn [requests].
    rewrite filter_cons. case_decide as Hd; [|apply Hr]. subst d. cbn. lia.
  - destruct (requests s !! i); [|done]. injection H as <-. split; [done|]. intros d.
    etrans; [|apply (Hr d)]. apply filter_delete_length.
  - destruct (conns s !! c) as [[]|] eqn:Hc; try done. injection H as <-. by eapply end_task_ok.
Qed.

Lemma h3_reachable_ok s : h3_reachable s -> h3_ok s.
Proof.
  induction 1 as [|s mv s' _ IH Hn]; [|by eapply h3_next_ok]. split; [done|]. cbn. lia.
Qed.

(** A bound per element is a bound for all. *)
Lemma filter_in_set_length (X : gset nat) (l : list nat) k :
  (forall c, length (filter (fun d => d = c) l) <= k) -> length (filter (.∈ X) l) <= k * size X.
Proof.
  intros Hk. induction X as [|c X Hc IH] using set_ind_L.
  - clear Hk. induction l as [|d l IHl]; [cbn; lia|]. by rewrite filter_cons, decide_False by set_solver.
  - rewrite size_union, size_singleton by set_solver.
    assert (length (filter (.∈ {[c]} ∪ X) l) <=
      length (filter (fun d => d = c) l) + length (filter (.∈ X) l)) as H.
    { clear Hk IH. induction l as [|d l IHl]; [done|]. rewrite !filter_cons.
      repeat case_decide; cbn; try lia; set_solver. }
    specialize (Hk c). lia.
Qed.

(** C35: The bound on connections.  With a QUIC transport that keeps to the number of streams
    it is configured with, in every state the server can reach the free permits and the tasks
    of connections make 1024, so that there are never more connections, no connection has more
    than 32 requests in flight, and those of live connections are at most 32 times 1024. *)
Theorem h3_connections_bounded s :
  h3_reachable s ->
  permits s + size (conns s) = 1024 /\
  (forall c, length (open_requests c s) <= 32) /\
  length (filter (.∈ dom (conns s)) (requests s)) <= 32 * 1024.
Proof.
  intros [Hp Hr]%h3_reachable_ok. split; [done|]. split; [done|].
  etrans; [by apply filter_in_set_length, Hr|]. rewrite size_dom. apply Nat.mul_le_mono_l. unfold MAX_H3_CONNECTIONS in Hp. lia.
Qed.

(** ** Requests in flight *)

Lemma h3_run_reachable s mvs s' : h3_reachable s -> h3_run s mvs = Some s' -> h3_reachable s'.
Proof.
  revert s. induction mvs as [|mv mvs IH]; intros s Hs H; cbn in H; [by injection H as <-|].
  apply bind_Some in H as (s1 & H1 & H). apply (IH s1); [|done]. by eapply h3_step.
Qed.

(** [n] requests of connections that are gone. *)
Fixpoint orphans (n : nat) : list nat := match n with O => [] | S n => n :: orphans n end.

Lemma orphans_fresh n m : n <= m -> filter (fun d => d = m) (orphans n) = [].
Proof.
  induction n as [|n IH]; intros H; [done|]. cbn [orphans]. rewrite filter_cons, decide_False by lia.
  apply IH. lia.
Qed.

Lemma one_more_orphan n :
  let s := {| accept_loop := Accepting; permits := MAX_H3_CONNECTIONS; conns := ∅;
              requests := orphans n |} in
  h3_run s [PeerConnects; Acquire n; HandshakeOk n; AcceptRequest n; ConnectionEnds n] =
  Some {| accept_loop := Accepting; permits := MAX_H3_CONNECTIONS; conns := ∅;
          requests := orphans (S n) |}.
Proof.
  pose proof (orphans_fresh n n ltac:(lia)) as Hf.
  unfold h3_run, h3_next, open_requests, end_task, MAX_H3_CONNECTIONS.
  cbn [mbind option_bind accept_loop requests permits conns].
  rewrite lookup_empty, Hf. cbn [mbind option_bind accept_loop requests permits conns].
  rewrite lookup_insert_eq. cbn [mbind option_bind accept_loop requests permits conns].
  rewrite lookup_insert_eq, Hf. unfold h3_transport. rewrite (proj2 (bidi_limit 32 _ _)) by (cbn; lia). cbn -[gmap_empty].
  rewrite lookup_insert_eq. cbn -[gmap_empty]. by rewrite insert_insert_eq, delete_insert_eq.
Qed.

(** The permit of a connection is dropped when its task ends, but the tasks of its requests
    go on: any number of requests can be in flight, with no connection left. *)
Theorem h3_requests_unbounded n :
  exists s, h3_reachable s /\ length (requests s) = n /\ conns s = ∅.
Proof.
  exists {| accept_loop := Accepting; permits := MAX_H3_CONNECTIONS; conns := ∅;
            requests := orphans n |}.
  split; [|split; [|done]].
  - induction n as [|n IH]; [apply h3_start|]. by eapply h3_run_reachable, one_more_orphan.
  - cbn. induction n as [|n IH]; cbn; congruence.
Qed.

End Server.

(** ** Concrete runs *)

Definition sample_h3_request : H3Request :=
  {| h3_method := "POST"; h3_uri := "/kas/v2/rewrap";
     h3_headers := [("content-length", as_bytes "7"); ("content-type", as_bytes "application/json")] |}.

Definition sample_h3_trace : list (answer H3Event) :=
  [answered (Oneshot {| ax_method := "POST"; ax_uri := "/kas/v2/rewrap";
       ax_headers := [("content-type", as_bytes "application/json"); ("content-length", as_bytes "2")];
       ax_body := [x01; x02]; ax_remote := "peer" |})
     {| ax_status := 200; ax_resp_headers := []; exact_size := Some 1%Z;
        frames := [Ok (Some [x09]); Ok (Some []); Ok None] |};
   answered (SendResponse 200 [("content-length", as_bytes "1")]) (Ok tt);
   answered (SendData [x09]) (Ok tt); answered Finish (Ok tt)].

Lemma h3_request_served_witness :
  routed sample_h3_trace <> [] /\ exists h, sent sample_h3_trace = [SResponse 200 h; SData [x09]; SFinish].
Proof.
  destruct (h3_request_served sample_h3_request [Ok [x01]; Ok []; Ok [x02]] "peer" sample_h3_trace)
    as [(H & _)|[(_ & _ & _ & H)|(_ & _ & parts & ax & resp & h & _ & _ & Hr & _ & _ & _ & _ & _ & _ & Hs & _)]].
  - cbn. eexists. split; [reflexivity|]. do 3 (eexists; split; [reflexivity|]; cbn). reflexivity.
  - discriminate H.
  - discriminate H.
  - split; [rewrite Hr; discriminate|]. exists h. injection Hr as <- <-. exact Hs.
Defined.

(** A transport that counts. *)
#[local] Instance sample_quic : Quic := {|
  TransportConfig := Z; transport_default := 100%Z; max_concurrent_uni_streams _ t := t;
  max_concurrent_bidi_streams n _ := n; may_open t k := (Z.of_nat k <? t)%Z |}.

#[local] Instance sample_quic_laws : QuicLaws.
Proof. split. intros n t k. cbn. by rewrite Z.ltb_lt. Qed.

Definition sample_h3_moves : list H3Move :=
  [PeerConnects; Acquire 0; HandshakeOk 0; AcceptRequest 0; PeerConnects].

Lemma h3_connections_bounded_witness :
  exists s, h3_run h3_init sample_h3_moves = Some s /\ permits s + size (conns s) = 1024 /\
    length (open_requests 0 s) <= 32.
Proof.
  eexists. split; [reflexivity|]. edestruct h3_connections_bounded as (Hp & Hr & _);
    [|split; [exact Hp|exact (Hr 0)]].
  apply (h3_run_reachable h3_init sample_h3_moves); [constructor|reflexivity].
Defined.
