(* ===== verification/C2paSigning.v ===== *)
(** * C2PA signing and validation (src/src/modules/c2pa_signing.rs)

    The configuration from the environment, the two handlers and the functions behind them.
    The c2pa crate is the class [C2paCrates], opaque builders, signers, data hashes and
    readers with their operations; with it come the base64, hex and SHA-256 crates.  Reading
    a file, the clock, signing and reading a manifest are events, as they depend on more than
    their arguments.  Logging is left out. *)
From S2P Require Import Prelude RustStr Json Services Chain ServerConfig.
From stdpp Require Import list.

#[local] Open Scope string_scope.
#[local] Open Scope nat_scope.
#[local] Open Scope list_scope.
#[local] Open Scope rust_scope.

(** ** Configuration *)

Record C2paConfig := {
  signing_key_path : string;
  signing_cert_path : string;
  require_validation : bool;
  allowed_creators : list string;
}.

(** [C2paConfig::from_env] *)
Definition c2pa_from_env : prog (event CachedEntry) (result C2paConfig string) :=
  let* key := env_var "C2PA_SIGNING_KEY_PATH" in
  let*? signing_key_path := Ret (ok_or "C2PA_SIGNING_KEY_PATH not set" key) in
  let* cert := env_var "C2PA_SIGNING_CERT_PATH" in
  let*? signing_cert_path := Ret (ok_or "C2PA_SIGNING_CERT_PATH not set" cert) in
  let*? _ := require_file signing_key_path ("C2PA signing key not found: " +:+ signing_key_path) in
  let*? _ := require_file signing_cert_path ("C2PA signing cert not found: " +:+ signing_cert_path) in
  let* validation := env_or "C2PA_REQUIRE_VALIDATION" "false" in
  let* creators := env_or "C2PA_ALLOWED_CREATORS" "" in
  Ret (Ok {| signing_key_path := signing_key_path; signing_cert_path := signing_cert_path;
             require_validation := default false (parse_bool validation);
             allowed_creators := trim <$> filter (fun s => s <> "") (str_split "," creators) |}).

(** ** Requests and responses *)

Record ExclusionRange := { range_start : Z; range_end : Z; box_type : option string }.

Inductive ContainerFormat : Set := Mp4 | Mov | Avi.

Record C2paMetadata := {
  title : string;
  creator : string;
  description : option string;
  timestamp : option string;
  ai_generated : option bool;
  software : option string;
}.

Record C2paSignRequest := {
  content_hash : string;
  exclusion_ranges : list ExclusionRange;
  container_format : ContainerFormat;
  metadata : C2paMetadata;
}.

Record C2paSignResponse := {
  signed_manifest : string;
  manifest_hash : string;
  sign_status : string;
}.

Record C2paValidateRequest := { vr_manifest : string; vr_content_hash : string }.

Record ProvenanceEntry := {
  pe_action : string;
  pe_actor : string;
  pe_timestamp : option string;
  pe_software : option string;
}.

Record C2paValidateResponse := {
  valid : bool;
  errors : list string;
  found_creator : option string;
  provenance_chain : option (list ProvenanceEntry);
  found_ai_generated : option bool;
}.

(** What a handler answers: the two response structs, or the object with [error] and
    [status]. *)
Inductive C2paBody :=
| Refusal (error status : string)
| Signed (r : C2paSignResponse)
| Validated (r : C2paValidateResponse).

Record C2paResponse := { c2pa_status : Z; c2pa_body : C2paBody }.

(** The serde form of a range. *)
Definition range_value (r : ExclusionRange) : Value :=
  VObject ([("start", VNumber (PosInt (range_start r))); ("end", VNumber (PosInt (range_end r)))] ++
    match box_type r with Some t => [("box_type", VString t)] | None => [] end).

Definition is_ascii_hexdigit (b : byte) : bool :=
  within 48 57 b || within 65 70 b || within 97 102 b.

(** [u64::saturating_sub] *)
Definition saturating_sub (a b : Z) : Z := Z.max 0 (a - b).

(** ** The crates *)

Class C2paCrates := {
  b64_encode : bytes -> string;
  b64_decode : string -> result bytes string;
  hex_decode : string -> result bytes string;
  hex_encode : bytes -> string;
  sha256 : bytes -> bytes;
  DataHash : Type;
  DATA_HASH_LABEL : string;
  data_hash_new : string -> string -> DataHash;
  set_hash : bytes -> DataHash -> DataHash;
  add_exclusion : Z -> Z -> DataHash -> DataHash;
  Builder : Type;
  builder_new : Builder;
  add_json : string -> Value -> Builder -> result Builder string;
  add_data_hash : string -> DataHash -> Builder -> result Builder string;
  Signer : Type;
  (** [create_signer::from_keys] with [SigningAlg::Es256] and no time-stamp authority. *)
  es256_signer : bytes -> bytes -> result Signer string;
  Reader : Type;
  (** The codes of the reader's validation status. *)
  validation_status : Reader -> option (list string);
  (** The assertions of the active manifest: label, and data if it can be read as JSON. *)
  active_manifest : Reader -> option (list (string * option Value));
}.

(** [ReadFile] is [std::fs::read]; [Rfc3339Now] the current time as text; [SignEmbeddable]
    is [Builder::sign_data_hashed_embeddable]; [ReadManifest] is
    [Reader::from_manifest_data_and_stream]. *)
Inductive C2paEvent `{!C2paCrates} : Type -> Type :=
| ReadFile (path : string) : C2paEvent (result bytes string)
| Rfc3339Now : C2paEvent string
| SignEmbeddable (b : Builder) (s : Signer) (d : DataHash) (format : string) :
    C2paEvent (result bytes string)
| ReadManifest (data : bytes) (format : string) (stream : bytes) : C2paEvent (result Reader string).

Section Signing.
Context {crates : C2paCrates}.

(** ** Signing *)

(** One [add_assertion], with the text of its failure. *)
Definition assertion (what label : string) (v : Value) (b : Builder) : result Builder string :=
  map_err (fun e => "Failed to add " +:+ what +:+ " assertion: " +:+ e) (add_json label v b).

Definition file_contents (what path : string) : prog C2paEvent (result bytes string) :=
  await_map_err (fun e => "Failed to read " +:+ what +:+ ": " +:+ e) (trigger (ReadFile path)).

(** The assertions about the content, in the order they are added. *)
Definition add_metadata (req : C2paSignRequest) (now : string) (b : Builder) :
    result Builder string :=
  let m := metadata req in
  let? b := assertion "created" "c2pa.created"
    (VObject [("timestamp", VString (default now (timestamp m)))]) b in
  let? b := assertion "creator" "c2pa.claim.creator" (VObject [("name", VString (creator m))]) b in
  let? b := if is_empty (title m) then Ok b else
    assertion "title" "dc.title" (VObject [("title", VString (title m))]) b in
  let? b := match ai_generated m with
    | Some ai => assertion "AI" "c2pa.ai_generated" (VObject [("ai_generated", VBool ai)]) b
    | None => Ok b
    end in
  let? b := match software m with
    | Some sw => assertion "software" "stds.exif" (VObject [("Software", VString sw)]) b
    | None => Ok b
    end in
  assertion "hash" "org.arkavo.c2pa.content_hash"
    (VObject [("hash", VString (content_hash req)); ("algorithm", VString "sha256");
              ("exclusion_ranges", VArray (range_value <$> exclusion_ranges req))]) b.

(** The data hash with the exclusions of the request. *)
Definition request_data_hash (hash : bytes) (ranges : list ExclusionRange) : DataHash :=
  foldl (fun d r => add_exclusion (range_start r) (saturating_sub (range_end r) (range_start r)) d)
    (set_hash hash (data_hash_new "jumbf manifest" "sha256")) ranges.

Definition build_c2pa_manifest (config : C2paConfig) (req : C2paSignRequest) :
    prog C2paEvent (result (string * string) string) :=
  let*? cert_chain := file_contents "certificate" (signing_cert_path config) in
  let*? private_key := file_contents "private key" (signing_key_path config) in
  let* now := trigger Rfc3339Now in
  let*? builder := Ret (add_metadata req now builder_new) in
  let*? content_hash_bytes := Ret (map_err (fun e => "Failed to decode content hash: " +:+ e)
    (hex_decode (content_hash req))) in
  let data_hash := request_data_hash content_hash_bytes (exclusion_ranges req) in
  let*? builder := Ret (map_err (fun e => "Failed to add data hash assertion: " +:+ e)
    (add_data_hash DATA_HASH_LABEL data_hash builder)) in
  let*? signer := Ret (map_err (fun e => "Failed to create signer: " +:+ e)
    (es256_signer cert_chain private_key)) in
  let*? manifest_bytes := await_map_err (fun e => "C2PA signing failed: " +:+ e)
    (trigger (SignEmbeddable builder signer data_hash "c2pa")) in
  Ret (Ok (b64_encode manifest_bytes, hex_encode (sha256 manifest_bytes))).

(** [POST /c2pa/v1/sign] *)
Definition sign_manifest (config : C2paConfig) (req : C2paSignRequest) : prog C2paEvent C2paResponse :=
  if negb (bool_decide (allowed_creators config = [])) &&
     negb (bool_decide (creator (metadata req) ∈ allowed_creators config))
  then Ret {| c2pa_status := 403; c2pa_body := Refusal "Creator not authorized" "denied" |}
  else if negb (length (as_bytes (content_hash req)) =? 64) ||
     negb (forallb is_ascii_hexdigit (as_bytes (content_hash req)))
  then Ret {| c2pa_status := 400;
              c2pa_body := Refusal "Invalid content hash format (expected 64 hex chars)" "error" |}
  else
    let* built := build_c2pa_manifest config req in
    Ret match built with
    | Ok (manifest, hash) =>
      {| c2pa_status := 200;
         c2pa_body := Signed {| signed_manifest := manifest; manifest_hash := hash;
                                sign_status := "success" |} |}
    | Err e =>
      {| c2pa_status := 500; c2pa_body := Refusal ("Signing failed: " +:+ e) "error" |}
    end.

(** ** Validation *)

(** The variables of the scan. *)
Record Scan := {
  s_errors : list string;
  s_creator : option string;
  s_ai_generated : option bool;
  s_chain : list ProvenanceEntry;
}.

(** [if let Some(last) = chain.last_mut() { last.software = Some(sw) }] *)
Definition set_last_software (sw : string) (chain : list ProvenanceEntry) : list ProvenanceEntry :=
  match rev chain with
  | e :: l => rev l ++ [{| pe_action := pe_action e; pe_actor := pe_actor e;
                           pe_timestamp := pe_timestamp e; pe_software := Some sw |}]
  | [] => []
  end.

(** One turn of the loop over the assertions. *)
Definition scan_assertion (expected : string) (s : Scan) (a : string * option Value) : Scan :=
  match a with
  | (_, None) => s
  | (label, Some data) =>
    if bool_decide (label = "c2pa.claim.creator") then
      {| s_errors := s_errors s; s_creator := get "name" data ≫= as_str;
         s_ai_generated := s_ai_generated s; s_chain := s_chain s |}
    else if bool_decide (label = "c2pa.ai_generated") then
      {| s_errors := s_errors s; s_creator := s_creator s;
         s_ai_generated := get "ai_generated" data ≫= as_bool; s_chain := s_chain s |}
    else if bool_decide (label = "org.arkavo.c2pa.content_hash") then
      let errs := match get "hash" data ≫= as_str with
        | Some hash => if bool_decide (hash = expected) then []
            else ["Hash mismatch: expected " +:+ expected +:+ ", got " +:+ hash]
        | None => ["Content hash assertion missing hash value"]
        end in
      {| s_errors := s_errors s ++ errs; s_creator := s_creator s;
         s_ai_generated := s_ai_generated s; s_chain := s_chain s |}
    else if bool_decide (label = "c2pa.created") then
      {| s_errors := s_errors s; s_creator := s_creator s; s_ai_generated := s_ai_generated s;
         s_chain := s_chain s ++ [{| pe_action := "created"; pe_actor := default "" (s_creator s);
           pe_timestamp := get "timestamp" data ≫= as_str; pe_software := None |}] |}
    else if bool_decide (label = "stds.exif") then
      match get "Software" data ≫= as_str with
      | Some sw =>
        {| s_errors := s_errors s; s_creator := s_creator s; s_ai_generated := s_ai_generated s;
           s_chain := set_last_software sw (s_chain s) |}
      | None => s
      end
    else s
  end.

(** What is read off a manifest. *)
Definition scan_reader (expected : string) (r : Reader) : Scan :=
  let statuses := (fun code => "C2PA validation: " +:+ code) <$> default [] (validation_status r) in
  match active_manifest r with
  | Some assertions =>
    foldl (scan_assertion expected)
      {| s_errors := statuses; s_creator := None; s_ai_generated := None; s_chain := [] |} assertions
  | None => {| s_errors := statuses ++ ["No active manifest found"]; s_creator := None;
               s_ai_generated := None; s_chain := [] |}
  end.

Definition validate_c2pa_manifest (manifest_bytes : bytes) (expected : string) :
    prog C2paEvent (result C2paValidateResponse string) :=
  let*? reader := await_map_err (fun e => "Failed to parse C2PA manifest: " +:+ e)
    (trigger (ReadManifest manifest_bytes "video/mp4" [])) in
  let s := scan_reader expected reader in
  Ret (Ok {| valid := bool_decide (s_errors s = []); errors := s_errors s;
             found_creator := s_creator s;
             provenance_chain := match s_chain s with [] => None | chain => Some chain end;
             found_ai_generated := s_ai_generated s |}).

Definition invalid (error : string) : C2paValidateResponse :=
  {| valid := false; errors := [error]; found_creator := None; provenance_chain := None;
     found_ai_generated := None |}.

(** [POST /c2pa/v1/validate] *)
Definition validate_manifest (req : C2paValidateRequest) : prog C2paEvent C2paResponse :=
  match b64_decode (vr_manifest req) with
  | Err e => Ret {| c2pa_status := 400;
                    c2pa_body := Validated (invalid ("Invalid base64 encoding: " +:+ e)) |}
  | Ok manifest_bytes =>
    let* r := validate_c2pa_manifest manifest_bytes (vr_content_hash req) in
    Ret match r with
    | Ok response => {| c2pa_status := 200; c2pa_body := Validated response |}
    | Err e => {| c2pa_status := 500; c2pa_body := Validated (invalid ("Validation error: " +:+ e)) |}
    end
  end.
End Signing.
