(* ===== verification/C2paSigningProps.v ===== *)
(** * Correctness of C2PA signing

    What is signed, and for whom; when a manifest validates; and that what was signed is
    read back. *)
From S2P Require Import Prelude RustStr Json Services Chain ServerConfig C2paSigning.
From stdpp Require Import list.

#[local] Open Scope string_scope.
#[local] Open Scope nat_scope.
#[local] Open Scope list_scope.
#[local] Open Scope rust_scope.

(** The JSON assertions a builder holds, and base64. *)
Class C2paLaws `{!C2paCrates} := {
  json_assertions : Builder -> list (string * Value);
  builder_new_empty : json_assertions builder_new = [];
  add_json_appends l v b b' :
    add_json l v b = Ok b' -> json_assertions b' = json_assertions b ++ [(l, v)];
  add_data_hash_keeps l d b b' :
    add_data_hash l d b = Ok b' -> json_assertions b' = json_assertions b;
  data_hash_label : DATA_HASH_LABEL = "c2pa.hash.data";
  b64_roundtrip m : b64_decode (b64_encode m) = Ok m;
}.

(** What a data hash of the crate holds: the hash, and the excluded ranges, each as its
    start and its length. *)
Class DataHashLaws `{!C2paCrates} := {
  hashed : DataHash -> option bytes;
  excluded : DataHash -> list (Z * Z);
  data_hash_new_empty name alg : excluded (data_hash_new name alg) = [];
  set_hash_hashed h d : hashed (set_hash h d) = Some h;
  set_hash_excluded h d : excluded (set_hash h d) = excluded d;
  add_exclusion_hashed a n d : hashed (add_exclusion a n d) = hashed d;
  add_exclusion_excluded a n d : excluded (add_exclusion a n d) = excluded d ++ [(a, n)];
}.

(** The one [SignEmbeddable] an answer may be. *)
Definition as_signature `{!C2paCrates} (a : answer C2paEvent) :
    option (Builder * Signer * DataHash * string * result bytes string) :=
  match a with
  | existT _ (e, x) =>
    match e in C2paEvent X return X -> option _ with
    | SignEmbeddable b s d f => fun x => Some (b, s, d, f, x)
    | _ => fun _ => None
    end x
  end.

Definition signatures `{!C2paCrates} (tr : list (answer C2paEvent)) := omap as_signature tr.

Section Signing.
Context {crates : C2paCrates} {laws : C2paLaws}.

Definition may_sign (config : C2paConfig) (name : string) : Prop :=
  allowed_creators config = [] \/ name ∈ allowed_creators config.

Definition sha256_hex (h : string) : Prop :=
  length (as_bytes h) = 64 /\ Forall (fun b => is_ascii_hexdigit b = true) (as_bytes h).

Definition optional {A} (o : option A) (f : A -> string * Value) : list (string * Value) :=
  match o with Some a => [f a] | None => [] end.

(** The assertions of a request, in order. *)
Definition request_assertions (req : C2paSignRequest) (now : string) : list (string * Value) :=
  let m := metadata req in
  [("c2pa.created", VObject [("timestamp", VString (default now (timestamp m)))]);
   ("c2pa.claim.creator", VObject [("name", VString (creator m))])] ++
  (if decide (title m = "") then [] else [("dc.title", VObject [("title", VString (title m))])]) ++
  optional (ai_generated m) (fun ai => ("c2pa.ai_generated", VObject [("ai_generated", VBool ai)])) ++
  optional (software m) (fun sw => ("stds.exif", VObject [("Software", VString sw)])) ++
  [("org.arkavo.c2pa.content_hash",
    VObject [("hash", VString (content_hash req)); ("algorithm", VString "sha256");
             ("exclusion_ranges", VArray ((fun x =>
                VObject ([("start", VNumber (PosInt (range_start x)));
                          ("end", VNumber (PosInt (range_end x)))]
                         ++ optional (box_type x) (fun t => ("box_type", VString t))))
                <$> exclusion_ranges req))])].

(** A range of the request and what is excluded for it: the bytes from its start up to its
    end, none if it ends before it starts. *)
Definition range_excluded (x : ExclusionRange) (e : Z * Z) : Prop :=
  e.1 = range_start x /\
  ((range_start x <= range_end x)%Z -> (e.1 + e.2 = range_end x)%Z) /\
  ((range_end x < range_start x)%Z -> e.2 = 0%Z).

Lemma request_data_hash_holds {dlaws : DataHashLaws} hash ranges :
  hashed (request_data_hash hash ranges) = Some hash /\
  Forall2 range_excluded ranges (excluded (request_data_hash hash ranges)).
Proof.
  unfold request_data_hash.
  set (d := set_hash hash (data_hash_new "jumbf manifest" "sha256")).
  assert (hashed d = Some hash /\ excluded d = []) as [Hh He]
    by (subst d; split; [apply set_hash_hashed|by rewrite set_hash_excluded, data_hash_new_empty]).
  rewrite <- (app_nil_l (A := ExclusionRange) ranges) at 2. clearbody d.
  assert (Forall2 range_excluded [] (excluded d)) as Hd by by rewrite He.
  clear He. revert d Hh Hd. generalize (@nil ExclusionRange).
  induction ranges as [|x ranges IH]; intros past d Hh Hd; [by rewrite app_nil_r|].
  replace (past ++ x :: ranges) with ((past ++ [x]) ++ ranges) by by rewrite <- app_assoc.
  apply IH; [by rewrite add_exclusion_hashed|]. rewrite add_exclusion_excluded.
  apply Forall2_app; [done|]. constructor; [|done].
  unfold range_excluded, saturating_sub. cbn. lia.
Qed.

Lemma assertion_appends what l v b b' :
  assertion what l v b = Ok b' -> json_assertions b' = json_assertions b ++ [(l, v)].
Proof. unfold assertion. intros H. apply map_err_Ok in H. by apply add_json_appends. Qed.

Lemma add_metadata_assertions req now b b' :
  add_metadata req now b = Ok b' ->
  json_assertions b' = json_assertions b ++ request_assertions req now.
Proof.
  unfold add_metadata, request_assertions, is_empty. cbv zeta. intros H.
  apply rbind_Ok in H as (b1 & H1%assertion_appends & H).
  apply rbind_Ok in H as (b2 & H2%assertion_appends & H).
  apply rbind_Ok in H as (b3 & H3 & H).
  apply rbind_Ok in H as (b4 & H4 & H).
  apply rbind_Ok in H as (b5 & H5 & H%assertion_appends).
  assert (json_assertions b3 = json_assertions b2 ++ if decide (title (metadata req) = "") then []
    else [("dc.title", VObject [("title", VString (title (metadata req)))])]) as E3.
  { case_bool_decide; case_decide; try done; [injection H3 as <-; by rewrite app_nil_r|].
    by apply assertion_appends in H3. }
  assert (json_assertions b4 = json_assertions b3 ++ optional (ai_generated (metadata req))
    (fun ai => ("c2pa.ai_generated", VObject [("ai_generated", VBool ai)]))) as E4.
  { destruct (ai_generated _); [by apply assertion_appends in H4|].
    injection H4 as <-. by rewrite app_nil_r. }
  assert (json_assertions b5 = json_assertions b4 ++ optional (software (metadata req))
    (fun sw => ("stds.exif", VObject [("Software", VString sw)]))) as E5.
  { destruct (software _); [by apply assertion_appends in H5|].
    injection H5 as <-. by rewrite app_nil_r. }
  rewrite H, E5, E4, E3, H2, H1. by rewrite <- !app_assoc.
Qed.

(** A failure ends the run with nothing signed. *)
Ltac run H := cbn [path bind_ok bind await_map_err trigger map_err] in H.
Ltac no_signature tr r := destruct tr; [|done]; subst r; intros ?????; apply not_elem_of_nil.

(** The runs of the signing: at most one signature succeeds, with everything before it, and
    the result is made of it. *)
Lemma build_runs config req tr r :
  path (build_c2pa_manifest config req) tr r ->
  match r with
  | Err _ => forall b s d f m, (b, s, d, f, Ok m) ∉ signatures tr
  | Ok out => exists cert key now b0 hash b s m,
      let d := request_data_hash hash (exclusion_ranges req) in
      add_metadata req now builder_new = Ok b0 /\ hex_decode (content_hash req) = Ok hash /\
      add_data_hash DATA_HASH_LABEL d b0 = Ok b /\ es256_signer cert key = Ok s /\
      tr = [answered (ReadFile (signing_cert_path config)) (Ok cert);
            answered (ReadFile (signing_key_path config)) (Ok key);
            answered Rfc3339Now now; answered (SignEmbeddable b s d "c2pa") (Ok m)] /\
      out = (b64_encode m, hex_encode (sha256 m))
  end.
Proof.
  unfold build_c2pa_manifest, file_contents. intros H. run H.
  destruct tr as [|ev tr]; [done|]. destruct H as ([cert|e] & -> & H); run H;
    [|no_signature tr r].
  destruct tr as [|ev tr]; [done|]. destruct H as ([key|e] & -> & H); run H;
    [|no_signature tr r].
  destruct tr as [|ev tr]; [done|]. destruct H as (now & -> & H). run H.
  destruct (add_metadata req now builder_new) as [b0|e] eqn:H0; run H;
    [|no_signature tr r].
  destruct (hex_decode (content_hash req)) as [hash|e] eqn:Hh; run H;
    [|no_signature tr r].
  destruct (add_data_hash _ _ b0) as [b|e] eqn:Hb; run H;
    [|no_signature tr r].
  destruct (es256_signer cert key) as [s|e] eqn:Hs; run H;
    [|no_signature tr r].
  destruct tr as [|ev tr]; [done|]. destruct H as ([m|e] & -> & H); run H;
    (destruct tr; [|done]); subst r.
  - by exists cert, key, now, b0, hash, b, s, m.
  - intros ????? Hin%list_elem_of_In. by destruct Hin as [[=]|[]].
Qed.

Lemma signatures_in b s d f x tr :
  answered (SignEmbeddable b s d f) x ∈ tr -> (b, s, d, f, x) ∈ signatures tr.
Proof. intros Hin. apply list_elem_of_omap. by eexists. Qed.

(** The guards of the handler. *)
Lemma may_sign_dec config req :
  negb (bool_decide (allowed_creators config = [])) &&
  negb (bool_decide (creator (metadata req) ∈ allowed_creators config)) = false <->
  may_sign config (creator (metadata req)).
Proof. unfold may_sign. repeat case_bool_decide; naive_solver. Qed.

Lemma sha256_hex_dec h :
  negb (length (as_bytes h) =? 64) || negb (forallb is_ascii_hexdigit (as_bytes h)) = false <->
  sha256_hex h.
Proof.
  unfold sha256_hex. rewrite orb_false_iff, !negb_false_iff, Nat.eqb_eq, forallb_forall, Forall_forall.
  by setoid_rewrite list_elem_of_In.
Qed.

(** C24: What the server signs.  Whenever a signature succeeds in a run of the signing handler,
    the creator is on the allowlist, unless that is empty, the content hash is 64 hexadecimal
    digits, the data hash, which is signed and is an assertion of the manifest, holds that
    hash and excludes exactly the bytes of the ranges of the request, the JSON assertions of
    the manifest are exactly those of the request in order, with the time of the run if the
    request has none, the signer is made of the configured certificate and key, and the
    response carries the signed manifest and its hash.  The handler answers 200 only then; a
    creator who is not allowed gets 403 and a malformed hash 400, both without an event. *)
Theorem signed_manifests {dlaws : DataHashLaws} config req tr r :
  path (sign_manifest config req) tr r ->
  (forall b s d f m, answered (SignEmbeddable b s d f) (Ok m) ∈ tr ->
    may_sign config (creator (metadata req)) /\ sha256_hex (content_hash req) /\
    (exists hash, hex_decode (content_hash req) = Ok hash /\ hashed d = Some hash) /\
    Forall2 range_excluded (exclusion_ranges req) (excluded d) /\
    (exists b0, add_data_hash DATA_HASH_LABEL d b0 = Ok b) /\
    (exists now, answered Rfc3339Now now ∈ tr /\ json_assertions b = request_assertions req now) /\
    (exists cert key, answered (ReadFile (signing_cert_path config)) (Ok cert) ∈ tr /\
       answered (ReadFile (signing_key_path config)) (Ok key) ∈ tr /\ es256_signer cert key = Ok s) /\
    r = {| c2pa_status := 200; c2pa_body := Signed {| signed_manifest := b64_encode m;
             manifest_hash := hex_encode (sha256 m); sign_status := "success" |} |}) /\
  (c2pa_status r = 200%Z -> exists b s d m, answered (SignEmbeddable b s d "c2pa") (Ok m) ∈ tr) /\
  (~ may_sign config (creator (metadata req)) -> c2pa_status r = 403%Z /\ tr = []) /\
  (may_sign config (creator (metadata req)) -> ~ sha256_hex (content_hash req) ->
    c2pa_status r = 400%Z /\ tr = []).
Proof.
  unfold sign_manifest. rewrite <- may_sign_dec, <- sha256_hex_dec.
  destruct (negb (bool_decide _) && _) eqn:Ha.
  { intros [-> <-]%path_ret. split; [|done]. by intros ????? ?%not_elem_of_nil. }
  destruct (negb (_ =? 64) || _) eqn:Hh.
  { intros [-> <-]%path_ret. split; [|done]. by intros ????? ?%not_elem_of_nil. }
  intros (built & t1 & t2 & -> & Hb%build_runs & [-> <-]%path_ret)%path_bind. rewrite app_nil_r.
  destruct built as [out|e].
  - destruct Hb as (cert & key & now & b0 & hash & b & s & m & Hm & Hx & Hd & Hs & -> & ->).
    split; [|split; [|done]].
    + intros ????? Hin%signatures_in%list_elem_of_In. destruct Hin as [[= <- <- <- <- <-]|[]].
      destruct (request_data_hash_holds hash (exclusion_ranges req)) as [Hhash Hex].
      split_and!; try done; [by apply may_sign_dec|by apply sha256_hex_dec|by exists hash|by exists b0| |].
      * exists now. split; [by do 2 right; left|]. rewrite (add_data_hash_keeps _ _ _ _ Hd).
        by rewrite (add_metadata_assertions _ _ _ _ Hm), builder_new_empty.
      * exists cert, key. split_and!; [by left|by right; left|done].
    + intros _. eexists b, s, _, m. by do 3 right; left.
  - split; [|done]. intros ????? Hin%signatures_in. by apply Hb in Hin.
Qed.

(** ** Validation *)

Definition HASH_LABEL : string := "org.arkavo.c2pa.content_hash".

(** The errors an assertion adds. *)
Definition hash_errors (expected : string) (a : string * option Value) : list string :=
  match a with
  | (l, Some data) => if decide (l = HASH_LABEL) then
      match get "hash" data ≫= as_str with
      | Some hash => if decide (hash = expected) then []
          else ["Hash mismatch: expected " +:+ expected +:+ ", got " +:+ hash]
      | None => ["Content hash assertion missing hash value"]
      end
    else []
  | _ => []
  end.

Lemma scan_assertion_errors expected s a :
  s_errors (scan_assertion expected s a) = s_errors s ++ hash_errors expected a.
Proof.
  destruct a as [l [data|]]; [|by rewrite app_nil_r]. unfold scan_assertion, hash_errors, HASH_LABEL.
  case_decide as Hl; [subst l; simpl|].
  - f_equal. destruct (get "hash" data ≫= as_str) as [h|]; [|done].
    by case_bool_decide; case_decide.
  - rewrite app_nil_r, (bool_decide_eq_false_2 _ Hl).
    repeat case_bool_decide; try done. by destruct (get "Software" data ≫= as_str).
Qed.

Lemma scan_errors expected l s :
  s_errors (foldl (scan_assertion expected) s l) = s_errors s ++ concat (hash_errors expected <$> l).
Proof.
  revert s. induction l as [|a l IH]; intros s; [by rewrite app_nil_r|].
  cbn [foldl]. rewrite IH, scan_assertion_errors, <- app_assoc. done.
Qed.

Lemma hash_errors_nil expected a :
  hash_errors expected a = [] <->
  forall data, a = (HASH_LABEL, Some data) -> get "hash" data ≫= as_str = Some expected.
Proof.
  unfold hash_errors. destruct a as [l [data|]]; [|naive_solver]. case_decide as Hl; [|naive_solver].
  subst l. destruct (get "hash" data ≫= as_str) as [h|] eqn:Hh.
  - case_decide; subst; [naive_solver congruence|]. split; [done|].
    intros H'. specialize (H' _ eq_refl). congruence.
  - split; [done|]. intros H'. specialize (H' _ eq_refl). congruence.
Qed.

Lemma concat_nil {A} (ll : list (list A)) : concat ll = [] <-> Forall (fun l => l = []) ll.
Proof.
  induction ll as [|l ll IH]; simpl; [naive_solver|].
  rewrite app_nil, IH, Forall_cons. done.
Qed.

Lemma fmap_nil_iff {A B} (f : A -> B) (l : list A) : f <$> l = [] <-> l = [].
Proof. split; [apply fmap_nil_inv|by intros ->]. Qed.

(** When nothing is wrong with a manifest. *)
Definition sound_reader (reader : Reader) (expected : string) : Prop :=
  default [] (validation_status reader) = [] /\
  exists l, active_manifest reader = Some l /\
    forall data, (HASH_LABEL, Some data) ∈ l -> get "hash" data ≫= as_str = Some expected.

Lemma scan_reader_errors expected reader :
  s_errors (scan_reader expected reader) = [] <-> sound_reader reader expected.
Proof.
  unfold scan_reader, sound_reader. cbv zeta. destruct (active_manifest reader) as [l|].
  - rewrite scan_errors. cbn [s_errors]. rewrite app_nil, fmap_nil_iff, concat_nil, Forall_fmap, Forall_forall.
    setoid_rewrite hash_errors_nil. naive_solver.
  - cbn [s_errors]. rewrite app_nil. naive_solver.
Qed.

(** When a manifest validates.  A run of the validation handler answers 400 to a manifest
    that is not base64, and otherwise reads the manifest once; it answers 500 if that fails,
    and else 200 with a verdict that is positive just when the reader reports no status,
    there is an active manifest, and every content-hash assertion in it that is readable
    carries the hash of the request. *)
Theorem manifest_verdict req tr r :
  path (validate_manifest req) tr r ->
  match b64_decode (vr_manifest req) with
  | Err _ => tr = [] /\ c2pa_status r = 400%Z
  | Ok m => exists x, tr = [answered (ReadManifest m "video/mp4" []) x] /\
    match x with
    | Err _ => c2pa_status r = 500%Z
    | Ok reader => c2pa_status r = 200%Z /\ exists v, c2pa_body r = Validated v /\
        (valid v = true <-> sound_reader reader (vr_content_hash req))
    end
  end.
Proof.
  unfold validate_manifest. destruct (b64_decode _) as [m|e]; [|by intros [-> <-]%path_ret].
  intros (v & t1 & t2 & -> & Hv & [-> <-]%path_ret)%path_bind. rewrite app_nil_r.
  unfold validate_c2pa_manifest in Hv. run Hv. destruct t1 as [|ev t1]; [done|].
  destruct Hv as (x & -> & Hv). exists x. destruct x as [reader|e]; run Hv; (destruct t1; [|done]); subst v; try done.
  split; [done|]. split; [done|]. eexists. split; [done|]. cbn [valid].
  rewrite bool_decide_eq_true. apply scan_reader_errors.
Qed.

(** A manifest without a readable hash assertion validates for any content. *)
Theorem hashless_manifest_validates reader l expected :
  default [] (validation_status reader) = [] -> active_manifest reader = Some l ->
  (forall data, (HASH_LABEL, Some data) ∉ l) -> s_errors (scan_reader expected reader) = [].
Proof.
  intros Hs Hm Hl. apply scan_reader_errors. split; [done|]. exists l. split; [done|].
  by intros data ?%Hl.
Qed.

(** ** Round trip *)

(** A reader that shows a signed manifest: its assertions, but for the data hash, are those
    of the builder. *)
Definition shows (reader : Reader) (b : Builder) : Prop :=
  exists l, active_manifest reader = Some l /\
    filter (fun a => a.1 <> DATA_HASH_LABEL) l = (fun a => (a.1, Some a.2)) <$> json_assertions b.

Lemma scan_data_hash expected s a :
  a.1 = DATA_HASH_LABEL -> scan_assertion expected s a = s.
Proof.
  destruct a as [k [v|]]; [|done]. rewrite data_hash_label. simpl. intros ->. done.
Qed.

Lemma scan_filter expected s l :
  foldl (scan_assertion expected) s (filter (fun a => a.1 <> DATA_HASH_LABEL) l) =
  foldl (scan_assertion expected) s l.
Proof.
  revert s. induction l as [|a l IH]; intros s; [done|]. rewrite filter_cons.
  case_decide as Ha; cbn [foldl]; [apply IH|]. by rewrite scan_data_hash, IH.
Qed.

(** What the validation of a signed request reports. *)
Definition request_report (req : C2paSignRequest) (now expected : string) (codes : list string) :
    Scan :=
  let m := metadata req in
  {| s_errors := ((fun code => "C2PA validation: " +:+ code) <$> codes) ++
       (if decide (content_hash req = expected) then [] else
        ["Hash mismatch: expected " +:+ expected +:+ ", got " +:+ content_hash req]);
     s_creator := Some (creator m); s_ai_generated := ai_generated m;
     s_chain := [{| pe_action := "created"; pe_actor := "";
       pe_timestamp := Some (default now (timestamp m)); pe_software := software m |}] |}.

Lemma scan_request expected req now codes :
  foldl (scan_assertion expected)
    {| s_errors := (fun code => "C2PA validation: " +:+ code) <$> codes; s_creator := None;
       s_ai_generated := None; s_chain := [] |}
    ((fun a => (a.1, Some a.2)) <$> request_assertions req now) =
  request_report req now expected codes.
Proof.
  unfold request_assertions, request_report, optional. cbv zeta.
  destruct (decide (title (metadata req) = "")), (ai_generated (metadata req)),
    (software (metadata req)); simpl; by case_bool_decide; case_decide.
Qed.

(** A successful run. *)
Lemma signed_run config req tr resp :
  path (sign_manifest config req) tr {| c2pa_status := 200; c2pa_body := Signed resp |} ->
  exists b s d m now, answered (SignEmbeddable b s d "c2pa") (Ok m) ∈ tr /\
    answered Rfc3339Now now ∈ tr /\ json_assertions b = request_assertions req now /\
    resp = {| signed_manifest := b64_encode m; manifest_hash := hex_encode (sha256 m);
              sign_status := "success" |}.
Proof.
  unfold sign_manifest. destruct (negb (bool_decide _) && _); [by intros [_ ?]%path_ret|].
  destruct (negb (_ =? 64) || _); [by intros [_ ?]%path_ret|].
  intros (built & t1 & t2 & -> & Hb%build_runs & [-> Hr]%path_ret)%path_bind. rewrite app_nil_r.
  destruct built as [out|e]; [|done].
  destruct Hb as (cert & key & now & b0 & hash & b & s & m & Hm & Hx & Hd & Hs & -> & ->).
  injection Hr as <-. eexists b, s, _, m, now. split_and!; [by do 3 right; left|by do 2 right; left| |done].
  rewrite (add_data_hash_keeps _ _ _ _ Hd).
  by rewrite (add_metadata_assertions _ _ _ _ Hm), builder_new_empty.
Qed.

(** C25: What was signed is read back.  If a run of the signing handler answered 200, and a run
    of the validation handler on the manifest of that answer is given a reader that shows the
    signed manifest, the second run answers the creator, the AI flag, and one creation entry
    with the time and the software of the request; its errors are the codes of the reader,
    and a hash mismatch if the given hash is not the signed one.  The entry's actor is empty,
    as the creation assertion comes before the one with the name. *)
Theorem signed_manifest_read_back config req tr1 resp expected tr2 r :
  path (sign_manifest config req) tr1 {| c2pa_status := 200; c2pa_body := Signed resp |} ->
  path (validate_manifest {| vr_manifest := signed_manifest resp; vr_content_hash := expected |})
    tr2 r ->
  (forall b s d f m g stream x, answered (SignEmbeddable b s d f) (Ok m) ∈ tr1 ->
    answered (ReadManifest m g stream) x ∈ tr2 -> exists reader, x = Ok reader /\ shows reader b) ->
  exists now m reader, answered Rfc3339Now now ∈ tr1 /\
    tr2 = [answered (ReadManifest m "video/mp4" []) (Ok reader)] /\
    let codes := default [] (validation_status reader) in
    let report := request_report req now expected codes in
    r = {| c2pa_status := 200; c2pa_body := Validated
           {| valid := bool_decide (codes = [] /\ expected = content_hash req);
              errors := s_errors report; found_creator := Some (creator (metadata req));
              provenance_chain := Some (s_chain report);
              found_ai_generated := ai_generated (metadata req) |} |}.
Proof.
  intros H1 H2 Hread.
  destruct (signed_run _ _ _ _ H1) as (b & s & d & m & now & Hin & Hnow & Hb & ->).
  cbn [signed_manifest] in H2. unfold validate_manifest in H2. cbn [vr_manifest vr_content_hash] in H2.
  rewrite b64_roundtrip in H2. unfold validate_c2pa_manifest in H2. run H2.
  destruct tr2 as [|ev tr2]; [done|]. destruct H2 as (x & -> & H2).
  destruct (Hread _ _ _ _ _ "video/mp4" [] x Hin) as (reader & -> & l & Hl & Hf); [by left|].
  run H2. destruct tr2; [|done]. subst r.
  exists now, m, reader. split; [done|]. split; [done|].
  unfold scan_reader. cbv zeta. rewrite Hl, <- scan_filter, Hf, Hb, scan_request.
  cbn [s_errors s_creator s_chain s_ai_generated request_report]. do 3 f_equal.
  apply bool_decide_ext. rewrite app_nil, fmap_nil_iff. case_decide; naive_solver.
Qed.
End Signing.

(** ** A concrete run

    Builders that keep the list of their assertions, and identities for the encodings. *)
#[export] Instance sample_c2pa : C2paCrates := {|
  b64_encode := of_bytes; b64_decode s := Ok (as_bytes s);
  hex_decode s := Ok (as_bytes s); hex_encode := of_bytes; sha256 b := b;
  DataHash := option bytes * list (Z * Z); DATA_HASH_LABEL := "c2pa.hash.data";
  data_hash_new _ _ := (None, []); set_hash h d := (Some h, d.2);
  add_exclusion a n d := (d.1, d.2 ++ [(a, n)]);
  Builder := list (string * Value); builder_new := [];
  add_json l v b := Ok (b ++ [(l, v)]); add_data_hash _ _ b := Ok b;
  Signer := bytes; es256_signer _ key := Ok key;
  Reader := list (string * option Value);
  validation_status _ := None; active_manifest r := Some r |}.

#[export] Program Instance sample_c2pa_laws : C2paLaws := {| json_assertions b := b |}.
Next Obligation. done. Qed.
Next Obligation. by intros l v b b' [= <-]. Qed.
Next Obligation. by intros l d b b' [= <-]. Qed.
Next Obligation. done. Qed.
Next Obligation. intros m. simpl. by rewrite as_bytes_of_bytes. Qed.

#[export] Program Instance sample_data_hash_laws : DataHashLaws :=
  {| hashed d := d.1; excluded d := d.2 |}.
Next Obligation. done. Qed.
Next Obligation. done. Qed.
Next Obligation. done. Qed.
Next Obligation. done. Qed.
Next Obligation. done. Qed.

Definition sample_c2pa_config : C2paConfig :=
  {| signing_key_path := "key"; signing_cert_path := "cert"; require_validation := false;
     allowed_creators := ["ann"] |}.

Definition sample_hash : string :=
  "00112233445566778899aabbccddeeff00112233445566778899AABBCCDDEEFF".

Definition sample_sign_request : C2paSignRequest :=
  {| content_hash := sample_hash;
     exclusion_ranges := [{| range_start := 8; range_end := 24; box_type := Some "uuid" |};
                          {| range_start := 9; range_end := 3; box_type := None |}];
     container_format := Mp4;
     metadata := {| title := ""; creator := "ann"; description := None; timestamp := None;
                    ai_generated := Some true; software := Some "cam" |} |}.

Definition sample_builder : Builder := request_assertions sample_sign_request "noon".

Definition sample_data_hash : DataHash := (Some (as_bytes sample_hash), [(8, 16); (9, 0)]%Z).

Definition sample_sign_trace : list (answer C2paEvent) :=
  [answered (ReadFile "cert") (Ok [x01]); answered (ReadFile "key") (Ok [x02]);
   answered Rfc3339Now "noon";
   answered (SignEmbeddable sample_builder [x02] sample_data_hash "c2pa") (Ok [x03])].

Definition sample_signed : C2paSignResponse :=
  {| signed_manifest := of_bytes [x03]; manifest_hash := of_bytes [x03]; sign_status := "success" |}.

Definition sample_reader : Reader := (fun a => (a.1, Some a.2)) <$> sample_builder.

Definition sample_read_trace : list (answer C2paEvent) :=
  [answered (ReadManifest [x03] "video/mp4" []) (Ok sample_reader)].

Lemma signed_manifests_witness :
  may_sign sample_c2pa_config "ann" /\ sha256_hex sample_hash /\
  Forall2 range_excluded (exclusion_ranges sample_sign_request) (excluded sample_data_hash).
Proof.
  destruct (signed_manifests sample_c2pa_config sample_sign_request sample_sign_trace
    {| c2pa_status := 200; c2pa_body := Signed sample_signed |}) as [H _].
  - cbn. do 3 (eexists; split; [reflexivity|]; cbn). eexists. split; reflexivity.
  - destruct (H sample_builder [x02] sample_data_hash "c2pa" [x03]) as (Ha & Hh & _ & Hx & _).
    + do 3 right. left.
    + split; [exact Ha|]. split; [exact Hh|exact Hx].
Defined.

Lemma manifest_verdict_witness :
  exists x, sample_read_trace = [answered (ReadManifest [x03] "video/mp4" []) x].
Proof.
  pose proof (manifest_verdict {| vr_manifest := of_bytes [x03]; vr_content_hash := sample_hash |}
    sample_read_trace {| c2pa_status := 200; c2pa_body := Validated
      {| valid := true; errors := []; found_creator := Some "ann";
         provenance_chain := Some [{| pe_action := "created"; pe_actor := "";
           pe_timestamp := Some "noon"; pe_software := Some "cam" |}];
         found_ai_generated := Some true |} |}) as H.
  destruct H as (x & H & _).
  - cbn. eexists. split; reflexivity.
  - exists x. exact H.
Defined.

Lemma signed_manifest_read_back_witness :
  exists now m reader, answered Rfc3339Now now ∈ sample_sign_trace /\
    sample_read_trace = [answered (ReadManifest m "video/mp4" []) (Ok reader)].
Proof.
  destruct (signed_manifest_read_back sample_c2pa_config sample_sign_request sample_sign_trace
    sample_signed "other" sample_read_trace {| c2pa_status := 200; c2pa_body := Validated
      {| valid := false; errors := ["Hash mismatch: expected other, got " +:+ sample_hash];
         found_creator := Some "ann";
         provenance_chain := Some [{| pe_action := "created"; pe_actor := "";
           pe_timestamp := Some "noon"; pe_software := Some "cam" |}];
         found_ai_generated := Some true |} |}) as (now & m & reader & H1 & H2 & _).
  - cbn. do 3 (eexists; split; [reflexivity|]; cbn). eexists. split; reflexivity.
  - cbn. eexists. split; reflexivity.
  - intros b s d f m g stream x Hs Hr. exists sample_reader.
    apply signatures_in, list_elem_of_In in Hs. destruct Hs as [[= <- <- <- <- <-]|[]].
    apply list_elem_of_In in Hr. destruct Hr as [Hr|[]].
    apply (f_equal (fun a => match a with existT X (e, x) =>
      match e in C2paEvent Y return Y -> option (result Reader string) with
      | ReadManifest _ _ _ => fun x => Some x | _ => fun _ => None end x end)) in Hr.
    cbn in Hr. injection Hr as <-. split; [reflexivity|]. exists sample_reader. split; reflexivity.
  - exists now, m, reader. split; [exact H1|exact H2].
Defined.
