(* ===== verification/AuthzenSubject.v ===== *)
(** * From token claims to AuthZEN subjects (src/src/modules/authzen/cwt_subject.rs)

    The claims of a verified CWT, their projections to JSON, the device and environment
    allowlists and the slugs that become attribute values.  The base64 codec is an argument of
    the projection that uses it. *)
From S2P Require Import Prelude RustStr Json.

#[local] Open Scope string_scope.
#[local] Open Scope nat_scope.
#[local] Open Scope list_scope.
#[local] Open Scope rust_scope.

Definition DEVICECHECK_AUD : string := "arkavo:devicecheck".

Definition subject_id_bind (s : string) : string := default s (strip_prefix "arkavo:" s).

Inductive Aud : Set :=
| One (s : string)
| Many (v : list string).

Record DecodedClaims := {
  iss : string;
  sub : string;
  aud : Aud;
  exp : Z;
  iat : Z;
  nbf : option Z;
  cti : bytes;
  email : option string;
  email_verified : option bool;
  idp : option string;
  arkavo_account_id : option string;
  arkavo_roles : option (list string);
  arkavo_entitlements : option (list string);
  client_id : option string;
  arkavo_patreon : option Value;
}.

Record DeviceObject := {
  device_sub : string;
  device_iss : string;
  device_aud : string;
  device_kid : string;
}.

Inductive DeviceError : Set :=
| MissingField (field : string)
| BothDeviceAndDevices
| EmptyDevices.

(** ** Projections of the claims *)

Definition insert_opt_str (k : string) (v : option string) (m : Map) : Map :=
  match v with Some s => map_insert k (VString s) m | None => m end.

Definition PATREON_ALLOWED : list string :=
  ["role"; "patreon_user_id"; "memberships"; "verified_at"; "cache_expires_at"].

Definition sanitize_patreon (p : Value) : Value :=
  match as_object p with
  | None => VObject []
  | Some obj =>
    let out := foldl (fun out k => map_insert_opt k (map_get k obj) out) [] PATREON_ALLOWED in
    if bool_decide (map_get "role" obj ≫= as_str = Some "creator")
    then VObject (map_insert_opt "campaign_id" (map_get "campaign_id" obj) out)
    else VObject out
  end.

Definition aud_value (a : Aud) : Value :=
  match a with One s => VString s | Many v => json_strings v end.

Definition token_map (b64url_encode : bytes -> string) (claims : DecodedClaims) : Value :=
  let m := map_insert "iss" (VString (iss claims)) [] in
  let m := map_insert "sub" (VString (sub claims)) m in
  let m := map_insert "aud" (aud_value (aud claims)) m in
  let m := map_insert "exp" (VNumber (PosInt (exp claims))) m in
  let m := map_insert "iat" (VNumber (PosInt (iat claims))) m in
  let m := map_insert_opt "nbf" ((fun n => VNumber (PosInt n)) <$> nbf claims) m in
  let m := map_insert "cti" (VString (b64url_encode (cti claims))) m in
  let m := insert_opt_str "email" (email claims) m in
  let m := map_insert_opt "email_verified" (VBool <$> email_verified claims) m in
  let m := insert_opt_str "idp" (idp claims) m in
  let m := insert_opt_str "arkavo_account_id" (arkavo_account_id claims) m in
  let m := map_insert_opt "arkavo_roles" (json_strings <$> arkavo_roles claims) m in
  let m := map_insert_opt "arkavo_entitlements" (json_strings <$> arkavo_entitlements claims) m in
  let m := insert_opt_str "client_id" (client_id claims) m in
  VObject (map_insert_opt "arkavo_patreon" (sanitize_patreon <$> arkavo_patreon claims) m).

Definition subject (claims : DecodedClaims) : Value :=
  let p := map_insert "iss" (VString (iss claims)) [] in
  let p := insert_opt_str "email" (email claims) p in
  let p := map_insert_opt "email_verified" (VBool <$> email_verified claims) p in
  let p := insert_opt_str "idp" (idp claims) p in
  let p := insert_opt_str "arkavo_account_id" (arkavo_account_id claims) p in
  let p := map_insert_opt "arkavo_roles" (json_strings <$> arkavo_roles claims) p in
  let p := map_insert_opt "arkavo_entitlements" (json_strings <$> arkavo_entitlements claims) p in
  let p := map_insert_opt "arkavo_patreon" (sanitize_patreon <$> arkavo_patreon claims) p in
  VObject [("type", VString "identity"); ("id", VString (sub claims)); ("properties", VObject p)].

(** ** Devices and the environment *)

Definition devices_bind (pe_sub device_sub : string) : bool :=
  bool_decide (subject_id_bind pe_sub = subject_id_bind device_sub).

(** [.and_then(Value::as_str).filter(|s| !s.is_empty())] *)
Definition non_empty_str (v : option Value) : option string :=
  s ← v ≫= as_str; if is_empty s then None else Some s.

Definition allowlist_device (obj : Value) : result DeviceObject DeviceError :=
  let? map := ok_or (MissingField "sub") (as_object obj) in
  let req k := ok_or (MissingField k) (non_empty_str (map_get k map)) in
  let? s := req "sub" in
  let? i := req "iss" in
  let? a := req "aud" in
  let? k := req "kid" in
  Ok {| device_sub := s; device_iss := i; device_aud := a; device_kid := k |}.

Definition device_to_value (d : DeviceObject) : Value :=
  VObject [("sub", VString (device_sub d)); ("iss", VString (device_iss d));
           ("aud", VString (device_aud d)); ("kid", VString (device_kid d))].

Definition allowlist_environment (obj : Value) : Value :=
  match as_object obj with
  | Some map =>
    VObject (map_insert_opt "kind" (map_get "kind" map)
      (map_insert_opt "region" (map_get "region" map) []))
  | None => VObject []
  end.

(** [.map(f).collect::<Result<Vec<_>, _>>()] *)
Fixpoint collect_results {A B E} (f : A -> result B E) (l : list A) : result (list B) E :=
  match l with
  | [] => Ok []
  | a :: l => let? b := f a in let? bs := collect_results f l in Ok (b :: bs)
  end.

Definition devices_from_context (context : Value) : result (list DeviceObject) DeviceError :=
  match as_object context with
  | None => Ok []
  | Some obj =>
    let has_device := contains_key "device" obj in
    let has_devices := contains_key "devices" obj in
    if has_device && has_devices then Err BothDeviceAndDevices else
    if has_device then
      let? d := allowlist_device (default VNull (map_get "device" obj)) in Ok [d]
    else if has_devices then
      let? arr := ok_or EmptyDevices (as_array (default VNull (map_get "devices" obj))) in
      match arr with
      | [] => Err EmptyDevices
      | _ => collect_results allowlist_device arr
      end
    else Ok []
  end.

Definition context_agent (claims : DecodedClaims) (platform_audience : option string) :
    option string :=
  match (id ← client_id claims; if is_empty id then None else Some id) with
  | Some id => Some id
  | None =>
    match (rest ← strip_prefix "client:" (sub claims); if is_empty rest then None else Some rest)
    with
    | Some rest => Some rest
    | None =>
      let members := match aud claims with One s => [s] | Many v => v end in
      let filtered := filter (fun a => a <> "arkavo" /\ a <> DEVICECHECK_AUD /\
        Some a <> platform_audience) members in
      match filtered with
      | [a] => Some a
      | _ => None
      end
    end
  end.

(** ** Slugs

    The loop goes over the bytes: those of a character outside ASCII are all separators. *)
Definition slug_char (c : byte) : bool := is_ascii_alphanumeric c || Byte.eqb c "-"%byte.

Definition slug_step (st : bytes * bool) (c : byte) : bytes * bool :=
  let '(out, pending_sep) := st in
  if slug_char c then
    ((if pending_sep && negb (bool_decide (out = [])) then out ++ ["_"%byte] else out) ++
       [byte_to_ascii_lowercase c], false)
  else (out, true).

Definition slug_bytes (l : bytes) : bytes :=
  let out := fst (foldl slug_step ([], false) (trim_bytes l)) in
  trim_end_bytes "_" (drop_byte "_" out).

Definition slugify (input : string) : string := of_bytes (slug_bytes (as_bytes input)).

Definition mcp_server_slug (resource_id : string) (override_slug : option string) : string :=
  match (s ← override_slug; if is_empty s then None else Some s) with
  | Some s => slugify s
  | None =>
    let lower := to_ascii_lowercase (trim resource_id) in
    let stripped :=
      match strip_prefix "https://" lower with
      | Some s => s
      | None => default lower (strip_prefix "http://" lower)
      end in
    slugify stripped
  end.

Definition tool_value_slug (tool_name : string) : string := slugify tool_name.
