(* ===== verification/AuthzenTranslate.v ===== *)
(** * Between AuthZEN requests and OpenTDF decisions (src/src/modules/authzen/translate.rs)

    The mapping of actions, resources and subjects to the requests of the upstream decision
    point, the reading of its answers, and the discovery document (discovery.rs). *)
From S2P Require Import Prelude RustStr Json AuthzenSubject.

#[local] Open Scope string_scope.
#[local] Open Scope nat_scope.
#[local] Open Scope list_scope.
#[local] Open Scope rust_scope.

Definition MCP_TOOL_FQN_PREFIX : string := "https://arkavo.net/attr/mcp-tool/value/".
Definition MCP_SERVER_FQN_PREFIX : string := "https://arkavo.net/attr/mcp-server/value/".
Definition MAX_CHAIN : nat := 8.
Definition MAX_EVALUATIONS : nat := 500.

Inductive TranslateError : Set :=
| Malformed (what : string)
| ChainCap
| IllegalAction
| PepFqns
| IllegalResourceId.

Definition translate_message (e : TranslateError) : string :=
  match e with
  | Malformed m => m
  | ChainCap => "entity chain exceeds 8"
  | IllegalAction => "mapped action is not a valid OpenTDF identifier"
  | PepFqns => "attribute_value_fqns not allowed for this resource.type"
  | IllegalResourceId => "resource.id is not a valid OpenTDF identifier"
  end.

Inductive ChainMap : Set :=
| ChainOk (chain : Value)
| ChainDenyClosed (message : string).

Inductive ResourceMap : Set :=
| Fqns (ephemeral_id : string) (fqns : list string)
| DenyClosed (ephemeral_id : string) (message : string).

Record DecisionOut := {
  out_ephemeral_id : string;
  permit : bool;
  required_obligations : list string;
}.

(** ** Actions and resources *)

Definition mid (c : byte) : bool :=
  is_ascii_alphanumeric c || Byte.eqb c "_"%byte || Byte.eqb c "-"%byte.

Definition opentdf_identifier_ok (s : string) : bool :=
  match as_bytes s with
  | [] => false
  | b0 :: rest =>
    if negb (is_ascii_alphanumeric b0) then false else
    match rest with
    | [] => true
    | _ :: _ =>
      match rest !! (length rest - 1) with Some c => is_ascii_alphanumeric c | None => false end &&
      forallb mid (take (length rest - 1) rest)
    end
  end.

Definition map_action (authzen_name : string) : result string TranslateError :=
  if is_empty authzen_name then Err (Malformed "action.name") else
  let lower := to_ascii_lowercase authzen_name in
  let mapped :=
    if bool_decide (lower = "read") then "read"
    else if bool_decide (lower = "tools/call" \/ lower = "execute_tool") then "execute_tool"
    else if bool_decide (lower = "tools/list") then "tools_list"
    else if bool_decide (lower = "rewrap" \/ lower = "decrypt") then "decrypt"
    else match strip_prefix "issue:cwt:" lower with
         | Some grant => "issue_cwt_" +:+ replace_bytes ["/"%byte; ":"%byte] "_" grant
         | None => replace_bytes ["/"%byte; ":"%byte] "_" lower
         end in
  if negb (opentdf_identifier_ok mapped) then Err IllegalAction else Ok mapped.

Definition pep_fqns_present (resource : Value) : bool :=
  match get "properties" resource ≫= as_object with
  | Some o => contains_key "attribute_value_fqns" o
  | None => false
  end.

Definition pep_fqns (resource : Value) : list string :=
  strings_of (get "properties" resource ≫= get "attribute_value_fqns").

Definition tool_attr_value (id : string) : result string TranslateError :=
  let slug := tool_value_slug id in
  let value :=
    if bool_decide (slug = "device_tap") then "device_management_tap"
    else if bool_decide (slug = "device_swipe") then "device_management_swipe"
    else slug in
  if negb (opentdf_identifier_ok value) then Err IllegalResourceId else Ok value.

(** The last three arms of [map_resource], which differ in the message. *)
Definition pep_resource (resource : Value) (id message : string) : ResourceMap :=
  let fqns := pep_fqns resource in
  if bool_decide (fqns = []) then DenyClosed id message else Fqns id fqns.

Definition map_resource (resource : Value) : result ResourceMap TranslateError :=
  let? rtype := ok_or (Malformed "resource.type") (get "type" resource ≫= as_str) in
  let? id := ok_or (Malformed "resource.id") (non_empty_str (get "id" resource)) in
  if bool_decide (rtype = "tool") then
    if pep_fqns_present resource then Err PepFqns else
    let? value := tool_attr_value id in
    Ok (Fqns id [MCP_TOOL_FQN_PREFIX +:+ value])
  else if bool_decide (rtype = "mcp_server") then
    if pep_fqns_present resource then Err PepFqns else
    if negb (opentdf_identifier_ok id) then Err IllegalResourceId else
    Ok (Fqns id [MCP_SERVER_FQN_PREFIX +:+ id])
  else if bool_decide (rtype = "catalog_item") then
    Ok (pep_resource resource id "catalog_item missing attribute_value_fqns")
  else if bool_decide (rtype = "tdf" \/ rtype = "kas") then
    Ok (pep_resource resource id "resource missing attribute_value_fqns")
  else Ok (pep_resource resource id "resource missing attribute_value_fqns").

(** ** The entity chain *)

Definition claims_entity (ephemeral_id : string) (subject : bool) (claims : Value) : Value :=
  VObject [("ephemeralId", VString ephemeral_id);
           ("category", VString (if subject then "CATEGORY_SUBJECT" else "CATEGORY_ENVIRONMENT"));
           ("claims", VObject [("@type", VString "type.googleapis.com/google.protobuf.Struct");
                               ("value", claims)])].

Definition pe_claims (subject : Value) : result Value TranslateError :=
  let? id := ok_or (Malformed "subject.id") (non_empty_str (get "id" subject)) in
  let m := map_insert "sub" (VString id) [] in
  match get "properties" subject ≫= as_object with
  | Some props =>
    let m := map_insert_opt "iss" (map_get "iss" props) m in
    let m := map_insert_opt "email" (map_get "email" props) m in
    match map_get "arkavo_patreon" props with
    | Some patreon =>
      let patreon := sanitize_patreon patreon in
      let m := map_insert_opt "patreon_user_id" (get "patreon_user_id" patreon) m in
      Ok (VObject (map_insert "arkavo_patreon" patreon m))
    | None => Ok (VObject m)
    end
  | None => Ok (VObject m)
  end.

Definition device_error (e : DeviceError) : TranslateError :=
  match e with
  | MissingField _ => Malformed "device missing required field"
  | BothDeviceAndDevices => Malformed "context.device and context.devices both present"
  | EmptyDevices => Malformed "context.devices is empty"
  end.

(** The first device that does not belong to the subject. *)
Fixpoint unbound_device (pe_sub : string) (devices : list DeviceObject) : option string :=
  match devices with
  | [] => None
  | d :: devices =>
    if negb (bool_decide (device_aud d = DEVICECHECK_AUD)) then
      Some "device aud must be arkavo:devicecheck"
    else if negb (devices_bind pe_sub (device_sub d)) then
      Some "device sub does not bind to subject.id"
    else unbound_device pe_sub devices
  end.

(** [format!("e{}", i)] *)
Definition entity_id (i : nat) : string := "e" +:+ display_Z (Z.of_nat i).

Definition reconstruct_chain (subject : Value) (context : option Value) :
    result ChainMap TranslateError :=
  let? pe := pe_claims subject in
  let pe_sub := default "" (as_str (at_key "sub" pe)) in
  let? devices :=
    match context with
    | Some ctx => map_err device_error (devices_from_context ctx)
    | None => Ok []
    end in
  let environment := (c ← context; get "environment" c) in
  let env_present := match environment with Some v => negb (is_null v) | None => false end in
  let e_count := if env_present then 1 else 0 in
  if MAX_CHAIN <? 1 + length devices + e_count then Err ChainCap else
  match unbound_device pe_sub devices with
  | Some message => Ok (ChainDenyClosed message)
  | None =>
    let entities :=
      claims_entity "e0" true pe ::
      imap (fun i d => claims_entity (entity_id (i + 1)) false (device_to_value d)) devices in
    let entities :=
      if env_present then
        entities ++ [claims_entity (entity_id (length entities)) false
                       (allowlist_environment (default VNull environment))]
      else entities in
    Ok (ChainOk (VObject [("ephemeralId", VString "chain"); ("entities", VArray entities)]))
  end.

Definition fulfillable_from_context (context : option Value) : list string :=
  strings_of (c ← context; p ← get "pep" c; get "fulfillable_obligation_fqns" p).

(** ** Requests *)

Definition entity_identifier (chain : Value) : Value := VObject [("entityChain", chain)].

Definition resource_body (ephemeral_id : string) (fqns : list string) : Value :=
  VObject [("ephemeralId", VString ephemeral_id);
           ("attributeValues", VObject [("fqns", json_strings fqns)])].

Definition get_decision_request (chain : Value) (action ephemeral_id : string)
    (fqns fulfillable : list string) : Value :=
  VObject [("entityIdentifier", entity_identifier chain);
           ("action", VObject [("name", VString action)]);
           ("resource", resource_body ephemeral_id fqns);
           ("fulfillableObligationFqns", json_strings fulfillable)].

Definition multi_resource_request (chain : Value) (action : string)
    (resources : list (string * list string)) (fulfillable : list string) : Value :=
  VObject [("entityIdentifier", entity_identifier chain);
           ("action", VObject [("name", VString action)]);
           ("resources", VArray ((fun r => resource_body r.1 r.2) <$> resources));
           ("fulfillableObligationFqns", json_strings fulfillable)].

Definition bulk_request (groups : list Value) : Value :=
  VObject [("decisionRequests", VArray groups)].

(** ** Answers *)

Definition is_permit (decision : string) : bool := bool_decide (decision = "DECISION_PERMIT").

Definition obligations_from (v : option Value) : list string := strings_of v.

(** A string field, empty where there is none. *)
Definition str_field (k : string) (v : option Value) : string :=
  default "" (d ← v; f ← get k d; as_str f).

Definition parse_get_decision_response (resp : Value) : DecisionOut :=
  let nested := get "decision" resp in
  {| out_ephemeral_id := str_field "ephemeralResourceId" nested;
     permit := is_permit (str_field "decision" nested);
     required_obligations := obligations_from (d ← nested; get "requiredObligations" d) |}.

Definition resource_decision (d : Value) : DecisionOut :=
  {| out_ephemeral_id := str_field "ephemeralResourceId" (Some d);
     permit := is_permit (str_field "decision" (Some d));
     required_obligations := obligations_from (get "requiredObligations" d) |}.

Definition parse_resource_decisions (resp : Value) : list DecisionOut :=
  match get "resourceDecisions" resp ≫= as_array with
  | Some a => resource_decision <$> a
  | None => []
  end.

Definition parse_bulk_responses (resp : Value) : list (list DecisionOut) :=
  match get "decisionResponses" resp ≫= as_array with
  | Some a => parse_resource_decisions <$> a
  | None => []
  end.

(** ** AuthZEN decisions *)

Definition evaluation_id (rid : string) (index : option nat) : string :=
  match index with
  | Some i => rid +:+ ":" +:+ display_Z (Z.of_nat i)
  | None => rid
  end.

Definition decision_context (rid : string) (index : option nat) (obligations : list string)
    (error : option Value) : Value :=
  let ctx := map_insert "evaluation_id" (VString (evaluation_id rid index)) [] in
  let ctx := map_insert "obligations" (VObject [("required", json_strings obligations)]) ctx in
  VObject (map_insert_opt "error" error ctx).

Definition authzen_decision (permit : bool) (rid : string) (index : option nat)
    (obligations : list string) (error : option Value) : Value :=
  VObject [("decision", VBool permit);
           ("context", decision_context rid index obligations error)].

Definition deny_closed (rid : string) (index : option nat) (message : string) : Value :=
  authzen_decision false rid index [] (Some (VObject [("message", VString message)])).

(** ** Discovery (discovery.rs) *)

Definition discovery_document (policy_decision_point : string) : Value :=
  let base := trim_end_matches "/" policy_decision_point in
  VObject [("policy_decision_point", VString base);
           ("access_evaluation_endpoint", VString (base +:+ "/access/v1/evaluation"));
           ("access_evaluations_endpoint", VString (base +:+ "/access/v1/evaluations"))].
