(* ===== verification/AuthzenVerify.v ===== *)
(** * Verification of CBOR web tokens (src/src/modules/authzen/cwt_verify.rs)

    The crates behind it are the class [CwtCrates]: the base64url codec, ciborium's decoder,
    coset's COSE_Sign1 and COSE_Key and the P-256 signatures. *)
From Stdlib Require Import Floats.SpecFloat.
From coqutil Require Import Datatypes.RecordSettersUsingExistingGetters.
From S2P Require Import Prelude RustStr Json AuthzenSubject.

#[local] Open Scope string_scope.
#[local] Open Scope nat_scope.
#[local] Open Scope list_scope.
#[local] Open Scope rust_scope.

Definition CWT_TAG_PREFIX : bytes := [xd8; x3d].
Definition SKEW_SECS : Z := 60.

Inductive VerifyError : Set :=
| Malformed
| UnsupportedAlg
| UnsupportedCritical
| MissingProtectedKid
| UnknownKid
| Signature
| Expired
| NotYetValid
| MissingClaim (name : string)
| DuplicateKey
| Issuer
| Audience
| KeySet.

Record VerifyOpts := {
  expected_iss : option string;
  expected_aud : option string;
  expected_kid : option bytes;
  now : Z;
}.

(** ** The crates *)

(** The algorithm of a protected header, as far as the code tells them apart, the key types
    and the labels of key parameters. *)
Inductive CoseAlgorithm : Set := ES256 | OtherAlgorithm.
Inductive CoseKeyType : Set := EC2 | OtherKeyType.
Inductive CoseLabel : Set := LabelInt (i : Z) | LabelText (s : string).

Record CoseKey := {
  kty : CoseKeyType;
  key_id : bytes;
  params : list (CoseLabel * CborValue);
}.

(** [sign1_signature] and [tbs_data s aad] are what [verify_signature] hands to its closure. *)
Class CwtCrates := {
  b64url_encode : bytes -> string;
  b64url_decode : string -> option bytes;
  cbor_from_reader : bytes -> result CborValue string;
  CoseSign1 : Type;
  CriticalLabel : Type;
  sign1_from_slice : bytes -> option CoseSign1;
  sign1_from_tagged_slice : bytes -> option CoseSign1;
  protected_alg : CoseSign1 -> option CoseAlgorithm;
  protected_crit : CoseSign1 -> list CriticalLabel;
  protected_key_id : CoseSign1 -> bytes;
  sign1_payload : CoseSign1 -> option bytes;
  sign1_signature : CoseSign1 -> bytes;
  tbs_data : CoseSign1 -> bytes -> bytes;
  cose_key_from_cbor : CborValue -> result CoseKey string;
  VerifyingKey : Type;
  P256Signature : Type;
  signature_from_slice : bytes -> option P256Signature;
  p256_verify : VerifyingKey -> bytes -> P256Signature -> bool;
  verifying_key_from_sec1 : bytes -> result VerifyingKey string;
}.

(** ** Claims *)

(** RFC 8392 NumericDate *)
Definition numeric_date (v : CborValue) : option Z :=
  match v with
  | CInteger n => if (0 <=? n)%Z && (n <? 2 ^ 64)%Z then Some n else None
  | CFloat f => if is_finite f && SFleb (S754_zero false) f then Some (trunc_u64 f) else None
  | _ => None
  end.

Definition text_array (a : list CborValue) : result (list string) VerifyError :=
  collect_results (fun v => match v with CText s => Ok s | _ => Err Malformed end) a.

(** [serde_json::Value::from] of an integer *)
Definition integer_value (n : Z) : Value := VNumber (if (0 <=? n)%Z then PosInt n else NegInt n).

Fixpoint cbor_to_json (b64url_encode : bytes -> string) (v : CborValue) : Value :=
  match v with
  | CNull => VNull
  | CBool b => VBool b
  | CInteger n =>
    if (- 2 ^ 63 <=? n)%Z && (n <? 2 ^ 63)%Z then integer_value n
    else if (0 <=? n)%Z && (n <? 2 ^ 64)%Z then integer_value n
    else VString (display_Z n)
  | CFloat f => if is_finite f then VNumber (Float f) else VNull
  | CText s => VString s
  | CArray a => VArray (cbor_to_json b64url_encode <$> a)
  | CMap m =>
    VObject ((fix go (obj : Map) (m : list (CborValue * CborValue)) : Map :=
      match m with
      | [] => obj
      | (CText ks, val) :: m => go (map_insert ks (cbor_to_json b64url_encode val) obj) m
      | _ :: m => go obj m
      end) [] m)
  | CBytes b => VString (b64url_encode b)
  | CTag _ _ => VNull
  end.

(** The local variables of [parse_claims]. *)
Record Slots := {
  s_iss : option string; s_sub : option string; s_aud : option Aud;
  s_exp : option Z; s_nbf : option Z; s_iat : option Z; s_cti : option bytes;
  s_email : option string; s_email_verified : option bool; s_idp : option string;
  s_arkavo_account_id : option string; s_arkavo_roles : option (list string);
  s_arkavo_entitlements : option (list string); s_client_id : option string;
  s_arkavo_patreon : option Value;
}.

Definition no_slots : Slots :=
  {| s_iss := None; s_sub := None; s_aud := None; s_exp := None; s_nbf := None; s_iat := None;
     s_cti := None; s_email := None; s_email_verified := None; s_idp := None;
     s_arkavo_account_id := None; s_arkavo_roles := None; s_arkavo_entitlements := None;
     s_client_id := None; s_arkavo_patreon := None |}.

(** [seen]'s name of a key. *)
Definition claim_key (k : CborValue) : result string VerifyError :=
  match k with
  | CInteger i => Ok ("i:" +:+ display_Z i)
  | CText t => Ok ("t:" +:+ t)
  | _ => Err Malformed
  end.

Section Claims.
Context {crates : CwtCrates}.

(** The match on an integer key. *)
Definition integer_claim (key : Z) (v : CborValue) (c : Slots) : result Slots VerifyError :=
  match key, v with
  | 1%Z, CText s => Ok (c <| s_iss := Some s |>)
  | 2%Z, CText s => Ok (c <| s_sub := Some s |>)
  | 3%Z, CText s => Ok (c <| s_aud := Some (One s) |>)
  | 3%Z, CArray a => let? v := text_array a in Ok (c <| s_aud := Some (Many v) |>)
  | 4%Z, v => Ok (c <| s_exp := numeric_date v |>)
  | 5%Z, v => let? d := ok_or Malformed (numeric_date v) in Ok (c <| s_nbf := Some d |>)
  | 6%Z, v => Ok (c <| s_iat := numeric_date v |>)
  | 7%Z, CBytes b => Ok (c <| s_cti := Some b |>)
  | _, _ => Ok c
  end.

(** The match on a text key. *)
Definition text_claim (key : string) (v : CborValue) (c : Slots) : result Slots VerifyError :=
  match v with
  | CText s =>
    Ok (if bool_decide (key = "email") then c <| s_email := Some s |>
        else if bool_decide (key = "idp") then c <| s_idp := Some s |>
        else if bool_decide (key = "arkavo_account_id") then c <| s_arkavo_account_id := Some s |>
        else if bool_decide (key = "client_id") then c <| s_client_id := Some s |>
        else c)
  | CBool b => Ok (if bool_decide (key = "email_verified") then c <| s_email_verified := Some b |> else c)
  | CArray a =>
    if bool_decide (key = "arkavo_roles") then
      let? r := text_array a in Ok (c <| s_arkavo_roles := Some r |>)
    else if bool_decide (key = "arkavo_entitlements") then
      let? r := text_array a in Ok (c <| s_arkavo_entitlements := Some r |>)
    else Ok c
  | CMap _ =>
    Ok (if bool_decide (key = "arkavo_patreon")
        then c <| s_arkavo_patreon := Some (cbor_to_json b64url_encode v) |> else c)
  | _ => Ok c
  end.

Fixpoint read_claims (seen : gset string) (c : Slots) (entries : list (CborValue * CborValue)) :
    result Slots VerifyError :=
  match entries with
  | [] => Ok c
  | (k, v) :: entries =>
    let? key_id := claim_key k in
    if bool_decide (key_id ∈ seen) then Err DuplicateKey else
    let? c :=
      match k with
      | CInteger key => integer_claim key v c
      | CText key => text_claim key v c
      | _ => Ok c
      end in
    read_claims ({[key_id]} ∪ seen) c entries
  end.

(** [v.filter(|s| !s.is_empty()).ok_or(VerifyError::MissingClaim(name))] *)
Definition non_empty_claim (v : option string) (name : string) : result string VerifyError :=
  ok_or (MissingClaim name) (s ← v; if is_empty s then None else Some s).

Definition aud_present (a : Aud) : bool :=
  match a with
  | One s => negb (is_empty s)
  | Many v => negb (bool_decide (v = [])) && forallb (fun s => negb (is_empty s)) v
  end.

Definition parse_claims (payload : bytes) : result DecodedClaims VerifyError :=
  let? value := map_err (fun _ => Malformed) (cbor_from_reader payload) in
  let? entries := match value with CMap entries => Ok entries | _ => Err Malformed end in
  let? c := read_claims ∅ no_slots entries in
  let? i := non_empty_claim (s_iss c) "iss" in
  let? s := non_empty_claim (s_sub c) "sub" in
  let? a := ok_or (MissingClaim "aud") (a ← s_aud c; if aud_present a then Some a else None) in
  let? e := ok_or (MissingClaim "exp") (s_exp c) in
  let? t := ok_or (MissingClaim "iat") (s_iat c) in
  let? id := ok_or (MissingClaim "cti")
    (b ← s_cti c; if bool_decide (b = []) then None else Some b) in
  Ok {| iss := i; sub := s; aud := a; exp := e; nbf := s_nbf c; iat := t; cti := id;
        email := s_email c; email_verified := s_email_verified c; idp := s_idp c;
        arkavo_account_id := s_arkavo_account_id c; arkavo_roles := s_arkavo_roles c;
        arkavo_entitlements := s_arkavo_entitlements c; client_id := s_client_id c;
        arkavo_patreon := s_arkavo_patreon c |}.

(** ** Tokens *)

Definition header_kid (token_b64 : string) : result bytes VerifyError :=
  let? bytes := ok_or Malformed (b64url_decode (trim token_b64)) in
  let? inner := ok_or Malformed (slice_strip_prefix CWT_TAG_PREFIX bytes) in
  let? sign1 := ok_or Malformed (sign1_from_slice inner) in
  if bool_decide (protected_key_id sign1 = []) then Err MissingProtectedKid else
  Ok (protected_key_id sign1).

Definition parse_sign1 (inner : bytes) : result CoseSign1 VerifyError :=
  ok_or Malformed
    match sign1_from_slice inner with
    | Some s => Some s
    | None => sign1_from_tagged_slice inner
    end.

(** The closure given to [verify_signature]. *)
Definition signature_ok (key : VerifyingKey) (sig data : bytes) : bool :=
  match signature_from_slice sig with
  | Some sig => p256_verify key data sig
  | None => false
  end.

Definition aud_contains (a : Aud) (want : string) : bool :=
  match a with
  | One s => bool_decide (s = want)
  | Many v => existsb (fun s => bool_decide (s = want)) v
  end.

(** A check that fails with [e]. *)
Definition require (b : bool) (e : VerifyError) : result unit VerifyError :=
  if b then Ok tt else Err e.

(** The checks of the claims against the options.  The casts to [i64] wrap; the sums do not,
    [now] being a timestamp of chrono, which is below 2^43. *)
Definition check_claims (claims : DecodedClaims) (opts : VerifyOpts) : result unit VerifyError :=
  check require match expected_iss opts with
                | Some want => bool_decide (iss claims = want)
                | None => true
                end Issuer ;;
  check require match expected_aud opts with
                | Some want => aud_contains (aud claims) want
                | None => true
                end Audience ;;
  check require (iat claims <=? exp claims)%Z Malformed ;;
  check require (now opts - SKEW_SECS <? i64_of_u64 (exp claims))%Z Expired ;;
  check require (i64_of_u64 (iat claims) <=? now opts + SKEW_SECS)%Z NotYetValid ;;
  require match nbf claims with
          | Some nbf => (i64_of_u64 nbf <=? now opts + SKEW_SECS)%Z
          | None => true
          end NotYetValid.

Definition verify_tagged_bytes (bytes : bytes) (key : VerifyingKey) (opts : VerifyOpts) :
    result DecodedClaims VerifyError :=
  let? inner := ok_or Malformed (slice_strip_prefix CWT_TAG_PREFIX bytes) in
  let? sign1 := parse_sign1 inner in
  check match protected_alg sign1 with Some ES256 => Ok tt | _ => Err UnsupportedAlg end ;;
  check match protected_crit sign1 with [] => Ok tt | _ => Err UnsupportedCritical end ;;
  check require (negb (bool_decide (protected_key_id sign1 = []))) MissingProtectedKid ;;
  check require match expected_kid opts with
                | Some want => bool_decide (protected_key_id sign1 = want)
                | None => true
                end UnknownKid ;;
  check require (signature_ok key (sign1_signature sign1) (tbs_data sign1 [])) Signature ;;
  let? payload := ok_or Malformed (sign1_payload sign1) in
  let? claims := parse_claims payload in
  check check_claims claims opts ;;
  Ok claims.

Definition verify_header_token (token_b64 : string) (key : VerifyingKey) (opts : VerifyOpts) :
    result DecodedClaims VerifyError :=
  let? bytes := ok_or Malformed (b64url_decode (trim token_b64)) in
  verify_tagged_bytes bytes key opts.
End Claims.
