(* ===== verification/AuthzenKeys.v ===== *)
(** * The cache of verification keys (src/src/modules/authzen/cose_keys.rs)

    [authzen_event] are the effects of the AuthZEN modules: the clocks, the lock-protected key
    cache shared by the requests, the lock that serialises refreshes, random request ids and
    the HTTP client.  An answer of the client is the failure to send, or a status and what
    reading the body gives. *)
From S2P Require Import Prelude RustStr Json Services AuthzenSubject AuthzenVerify.

#[local] Open Scope string_scope.
#[local] Open Scope nat_scope.
#[local] Open Scope list_scope.
#[local] Open Scope rust_scope.

#[export] Instance byte_countable : Countable byte :=
  inj_countable Byte.to_N Byte.of_N Byte.of_to_N.

(** Durations and instants are in milliseconds. *)
Definition KEY_REFRESH_MIN_INTERVAL : Z := 60 * 1000.
Definition KEY_FETCH_TIMEOUT : Z := 10 * 1000.
Definition KEY_MAX_AGE : Z := 300 * 1000.

Section Cache.
Context {crates : CwtCrates}.

Record KeyCache := {
  keys : gmap bytes VerifyingKey;
  last_fetch : option Z;
}.

(** The cells behind the locks are the [ReadKeys] and [StoreKeys] of the events; [http] is a
    client of the timeout [KEY_FETCH_TIMEOUT]. *)
Record CoseKeyCache := {
  cose_keys_url : option string;
  http_timeout : Z;
  max_age : Z;
}.

Record PostRequest := {
  post_url : string;
  post_headers : list (string * string);
  post_bearer : option string;
  post_body : Value;
}.

(** [ReadKeys] is what a read guard sees.  [StoreKeys] is the critical section of the write
    guard, which replaces the keys and dates them with the current instant. *)
Inductive authzen_event : Type -> Type :=
| UtcNow : authzen_event Z
| InstantNow : authzen_event Z
| NewUuid : authzen_event string
| ReadKeys : authzen_event KeyCache
| StoreKeys (keys : gmap bytes VerifyingKey) : authzen_event unit
| FetchLock : authzen_event unit
| FetchUnlock : authzen_event unit
| HttpGet (url : string) : authzen_event (result (Z * result bytes string) string)
| HttpPost (r : PostRequest) : authzen_event (result (Z * result Value string) string).

Abbreviation aio := (prog authzen_event).

(** [StatusCode::is_success] *)
Definition is_success (status : Z) : bool := (200 <=? status)%Z && (status <=? 299)%Z.

(** ** Key sets *)

Definition p256_params (key : CoseKey) : bool * option bytes * option bytes :=
  foldl (fun st (lv : CoseLabel * CborValue) =>
    let '(crv_ok, x, y) := st in
    match lv with
    | (LabelInt l, value) =>
      if (l =? -1)%Z then
        (match value with CInteger i => (i =? 1)%Z | _ => false end, x, y)
      else if (l =? -2)%Z then
        (crv_ok, match value with CBytes b => Some b | _ => x end, y)
      else if (l =? -3)%Z then
        (crv_ok, x, match value with CBytes b => Some b | _ => y end)
      else st
    | (LabelText _, _) => st
    end) (false, None, None) (params key).

Definition p256_from_cose_key (key : CoseKey) : result VerifyingKey string :=
  match kty key with
  | OtherKeyType => Err "kty is not EC2"
  | EC2 =>
    let '(crv_ok, x, y) := p256_params key in
    if negb crv_ok then Err "crv is not P-256" else
    let? x := ok_or "missing x" x in
    let? y := ok_or "missing y" y in
    if negb (length x =? 32) || negb (length y =? 32) then Err "x/y are not 32 bytes" else
    verifying_key_from_sec1 (x04 :: x ++ y)
  end.

(** One entry of a set: entries that are not usable are skipped. *)
Definition usable_key (entry : CborValue) : option (bytes * VerifyingKey) :=
  match cose_key_from_cbor entry with
  | Err _ => None
  | Ok key =>
    match p256_from_cose_key key with
    | Ok vk => if bool_decide (key_id key = []) then None else Some (key_id key, vk)
    | Err _ => None
    end
  end.

Definition parse_cose_key_set (bytes : bytes) : result (list (Prelude.bytes * VerifyingKey)) string :=
  let? value := cbor_from_reader bytes in
  match value with
  | CArray entries =>
    match omap (M := list) usable_key entries with
    | [] => Err "no usable P-256 keys in key set"
    | out => Ok out
    end
  | _ => Err "key set is not a CBOR array"
  end.

(** [keys.into_iter().collect::<HashMap<_, _>>()]: a later key of the same id wins. *)
Definition collect_keys (l : list (bytes * VerifyingKey)) : gmap bytes VerifyingKey :=
  foldl (fun m kv => <[kv.1 := kv.2]> m) ∅ l.

(** ** The cache *)

Definition with_max_age (url : string) (age : Z) : CoseKeyCache :=
  {| cose_keys_url := Some url; http_timeout := KEY_FETCH_TIMEOUT; max_age := age |}.
Definition new_cache (url : string) : CoseKeyCache := with_max_age url KEY_MAX_AGE.
Definition empty_keys : KeyCache := {| keys := ∅; last_fetch := None |}.

Definition refresh_throttle (c : CoseKeyCache) : Z := KEY_REFRESH_MIN_INTERVAL `min` max_age c.

(** [t.elapsed()] at the instant [now]: it saturates at zero. *)
Definition elapsed (now t : Z) : Z := 0 `max` (now - t).

Definition lookup_key (kid : bytes) : aio (option VerifyingKey) :=
  let* cache := trigger ReadKeys in Ret (keys cache !! kid).

Definition fresh_lookup (c : CoseKeyCache) (kid : bytes) : aio (option VerifyingKey) :=
  let* cache := trigger ReadKeys in
  match last_fetch cache with
  | None => Ret None
  | Some t =>
    let* now := trigger InstantNow in
    Ret (if (elapsed now t <? max_age c)%Z then keys cache !! kid else None)
  end.

(** Whether the set was fetched so recently that a refresh is skipped. *)
Definition throttled (c : CoseKeyCache) : aio bool :=
  let* cache := trigger ReadKeys in
  match last_fetch cache with
  | None => Ret false
  | Some last =>
    let* now := trigger InstantNow in
    Ret (elapsed now last <? refresh_throttle c)%Z
  end.

(** From the request on, under the lock. *)
Definition fetch_keys (url : string) : aio (result unit VerifyError) :=
  let* resp := trigger (HttpGet url) in
  match resp with
  | Err _ => Ret (Err KeySet)
  | Ok (status, body) =>
    if negb (is_success status) then Ret (Err KeySet) else
    match body with
    | Err _ => Ret (Err KeySet)
    | Ok body =>
      match parse_cose_key_set body with
      | Err _ => Ret (Err KeySet)
      | Ok ks => let* _ := trigger (StoreKeys (collect_keys ks)) in Ret (Ok tt)
      end
    end
  end.

Definition refresh_keys (c : CoseKeyCache) : aio (result unit VerifyError) :=
  match cose_keys_url c with
  | None => Ret (Ok tt)
  | Some url =>
    let* skip := throttled c in
    if skip then Ret (Ok tt) else
    let* _ := trigger FetchLock in
    let* skip := throttled c in
    let* r := (if skip then Ret (Ok tt) else fetch_keys url) in
    let* _ := trigger FetchUnlock in
    Ret r
  end.

Definition resolve (c : CoseKeyCache) (kid : bytes) : aio (result VerifyingKey VerifyError) :=
  let* found := fresh_lookup c kid in
  match found with
  | Some k => Ret (Ok k)
  | None =>
    let*? _ := refresh_keys c in
    let* k := lookup_key kid in
    Ret (ok_or UnknownKid k)
  end.
End Cache.

Abbreviation aio := (prog authzen_event).
