(* ===== verification/AuthzenFacade.v ===== *)
(** * The AuthZEN endpoints (src/src/modules/authzen/facade.rs)

    Authentication of the policy enforcement points, the two evaluation handlers and the
    client of the upstream decision point.  A handler is a program that ends with a response
    or a panic; [FacadeCrates] are the URL parser, the HTTP client's builder and the header
    values of the http crate. *)
From S2P Require Import Prelude RustStr Json Services AuthzenSubject AuthzenTranslate.
From S2P Require Import AuthzenVerify AuthzenKeys.

#[local] Open Scope string_scope.
#[local] Open Scope nat_scope.
#[local] Open Scope list_scope.
#[local] Open Scope rust_scope.

Class FacadeCrates := {
  url_scheme : string -> result string string;
  client_build : result unit string;
  header_to_str : bytes -> option string;
  header_value_ok : string -> bool;
}.

Record FacadeState := {
  platform_url : string;
  issuer : string;
  pep_client_ids : option (gset string);
  public_url : option string;
  key_cache : CoseKeyCache;
  upstream_bearer : option string;
  facade_expected_aud : option string;
}.

(** ** Configuration *)

Definition parse_enabled_flag (raw : option string) : result bool string :=
  match raw with
  | None => Ok false
  | Some s =>
    let other := to_ascii_lowercase s in
    if bool_decide (other = "off" \/ other = "") then Ok false
    else if bool_decide (other = "on") then Ok true
    else Err ("AUTHZEN_FACADE must be off or on, got " +:+ other)
  end.

Section Configuration.
Context {crates : FacadeCrates} {C : Type}.

Definition env (name : string) : prog (event C) (option string) := trigger (Os (EnvVar name)).

Definition enabled_from_env : prog (event C) (result bool string) :=
  let* raw := env "AUTHZEN_FACADE" in Ret (parse_enabled_flag raw).

Definition facade_new (url issuer : string) (cache : CoseKeyCache) (ids : option (gset string))
    (public_url upstream_bearer expected_aud : option string) : result FacadeState string :=
  let? scheme := map_err (fun e => "invalid OPENTDF_PLATFORM_URL: " +:+ e) (url_scheme url) in
  if negb (bool_decide (scheme = "http")) && negb (bool_decide (scheme = "https"))
  then Err ("invalid OPENTDF_PLATFORM_URL scheme: " +:+ scheme) else
  check map_err (fun e => "authzen http client: " +:+ e) client_build ;;
  Ok {| platform_url := trim_end_matches "/" url; issuer := issuer; pep_client_ids := ids;
        public_url := public_url; key_cache := cache; upstream_bearer := upstream_bearer;
        facade_expected_aud := expected_aud |}.

(** [.filter(|s| !s.is_empty())] *)
Definition non_empty (o : option string) : option string :=
  s ← o; if is_empty s then None else Some s.

(** The comma-separated list of client ids, none if it is empty. *)
Definition client_ids (s : string) : option (gset string) :=
  let set := list_to_set (filter (fun x => x <> "") (trim <$> str_split "," s)) : gset string in
  if bool_decide (set = ∅) then None else Some set.

Definition facade_from_env (url : string) : prog (event C) (result FacadeState string) :=
  let* issuer := env "OIDC_ISSUER" in
  let issuer := default "https://identity.arkavo.net" issuer in
  let* keys_url := env "AUTHZEN_COSE_KEYS_URL" in
  let keys_url := default (trim_end_matches "/" issuer +:+ "/.well-known/cose-keys") keys_url in
  let* ids := env "AUTHZEN_PEP_CLIENT_IDS" in
  let* public := env "AUTHZEN_PUBLIC_URL" in
  let* bearer := env "AUTHZEN_UPSTREAM_BEARER" in
  let* expected := env "AUTHZEN_EXPECTED_AUD" in
  Ret (facade_new url issuer (new_cache keys_url) (ids ≫= client_ids) (non_empty public)
         (non_empty bearer) (non_empty expected)).
End Configuration.

(** ** Requests and responses *)

(** What [HeaderMap::get] answers. *)
Definition HeaderMap : Type := string -> option bytes.

Record Response := {
  status : Z;
  body : Value;
  x_request_id : option string;
}.

Inductive Endpoint : Set := Evaluation | Evaluations | WellKnown.

Definition router : list (string * string * Endpoint) :=
  [("POST", "/access/v1/evaluation", Evaluation);
   ("POST", "/access/v1/evaluations", Evaluations);
   ("GET", "/.well-known/authzen-configuration", WellKnown)].

Inductive PepAuth : Set := Unauthorized | Forbidden | KeySetUnavailable.

Record Prepared := {
  p_index : nat;
  p_action : string;
  p_chain : Value;
  p_resource : ResourceMap;
  p_chain_deny : option string;
  p_fulfillable : list string;
  p_subject_id : string;
  p_resource_type : string;
}.

(** The index of an evaluation, its ephemeral id and its attribute values. *)
Abbreviation item := (nat * string * list string)%type.

Record Group := {
  g_chain : Value;
  g_action : string;
  g_fulfillable : list string;
  g_items : list item;
}.

(** ** Preparation of an evaluation *)

Definition field (entry top : Value) (key : string) : option Value :=
  match (v ← get key entry; if is_null v then None else Some v) with
  | Some v => Some v
  | None => v ← get key top; if is_null v then None else Some v
  end.

Definition check_tools_list (action_name : string) (resource : Value) :
    result unit TranslateError :=
  if eq_ignore_ascii_case action_name "tools/list" &&
     negb (bool_decide (get "type" resource ≫= as_str = Some "mcp_server"))
  then Err (AuthzenTranslate.Malformed "tools/list requires resource.type mcp_server")
  else Ok tt.

Definition prepare_one (index : nat) (subject action_obj resource : Value)
    (context : option Value) : result Prepared TranslateError :=
  let? action_name := ok_or (AuthzenTranslate.Malformed "action.name")
    (get "name" action_obj ≫= as_str) in
  check check_tools_list action_name resource ;;
  let? action := map_action action_name in
  let? resource_map := map_resource resource in
  let? chain_map := reconstruct_chain subject context in
  let '(chain, chain_deny) :=
    match chain_map with
    | ChainOk c => (c, None)
    | ChainDenyClosed msg => (VObject [], Some msg)
    end in
  Ok {| p_index := index; p_action := action; p_chain := chain; p_resource := resource_map;
        p_chain_deny := chain_deny; p_fulfillable := fulfillable_from_context context;
        p_subject_id := str_field "id" (Some subject);
        p_resource_type := str_field "type" (Some resource) |}.

(** ** Groups *)

Definition same_group (p : Prepared) (g : Group) : bool :=
  bool_decide (g_action g = p_action p) && value_eqb (g_chain g) (p_chain p) &&
  bool_decide (g_fulfillable g = p_fulfillable p).

(** Push to the first group that fits, or open one. *)
Fixpoint push_item (p : Prepared) (it : item) (groups : list Group) : list Group :=
  match groups with
  | [] =>
    [{| g_chain := p_chain p; g_action := p_action p; g_fulfillable := p_fulfillable p;
        g_items := [it] |}]
  | g :: groups =>
    if same_group p g then
      {| g_chain := g_chain g; g_action := g_action g; g_fulfillable := g_fulfillable g;
         g_items := g_items g ++ [it] |} :: groups
    else g :: push_item p it groups
  end.

Definition group_step (groups : list Group) (p : Prepared) : list Group :=
  match p_chain_deny p, p_resource p with
  | Some _, _ => groups
  | None, DenyClosed _ _ => groups
  | None, Fqns ephemeral_id fqns => push_item p (p_index p, ephemeral_id, fqns) groups
  end.

Definition groups_of (prepared : list Prepared) : list Group := foldl group_step [] prepared.

(** ** Results

    A slot per evaluation; writing outside of them panics. *)
Abbreviation slots := (list (option Value)).

Definition set_result (results : slots) (index : nat) (v : Value) : outcome slots :=
  if index <? length results then Done (<[index := Some v]> results) else Panic.

(** The queues of decisions by ephemeral id. *)
Definition by_id (parsed : list DecisionOut) : gmap string (list DecisionOut) :=
  foldl (fun m d => <[out_ephemeral_id d := default [] (m !! out_ephemeral_id d) ++ [d]]> m)
    ∅ parsed.

Fixpoint apply_queues (queues : gmap string (list DecisionOut)) (results : slots)
    (items : list item) (rid : string) : outcome slots :=
  match items with
  | [] => Done results
  | (index, eid, _) :: items =>
    match queues !! eid with
    | Some (d :: q) =>
      let! results := set_result results index
        (authzen_decision (permit d) rid (Some index) (required_obligations d) None) in
      apply_queues (<[eid := q]> queues) results items rid
    | _ =>
      let! results := set_result results index
        (deny_closed rid (Some index) "no upstream decision for resource") in
      apply_queues queues results items rid
    end
  end.

Definition apply_decisions (results : slots) (items : list item) (parsed : list DecisionOut)
    (rid : string) : outcome slots :=
  apply_queues (by_id parsed) results items rid.

Definition decision_of (v : Value) : option bool := get "decision" v ≫= as_bool.

Definition group_has (results : slots) (items : list item) (want : bool) : bool :=
  existsb (fun it : item => bool_decide (mjoin (results !! it.1.1) ≫= decision_of = Some want)) items.

Definition fill_remaining_deny (results : slots) (rid message : string) : slots :=
  imap (fun i slot =>
    match slot with
    | None => Some (deny_closed rid (Some i) message)
    | Some v => Some v
    end) results.

Definition semantic_of (body : Value) : string :=
  default "execute_all" (o ← get "options" body; s ← get "evaluations_semantic" o; as_str s).

Section Facade.
Context {cwt : CwtCrates} {crates : FacadeCrates}.

(** ** Headers *)

Definition header (headers : HeaderMap) (name : string) : option string :=
  v ← headers name; header_to_str v.

Definition request_id (headers : HeaderMap) : aio string :=
  match header headers "x-request-id" with
  | Some s =>
    let s := trim s in
    if negb (is_empty s) && header_value_ok s then Ret s else trigger NewUuid
  | None => trigger NewUuid
  end.

Definition host_char (c : byte) : bool :=
  is_ascii_alphanumeric c || bool_decide (c ∈ ["."%byte; "-"%byte; ":"%byte]).

Definition is_plausible_host (h : string) : bool :=
  negb (is_empty h) && (length (as_bytes h) <=? 253) && forallb host_char (as_bytes h).

Definition public_base (st : FacadeState) (headers : HeaderMap) : string :=
  match public_url st with
  | Some u => trim_end_matches "/" u
  | None =>
    let host := default "localhost"
      (h ← header headers "host"; if is_plausible_host h then Some h else None) in
    "https://" +:+ host
  end.

Definition with_rid (status : Z) (body : Value) (rid : string) : Response :=
  {| status := status; body := body;
     x_request_id := if header_value_ok rid then Some rid else None |}.

Definition err_json (status : Z) (message rid : string) : Response :=
  with_rid status (VObject [("error", VString message)]) rid.

Definition pep_fail (e : PepAuth) (rid : string) : Response :=
  match e with
  | Unauthorized => err_json 401 "invalid pep credential" rid
  | Forbidden => err_json 403 "pep client not allowlisted" rid
  | KeySetUnavailable => err_json 500 "key set unavailable" rid
  end.

Definition translate_err (e : TranslateError) (rid : string) : Response :=
  err_json 400 (translate_message e) rid.

(** ** Authentication *)

Definition bearer_token (headers : HeaderMap) : option string :=
  auth ← header headers "authorization";
  rest ← match strip_prefix "Bearer " auth with
         | Some r => Some r
         | None => strip_prefix "bearer " auth
         end;
  let token := trim rest in
  if is_empty token then None else Some token.

(** The checks of the verified claims. *)
Definition pep_claims_ok (st : FacadeState) (claims : DecodedClaims) : result unit PepAuth :=
  let? client_id := ok_or Unauthorized (non_empty (strip_prefix "client:" (sub claims))) in
  let has_role :=
    match arkavo_roles claims with
    | Some r => existsb (fun x => bool_decide (x = "service-account")) r
    | None => false
    end in
  if negb has_role then Err Unauthorized else
  if negb (aud_contains (aud claims) client_id) then Err Unauthorized else
  if negb match facade_expected_aud st with
          | Some want => aud_contains (aud claims) want
          | None => true
          end then Err Unauthorized else
  match pep_client_ids st with
  | Some allow => if bool_decide (client_id ∈ allow) then Ok tt else Err Forbidden
  | None => Ok tt
  end.

Definition authenticate_pep (st : FacadeState) (headers : HeaderMap) :
    aio (result (DecodedClaims * string) PepAuth) :=
  match bearer_token headers with
  | None => Ret (Err Unauthorized)
  | Some token =>
    match header_kid token with
    | Err _ => Ret (Err Unauthorized)
    | Ok kid =>
      let* key := resolve (key_cache st) kid in
      match key with
      | Err KeySet => Ret (Err KeySetUnavailable)
      | Err _ => Ret (Err Unauthorized)
      | Ok key =>
        let* t := trigger UtcNow in
        let opts := {| expected_iss := Some (issuer st); expected_aud := None;
                       expected_kid := Some kid; now := t |} in
        Ret (let? claims := map_err (fun _ => Unauthorized) (verify_header_token token key opts) in
             check pep_claims_ok st claims ;;
             Ok (claims, token))
      end
    end
  end.

(** ** The upstream decision point *)

Definition connect_request (st : FacadeState) (method : string) (body : Value)
    (bearer rid : string) : PostRequest :=
  {| post_url := platform_url st +:+ "/authorization.v2.AuthorizationService/" +:+ method;
     post_headers := [("content-type", "application/json"); ("connect-protocol-version", "1");
                      ("x-request-id", rid)];
     post_bearer := if is_empty bearer then None else Some bearer;
     post_body := body |}.

Definition post_connect (st : FacadeState) (method : string) (body : Value)
    (bearer rid : string) : aio (result Value Z) :=
  let* resp := trigger (HttpPost (connect_request st method body bearer rid)) in
  match resp with
  | Err _ => Ret (Err 500%Z)
  | Ok (status, answer) =>
    if negb (is_success status) then Ret (Err 500%Z) else
    Ret (map_err (fun _ => 500%Z) answer)
  end.

(** ** The handlers *)

Definition well_known (st : FacadeState) (headers : HeaderMap) : Value :=
  discovery_document (public_base st headers).

Definition bearer_of (st : FacadeState) (pep_token : string) : string :=
  default pep_token (upstream_bearer st).

Definition prepare_request (req : Value) : result Prepared TranslateError :=
  let? subject := ok_or (AuthzenTranslate.Malformed "subject") (get "subject" req) in
  let? action := ok_or (AuthzenTranslate.Malformed "action") (get "action" req) in
  let? resource := ok_or (AuthzenTranslate.Malformed "resource") (get "resource" req) in
  prepare_one 0 subject action resource (get "context" req).

(** The body of a request: none if it was not JSON. *)
Definition evaluation (st : FacadeState) (headers : HeaderMap) (request : option Value) :
    aio (outcome Response) :=
  let* rid := request_id headers in
  match request with
  | None => Ret (Done (err_json 400 "malformed json" rid))
  | Some req =>
    let* pep := authenticate_pep st headers in
    match pep with
    | Err e => Ret (Done (pep_fail e rid))
    | Ok (_, pep_token) =>
      match prepare_request req with
      | Err e => Ret (Done (translate_err e rid))
      | Ok p =>
        match p_chain_deny p, p_resource p with
        | Some msg, _ => Ret (Done (with_rid 200 (deny_closed rid None msg) rid))
        | None, DenyClosed _ message =>
          Ret (Done (with_rid 200 (deny_closed rid None message) rid))
        | None, Fqns ephemeral_id fqns =>
          let req_body := get_decision_request (p_chain p) (p_action p) ephemeral_id fqns
            (p_fulfillable p) in
          let* upstream := post_connect st "GetDecision" req_body (bearer_of st pep_token) rid in
          match upstream with
          | Err s => Ret (Done (err_json s "upstream" rid))
          | Ok v =>
            let out := parse_get_decision_response v in
            Ret (Done (with_rid 200
              (authzen_decision (permit out) rid None (required_obligations out) None) rid))
          end
        end
      end
    end
  end.

(** The evaluations of a batch, or a status and a message: an absent or empty list with a
    top-level resource is one evaluation of the top level. *)
Definition batch_entries (req : Value) : result (list Value) string :=
  let? entries :=
    match get "evaluations" req with
    | Some (VArray (e :: es)) => Ok (e :: es)
    | Some (VArray []) | Some VNull | None =>
      match get "resource" req with
      | Some _ => Ok [VObject []]
      | None => Err "empty evaluations without resource"
      end
    | Some _ => Err "evaluations must be an array"
    end in
  if MAX_EVALUATIONS <? length entries then Err "evaluations.length exceeds 500" else Ok entries.

Definition prepare_entry (req : Value) (i : nat) (entry : Value) :
    result Prepared TranslateError :=
  let? subject := ok_or (AuthzenTranslate.Malformed "subject") (field entry req "subject") in
  let? action := ok_or (AuthzenTranslate.Malformed "action") (field entry req "action") in
  let? resource := ok_or (AuthzenTranslate.Malformed "resource") (field entry req "resource") in
  prepare_one i subject action resource (field entry req "context").

Fixpoint prepare_batch (req : Value) (i : nat) (entries : list Value) :
    result (list Prepared) TranslateError :=
  match entries with
  | [] => Ok []
  | entry :: entries =>
    let? p := prepare_entry req i entry in
    let? ps := prepare_batch req (S i) entries in
    Ok (p :: ps)
  end.

(** The evaluations that are denied without asking. *)
Fixpoint prefill (rid : string) (prepared : list Prepared) (results : slots) : outcome slots :=
  match prepared with
  | [] => Done results
  | p :: prepared =>
    match p_chain_deny p, p_resource p with
    | Some msg, _ | None, DenyClosed _ msg =>
      let! results := set_result results (p_index p) (deny_closed rid (Some (p_index p)) msg) in
      prefill rid prepared results
    | None, Fqns _ _ => prefill rid prepared results
    end
  end.

Definition group_request (g : Group) : Value :=
  multi_resource_request (g_chain g) (g_action g)
    ((fun it : item => (it.1.2, it.2)) <$> g_items g) (g_fulfillable g).

(** The loop over the groups and the answers to them. *)
Fixpoint apply_groups (semantic rid : string) (results : slots)
    (answers : list (Group * list DecisionOut)) : outcome slots :=
  match answers with
  | [] => Done results
  | (g, parsed) :: answers =>
    let! results := apply_decisions results (g_items g) parsed rid in
    if bool_decide (semantic = "deny_on_first_deny") && group_has results (g_items g) false then
      Done (fill_remaining_deny results rid "deny_on_first_deny")
    else if bool_decide (semantic = "permit_on_first_permit") &&
            group_has results (g_items g) true then
      Done (fill_remaining_deny results rid "permit_on_first_permit")
    else apply_groups semantic rid results answers
  end.

Definition run_groups (st : FacadeState) (bearer rid semantic : string) (groups : list Group)
    (results : slots) : aio (result (outcome slots) Z) :=
  match groups with
  | [] => Ret (Ok (Done results))
  | [g] =>
    let*? upstream := post_connect st "GetDecisionMultiResource" (group_request g) bearer rid in
    Ret (Ok (apply_decisions results (g_items g) (parse_resource_decisions upstream) rid))
  | _ =>
    let*? upstream := post_connect st "GetDecisionBulk"
      (bulk_request (group_request <$> groups)) bearer rid in
    let parsed_groups := parse_bulk_responses upstream in
    if negb (length parsed_groups =? length groups) then Ret (Err 500%Z) else
    Ret (Ok (apply_groups semantic rid results (zip groups parsed_groups)))
  end.

(** [results.into_iter().map(|v| v.unwrap()).collect()] *)
Fixpoint unwrap_all (results : slots) : outcome (list Value) :=
  match results with
  | [] => Done []
  | None :: _ => Panic
  | Some v :: results => let! vs := unwrap_all results in Done (v :: vs)
  end.

(** From the preparation on. *)
Definition evaluate_batch (st : FacadeState) (rid pep_token : string) (req : Value)
    (prepared : list Prepared) : aio (outcome Response) :=
  match prefill rid prepared (replicate (length prepared) None) with
  | Panic => Ret Panic
  | Done results =>
    let* r := run_groups st (bearer_of st pep_token) rid (semantic_of req) (groups_of prepared)
      results in
    Ret match r with
        | Err s => Done (err_json s "upstream" rid)
        | Ok results =>
          let! results := results in
          let! evaluations := unwrap_all (fill_remaining_deny results rid "unspecified") in
          Done (with_rid 200 (VObject [("evaluations", VArray evaluations)]) rid)
        end
  end.

Definition evaluations (st : FacadeState) (headers : HeaderMap) (request : option Value) :
    aio (outcome Response) :=
  let* rid := request_id headers in
  match request with
  | None => Ret (Done (err_json 400 "malformed json" rid))
  | Some req =>
    let* pep := authenticate_pep st headers in
    match pep with
    | Err e => Ret (Done (pep_fail e rid))
    | Ok (_, pep_token) =>
      match batch_entries req with
      | Err message => Ret (Done (err_json 400 message rid))
      | Ok entries =>
        match prepare_batch req 0 entries with
        | Err e => Ret (Done (translate_err e rid))
        | Ok prepared => evaluate_batch st rid pep_token req prepared
        end
      end
    end
  end.

(** The route of an endpoint. *)
Definition serve (st : FacadeState) (request : Endpoint * HeaderMap * option Value) :
    aio (outcome Response) :=
  let '(endpoint, headers, body) := request in
  match endpoint with
  | Evaluation => evaluation st headers body
  | Evaluations => evaluations st headers body
  | WellKnown =>
    Ret (Done {| status := 200; body := well_known st headers; x_request_id := None |})
  end.
End Facade.
