(* ===== verification/AuthzenSubjectProps.v ===== *)
(** * Theorems about identifiers, slugs and entity chains

    The slug of a name against its definition by words, the identifiers the translation lets
    through, what of a subject reaches the decision point, and which devices a chain names. *)
From S2P Require Import Prelude RustStr Json AuthzenSubject AuthzenTranslate.
From stdpp Require Import list.

#[local] Open Scope string_scope.
#[local] Open Scope nat_scope.
#[local] Open Scope list_scope.
#[local] Open Scope rust_scope.

(** ** Slugs *)

(** The maximal runs of letters, digits and hyphens. *)
Fixpoint pieces (l : bytes) : list bytes :=
  match l with
  | [] => [[]]
  | c :: r =>
    if slug_char c then
      match pieces r with p :: ps => (c :: p) :: ps | [] => [[c]] end
    else [] :: pieces r
  end.

Definition words (l : bytes) : list bytes := filter (fun w => w <> []) (pieces l).

Fixpoint join (ws : list bytes) : bytes :=
  match ws with
  | [] => []
  | [w] => w
  | w :: ws => w ++ "_"%byte :: join ws
  end.

Definition lower_word (w : bytes) : bytes := byte_to_ascii_lowercase <$> w.

(** The words of a name in lower case, joined by underscores. *)
Definition slug_of_words (l : bytes) : bytes := join (lower_word <$> words l).

Lemma pieces_cons l : exists p ps, pieces l = p :: ps.
Proof. destruct l as [|c r]; simpl; [eauto|]. destruct (slug_char c), (pieces r); eauto. Qed.

Lemma join_cons w ws : join (w :: ws) = w ++ concat ((fun w => "_"%byte :: w) <$> ws).
Proof.
  revert w. induction ws as [|w' ws IH]; intros w; [simpl; by rewrite app_nil_r|].
  change (join (w :: w' :: ws)) with (w ++ "_"%byte :: join (w' :: ws)). by rewrite IH.
Qed.

Definition tail_words (ws : list bytes) : bytes :=
  concat ((fun w => "_"%byte :: lower_word w) <$> ws).

(** The loop, after something has been pushed. *)
Lemma slug_fold_rest l out pending : out <> [] ->
  fst (foldl slug_step (out, pending) l) =
  if pending : bool then out ++ tail_words (words l)
  else match pieces l with
       | p :: ps => out ++ lower_word p ++ tail_words (filter (fun w => w <> []) ps)
       | [] => out
       end.
Proof.
  revert out pending. induction l as [|c r IH]; intros out pending Hout; simpl.
  { unfold words. simpl. by destruct pending; rewrite !app_nil_r. }
  unfold words. simpl. destruct (pieces_cons r) as (p & ps & Hp). destruct (slug_char c) eqn:Hc.
  - rewrite IH; [|by destruct (_ && _), out]. rewrite Hp.
    rewrite (bool_decide_false (out = []) Hout). destruct pending; simpl.
    + rewrite filter_cons_True by done. simpl. unfold tail_words. simpl.
      by rewrite <- !app_assoc.
    + by rewrite <- !app_assoc.
  - rewrite IH by done. unfold words. destruct pending; simpl; [|done].
    by rewrite filter_cons_False by naive_solver.
Qed.

Lemma slug_fold l pending :
  fst (foldl slug_step ([], pending) l) = slug_of_words l.
Proof.
  revert pending. unfold slug_of_words, words. induction l as [|c r IH]; intros pending; simpl.
  { done. }
  destruct (pieces_cons r) as (p & ps & Hp). destruct (slug_char c) eqn:Hc.
  - rewrite andb_false_r. rewrite slug_fold_rest by done.
    rewrite Hp. rewrite filter_cons_True by done. rewrite fmap_cons, join_cons.
    simpl. do 2 f_equal. unfold tail_words. by rewrite <- list_fmap_compose.
  - rewrite IH. by rewrite filter_cons_False by naive_solver.
Qed.

(** Separators at the ends do not matter. *)
Lemma words_skip p l : Forall (fun c => slug_char c = false) p -> words (p ++ l) = words l.
Proof.
  induction 1 as [|c p Hc Hp IH]; simpl; [done|]. unfold words in *. simpl. rewrite Hc.
  by rewrite filter_cons_False by naive_solver.
Qed.

Lemma pieces_snoc l c : slug_char c = false -> pieces (l ++ [c]) = pieces l ++ [[]].
Proof.
  intros Hc. induction l as [|a l IH]; simpl; [by rewrite Hc|]. rewrite IH.
  destruct (pieces_cons l) as (p & ps & ->). by destruct (slug_char a).
Qed.

Lemma words_skip_end q l : Forall (fun c => slug_char c = false) q -> words (l ++ q) = words l.
Proof.
  intros Hq. revert l. induction Hq as [|c q Hc Hq IH]; intros l; [by rewrite app_nil_r|].
  rewrite (cons_middle c l q), app_assoc, IH. unfold words. rewrite pieces_snoc by done.
  by rewrite filter_app, app_nil_r.
Qed.

Lemma blank_not_slug c : blank c = true -> slug_char c = false.
Proof.
  unfold blank, slug_char, is_ascii_alphanumeric, within. intros H.
  destruct (byte_eqb_spec c "-"%byte) as [->|_]; [by vm_compute in H|].
  pose proof (b2z_range c). rewrite orb_false_r.
  repeat match goal with
  | H : (_ || _)%bool = true |- _ => apply orb_true_iff in H as [H|H]
  end; reflect_bools;
  repeat (apply orb_false_iff; split); apply andb_false_iff;
    rewrite !Z.leb_gt; lia.
Qed.

Lemma words_trim l : words (trim_bytes l) = words l.
Proof.
  destruct (trim_bytes_blank l) as (p & q & Hl & Hp & Hq).
  rewrite Hl at 2. rewrite words_skip, words_skip_end; [done| |].
  - exact (Forall_impl _ _ _ Hq blank_not_slug).
  - exact (Forall_impl _ _ _ Hp blank_not_slug).
Qed.

(** The bytes of a word, which are never underscores. *)
Lemma lower_not_underscore c : slug_char c = true -> byte_to_ascii_lowercase c <> "_"%byte.
Proof.
  unfold byte_to_ascii_lowercase, slug_char, is_ascii_alphanumeric. intros Hc Heq.
  destruct (within 65 90 c) eqn:Hup.
  - apply (f_equal b2z) in Heq. rewrite b2z_z2b in Heq. unfold within in Hup.
    reflect_bools. change (b2z "_"%byte) with 95%Z in Heq.
    rewrite Z.mod_small in Heq; lia.
  - subst c. by vm_compute in Hc.
Qed.

Lemma pieces_slug l : Forall (Forall (fun c => slug_char c = true)) (pieces l).
Proof.
  induction l as [|c l IH]; simpl; [by repeat constructor|].
  destruct (pieces_cons l) as (p & ps & Hp). rewrite Hp in *.
  destruct (slug_char c) eqn:Hc; [|by constructor].
  apply Forall_cons in IH as [??]. by repeat constructor.
Qed.

Definition word (w : bytes) : Prop := w <> [] /\ Forall (fun c => slug_char c = true) w.

Lemma words_word l : Forall word (words l).
Proof.
  apply Forall_forall. intros w [Hw Hin]%list_elem_of_filter. split; [done|].
  pose proof (pieces_slug l) as H. rewrite Forall_forall in H. auto.
Qed.

Definition plain (l : bytes) : Prop := forall b, l !! 0 = Some b -> b <> "_"%byte.

Lemma drop_byte_plain l : plain l -> drop_byte "_" l = l.
Proof.
  destruct l as [|b l]; simpl; [done|]. intros H. destruct (byte_eqb_spec b "_"%byte); [|done].
  by destruct (H b).
Qed.

Lemma join_word_plain ws : Forall word ws -> plain (join (lower_word <$> ws)).
Proof.
  destruct ws as [|w ws]; [done|]. intros [[Hne Hw] _]%Forall_cons. rewrite fmap_cons, join_cons.
  destruct w as [|c w]; [done|]. apply Forall_cons in Hw as [Hc _]. intros b [= <-].
  by apply lower_not_underscore.
Qed.

Lemma join_word_plain_end ws : Forall word ws -> plain (reverse (join (lower_word <$> ws))).
Proof.
  induction ws as [|w ws IH]; [done|]. intros [[Hne Hw] Hws]%Forall_cons.
  destruct ws as [|w' ws].
  - simpl. destruct w as [|c w _] using rev_ind; [done|]. unfold lower_word.
    rewrite fmap_app, reverse_app. apply Forall_app in Hw as [_ [Hc _]%Forall_cons].
    intros b [= <-]. by apply lower_not_underscore.
  - rewrite fmap_cons. change (join (lower_word w :: (lower_word <$> w' :: ws)))
      with (lower_word w ++ "_"%byte :: join (lower_word <$> w' :: ws)).
    rewrite reverse_app, reverse_cons, <- app_assoc. specialize (IH Hws).
    destruct (reverse (join _)) as [|b r] eqn:Hr; [|exact IH].
    apply (f_equal length) in Hr. rewrite length_reverse, fmap_cons, join_cons, length_app in Hr.
    apply Forall_cons in Hws as [[Hne' _] _]. by destruct w'.
Qed.

Lemma slugify_of_words s : slugify s = of_bytes (slug_of_words (as_bytes s)).
Proof.
  unfold slugify, slug_bytes. rewrite slug_fold. unfold slug_of_words at 1. rewrite words_trim.
  rewrite drop_byte_plain by apply join_word_plain, words_word.
  unfold trim_end_bytes. rewrite drop_byte_plain by apply join_word_plain_end, words_word.
  by rewrite reverse_involutive.
Qed.

(** The slug of a name is its words (the maximal runs of ASCII letters, digits and
    hyphens) in lower case, joined by single underscores: the one-pass loop with its pending
    separator and the trimming before and after it compute just that. *)
Theorem slugify_words s : slugify s = of_bytes (slug_of_words (as_bytes s)).
Proof. apply slugify_of_words. Qed.

(** *** Idempotence *)

Lemma lower_slug_char c : slug_char c = true -> slug_char (byte_to_ascii_lowercase c) = true.
Proof.
  unfold byte_to_ascii_lowercase. destruct (within 65 90 c) eqn:Hup; [|done]. intros _.
  unfold slug_char, is_ascii_alphanumeric, within in *. reflect_bools.
  rewrite b2z_z2b, Z.mod_small by lia. apply orb_true_iff; left. apply orb_true_iff; right.
  apply andb_true_iff; rewrite !Z.leb_le; lia.
Qed.

Lemma lower_lower c : byte_to_ascii_lowercase (byte_to_ascii_lowercase c) = byte_to_ascii_lowercase c.
Proof.
  unfold byte_to_ascii_lowercase. destruct (within 65 90 c) eqn:Hup; [|by rewrite Hup].
  unfold within in *. reflect_bools. rewrite b2z_z2b, Z.mod_small by lia.
  replace (b2z c + 32 <=? 90)%Z with false by (symmetry; apply Z.leb_gt; lia).
  by rewrite andb_false_r.
Qed.

Lemma pieces_word w : Forall (fun c => slug_char c = true) w -> pieces w = [w].
Proof. induction 1 as [|c w Hc Hw IH]; simpl; [done|]. by rewrite Hc, IH. Qed.

Lemma pieces_word_sep w r :
  Forall (fun c => slug_char c = true) w -> pieces (w ++ "_"%byte :: r) = w :: pieces r.
Proof. induction 1 as [|c w Hc Hw IH]; simpl; [done|]. by rewrite Hc, IH. Qed.

Lemma words_join ws : Forall word ws -> words (join ws) = ws.
Proof.
  unfold words. induction ws as [|w ws IH]; [done|]. intros [[Hne Hw] Hws]%Forall_cons.
  destruct ws as [|w' ws].
  - simpl. rewrite pieces_word by done. by rewrite filter_cons_True.
  - change (join (w :: w' :: ws)) with (w ++ "_"%byte :: join (w' :: ws)).
    rewrite pieces_word_sep, filter_cons_True by done. by rewrite IH.
Qed.

Lemma lower_word_word w : word w -> word (lower_word w).
Proof.
  intros [Hne Hw]. split; [by destruct w|]. apply Forall_fmap.
  eapply Forall_impl; [exact Hw|]. apply lower_slug_char.
Qed.

(** Slugs are fixed points: the slug of a slug is the slug, so a name that went through
    [slugify] twice maps to the same attribute value. *)
Theorem slugify_idempotent s : slugify (slugify s) = slugify s.
Proof.
  rewrite !slugify_of_words, as_bytes_of_bytes. f_equal. unfold slug_of_words at 1 2.
  assert (Forall word (lower_word <$> words (as_bytes s))) as Hw.
  { apply Forall_fmap. eapply Forall_impl; [apply words_word|]. apply lower_word_word. }
  rewrite words_join by done. unfold slug_of_words. f_equal.
  rewrite <- list_fmap_compose. apply list_fmap_ext. intros _ w _. unfold compose, lower_word.
  rewrite <- list_fmap_compose. apply list_fmap_ext. intros _ c _. apply lower_lower.
Qed.

(** ** Identifiers *)

Inductive identifier : bytes -> Prop :=
| identifier_one a : is_ascii_alphanumeric a = true -> identifier [a]
| identifier_more a m z :
    is_ascii_alphanumeric a = true -> Forall (fun c => mid c = true) m ->
    is_ascii_alphanumeric z = true -> identifier (a :: m ++ [z]).

Lemma opentdf_identifier_ok_spec s : opentdf_identifier_ok s = true <-> identifier (as_bytes s).
Proof.
  unfold opentdf_identifier_ok. generalize (as_bytes s). intros l. split.
  - destruct l as [|a r]; [done|]. destruct (is_ascii_alphanumeric a) eqn:Ha; [|done]. simpl.
    destruct r as [|z m _] using rev_ind; [by constructor|].
    rewrite length_app, Nat.add_sub, lookup_app_r, Nat.sub_diag by done.
    rewrite take_app_length. simpl.
    destruct (m ++ [z]) as [|y r] eqn:Hm; [by destruct m|]. rewrite <- Hm.
    intros [Hz Hmid]%andb_true_iff. constructor; [done| |done].
    apply Forall_forall. intros c Hc. rewrite forallb_forall in Hmid. by apply Hmid, list_elem_of_In.
  - intros H. destruct H as [a Ha|a m z Ha Hm Hz]; rewrite Ha; [done|]. simpl.
    rewrite length_app, Nat.add_sub, lookup_app_r, Nat.sub_diag by done.
    rewrite take_app_length. simpl. rewrite Hz. simpl.
    destruct (m ++ [z]) as [|y r] eqn:E; [by destruct m|].
    apply forallb_forall. intros c Hc. rewrite Forall_forall in Hm. apply Hm.
    by apply list_elem_of_In.
Qed.

Lemma map_action_identifier name a : map_action name = Ok a -> identifier (as_bytes a).
Proof.
  unfold map_action. destruct (is_empty name); [done|]. cbv zeta.
  match goal with |- context [opentdf_identifier_ok ?m] => generalize m end. intros m.
  destruct (opentdf_identifier_ok m) eqn:Hm; [|done]. intros [= <-].
  by apply opentdf_identifier_ok_spec.
Qed.

Lemma tool_attr_value_identifier id v : tool_attr_value id = Ok v -> identifier (as_bytes v).
Proof.
  unfold tool_attr_value. cbv zeta.
  match goal with |- context [opentdf_identifier_ok ?m] => generalize m end. intros m.
  destruct (opentdf_identifier_ok m) eqn:Hm; [|done]. intros [= <-].
  by apply opentdf_identifier_ok_spec.
Qed.

(** Where the attribute values of a resource come from: for a tool or an MCP server one value
    made of its id, for any other type the list of the enforcement point. *)
Definition resource_values (rtype : string) (resource : Value) (id : string)
    (fqns : list string) : Prop :=
  if decide (rtype = "tool") then
    pep_fqns_present resource = false /\
    exists v, tool_attr_value id = Ok v /\ identifier (as_bytes v) /\
      fqns = [MCP_TOOL_FQN_PREFIX +:+ v]
  else if decide (rtype = "mcp_server") then
    pep_fqns_present resource = false /\ identifier (as_bytes id) /\
    fqns = [MCP_SERVER_FQN_PREFIX +:+ id]
  else fqns = pep_fqns resource /\ fqns <> [].

Lemma pep_resource_Fqns resource id msg id' fqns :
  pep_resource resource id msg = Fqns id' fqns ->
  id' = id /\ fqns = pep_fqns resource /\ fqns <> [].
Proof. unfold pep_resource. case_bool_decide; [done|]. by intros [= <- <-]. Qed.

Lemma map_resource_values resource id fqns :
  map_resource resource = Ok (Fqns id fqns) ->
  exists rtype, get "type" resource = Some (VString rtype) /\
    get "id" resource = Some (VString id) /\ id <> "" /\ resource_values rtype resource id fqns.
Proof.
  unfold map_resource, resource_values. intros H.
  destruct (get "type" resource) as [[]|]; simpl in H; try done.
  destruct (get "id" resource) as [v|]; simpl in H; [|done].
  unfold non_empty_str in H. simpl in H. destruct v as [| | |i| |]; simpl in H; try done.
  unfold is_empty in H. case_bool_decide as Hi; [done|]. simpl in H.
  assert (id = i /\ resource_values s resource i fqns) as [-> Hv];
    [|by exists s; split_and!].
  unfold resource_values. revert H.
  destruct (decide (s = "tool")) as [Ht|Ht];
    [rewrite bool_decide_true by done|rewrite bool_decide_false by done;
     destruct (decide (s = "mcp_server")) as [Hm|Hm];
     [rewrite bool_decide_true by done|rewrite bool_decide_false by done]].
  - destruct (pep_fqns_present resource); [done|].
    destruct (tool_attr_value i) as [v|] eqn:Hv; [|done]. simpl. intros [= <- <-].
    split; [done|]. split; [done|]. exists v.
    split; [done|]. by split; [eapply tool_attr_value_identifier|].
  - destruct (pep_fqns_present resource); [done|].
    destruct (opentdf_identifier_ok i) eqn:Hv; [|done]. intros [= <- <-].
    split; [done|]. split; [done|]. split; [by apply opentdf_identifier_ok_spec|done].
  - intros H. repeat case_bool_decide; injection H as H;
      by apply pep_resource_Fqns in H as (-> & -> & ?).
Qed.

(** An enforcement point cannot choose the attribute values of a tool or an MCP server.
    Whenever a resource maps to attribute values, a tool's value is the prefix and a valid
    identifier made of its id, a server's value is the prefix and its id, which is an
    identifier, and neither request carried values of its own; for other types the values are
    the non-empty list of the request. *)
Theorem resource_values_origin resource id fqns :
  map_resource resource = Ok (Fqns id fqns) ->
  exists rtype, get "type" resource = Some (VString rtype) /\
    get "id" resource = Some (VString id) /\ id <> "" /\ resource_values rtype resource id fqns.
Proof. apply map_resource_values. Qed.

(** ** Claims that reach the decision point *)

Lemma map_get_allowlist obj ks acc k :
  map_get k (foldl (fun out k => map_insert_opt k (map_get k obj) out) acc ks) =
  if decide (k ∈ ks) then match map_get k obj with Some v => Some v | None => map_get k acc end
  else map_get k acc.
Proof.
  revert acc. induction ks as [|k' ks IH]; intros acc; cbn [foldl].
  { by rewrite decide_False by apply not_elem_of_nil. }
  rewrite IH, map_get_insert_opt. destruct (decide (k = k')) as [->|Hne].
  - rewrite (decide_True _ _ (list_elem_of_here _ _)). by case_decide; destruct (map_get k' obj).
  - destruct (decide (k ∈ ks)) as [Hin|Hin].
    + by rewrite decide_True by by right.
    + rewrite decide_False; [done|]. by intros [->|?]%elem_of_cons.
Qed.

Lemma sanitize_patreon_get p k :
  get k (sanitize_patreon p) =
  if decide (k ∈ PATREON_ALLOWED \/
             k = "campaign_id" /\ get "role" p ≫= as_str = Some "creator")
  then get k p else None.
Proof.
  unfold sanitize_patreon. destruct p as [| | | | |obj]; try (by case_decide).
  cbn [as_object]. set (out := foldl _ _ _).
  assert (map_get k out = if decide (k ∈ PATREON_ALLOWED) then map_get k obj else None) as Hout.
  { unfold out. rewrite map_get_allowlist. by destruct (map_get k obj). }
  change (get "role" (VObject obj)) with (map_get "role" obj).
  change (get k (VObject obj)) with (map_get k obj).
  case_bool_decide as Hrole; rewrite get_object.
  - rewrite map_get_insert_opt, Hout. destruct (decide (k = "campaign_id")) as [->|Hk].
    + rewrite (decide_True (P := _ \/ _)) by auto.
      destruct (map_get "campaign_id" obj); [done|]. by case_decide.
    + destruct (decide (k ∈ PATREON_ALLOWED)) as [Hin|Hin].
      * by rewrite decide_True by auto.
      * by rewrite decide_False by (intros [?|[? _]]; done).
  - rewrite Hout. destruct (decide (k ∈ PATREON_ALLOWED)) as [Hin|Hin].
    + by rewrite decide_True by auto.
    + by rewrite decide_False by (intros [?|[_ ?]]; done).
Qed.

Lemma pe_claims_get subject pe k v :
  pe_claims subject = Ok pe -> get k pe = Some v ->
  k = "sub" /\ get "id" subject = Some v \/
  exists props, get "properties" subject = Some (VObject props) /\
    ((k = "iss" \/ k = "email") /\ map_get k props = Some v \/
     exists patreon, map_get "arkavo_patreon" props = Some patreon /\
       (k = "patreon_user_id" /\ get k patreon = Some v \/
        k = "arkavo_patreon" /\ v = sanitize_patreon patreon)).
Proof.
  unfold pe_claims. intros H Hk. destruct (get "id" subject) as [i|] eqn:Hi; [|done].
  unfold non_empty_str in H. simpl in H. destruct i as [| | |i| |]; simpl in H; try done.
  destruct (is_empty i); [done|]. cbn [ok_or rbind] in H.
  assert (map_get k (map_insert "sub" (VString i) []) = Some v ->
    k = "sub" /\ Some (VString i) = Some v) as Hsub.
  { rewrite map_get_insert_decide. by case_decide. }
  destruct (get "properties" subject) as [props|]; [|injection H as <-; by left; apply Hsub].
  destruct props as [| | | | |props]; try (injection H as <-; by left; apply Hsub). cbn in H.
  assert (map_get k (map_insert_opt "email" (map_get "email" props)
      (map_insert_opt "iss" (map_get "iss" props) [("sub", VString i)])) = Some v ->
    (k = "sub" /\ Some (VString i) = Some v) \/
    (k = "iss" \/ k = "email") /\ map_get k props = Some v) as Hprops.
  { rewrite !map_get_insert_opt. intros Hv. destruct (decide (k = "email")) as [->|].
    - destruct (map_get "email" props); [by auto|]. by rewrite decide_False in Hv by done.
    - destruct (decide (k = "iss")) as [->|]; [|by left; apply Hsub].
      destruct (map_get "iss" props); [by auto|done]. }
  destruct (map_get "arkavo_patreon" props) as [patreon|] eqn:Hp; injection H as <-.
  - rewrite get_object, map_get_insert_decide in Hk.
    destruct (decide (k = "arkavo_patreon")) as [->|Hne].
    { injection Hk as <-. right. exists props. split; [done|]. right. exists patreon. by auto. }
    rewrite map_get_insert_opt in Hk. destruct (decide (k = "patreon_user_id")) as [->|Hne'].
    + rewrite sanitize_patreon_get, decide_True in Hk by (left; by repeat constructor).
      destruct (get "patreon_user_id" patreon) as [u|] eqn:Hu.
      * right. exists props. split; [done|]. right. exists patreon. injection Hk as <-. by auto.
      * exfalso. by apply Hprops in Hk as [[? _]|[[?|?] _]].
    + apply Hprops in Hk as [?|?]; [by left|]. right. exists props. by auto.
  - apply Hprops in Hk as [?|?]; [by left|]. right. exists props. by auto.
Qed.

(** Only allowlisted claims of the subject reach the decision point: its id, issuer and
    e-mail and the Patreon membership, in which every field but the allowlisted ones is
    removed, the campaign id unless the role is that of a creator; what is forwarded is
    forwarded as it was given. *)
Theorem forwarded_claims subject pe k v :
  pe_claims subject = Ok pe -> get k pe = Some v ->
  k = "sub" /\ get "id" subject = Some v \/
  exists props, get "properties" subject = Some (VObject props) /\
    ((k = "iss" \/ k = "email") /\ map_get k props = Some v \/
     exists patreon, map_get "arkavo_patreon" props = Some patreon /\
       (k = "patreon_user_id" /\ get k patreon = Some v \/
        k = "arkavo_patreon" /\ forall f,
          get f v = if decide (f ∈ PATREON_ALLOWED \/
            f = "campaign_id" /\ get "role" patreon ≫= as_str = Some "creator")
          then get f patreon else None)).
Proof.
  intros Hpe Hk. destruct (pe_claims_get _ _ _ _ Hpe Hk) as [?|(props & Hprops & H)]; [by left|].
  right. exists props. split; [done|]. destruct H as [?|(patreon & Hp & H)]; [by left|].
  right. exists patreon. split; [done|]. destruct H as [?|[-> ->]]; [by left|]. right.
  split; [done|]. intros f. apply sanitize_patreon_get.
Qed.

(** ** Entity chains *)

(** The devices of a context. *)
Definition context_devices (context : option Value) : result (list DeviceObject) TranslateError :=
  match context with
  | Some ctx => map_err device_error (devices_from_context ctx)
  | None => Ok []
  end.

(** The environment of a context, as a claim set. *)
Definition context_environment (context : option Value) : option Value :=
  c ← context; e ← get "environment" c; if is_null e then None else Some (allowlist_environment e).

(** A chain of claim sets, numbered in order: the subject's and those of its environment. *)
Definition chain_of (pe : Value) (others : list Value) : Value :=
  VObject [("ephemeralId", VString "chain");
           ("entities", VArray (imap (fun i claims =>
              claims_entity (entity_id i) (i =? 0) claims) (pe :: others)))].

Definition bound_device (id : string) (d : DeviceObject) : Prop :=
  device_aud d = DEVICECHECK_AUD /\ subject_id_bind (device_sub d) = subject_id_bind id.

Lemma unbound_device_None id ds : unbound_device id ds = None <-> Forall (bound_device id) ds.
Proof.
  unfold bound_device. induction ds as [|d ds IH]; simpl; [done|].
  rewrite Forall_cons, <- IH. unfold devices_bind. repeat case_bool_decide; simpl; naive_solver.
Qed.

Lemma pe_claims_sub subject pe :
  pe_claims subject = Ok pe ->
  exists id, get "id" subject = Some (VString id) /\ id <> "" /\ at_key "sub" pe = VString id.
Proof.
  unfold pe_claims. intros H. destruct (get "id" subject) as [i|] eqn:Hi; [|done].
  unfold non_empty_str in H. simpl in H. destruct i as [| | |i| |]; simpl in H; try done.
  unfold is_empty in H. case_bool_decide; [done|]. cbn [ok_or rbind] in H. exists i.
  do 2 (split; [done|]). unfold at_key.
  destruct (get "properties" subject ≫= as_object) as [props|]; [|by injection H as <-].
  destruct (map_get "arkavo_patreon" props) as [patreon|]; injection H as <-; rewrite get_object;
    by rewrite ?map_get_insert_decide, ?map_get_insert_opt.
Qed.

(** The entities as the code pushes them. *)
Lemma pushed_entities pe devices (env : option Value) :
  let entities := claims_entity "e0" true pe ::
    imap (fun i d => claims_entity (entity_id (i + 1)) false (device_to_value d)) devices in
  imap (fun i claims => claims_entity (entity_id i) (i =? 0) claims)
    (pe :: (device_to_value <$> devices) ++ option_list env) =
  match env with
  | Some e => entities ++ [claims_entity (entity_id (length entities)) false e]
  | None => entities
  end.
Proof.
  cbv zeta. rewrite imap_cons, imap_app, imap_fmap. simpl. rewrite length_imap, length_fmap.
  rewrite (imap_ext _ (fun i d => claims_entity (entity_id (i + 1)) false (device_to_value d))
    devices) by (intros i d _; simpl; by rewrite Nat.add_1_r).
  destruct env as [e|]; simpl; [|by rewrite app_nil_r]. by rewrite Nat.add_0_r.
Qed.

(** The environment is present just when it is not null. *)
Lemma context_environment_eq context :
  context_environment context =
  match (c ← context; get "environment" c) with
  | Some e => if negb (is_null e) then Some (allowlist_environment e) else None
  | None => None
  end.
Proof.
  unfold context_environment. destruct context as [c|]; [|done]. simpl.
  destruct (get "environment" c) as [e|]; [|done]. simpl. by destruct (is_null e).
Qed.

Lemma reconstruct_chain_eq subject context :
  reconstruct_chain subject context =
  let? pe := pe_claims subject in
  let? devices := context_devices context in
  let others := (device_to_value <$> devices) ++ option_list (context_environment context) in
  if MAX_CHAIN <? length (pe :: others) then Err ChainCap else
  match unbound_device (default "" (as_str (at_key "sub" pe))) devices with
  | Some message => Ok (ChainDenyClosed message)
  | None => Ok (ChainOk (chain_of pe others))
  end.
Proof.
  unfold reconstruct_chain. destruct (pe_claims subject) as [pe|]; [|done]. cbn [rbind].
  fold (context_devices context). destruct (context_devices context) as [devices|]; [|done].
  cbn [rbind]. cbv zeta. rewrite context_environment_eq. unfold chain_of.
  rewrite pushed_entities. cbn [length]. rewrite length_app, length_fmap.
  destruct (c ← context; get "environment" c) as [e|]; [destruct (is_null e)|]; done.
Qed.

(** C22: the chain of entities that is sent for a decision.  A subject and a context make a
    chain just when the subject has an id, the devices of the context are complete, at most
    eight entities come together, and every device is a device check of this subject; the
    chain is then the subject's claims, the devices in order and the allowlisted environment,
    numbered e0, e1 and so on, with the subject alone in the subject category. *)
Theorem chain_entities subject context c :
  reconstruct_chain subject context = Ok (ChainOk c) <->
  exists id pe devices,
    get "id" subject = Some (VString id) /\ pe_claims subject = Ok pe /\
    context_devices context = Ok devices /\ Forall (bound_device id) devices /\
    let others := (device_to_value <$> devices) ++ option_list (context_environment context) in
    length (pe :: others) <= MAX_CHAIN /\ c = chain_of pe others.
Proof.
  rewrite reconstruct_chain_eq.
  destruct (pe_claims subject) as [pe|] eqn:Hpe; [|naive_solver].
  destruct (pe_claims_sub _ _ Hpe) as (id & Hid & _ & Hsub). cbn [rbind]. rewrite Hsub, Hid.
  destruct (context_devices context) as [devices|]; [|naive_solver]. cbn [rbind]. cbv zeta.
  change (default "" (as_str (VString id))) with id.
  destruct (Nat.ltb_spec MAX_CHAIN (length (pe :: (device_to_value <$> devices) ++
    option_list (context_environment context)))) as [Hmax|Hmax].
  { split; [done|]. intros (i & pe' & ds & _ & [= <-] & [= <-] & _ & Hl & _). lia. }
  destruct (unbound_device id devices) as [msg|] eqn:Hun.
  - split; [done|]. intros (i & pe' & ds & [= <-] & [= <-] & [= <-] & Hb & _).
    apply unbound_device_None in Hb. by rewrite Hb in Hun.
  - apply unbound_device_None in Hun. split.
    + intros [= <-]. by exists id, pe, devices.
    + by intros (i & pe' & ds & [= <-] & [= <-] & [= <-] & _ & _ & ->).
Qed.
