(* ===== verification/AuthzenVerifyProps.v ===== *)
(** * Theorems about token verification

    What the claims of an accepted token are in terms of the entries of its payload, what
    acceptance guarantees, and when a not-before date is not enforced. *)
From Stdlib Require Import Floats.SpecFloat.
From coqutil Require Import Datatypes.RecordSettersUsingExistingGetters.
From S2P Require Import Prelude RustStr Json AuthzenSubject AuthzenVerify.
From stdpp Require Import list.

#[local] Open Scope string_scope.
#[local] Open Scope nat_scope.
#[local] Open Scope list_scope.
#[local] Open Scope rust_scope.

Section Claims.
Context {crates : CwtCrates}.

(** ** The entries of a claim set *)

Abbreviation entries_t := (list (CborValue * CborValue)).

Definition has_key (name : string) (k : CborValue) : bool :=
  match claim_key k with Ok n => bool_decide (n = name) | Err _ => false end.

(** The value of the first entry with the key. *)
Fixpoint claim_at (name : string) (es : entries_t) : option CborValue :=
  match es with
  | [] => None
  | (k, v) :: es => if has_key name k then Some v else claim_at name es
  end.

(** The effect of one entry. *)
Definition claim_step (k v : CborValue) (c : Slots) : result Slots VerifyError :=
  match k with
  | CInteger key => integer_claim key v c
  | CText key => text_claim key v c
  | _ => Ok c
  end.

Lemma read_claims_cons seen c k v es c' :
  read_claims seen c ((k, v) :: es) = Ok c' <->
  exists n c1, claim_key k = Ok n /\ (n ∉ seen) /\ claim_step k v c = Ok c1 /\
    read_claims ({[n]} ∪ seen) c1 es = Ok c'.
Proof.
  simpl. fold (claim_step k v c). destruct (claim_key k) as [n|e]; [|naive_solver]. simpl.
  case_bool_decide; [naive_solver|]. destruct (claim_step k v c); naive_solver.
Qed.

(** No key occurs twice. *)
Lemma read_claims_seen seen c es c' name :
  read_claims seen c es = Ok c' -> name ∈ seen -> claim_at name es = None.
Proof.
  revert seen c. induction es as [|[k v] es IH]; intros seen c H Hin; [done|].
  apply read_claims_cons in H as (n & c1 & Hk & Hn & _ & H). simpl. unfold has_key. rewrite Hk.
  rewrite bool_decide_false by (by intros ->). eapply IH; [done|set_solver].
Qed.

Lemma read_claims_keys seen c es c' :
  read_claims seen c es = Ok c' ->
  exists names, Forall2 (fun e n => claim_key e.1 = Ok n) es names /\ NoDup names /\
    (forall n, n ∈ names -> n ∉ seen).
Proof.
  revert seen c. induction es as [|[k v] es IH]; intros seen c H.
  { exists []. split; [done|]. split; [constructor|]. set_solver. }
  apply read_claims_cons in H as (n & c1 & Hk & Hn & _ & H). apply IH in H as (names & Hf & Hd & Hs).
  exists (n :: names). split; [by constructor|]. split; [constructor; [|done]|].
  - intros Hin. by apply Hs in Hin; set_solver.
  - intros m [->|Hm]%elem_of_cons; [done|]. apply Hs in Hm. set_solver.
Qed.

(** A slot that the entries of one key write and the others leave. *)
Lemma read_claims_slot {A} (proj : Slots -> A) (name : string) (write : CborValue -> A -> A) :
  (forall k v c c1, claim_step k v c = Ok c1 ->
    proj c1 = if has_key name k then write v (proj c) else proj c) ->
  forall seen c es c', read_claims seen c es = Ok c' ->
  proj c' = match claim_at name es with Some v => write v (proj c) | None => proj c end.
Proof.
  intros Hw seen c es. revert seen c. induction es as [|[k v] es IH]; intros seen c c' H.
  { by injection H as <-. }
  apply read_claims_cons in H as (n & c1 & Hk & Hn & Hs & H). rewrite (IH _ _ _ H).
  rewrite (Hw _ _ _ _ Hs). simpl. destruct (has_key name k) eqn:Hh; [|done].
  unfold has_key in Hh. rewrite Hk in Hh. reflect_bools. subst n.
  by rewrite (read_claims_seen _ _ _ _ name H) by set_solver.
Qed.

Lemma has_integer_key i k : has_key ("i:" +:+ display_Z i) k = true <-> k = CInteger i.
Proof.
  unfold has_key. split.
  - destruct k; simpl; try done; intros H%bool_decide_eq_true.
    injection H as H. by apply (inj display_Z) in H as ->.
  - intros ->. simpl. by apply bool_decide_eq_true.
Qed.

Lemma has_text_key t k : has_key ("t:" +:+ t) k = true <-> k = CText t.
Proof.
  unfold has_key. split.
  - destruct k; simpl; try done; intros H%bool_decide_eq_true.
    injection H as H. by change (s = t) in H; subst.
  - intros ->. simpl. by apply bool_decide_eq_true.
Qed.

(** The readers of the claims: a claim of another type leaves its slot. *)
Definition text_of (v : CborValue) : option string := match v with CText s => Some s | _ => None end.
Definition bytes_of (v : CborValue) : option bytes := match v with CBytes b => Some b | _ => None end.
Definition aud_of (v : CborValue) : option Aud :=
  match v with
  | CText s => Some (One s)
  | CArray a => match text_array a with Ok l => Some (Many l) | Err _ => None end
  | _ => None
  end.
Definition texts_of (v : CborValue) : option (list string) :=
  match v with
  | CArray a => match text_array a with Ok l => Some l | Err _ => None end
  | _ => None
  end.
Definition or_keep {A} (f : CborValue -> option A) (v : CborValue) (a : option A) : option A :=
  match f v with Some x => Some x | None => a end.
Definition date_of (v : CborValue) (_ : option Z) : option Z := numeric_date v.

(** One entry and one slot. *)
Ltac slot_walk :=
  repeat first
    [ progress simplify_eq/=
    | match goal with
      | H : ok_or _ _ = Ok _ |- _ => apply ok_or_Ok in H
      | H : rbind ?r _ = Ok _ |- _ => destruct r eqn:?; [|done]; simpl in H
      | H : context [match ?x with _ => _ end] |- _ => destruct x eqn:?
      end ].

Ltac slot_step lem :=
  let k := fresh "k" in let v := fresh "v" in let Hk := fresh "Hk" in let H := fresh "H" in
  intros k v ? ? H; unfold or_keep, date_of, aud_of, texts_of;
  match goal with |- context [has_key ?n k] => destruct (has_key n k) eqn:Hk end;
  [ apply lem in Hk; subst k; simpl in H; unfold integer_claim, text_claim in H;
    slot_walk; repeat case_bool_decide; try done
  | destruct k; simpl in H; unfold integer_claim, text_claim in H; slot_walk;
    repeat case_bool_decide; subst; try done; by vm_compute in Hk ].

Lemma iss_slot seen c es c' : read_claims seen c es = Ok c' ->
  s_iss c' = match claim_at "i:1" es with Some v => or_keep text_of v (s_iss c) | None => s_iss c end.
Proof. apply (read_claims_slot s_iss "i:1" (or_keep text_of)). slot_step (has_integer_key 1). Qed.

Lemma sub_slot seen c es c' : read_claims seen c es = Ok c' ->
  s_sub c' = match claim_at "i:2" es with Some v => or_keep text_of v (s_sub c) | None => s_sub c end.
Proof. apply (read_claims_slot s_sub "i:2" (or_keep text_of)). slot_step (has_integer_key 2). Qed.

Lemma aud_slot seen c es c' : read_claims seen c es = Ok c' ->
  s_aud c' = match claim_at "i:3" es with Some v => or_keep aud_of v (s_aud c) | None => s_aud c end.
Proof. apply (read_claims_slot s_aud "i:3" (or_keep aud_of)). slot_step (has_integer_key 3). Qed.

Lemma exp_slot seen c es c' : read_claims seen c es = Ok c' ->
  s_exp c' = match claim_at "i:4" es with Some v => date_of v (s_exp c) | None => s_exp c end.
Proof. apply (read_claims_slot s_exp "i:4" (date_of)). slot_step (has_integer_key 4). Qed.

Lemma nbf_slot seen c es c' : read_claims seen c es = Ok c' ->
  s_nbf c' = match claim_at "i:5" es with Some v => date_of v (s_nbf c) | None => s_nbf c end.
Proof. apply (read_claims_slot s_nbf "i:5" (date_of)). slot_step (has_integer_key 5). Qed.

Lemma iat_slot seen c es c' : read_claims seen c es = Ok c' ->
  s_iat c' = match claim_at "i:6" es with Some v => date_of v (s_iat c) | None => s_iat c end.
Proof. apply (read_claims_slot s_iat "i:6" (date_of)). slot_step (has_integer_key 6). Qed.

Lemma cti_slot seen c es c' : read_claims seen c es = Ok c' ->
  s_cti c' = match claim_at "i:7" es with Some v => or_keep bytes_of v (s_cti c) | None => s_cti c end.
Proof. apply (read_claims_slot s_cti "i:7" (or_keep bytes_of)). slot_step (has_integer_key 7). Qed.

Lemma roles_slot seen c es c' : read_claims seen c es = Ok c' ->
  s_arkavo_roles c' = match claim_at "t:arkavo_roles" es with Some v => or_keep texts_of v (s_arkavo_roles c) | None => s_arkavo_roles c end.
Proof. apply (read_claims_slot s_arkavo_roles "t:arkavo_roles" (or_keep texts_of)). slot_step (has_text_key "arkavo_roles"). Qed.

(** A not-before date that is there was read. *)
Lemma read_claims_nbf seen c es c' v :
  read_claims seen c es = Ok c' -> claim_at "i:5" es = Some v -> is_Some (numeric_date v).
Proof.
  revert seen c. induction es as [|[k w] es IH]; intros seen c H; [done|].
  apply read_claims_cons in H as (n & c1 & Hk & Hn & Hs & H). simpl.
  destruct (has_key "i:5" k) eqn:Hh; [|by eapply IH].
  apply (has_integer_key 5) in Hh as ->. simpl in Hs. intros [= <-].
  destruct (numeric_date w); [done|]. by destruct w.
Qed.

(** ** The claims of a payload *)

(** What the code takes from a claim set without repeated keys. *)
Record claims_of (es : entries_t) (cl : DecodedClaims) : Prop := {
  of_iss : claim_at "i:1" es ≫= text_of = Some (iss cl) /\ iss cl <> "";
  of_sub : claim_at "i:2" es ≫= text_of = Some (sub cl) /\ sub cl <> "";
  of_aud : claim_at "i:3" es ≫= aud_of = Some (aud cl) /\ aud_present (aud cl) = true;
  of_exp : claim_at "i:4" es ≫= numeric_date = Some (exp cl);
  of_nbf : claim_at "i:5" es ≫= numeric_date = nbf cl;
  of_nbf_present : nbf cl = None -> claim_at "i:5" es = None;
  of_iat : claim_at "i:6" es ≫= numeric_date = Some (iat cl);
  of_cti : claim_at "i:7" es ≫= bytes_of = Some (cti cl) /\ cti cl <> [];
  of_roles : claim_at "t:arkavo_roles" es ≫= texts_of = arkavo_roles cl;
  of_keys : exists names, Forall2 (fun e n => claim_key e.1 = Ok n) es names /\ NoDup names;
}.

Lemma non_empty_claim_Ok v n s : non_empty_claim v n = Ok s <-> v = Some s /\ s <> "".
Proof.
  unfold non_empty_claim, is_empty. destruct v as [t|]; simpl; [|naive_solver].
  case_bool_decide; simpl; naive_solver.
Qed.

Lemma parse_claims_of payload cl :
  parse_claims payload = Ok cl ->
  exists es, cbor_from_reader payload = Ok (CMap es) /\ claims_of es cl.
Proof.
  unfold parse_claims. intros H.
  apply rbind_Ok in H as (v & Hv & H). apply map_err_Ok in Hv.
  apply rbind_Ok in H as (es & He & H). destruct v; try done. injection He as ->.
  exists es. split; [done|].
  apply rbind_Ok in H as (c & Hc & H).
  apply rbind_Ok in H as (i & Hi & H). apply non_empty_claim_Ok in Hi as [Hi Hi0].
  apply rbind_Ok in H as (s & Hs & H). apply non_empty_claim_Ok in Hs as [Hs Hs0].
  apply rbind_Ok in H as (a & Ha & H). apply ok_or_Ok in Ha.
  apply rbind_Ok in H as (e & Hexp & H). apply ok_or_Ok in Hexp.
  apply rbind_Ok in H as (t & Hiat & H). apply ok_or_Ok in Hiat.
  apply rbind_Ok in H as (b & Hb & H). apply ok_or_Ok in Hb. injection H as <-.
  pose proof (iss_slot _ _ _ _ Hc) as Liss. pose proof (sub_slot _ _ _ _ Hc) as Lsub.
  pose proof (aud_slot _ _ _ _ Hc) as Laud. pose proof (exp_slot _ _ _ _ Hc) as Lexp.
  pose proof (nbf_slot _ _ _ _ Hc) as Lnbf. pose proof (iat_slot _ _ _ _ Hc) as Liat.
  pose proof (cti_slot _ _ _ _ Hc) as Lcti. pose proof (roles_slot _ _ _ _ Hc) as Lroles.
  pose proof (read_claims_keys _ _ _ _ Hc) as (names & Hn & Hd & _).
  assert (forall A (f : CborValue -> option A) o,
    match o with Some v => or_keep f v None | None => None end = o ≫= f) as Hkeep.
  { intros A f [v|]; [|done]. unfold or_keep. simpl. by destruct (f v). }
  assert (forall o, match o with Some v => date_of v None | None => None end = o ≫= numeric_date)
    as Hdate by by intros [].
  cbn in Liss, Lsub, Laud, Lexp, Lnbf, Liat, Lcti, Lroles.
  rewrite Hkeep in Liss, Lsub, Laud, Lcti, Lroles. rewrite Hdate in Lexp, Lnbf, Liat.
  apply bind_Some in Ha as (a' & Ha & Hp). destruct (aud_present a') eqn:Hap; [|done].
  apply bind_Some in Hb as (b' & Hb & Hne). case_bool_decide; [done|]. simplify_eq.
  constructor; cbn; try (split; congruence); try congruence.
  - intros Hno. destruct (claim_at "i:5" es) as [v|] eqn:H5; [|done].
    destruct (read_claims_nbf _ _ _ _ _ Hc H5) as [d Hd']. simpl in Lnbf. congruence.
  - by exists names.
Qed.

(** ** Accepted tokens *)

Lemma numeric_date_range v t : numeric_date v = Some t -> in_u64 t.
Proof.
  unfold numeric_date, in_u64. destruct v as [n| |f| | | | | |]; try done.
  - destruct (_ && _) eqn:H; [|done]. intros [= <-]. reflect_bools. lia.
  - destruct (_ && _); [|done]. intros [= <-]. destruct f as [b|b| |b m e]; simpl; try lia.
    + destruct b; lia.
    + destruct b; [lia|]. destruct (Z.leb_spec 0 e).
      * assert (0 < 2 ^ e)%Z by (by apply Z.pow_pos_nonneg). nia.
      * pose proof (Z.div_pos (Z.pos m) (2 ^ (- e))).
        assert (0 < 2 ^ (- e))%Z by (apply Z.pow_pos_nonneg; lia). lia.
Qed.

Lemma i64_of_u64_small z : (0 <= z < 2 ^ 63)%Z -> i64_of_u64 z = z.
Proof. intros H. apply (i64_wrap_id z). unfold in_i64. lia. Qed.

Lemma i64_of_u64_large z : (2 ^ 63 <= z < 2 ^ 64)%Z -> (i64_of_u64 z < 0)%Z.
Proof.
  intros H. unfold i64_of_u64, wrap_signed.
  replace (z + 2 ^ (64 - 1))%Z with (z - 2 ^ 63 + 1 * 2 ^ 64)%Z by lia.
  rewrite Z.mod_add, Z.mod_small by lia. lia.
Qed.

Definition signed_by (key : VerifyingKey) (s : CoseSign1) : Prop :=
  exists sig, signature_from_slice (sign1_signature s) = Some sig /\
    p256_verify key (tbs_data s []) sig = true.

(** The token carries this message. *)
Definition message_of (token : string) (s : CoseSign1) : Prop :=
  exists inner, b64url_decode (trim token) = Some (CWT_TAG_PREFIX ++ inner) /\
    (sign1_from_slice inner = Some s \/
     sign1_from_slice inner = None /\ sign1_from_tagged_slice inner = Some s).

(** The claims agree with what the verifier expects, the dates as integers. *)
Record admissible (opts : VerifyOpts) (cl : DecodedClaims) : Prop := {
  adm_iss : forall i, expected_iss opts = Some i -> iss cl = i;
  adm_aud : forall a, expected_aud opts = Some a -> aud_contains (aud cl) a = true;
  adm_order : (iat cl <= exp cl)%Z;
  adm_exp : (now opts - SKEW_SECS < exp cl < 2 ^ 63)%Z;
  adm_iat : (iat cl <= now opts + SKEW_SECS)%Z;
  adm_nbf : forall n, nbf cl = Some n -> (n <= now opts + SKEW_SECS \/ 2 ^ 63 <= n)%Z;
}.

Lemma require_Ok b e u : require b e = Ok u <-> b = true.
Proof. unfold require. destruct b, u; naive_solver. Qed.

Lemma check_claims_admissible cl opts :
  in_u64 (exp cl) -> in_u64 (iat cl) -> (forall n, nbf cl = Some n -> in_u64 n) ->
  (SKEW_SECS <= now opts < 2 ^ 62)%Z ->
  check_claims cl opts = Ok tt <-> admissible opts cl.
Proof.
  unfold in_u64, check_claims, SKEW_SECS. intros He Hi Hn Ht.
  assert (forall z, (0 <= z < 2 ^ 64)%Z ->
    (z < 2 ^ 63)%Z /\ i64_of_u64 z = z \/ (2 ^ 63 <= z)%Z /\ (i64_of_u64 z < 0)%Z) as Hcast.
  { intros z Hz. destruct (Z.lt_ge_cases z (2 ^ 63)); [left|right]; (split; [done|]).
    - apply i64_of_u64_small. lia.
    - apply i64_of_u64_large. lia. }
  split.
  - intros H. apply rbind_Ok in H as ([] & H1 & H). apply rbind_Ok in H as ([] & H2 & H).
    apply rbind_Ok in H as ([] & H3 & H). apply rbind_Ok in H as ([] & H4 & H).
    apply rbind_Ok in H as ([] & H5 & H6). rewrite require_Ok in *. reflect_bools.
    destruct (Hcast _ He), (Hcast _ Hi); try lia.
    constructor; unfold SKEW_SECS; [| |lia..|].
    + intros i Hw. rewrite Hw in H1. by reflect_bools.
    + intros a Hw. by rewrite Hw in H2.
    + intros n Hw. rewrite Hw in H6. reflect_bools. destruct (Hcast n); [by apply Hn|lia|lia].
  - intros [H1 H2 H3 H4 H5 H6]. unfold SKEW_SECS in *.
    destruct (Hcast _ He), (Hcast _ Hi); try lia.
    assert (forall b e k, b = true -> k = Ok tt ->
      rbind (require b e) (fun _ : unit => k) = Ok tt) as Hreq by by intros ??? -> ->.
    apply Hreq; [destruct (expected_iss opts); [by apply bool_decide_eq_true, H1|done]|].
    apply Hreq; [destruct (expected_aud opts); [by apply H2|done]|].
    do 3 (apply Hreq; [first [apply Z.leb_le|apply Z.ltb_lt]; lia|]).
    apply require_Ok. destruct (nbf cl) as [n|] eqn:Hnbf; [|done]. apply Z.leb_le.
    destruct (H6 n), (Hcast n); try done; try lia; by apply Hn.
Qed.

Lemma claims_of_dates es cl :
  claims_of es cl ->
  in_u64 (exp cl) /\ in_u64 (iat cl) /\ (forall n, nbf cl = Some n -> in_u64 n).
Proof.
  intros H. pose proof (of_exp _ _ H) as (v & _ & Hv)%bind_Some.
  pose proof (of_iat _ _ H) as (w & _ & Hw)%bind_Some. split_and!; eauto using numeric_date_range.
  intros n Hn. rewrite <- (of_nbf _ _ H) in Hn. apply bind_Some in Hn as (x & _ & Hx).
  by eapply numeric_date_range.
Qed.

Lemma parse_sign1_Ok inner s :
  parse_sign1 inner = Ok s <->
  sign1_from_slice inner = Some s \/
  sign1_from_slice inner = None /\ sign1_from_tagged_slice inner = Some s.
Proof.
  unfold parse_sign1. rewrite ok_or_Ok. destruct (sign1_from_slice inner); naive_solver.
Qed.

Lemma signature_ok_signed key s :
  signature_ok key (sign1_signature s) (tbs_data s []) = true <-> signed_by key s.
Proof.
  unfold signature_ok, signed_by. destruct (signature_from_slice _); naive_solver.
Qed.

(** The checks of the protected header. *)
Definition protected_ok (opts : VerifyOpts) (s : CoseSign1) : Prop :=
  protected_alg s = Some ES256 /\ protected_crit s = [] /\ protected_key_id s <> [] /\
  (forall k, expected_kid opts = Some k -> protected_key_id s = k).

Lemma verify_header_token_eq token key opts cl :
  verify_header_token token key opts = Ok cl <->
  exists s payload, message_of token s /\ protected_ok opts s /\ signed_by key s /\
    sign1_payload s = Some payload /\ parse_claims payload = Ok cl /\
    check_claims cl opts = Ok tt.
Proof.
  unfold verify_header_token, verify_tagged_bytes, protected_ok. split.
  - intros H. apply rbind_Ok in H as (bs & Hb & H). apply rbind_Ok in H as (inner & Hi & H).
    apply ok_or_Ok in Hb, Hi. apply slice_strip_prefix_Some in Hi as ->.
    apply rbind_Ok in H as (s & Hs & H). apply parse_sign1_Ok in Hs.
    apply rbind_Ok in H as ([] & Halg & H). apply rbind_Ok in H as ([] & Hcrit & H).
    apply rbind_Ok in H as ([] & Hkid & H). apply rbind_Ok in H as ([] & Hexp & H).
    apply rbind_Ok in H as ([] & Hsig & H). rewrite require_Ok in *.
    apply signature_ok_signed in Hsig.
    apply rbind_Ok in H as (payload & Hp & H). apply ok_or_Ok in Hp.
    apply rbind_Ok in H as (cl' & Hcl & H). apply rbind_Ok in H as ([] & Hc & [= <-]).
    exists s, payload. split; [by exists inner|]. split; [|done]. reflect_bools. split_and!.
    + destruct (protected_alg s) as [[]|]; done.
    + by destruct (protected_crit s).
    + done.
    + intros k Hk. rewrite Hk in Hexp. by reflect_bools.
  - intros (s & payload & (inner & Hb & Hs) & (Halg & Hcrit & Hkid & Hexp) & Hsig & Hp & Hcl & Hc).
    rewrite Hb. cbn [ok_or rbind].
    rewrite (proj2 (slice_strip_prefix_Some _ _ _) eq_refl). cbn [ok_or rbind].
    rewrite (proj2 (parse_sign1_Ok _ _) Hs). cbn [rbind]. rewrite Halg, Hcrit. cbn [rbind].
    rewrite bool_decide_false by done. cbn [negb require rbind].
    assert (match expected_kid opts with
      | Some want => bool_decide (protected_key_id s = want) | None => true end = true) as ->.
    { destruct (expected_kid opts); [by apply bool_decide_eq_true, Hexp|done]. }
    cbn [require rbind]. rewrite (proj2 (signature_ok_signed _ _) Hsig). cbn [require rbind].
    rewrite Hp. cbn [ok_or rbind]. rewrite Hcl. cbn [rbind]. by rewrite Hc.
Qed.

Lemma verify_header_token_accepted token key opts cl :
  (SKEW_SECS <= now opts < 2 ^ 62)%Z ->
  (exists s payload, message_of token s /\ protected_ok opts s /\ signed_by key s /\
    sign1_payload s = Some payload /\ parse_claims payload = Ok cl /\ admissible opts cl /\
    exists es, cbor_from_reader payload = Ok (CMap es) /\ claims_of es cl) <->
  verify_header_token token key opts = Ok cl.
Proof.
  intros Ht. rewrite verify_header_token_eq. split.
  - intros (s & payload & Hm & Hp & Hs & Hpay & Hcl & Hadm & es & _ & Hes). exists s, payload.
    split_and!; try done. destruct (claims_of_dates _ _ Hes) as (He & Hi & Hn).
    by apply check_claims_admissible.
  - intros (s & payload & Hm & Hp & Hs & Hpay & Hcl & Hc). exists s, payload.
    destruct (parse_claims_of _ _ Hcl) as (es & Hr & Hes).
    destruct (claims_of_dates _ _ Hes) as (He & Hi & Hn).
    split_and!; try done; [by apply check_claims_admissible|by exists es].
Qed.
(** C14: a token is accepted just when it is tagged and signed and says what the verifier
    expects.  The message in it (bare or itself tagged) is ES256 without critical headers,
    names a key (the expected one) and is signed by the verifying key; its payload is a claim
    set whose mandatory claims are read from single non-empty entries; issuer and audience
    are the expected ones, and at the verifier's clock it is neither expired nor issued in the
    future, with sixty seconds of skew.  A not-before date binds only below 2^63, where the
    cast to a signed integer wraps. *)
Theorem accepted_token token key opts cl :
  (SKEW_SECS <= now opts < 2 ^ 62)%Z ->
  (exists s payload, message_of token s /\ protected_ok opts s /\ signed_by key s /\
    sign1_payload s = Some payload /\ parse_claims payload = Ok cl /\ admissible opts cl /\
    exists es, cbor_from_reader payload = Ok (CMap es) /\ claims_of es cl) <->
  verify_header_token token key opts = Ok cl.
Proof. apply verify_header_token_accepted. Qed.

(** A not-before date from 2^63 on is not enforced: the cast to a signed integer makes it
    negative, so the claims pass just when they would without the date. *)
Theorem huge_nbf_ignored cl opts n :
  nbf cl = Some n -> (2 ^ 63 <= n < 2 ^ 64)%Z -> (0 <= now opts)%Z ->
  check_claims cl opts = check_claims (cl <| nbf := None |>) opts.
Proof.
  intros Hn Hbig Hnow. unfold check_claims. cbn. rewrite Hn.
  rewrite (proj2 (Z.leb_le (i64_of_u64 n) (now opts + SKEW_SECS))); [done|].
  pose proof (i64_of_u64_large n Hbig). unfold SKEW_SECS. lia.
Qed.
End Claims.
