(* ===== verification/AuthzenKeysProps.v ===== *)
(** * Theorems about the key cache under concurrency

    Requests share the key cache.  [key_step] is what an event does to the shared state: a
    clock that only goes forward, the cache, and the history of what was served and stored.
    [key_steps] runs a pool of programs in any interleaving.  [rg m s Q] is a rely-guarantee
    condition: started in [s], among programs that keep the invariant [keys_ok] and never
    replace keys by older ones, [m] does so too, and its result is in [Q]. *)
From S2P Require Import Prelude RustStr Json Services AuthzenSubject AuthzenVerify AuthzenKeys.
From stdpp Require Import list.

#[local] Open Scope string_scope.
#[local] Open Scope nat_scope.
#[local] Open Scope list_scope.
#[local] Open Scope rust_scope.

Section Keys.
Context {crates : CwtCrates}.

(** [served]: the bodies that answered a GET with success; [stored]: the key sets that were
    stored, with their instants; [decided]: the requests posted upstream with the values that
    answered them with success; [history]: all events, with their answers and instants. *)
Record KeyState := {
  clock : Z;
  cache : KeyCache;
  served : list (string * bytes);
  stored : list (Z * gmap bytes VerifyingKey);
  decided : list (PostRequest * Value);
  history : list (Z * answer authzen_event);
}.

Definition same_keys (s s' : KeyState) : Prop :=
  cache s' = cache s /\ served s' = served s /\ stored s' = stored s /\ decided s' = decided s.

(** What an event does and answers.  The wall clock is past the first minute of 1970. *)
Definition key_effect {X} (e : authzen_event X) (s s' : KeyState) : X -> Prop :=
  match e with
  | InstantNow => fun t => t = clock s' /\ same_keys s s'
  | UtcNow => fun t => (SKEW_SECS <= t < 2 ^ 62)%Z /\ same_keys s s'
  | ReadKeys => fun c => c = cache s /\ same_keys s s'
  | StoreKeys ks => fun _ =>
    cache s' = {| keys := ks; last_fetch := Some (clock s') |} /\ served s' = served s /\
    stored s' = (clock s', ks) :: stored s /\ decided s' = decided s
  | HttpGet url => fun r =>
    cache s' = cache s /\ stored s' = stored s /\ decided s' = decided s /\
    served s' = match r with
                | Ok (status, Ok body) =>
                  if is_success status then (url, body) :: served s else served s
                | _ => served s
                end
  | HttpPost req => fun r =>
    cache s' = cache s /\ stored s' = stored s /\ served s' = served s /\
    decided s' = match r with
                 | Ok (status, Ok answer) =>
                   if is_success status then (req, answer) :: decided s else decided s
                 | _ => decided s
                 end
  | _ => fun _ => same_keys s s'
  end.

Definition key_step {X} (e : authzen_event X) (s : KeyState) (x : X) (s' : KeyState) : Prop :=
  (clock s <= clock s')%Z /\ key_effect e s s' x /\
  history s' = (clock s', answered e x) :: history s.

Inductive key_steps {A} : KeyState * list (aio A) -> KeyState * list (aio A) -> Prop :=
| key_steps_refl s : key_steps s s
| key_steps_step s ps i X (e : authzen_event X) k x s1 t :
    ps !! i = Some (Vis e k) -> key_step e s x s1 ->
    key_steps (s1, <[i := k x]> ps) t -> key_steps (s, ps) t.

(** ** The invariant *)

(** A key set that the url served. *)
Definition from_url (url : string) (s : KeyState) (ks : gmap bytes VerifyingKey) : Prop :=
  exists body l, (url, body) ∈ served s /\ parse_cose_key_set body = Ok l /\ ks = collect_keys l.

Record keys_ok (url : string) (s : KeyState) : Prop := {
  cache_stored : match last_fetch (cache s) with
                 | Some t => (t, keys (cache s)) ∈ stored s /\ (t <= clock s)%Z
                 | None => keys (cache s) = ∅
                 end;
  stored_served : forall t ks, (t, ks) ∈ stored s -> from_url url s ks;
}.

(** What the other programs may do. *)
Record key_rely (url : string) (s s' : KeyState) : Prop := {
  rely_ok : keys_ok url s -> keys_ok url s';
  rely_clock : (clock s <= clock s')%Z;
  rely_served : served s ⊆ served s';
  rely_stored : stored s ⊆ stored s';
  rely_decided : decided s ⊆ decided s';
  rely_history : history s ⊆ history s';
  rely_fresh : forall t, last_fetch (cache s) = Some t ->
    exists t', last_fetch (cache s') = Some t' /\ (t <= t')%Z;
}.

#[export] Instance key_rely_preorder url : PreOrder (key_rely url).
Proof.
  split.
  - intros s. constructor; [done|done|done|done|done|done|]. intros t Ht. by exists t.
  - intros s1 s2 s3 [A1 A2 A3 A4 A5 A7 A6] [B1 B2 B3 B4 B5 B7 B6].
    constructor; [auto|lia|set_solver|set_solver|set_solver|set_solver|]. intros t Ht.
    destruct (A6 _ Ht) as (t1 & Ht1 & ?). destruct (B6 _ Ht1) as (t2 & Ht2 & ?).
    exists t2. split; [done|lia].
Qed.

(** A program stores only what the url served. *)
Definition may {X} (url : string) (e : authzen_event X) (s : KeyState) : Prop :=
  match e with StoreKeys ks => from_url url s ks | _ => True end.

Lemma from_url_rely url s s' ks : key_rely url s s' -> from_url url s ks -> from_url url s' ks.
Proof. intros Hr (body & l & Hb & Hp). exists body, l. split; [by apply (rely_served _ _ _ Hr)|done]. Qed.

Lemma may_rely {X} url (e : authzen_event X) s s' : key_rely url s s' -> may url e s -> may url e s'.
Proof. intros Hr. destruct e; simpl; try done. by apply from_url_rely. Qed.

(** Anything that leaves the cache and the stored sets and adds to the rest. *)
Lemma rely_grow url s s' :
  keys_ok url s -> (clock s <= clock s')%Z -> cache s' = cache s -> stored s' = stored s ->
  served s ⊆ served s' -> decided s ⊆ decided s' -> history s ⊆ history s' -> key_rely url s s'.
Proof.
  intros [H1 H2] Hc E1 E3 Hs Hd Hh. constructor; [|done|done|by rewrite E3|done|done|].
  - intros _. constructor.
    + rewrite E1, E3. destruct (last_fetch (cache s)); [|done]. split; [naive_solver|]. lia.
    + intros t ks. rewrite E3. intros Hin. destruct (H2 _ _ Hin) as (b & l & Hb & ?). exists b, l.
      split; [by apply Hs|done].
  - intros t Ht. exists t. by rewrite E1.
Qed.

(** An allowed event keeps the invariant. *)
Lemma key_step_rely {X} url (e : authzen_event X) s x s' :
  keys_ok url s -> may url e s -> key_step e s x s' -> key_rely url s s'.
Proof.
  intros Hok Hmay (Hc & He & Hh).
  assert (history s ⊆ history s') as Hsub by (rewrite Hh; set_solver). clear Hh.
  assert (same_keys s s' -> key_rely url s s') as Hsame.
  { intros (E1 & E2 & E3 & E4). apply rely_grow; rewrite ?E2, ?E4; done. }
  destruct e; simpl in He, Hmay; try (by apply Hsame); try (by apply Hsame; destruct He).
  - (* StoreKeys *)
    destruct He as (E1 & E2 & E3 & E4). destruct Hok as [H1 H2].
    constructor; [|done|by rewrite E2|rewrite E3; set_solver|by rewrite E4|done|].
    + intros _. constructor; rewrite ?E1, ?E3; simpl; [split; [left|done]|].
      intros t ks [[= -> ->]|Hin]%elem_of_cons.
      * destruct Hmay as (b & l & ?). exists b, l. by rewrite E2.
      * destruct (H2 _ _ Hin) as (b & l & ?). exists b, l. by rewrite E2.
    + intros t Ht. rewrite E1. exists (clock s'). split; [done|]. rewrite Ht in H1. lia.
  - (* HttpGet *)
    destruct He as (E1 & E3 & E4 & E2). apply rely_grow; try done; rewrite ?E4; [|done].
    rewrite E2. destruct x as [[st [b|]]|]; [destruct (is_success st)|..]; set_solver.
  - (* HttpPost *)
    destruct He as (E1 & E3 & E2 & E4). apply rely_grow; try done; rewrite ?E2; [done|].
    rewrite E4. destruct x as [[st [b|]]|]; [destruct (is_success st)|..]; set_solver.
Qed.

(** ** Rely and guarantee *)

Fixpoint rg {A} (url : string) (m : aio A) (s : KeyState) (Q : A -> KeyState -> Prop) : Prop :=
  match m with
  | Ret a => forall s', key_rely url s s' -> keys_ok url s' -> Q a s'
  | Vis e k => forall s1, key_rely url s s1 -> keys_ok url s1 ->
      may url e s1 /\ forall x s2, key_step e s1 x s2 -> rg url (k x) s2 Q
  end.

Lemma rg_rely {A} url (m : aio A) s s' Q : key_rely url s s' -> rg url m s Q -> rg url m s' Q.
Proof.
  intros Hr. destruct m as [a|X e k]; simpl.
  - intros H t Ht. apply H. by trans s'.
  - intros H t Ht. apply H. by trans s'.
Qed.

Lemma rg_mono {A} url (m : aio A) s (Q Q' : A -> KeyState -> Prop) :
  (forall a s', key_rely url s s' -> keys_ok url s' -> Q a s' -> Q' a s') ->
  rg url m s Q -> rg url m s Q'.
Proof.
  revert s. induction m as [a|X e k IH]; simpl; intros s HQ H; [auto|].
  intros s1 Hr Hok. destruct (H s1 Hr Hok) as [Hm Hk]. split; [done|].
  intros x s2 Hs. apply IH; [|by apply Hk]. intros a s' Hr'. apply HQ.
  trans s2; [|done]. trans s1; [done|]. by eapply key_step_rely.
Qed.

Lemma rg_bind {A B} url (m : aio A) (k : A -> aio B) s Q :
  rg url m s (fun a s' => rg url (k a) s' Q) -> keys_ok url s -> rg url (bind m k) s Q.
Proof.
  revert s. induction m as [a|X e c IH]; simpl; intros s H Hs.
  - by apply H.
  - intros s1 Hr Hok. destruct (H s1 Hr Hok) as [Hm Hk]. split; [done|]. intros x s2 H2.
    apply IH; [by apply Hk|]. by eapply rely_ok; [eapply key_step_rely|].
Qed.

Lemma rg_ret {A} url (a : A) s (Q : A -> KeyState -> Prop) :
  (forall s', key_rely url s s' -> keys_ok url s' -> Q a s') -> rg url (Ret a) s Q.
Proof. done. Qed.

(** One event, then the rest in the state it leaves. *)
Lemma rg_event {A X} url (e : authzen_event X) (k : X -> aio A) s Q :
  (forall s1, key_rely url s s1 -> keys_ok url s1 -> may url e s1) ->
  (forall s1 x s2, key_rely url s s1 -> keys_ok url s1 -> key_effect e s1 s2 x ->
    key_rely url s1 s2 -> keys_ok url s2 -> (clock s2, answered e x) ∈ history s2 ->
    rg url (k x) s2 Q) ->
  rg url (bind (trigger e) k) s Q.
Proof.
  intros Hm Hk s1 Hr Hok. split; [by apply Hm|]. intros x s2 Hs.
  assert (key_rely url s1 s2) as Hr2 by (eapply key_step_rely; eauto).
  apply (Hk s1); [done|done|by apply Hs|done|by apply (rely_ok _ _ _ Hr2)|].
  destruct Hs as (_ & _ & ->). left.
Qed.

(** The condition holds of every program of a pool, along any interleaving. *)
Lemma rg_steps {A} url (Q : nat -> A -> KeyState -> Prop) s ps s' ps' :
  key_steps (s, ps) (s', ps') -> keys_ok url s ->
  (forall j p, ps !! j = Some p -> rg url p s (Q j)) ->
  keys_ok url s' /\ forall j p, ps' !! j = Some p -> rg url p s' (Q j).
Proof.
  intros H. remember (s, ps) as c eqn:Ec. remember (s', ps') as c' eqn:Ec'.
  revert s ps Ec. induction H as [c|s ps i X e k x s1 t Hi Hstep Hrest IH]; intros s0 ps0 Ec Hok Hps.
  { rewrite Ec in Ec'. injection Ec' as -> ->. done. }
  injection Ec as -> ->. pose proof (Hps _ _ Hi) as Hi'. simpl in Hi'.
  destruct (Hi' s0) as [Hm Hk]; [done|done|].
  assert (key_rely url s0 s1) as Hr by by eapply key_step_rely.
  apply (IH Ec' s1 (<[i := k x]> ps0)); [done|by apply (rely_ok _ _ _ Hr)|].
  intros j p Hj. destruct (decide (i = j)) as [<-|Hne].
  - rewrite list_lookup_insert_eq in Hj by by eapply lookup_lt_Some. injection Hj as <-. auto.
  - rewrite list_lookup_insert_ne in Hj by done. eapply rg_rely; [done|]. auto.
Qed.

(** ** Resolution of a key *)

Section Resolve.
Context (c : CoseKeyCache) (url : string).
Context (c_url : cose_keys_url c = Some url) (c_age : (0 < max_age c)%Z).

(** A set of the last [max_age], seen from [t0]. *)
Definition recent (t0 t : Z) : Prop := (t0 - t < max_age c)%Z.

Definition recent_cache (t0 : Z) (s : KeyState) : Prop :=
  exists t, last_fetch (cache s) = Some t /\ recent t0 t.

(** The key is in a recent set that was stored. *)
Definition recent_key (t0 : Z) (kid : bytes) (k : VerifyingKey) (s : KeyState) : Prop :=
  exists t ks, (t, ks) ∈ stored s /\ ks !! kid = Some k /\ recent t0 t.

Lemma recent_cache_rely t0 s s' : key_rely url s s' -> recent_cache t0 s -> recent_cache t0 s'.
Proof.
  intros Hr (t & Ht & Ha). destruct (rely_fresh _ _ _ Hr _ Ht) as (t' & Ht' & ?).
  exists t'. split; [done|]. unfold recent in *. lia.
Qed.

Lemma recent_key_rely t0 kid k s s' :
  key_rely url s s' -> recent_key t0 kid k s -> recent_key t0 kid k s'.
Proof.
  intros Hr (t & ks & Hin & H). exists t, ks. split; [|done]. by apply (rely_stored _ _ _ Hr).
Qed.

Lemma rg_fresh_lookup kid t0 s : keys_ok url s -> (t0 <= clock s)%Z ->
  rg url (fresh_lookup c kid) s (fun o s' => forall k, o = Some k -> recent_key t0 kid k s').
Proof.
  intros Hs Ht0. unfold fresh_lookup. apply rg_event; [done|].
  intros s1 x s2 Hr1 Hok1 [-> Hsame] Hr2 Hok2 _. destruct (last_fetch (cache s1)) as [t|] eqn:Hl.
  - apply rg_event; [done|]. intros s3 n s4 Hr3 Hok3 [-> _] Hr4 Hok4 _. apply rg_ret.
    intros s5 Hr5 Hok5 k. destruct (Z.ltb_spec (elapsed (clock s4) t) (max_age c)); [|done].
    intros Hk. pose proof (cache_stored _ _ Hok1) as Hc. rewrite Hl in Hc. destruct Hc as [Hin _].
    apply (recent_key_rely _ _ _ s1); [by repeat (etrans; [eassumption|])|].
    exists t, (keys (cache s1)). do 2 (split; [done|]). unfold recent. unfold elapsed in *.
    pose proof (rely_clock _ _ _ Hr1). pose proof (rely_clock _ _ _ Hr2).
    pose proof (rely_clock _ _ _ Hr3). pose proof (rely_clock _ _ _ Hr4). lia.
  - apply rg_ret. done.
Qed.

Lemma rg_throttled t0 s : keys_ok url s -> (t0 <= clock s)%Z ->
  rg url (throttled c) s (fun b s' => b = true -> recent_cache t0 s').
Proof.
  intros Hs Ht0. unfold throttled. apply rg_event; [done|].
  intros s1 x s2 Hr1 Hok1 [-> Hsame] Hr2 Hok2 _. destruct (last_fetch (cache s1)) as [t|] eqn:Hl.
  - apply rg_event; [done|]. intros s3 n s4 Hr3 Hok3 [-> _] Hr4 Hok4 _. apply rg_ret.
    intros s5 Hr5 Hok5 Hlt%Z.ltb_lt.
    apply (recent_cache_rely _ s1); [by repeat (etrans; [eassumption|])|].
    exists t. split; [done|]. unfold recent, elapsed, refresh_throttle in *.
    pose proof (rely_clock _ _ _ Hr1). pose proof (rely_clock _ _ _ Hr2).
    pose proof (rely_clock _ _ _ Hr3). pose proof (rely_clock _ _ _ Hr4). lia.
  - apply rg_ret. done.
Qed.

(** A request for the key set, not before [t0], that was not answered with one. *)
Definition key_set_failed (t0 : Z) (s : KeyState) : Prop :=
  exists t r, (t, answered (HttpGet url) r) ∈ history s /\ (t0 <= t)%Z /\
    forall status body, r = Ok (status, Ok body) -> is_success status = true ->
      exists e, parse_cose_key_set body = Err e.

Lemma key_set_failed_rely t0 s s' : key_rely url s s' -> key_set_failed t0 s -> key_set_failed t0 s'.
Proof.
  intros Hr (t & r & Hin & H). exists t, r. split; [|done]. by apply (rely_history _ _ _ Hr).
Qed.

(** What a refresh leaves: a recent set, or the report of a failure. *)
Definition refreshed (t0 : Z) (r : result unit VerifyError) (s : KeyState) : Prop :=
  match r with
  | Ok _ => recent_cache t0 s
  | Err e => e = KeySet /\ key_set_failed t0 s
  end.

Lemma refreshed_rely t0 r s s' : key_rely url s s' -> refreshed t0 r s -> refreshed t0 r s'.
Proof.
  intros Hr. destruct r as [u|e]; [by apply recent_cache_rely|]. intros [? H]. split; [done|].
  by eapply key_set_failed_rely.
Qed.

Lemma rg_fetch_keys t0 s : keys_ok url s -> (t0 <= clock s)%Z ->
  rg url (fetch_keys url) s (refreshed t0).
Proof.
  intros Hs Ht0. unfold fetch_keys. apply rg_event; [done|].
  intros s1 x s2 Hr1 Hok1 (_ & _ & _ & Hserved) Hr2 Hok2 Hh.
  assert (t0 <= clock s2)%Z as Ht2.
  { pose proof (rely_clock _ _ _ Hr1). pose proof (rely_clock _ _ _ Hr2). lia. }
  assert ((forall status body, x = Ok (status, Ok body) -> is_success status = true ->
    exists e, parse_cose_key_set body = Err e) -> rg url (Ret (Err KeySet)) s2 (refreshed t0)) as Hfail.
  { intros H. apply rg_ret. intros s3 Hr3 _. split; [done|]. apply (key_set_failed_rely _ s2); [done|].
    by exists (clock s2), x. }
  destruct x as [[st body]|]; [|by apply Hfail].
  destruct (is_success st) eqn:Hst; simpl negb; [|apply Hfail; intros ?? [= <- _]; congruence].
  destruct body as [body|]; [|by apply Hfail].
  destruct (parse_cose_key_set body) as [l|e] eqn:Hp;
    [|apply Hfail; intros ?? [= _ <-] _; by exists e].
  apply rg_event.
  - intros s3 Hr3 _. exists body, l. split; [|done]. apply (rely_served _ _ _ Hr3).
    rewrite Hserved. simpl. try rewrite Hst. left.
  - intros s3 x s4 Hr3 Hok3 (Hc & _ & _) Hr4 Hok4 _. apply rg_ret. intros s5 Hr5 _.
    apply (recent_cache_rely _ s4); [done|]. exists (clock s4). rewrite Hc. split; [done|].
    unfold recent. pose proof (rely_clock _ _ _ Hr3). pose proof (rely_clock _ _ _ Hr4). lia.
Qed.

Lemma rg_refresh_keys t0 s : keys_ok url s -> (t0 <= clock s)%Z ->
  rg url (refresh_keys c) s (refreshed t0).
Proof.
  intros Hs Ht0. unfold refresh_keys. rewrite c_url. apply rg_bind; [|done].
  eapply rg_mono; [|by apply rg_throttled]. intros [] s1 Hr1 Hok1 H1; simpl in H1.
  { apply rg_ret. intros s2 Hr2 _. eapply recent_cache_rely; [done|]. by apply H1. }
  apply rg_event; [done|]. intros s2 x s3 Hr2 Hok2 _ Hr3 Hok3 _.
  assert (t0 <= clock s3)%Z as Ht3.
  { pose proof (rely_clock _ _ _ Hr1). pose proof (rely_clock _ _ _ Hr2).
    pose proof (rely_clock _ _ _ Hr3). lia. }
  apply rg_bind; [|done]. eapply rg_mono; [|by apply rg_throttled].
  intros skip s4 Hr4 Hok4 H4. apply rg_bind; [|done].
  assert (rg url (if skip then Ret (Ok tt) else fetch_keys url) s4 (refreshed t0)) as Hr.
  { destruct skip.
    - apply rg_ret. intros s5 Hr5 _. eapply recent_cache_rely; [done|]. by apply H4.
    - apply rg_fetch_keys; [done|]. pose proof (rely_clock _ _ _ Hr4). lia. }
  eapply rg_mono; [|exact Hr]. intros r s5 Hr5 Hok5 H5. apply rg_event; [done|].
  intros s6 x' s7 Hr6 Hok6 _ Hr7 Hok7 _. apply rg_ret. intros s8 Hr8 _.
  eapply refreshed_rely; [|exact H5]. by repeat (etrans; [eassumption|]).
Qed.

(** The key is not in a recent set that was stored. *)
Definition recent_unknown (t0 : Z) (kid : bytes) (s : KeyState) : Prop :=
  exists t ks, (t, ks) ∈ stored s /\ ks !! kid = None /\ recent t0 t.

Definition resolved (t0 : Z) (kid : bytes) (r : result VerifyingKey VerifyError) (s : KeyState) : Prop :=
  match r with
  | Ok k => recent_key t0 kid k s
  | Err UnknownKid => recent_unknown t0 kid s
  | Err e => e = KeySet /\ key_set_failed t0 s
  end.

Lemma rg_resolve kid s : keys_ok url s ->
  rg url (resolve c kid) s (resolved (clock s) kid).
Proof.
  intros Hs. unfold resolve. apply rg_bind; [|done].
  eapply rg_mono; [|by apply rg_fresh_lookup]. intros [k|] s1 Hr1 Hok1 H1; simpl in H1.
  { apply rg_ret. intros s2 Hr2 _. eapply recent_key_rely; [done|]. by apply H1. }
  apply rg_bind; [|done].
  eapply rg_mono; [|apply (rg_refresh_keys (clock s)); [done|apply (rely_clock _ _ _ Hr1)]].
  intros [[]|e] s2 Hr2 Hok2 H2.
  2: { apply rg_ret. intros s3 Hr3 _. destruct H2 as [-> H2]. split; [done|].
       by eapply key_set_failed_rely. }
  apply rg_bind; [|done]. unfold lookup_key. apply rg_event; [done|].
  intros s3 x s4 Hr3 Hok3 [-> _] Hr4 Hok4 _. apply rg_ret. intros s5 Hr5 Hok5. apply rg_ret. intros s6 Hr6 _.
  destruct (recent_cache_rely (clock s) s2 s3) as (t & Ht & Ha); [done|by apply H2|].
  pose proof (cache_stored _ _ Hok3) as Hc. rewrite Ht in Hc. destruct Hc as [Hin _].
  assert (key_rely url s3 s6) as Hr by by repeat (etrans; [eassumption|]).
  apply (rely_stored _ _ _ Hr) in Hin.
  destruct (keys (cache s3) !! kid) as [k|] eqn:Hk; simpl; by exists t, (keys (cache s3)).
Qed.
End Resolve.
End Keys.
