(* ===== verification/AuthzenBatchProps.v ===== *)
(** * Theorems about batches of evaluations

    How the decisions of the upstream point are matched with the evaluations of a batch, how
    the evaluations are grouped, and what every evaluation of a batch is answered. *)
From S2P Require Import Prelude RustStr Json Services AuthzenSubject AuthzenTranslate.
From S2P Require Import AuthzenVerify AuthzenKeys AuthzenFacade.
From stdpp Require Import list.

#[local] Open Scope string_scope.
#[local] Open Scope nat_scope.
#[local] Open Scope list_scope.
#[local] Open Scope rust_scope.

(** ** Writing results *)

Fixpoint set_all (results : slots) (ws : list (nat * Value)) : outcome slots :=
  match ws with
  | [] => Done results
  | (i, v) :: ws => let! results := set_result results i v in set_all results ws
  end.

Lemma set_all_Done results ws :
  Forall (fun w => w.1 < length results) ws ->
  exists r, set_all results ws = Done r /\ length r = length results /\
    (forall i, i ∉ ws.*1 -> r !! i = results !! i) /\
    (NoDup ws.*1 -> forall i v, (i, v) ∈ ws -> r !! i = Some (Some v)).
Proof.
  revert results. induction ws as [|[i v] ws IH]; intros results Hws; simpl.
  { exists results. split_and!; [done|done|done|]. intros _ j w []%not_elem_of_nil. }
  apply Forall_cons in Hws as [Hi Hws]. simpl in Hi. unfold set_result.
  rewrite (proj2 (Nat.ltb_lt _ _) Hi). simpl.
  destruct (IH (<[i := Some v]> results)) as (r & Hr & Hl & Hkeep & Hset).
  { by rewrite length_insert. }
  exists r. rewrite length_insert in Hl. split_and!; [done|done| |].
  - intros j [Hne Hj]%not_elem_of_cons. rewrite Hkeep by done. by apply list_lookup_insert_ne.
  - intros [Hni Hd]%NoDup_cons j w [[= -> ->]|Hin]%elem_of_cons; [|by apply Hset].
    rewrite Hkeep by done. by apply list_lookup_insert_eq.
Qed.

(** ** Matching decisions with items *)

Definition answer (rid : string) (index : nat) (d : option DecisionOut) : Value :=
  match d with
  | Some d => authzen_decision (permit d) rid (Some index) (required_obligations d) None
  | None => deny_closed rid (Some index) "no upstream decision for resource"
  end.

(** How many of the first [n] items have the id. *)
Definition earlier (eid : string) (n : nat) (items : list item) : nat :=
  length (filter (fun it : item => it.1.2 = eid) (take n items)).

(** The decision of the [n]th item: of those for its id, the one at its occurrence. *)
Definition decision_for (parsed : list DecisionOut) (items : list item) (n : nat) (eid : string) :
    option DecisionOut :=
  filter (fun d => out_ephemeral_id d = eid) parsed !! earlier eid n items.

Definition writes (q : string -> list DecisionOut) (items : list item) (rid : string) :
    list (nat * Value) :=
  imap (fun n (it : item) =>
    (it.1.1, answer rid it.1.1 (q it.1.2 !! earlier it.1.2 n items))) items.

Lemma earlier_cons eid n it items :
  earlier eid (S n) (it :: items) = (if decide (it.1.2 = eid) then 1 else 0) + earlier eid n items.
Proof.
  unfold earlier. simpl. destruct (decide (it.1.2 = eid)).
  - by rewrite filter_cons_True.
  - by rewrite filter_cons_False.
Qed.

Lemma writes_cons q it items rid :
  writes q (it :: items) rid =
  (it.1.1, answer rid it.1.1 (q it.1.2 !! 0)) ::
  writes (fun e => if decide (it.1.2 = e) then tail (q e) else q e) items rid.
Proof.
  unfold writes. rewrite imap_cons. f_equal. apply imap_ext. intros n x _. simpl. f_equal.
  rewrite earlier_cons. case_decide as H; [|done]. by destruct (q _).
Qed.

Lemma writes_ext q q' items rid :
  (forall e, q e = q' e) -> writes q items rid = writes q' items rid.
Proof. intros H. unfold writes. apply imap_ext. intros n x _. by rewrite H. Qed.

Definition queue_of (queues : gmap string (list DecisionOut)) (e : string) : list DecisionOut :=
  default [] (queues !! e).

Lemma apply_queues_writes queues results items rid :
  apply_queues queues results items rid = set_all results (writes (queue_of queues) items rid).
Proof.
  revert queues results. induction items as [|[[i e] fqns] items IH]; intros queues results; [done|].
  rewrite writes_cons. simpl.
  assert (forall q, (forall e', queue_of q e' =
      if decide (e = e') then tail (queue_of queues e') else queue_of queues e') ->
    forall r, apply_queues q r items rid = set_all r
      (writes (fun e' => if decide (e = e') then tail (queue_of queues e') else queue_of queues e')
        items rid)) as Hrest.
  { intros q Hq r. rewrite IH. f_equal. by apply writes_ext. }
  destruct (queues !! e) as [[|d q]|] eqn:Hq; unfold queue_of at 1; rewrite Hq; simpl.
  - destruct (set_result _ _ _); [|done]. simpl. apply Hrest. intros e'.
    case_decide as He; [|done]. subst e'. unfold queue_of. by rewrite Hq.
  - destruct (set_result _ _ _); [|done]. simpl. apply Hrest. intros e'. unfold queue_of.
    case_decide as He; [subst e'; by rewrite lookup_insert_eq, Hq|by rewrite lookup_insert_ne].
  - destruct (set_result _ _ _); [|done]. simpl. apply Hrest. intros e'.
    case_decide as He; [|done]. subst e'. unfold queue_of. by rewrite Hq.
Qed.

Lemma queue_of_by_id parsed e :
  queue_of (by_id parsed) e = filter (fun d => out_ephemeral_id d = e) parsed.
Proof.
  unfold by_id. induction parsed as [|d parsed IH] using rev_ind; [done|].
  rewrite foldl_app, filter_app. simpl. rewrite <- IH. unfold queue_of.
  destruct (decide (out_ephemeral_id d = e)) as [<-|Hne].
  - rewrite lookup_insert_eq. by rewrite filter_cons_True.
  - rewrite lookup_insert_ne by done. by rewrite filter_cons_False, app_nil_r.
Qed.

Lemma apply_decisions_writes results items parsed rid :
  apply_decisions results items parsed rid =
  set_all results (imap (fun n (it : item) =>
    (it.1.1, answer rid it.1.1 (decision_for parsed items n it.1.2))) items).
Proof.
  unfold apply_decisions. rewrite apply_queues_writes. f_equal. unfold writes. apply imap_ext.
  intros n it _. by rewrite queue_of_by_id.
Qed.

Abbreviation indices := (fmap (fun it : item => it.1.1)).

Lemma apply_decisions_Done results items parsed rid :
  Forall (fun it : item => it.1.1 < length results) items -> NoDup (indices items) ->
  exists r, apply_decisions results items parsed rid = Done r /\ length r = length results /\
    (forall i, i ∉ indices items -> r !! i = results !! i) /\
    forall n it, items !! n = Some it ->
      r !! it.1.1 = Some (Some (answer rid it.1.1 (decision_for parsed items n it.1.2))).
Proof.
  intros Hlt Hnd. rewrite apply_decisions_writes. set (ws := imap _ items).
  assert (ws.*1 = indices items) as Hws.
  { unfold ws. rewrite fmap_imap. by rewrite <- (imap_const (fun it : item => it.1.1)). }
  destruct (set_all_Done results ws) as (r & Hr & Hl & Hkeep & Hset).
  { apply Forall_fmap with (f := fst) (P := fun i => i < length results). rewrite Hws.
    by apply Forall_fmap. }
  exists r. split_and!; [done|done|by rewrite <- Hws|]. intros n it Hn.
  apply Hset; [by rewrite Hws|]. apply list_elem_of_lookup. exists n. unfold ws.
  by rewrite list_lookup_imap, Hn.
Qed.

(** Decisions are matched with evaluations by resource id and occurrence.  When the items
    of a group are distinct evaluations of the batch, matching never panics, touches only
    their slots, and gives the nth evaluation of a resource id the nth decision for that id;
    an evaluation left without a decision is denied, and says so. *)
Theorem decisions_by_occurrence results items parsed rid :
  Forall (fun it : item => it.1.1 < length results) items -> NoDup (indices items) ->
  exists r, apply_decisions results items parsed rid = Done r /\ length r = length results /\
    (forall i, i ∉ indices items -> r !! i = results !! i) /\
    forall n it, items !! n = Some it ->
      r !! it.1.1 = Some (Some (answer rid it.1.1 (decision_for parsed items n it.1.2))).
Proof. apply apply_decisions_Done. Qed.

(** ** Groups *)

(** The question an evaluation asks upstream, unless it is denied at once. *)
Definition item_of (p : Prepared) : option item :=
  match p_chain_deny p, p_resource p with
  | None, Fqns id fqns => Some (p_index p, id, fqns)
  | _, _ => None
  end.

(** The group asks on behalf of the evaluation: same action and obligations, equal chain. *)
Definition agrees (p : Prepared) (g : Group) : Prop :=
  g_action g = p_action p /\ g_fulfillable g = p_fulfillable p /\
  (g_chain g = p_chain p \/ value_eqb (g_chain g) (p_chain p) = true).

Lemma group_step_eq groups p :
  group_step groups p = match item_of p with Some it => push_item p it groups | None => groups end.
Proof. unfold group_step, item_of. by destruct (p_chain_deny p), (p_resource p). Qed.

Lemma push_item_items p it groups :
  mjoin (g_items <$> push_item p it groups) ≡ₚ mjoin (g_items <$> groups) ++ [it].
Proof.
  induction groups as [|g groups IH]; simpl; [done|].
  destruct (same_group p g); simpl; [|by rewrite IH, app_assoc]. 
  rewrite <- !app_assoc. f_equiv. apply Permutation_app_comm.
Qed.

Lemma push_item_group p it groups g x :
  g ∈ push_item p it groups -> x ∈ g_items g ->
  (x = it /\ agrees p g) \/
  exists g0, g0 ∈ groups /\ x ∈ g_items g0 /\ g_action g = g_action g0 /\
    g_fulfillable g = g_fulfillable g0 /\ g_chain g = g_chain g0.
Proof.
  unfold agrees. induction groups as [|g0 groups IH]; simpl.
  { intros ->%list_elem_of_singleton Hx. simpl in Hx. apply list_elem_of_singleton in Hx.
    left. simpl. auto. }
  destruct (same_group p g0) eqn:Hsame.
  - unfold same_group in Hsame. reflect_bools. intros [->|Hg]%elem_of_cons Hx.
    + simpl in Hx. apply elem_of_app in Hx as [Hx|Hx%list_elem_of_singleton].
      * right. exists g0. split; [left|done].
      * left. subst x. simpl. auto.
    + right. exists g. split; [by right|done].
  - intros [->|Hg]%elem_of_cons Hx.
    + right. exists g0. split; [left|done].
    + destruct (IH Hg Hx) as [?|(g1 & ? & ?)]; [by left|]. right. exists g1. split; [by right|done].
Qed.

Lemma groups_of_snoc ps p : groups_of (ps ++ [p]) = group_step (groups_of ps) p.
Proof. unfold groups_of. by rewrite foldl_app. Qed.

Lemma groups_items ps : mjoin (g_items <$> groups_of ps) ≡ₚ omap item_of ps.
Proof.
  induction ps as [|p ps IH] using rev_ind; [done|].
  rewrite groups_of_snoc, group_step_eq, omap_app. simpl.
  destruct (item_of p) as [it|]; simpl; [by rewrite push_item_items, IH|by rewrite app_nil_r].
Qed.

Lemma groups_agree ps g it :
  g ∈ groups_of ps -> it ∈ g_items g ->
  exists p, p ∈ ps /\ item_of p = Some it /\ agrees p g.
Proof.
  revert g. induction ps as [|p ps IH] using rev_ind; intros g; [by intros ?%not_elem_of_nil|].
  rewrite groups_of_snoc, group_step_eq. intros Hg Hit.
  assert (forall g0, g0 ∈ groups_of ps -> it ∈ g_items g0 -> g_action g = g_action g0 ->
    g_fulfillable g = g_fulfillable g0 -> g_chain g = g_chain g0 ->
    exists q, q ∈ ps ++ [p] /\ item_of q = Some it /\ agrees q g) as Hold.
  { intros g0 Hg0 Hit0 E1 E2 E3. destruct (IH g0 Hg0 Hit0) as (q & Hq & Hi & Ha). exists q.
    split; [by apply elem_of_app; left|]. split; [done|]. unfold agrees in *. by rewrite E1, E2, E3. }
  destruct (item_of p) as [it'|] eqn:Hp; [|by eapply Hold].
  destruct (push_item_group _ _ _ _ _ Hg Hit) as [[-> Ha]|(g0 & ? & ? & ? & ? & ?)];
    [|by eapply Hold].
  exists p. split; [by apply elem_of_app; right; left|]. done.
Qed.

(** ** What a batch answers *)

Section Batch.
Context {cwt : CwtCrates} {crates : FacadeCrates}.
Context (rid semantic : string) (ps : list Prepared).
Context (ps_index : forall i p, ps !! i = Some p -> p_index p = i).

(** Why evaluation [i] has its answer, given the decisions for the groups. *)
Inductive explained (answers : list (Group * list DecisionOut)) (i : nat) : Value -> Prop :=
| by_chain p msg :
    ps !! i = Some p -> p_chain_deny p = Some msg ->
    explained answers i (deny_closed rid (Some i) msg)
| by_resource p id msg :
    ps !! i = Some p -> p_chain_deny p = None -> p_resource p = DenyClosed id msg ->
    explained answers i (deny_closed rid (Some i) msg)
| by_decision p id fqns g parsed n :
    ps !! i = Some p -> item_of p = Some (i, id, fqns) -> agrees p g ->
    (g, parsed) ∈ answers -> g_items g !! n = Some (i, id, fqns) ->
    explained answers i (answer rid i (decision_for parsed (g_items g) n id))
| by_first :
    semantic = "deny_on_first_deny" \/ semantic = "permit_on_first_permit" ->
    explained answers i (deny_closed rid (Some i) semantic).

Definition prefill_write (p : Prepared) : option (nat * Value) :=
  match p_chain_deny p, p_resource p with
  | Some msg, _ | None, DenyClosed _ msg =>
    Some (p_index p, deny_closed rid (Some (p_index p)) msg)
  | None, Fqns _ _ => None
  end.

Lemma prefill_writes l results :
  prefill rid l results = set_all results (omap prefill_write l).
Proof.
  revert results. induction l as [|p l IH]; intros results; [done|]. simpl. unfold prefill_write.
  destruct (p_chain_deny p), (p_resource p); simpl; try apply IH;
    by (destruct (set_result _ _ _); [|done]; simpl; apply IH).
Qed.

(** The indices of what is written or asked, in order. *)
Lemma omap_indices {A} (f : Prepared -> option A) (ix : A -> nat) :
  (forall p a, f p = Some a -> ix a = p_index p) ->
  NoDup (ix <$> omap f ps) /\ Forall (fun a => ix a < length ps) (omap f ps).
Proof.
  intros Hf.
  assert (sublist (ix <$> omap f ps) (p_index <$> ps)) as Hsub.
  { clear ps_index. induction ps as [|p l IH]; simpl; [constructor|].
    destruct (f p) as [a|] eqn:Ha; simpl; [|by constructor].
    rewrite (Hf _ _ Ha). by constructor. }
  assert (p_index <$> ps = seq 0 (length ps)) as Hseq.
  { apply list_eq. intros i. rewrite list_lookup_fmap. destruct (ps !! i) as [p|] eqn:Hp; simpl.
    - rewrite lookup_seq_lt by by eapply lookup_lt_Some. by rewrite (ps_index _ _ Hp).
    - rewrite lookup_seq_ge; [done|]. by apply lookup_ge_None. }
  rewrite Hseq in Hsub. split.
  - eapply sublist_NoDup; [apply NoDup_seq|exact Hsub].
  - apply Forall_forall. intros a Ha.
    assert (ix a ∈ seq 0 (length ps)) as Hin.
    { eapply elem_of_submseteq; [|by apply sublist_submseteq]. by apply list_elem_of_fmap_2. }
    apply elem_of_seq in Hin. lia.
Qed.

(** The invariant of the slots while [rest] is still to be applied. *)
Record filling (answers rest : list (Group * list DecisionOut)) (r : slots) : Prop := {
  fill_length : length r = length ps;
  fill_explained : forall i v, r !! i = Some (Some v) -> explained answers i v;
  fill_rest : forall i, r !! i = Some None ->
    exists g parsed, (g, parsed) ∈ rest /\ i ∈ indices (g_items g);
}.

Lemma prefill_write_index p w : prefill_write p = Some w -> w.1 = p_index p.
Proof. unfold prefill_write. destruct (p_chain_deny p), (p_resource p); naive_solver. Qed.

Lemma prefill_Done :
  exists r, prefill rid ps (replicate (length ps) None) = Done r /\ length r = length ps /\
    forall i p, ps !! i = Some p -> r !! i = Some (snd <$> prefill_write p).
Proof.
  rewrite prefill_writes.
  destruct (omap_indices prefill_write fst prefill_write_index) as [Hnd Hlt].
  destruct (set_all_Done (replicate (length ps) None) (omap prefill_write ps))
    as (r & Hr & Hl & Hkeep & Hset).
  { by rewrite length_replicate. }
  rewrite length_replicate in Hl. exists r. split_and!; [done|done|]. intros i p Hp.
  destruct (prefill_write p) as [[j v]|] eqn:Hw; simpl.
  - pose proof (prefill_write_index _ _ Hw) as Hj. simpl in Hj. rewrite (ps_index _ _ Hp) in Hj.
    subst j. apply Hset; [done|]. apply list_elem_of_omap. exists p.
    split; [by eapply list_elem_of_lookup_2|done].
  - rewrite Hkeep.
    + apply lookup_replicate. split; [done|]. by eapply lookup_lt_Some.
    + intros ([j v] & -> & Hin)%list_elem_of_fmap. apply list_elem_of_omap in Hin as (q & Hq & Hv).
      pose proof (prefill_write_index _ _ Hv) as Hj. simpl in Hj, Hp.
      apply list_elem_of_lookup in Hq as [n Hn]. rewrite (ps_index _ _ Hn) in Hj. congruence.
Qed.

Lemma prefill_explained answers i p w :
  ps !! i = Some p -> prefill_write p = Some w -> explained answers i w.2.
Proof.
  intros Hp. unfold prefill_write. rewrite (ps_index _ _ Hp).
  destruct (p_chain_deny p) as [msg|] eqn:Hd; [|destruct (p_resource p) as [|id msg] eqn:Hres];
    intros [= <-]; [by eapply by_chain|by eapply by_resource].
Qed.

(** An evaluation that is not denied at once is an item of one of the groups. *)
Lemma asked_in_group (answers : list (Group * list DecisionOut)) i p :
  answers.*1 = groups_of ps -> ps !! i = Some p -> prefill_write p = None ->
  exists g parsed, (g, parsed) ∈ answers /\ i ∈ indices (g_items g).
Proof.
  intros Hans Hp Hw.
  assert (exists id fqns, item_of p = Some (i, id, fqns)) as (id & fqns & Hit).
  { unfold prefill_write in Hw. unfold item_of. rewrite (ps_index _ _ Hp).
    destruct (p_chain_deny p), (p_resource p); naive_solver. }
  assert ((i, id, fqns) ∈ mjoin (g_items <$> groups_of ps)) as Hin.
  { rewrite groups_items. apply list_elem_of_omap. exists p.
    split; [by eapply list_elem_of_lookup_2|done]. }
  apply list_elem_of_join in Hin as (l & Hin & Hl). apply list_elem_of_fmap in Hl as (g & -> & Hg).
  rewrite <- Hans in Hg. apply list_elem_of_fmap in Hg as ([g' parsed] & -> & Hg).
  exists g', parsed. split; [done|]. apply list_elem_of_fmap. by exists (i, id, fqns).
Qed.

Lemma prefill_filling (answers : list (Group * list DecisionOut)) :
  answers.*1 = groups_of ps ->
  exists r, prefill rid ps (replicate (length ps) None) = Done r /\ filling answers answers r.
Proof.
  intros Hans. destruct prefill_Done as (r & Hr & Hl & Hp). exists r. split; [done|].
  assert (forall i o, r !! i = Some o -> exists p, ps !! i = Some p /\ o = snd <$> prefill_write p)
    as Hslot.
  { intros i o Hi. assert (is_Some (ps !! i)) as [p Hpi].
    { apply lookup_lt_is_Some. rewrite <- Hl. by eapply lookup_lt_Some. }
    exists p. rewrite (Hp _ _ Hpi) in Hi. by injection Hi as <-. }
  constructor; [done| |].
  - intros i v (p & Hpi & Hv)%Hslot. symmetry in Hv. apply fmap_Some in Hv as (w & Hw & ->).
    by eapply prefill_explained.
  - intros i (p & Hpi & Hv)%Hslot. symmetry in Hv. apply fmap_None in Hv. by eapply asked_in_group.
Qed.

Lemma group_items_ok g :
  g ∈ groups_of ps ->
  NoDup (indices (g_items g)) /\ Forall (fun it : item => it.1.1 < length ps) (g_items g).
Proof.
  intros Hg. destruct (omap_indices item_of (fun it => it.1.1)) as [Hnd Hlt].
  { intros p [[j id] fqns]. unfold item_of. destruct (p_chain_deny p), (p_resource p); naive_solver. }
  rewrite <- groups_items in Hnd, Hlt. apply list_elem_of_split in Hg as (l1 & l2 & Hg).
  rewrite Hg in Hnd, Hlt. rewrite fmap_app, fmap_cons in Hnd, Hlt.
  rewrite join_app in Hnd, Hlt. simpl in Hnd, Hlt. rewrite !fmap_app in Hnd.
  apply NoDup_app in Hnd as (_ & _ & Hnd). apply NoDup_app in Hnd as (Hnd & _ & _).
  apply Forall_app in Hlt as [_ Hlt]. by apply Forall_app in Hlt as [Hlt _].
Qed.

(** The items of a group stand for evaluations at their indices. *)
Lemma group_item_origin g i id fqns :
  g ∈ groups_of ps -> (i, id, fqns) ∈ g_items g ->
  exists p, ps !! i = Some p /\ item_of p = Some (i, id, fqns) /\ agrees p g.
Proof.
  intros Hg Hit. destruct (groups_agree _ _ _ Hg Hit) as (p & Hp & Hi & Ha).
  apply list_elem_of_lookup in Hp as [n Hn]. exists p. split; [|done].
  assert (p_index p = i) as <-.
  { unfold item_of in Hi. destruct (p_chain_deny p), (p_resource p); naive_solver. }
  by rewrite (ps_index _ _ Hn).
Qed.

(** Every slot is filled and explained. *)
Definition answered_all (answers : list (Group * list DecisionOut)) (r : slots) : Prop :=
  length r = length ps /\
  forall i, i < length ps -> exists v, r !! i = Some (Some v) /\ explained answers i v.

Lemma fill_answered answers rest r msg :
  filling answers rest r -> (forall i, explained answers i (deny_closed rid (Some i) msg)) ->
  answered_all answers (fill_remaining_deny r rid msg).
Proof.
  intros [Hl He _] Hmsg. unfold fill_remaining_deny. split; [by rewrite length_imap|].
  intros i Hi. rewrite list_lookup_imap. rewrite <- Hl in Hi.
  apply lookup_lt_is_Some in Hi as [[v|] Hv]; rewrite Hv; simpl; eauto.
Qed.

Lemma filling_done answers r : filling answers [] r -> answered_all answers r.
Proof.
  intros [Hl He Hr]. split; [done|]. intros i Hi. rewrite <- Hl in Hi.
  apply lookup_lt_is_Some in Hi as [[v|] Hv]; [eauto|].
  apply Hr in Hv as (g & parsed & []%not_elem_of_nil & _).
Qed.

Lemma apply_decisions_filling answers g parsed rest r :
  answers.*1 = groups_of ps -> (g, parsed) ∈ answers -> filling answers ((g, parsed) :: rest) r ->
  exists r', apply_decisions r (g_items g) parsed rid = Done r' /\ filling answers rest r'.
Proof.
  intros Hans Hg [Hl He Hr].
  assert (g ∈ groups_of ps) as Hgs.
  { rewrite <- Hans. apply list_elem_of_fmap. by exists (g, parsed). }
  destruct (group_items_ok g Hgs) as [Hnd Hlt].
  destruct (apply_decisions_Done r (g_items g) parsed rid) as (r' & Hr' & Hl' & Hkeep & Hset);
    [by rewrite Hl|done|].
  exists r'. split; [done|].
  assert (forall i, i ∈ indices (g_items g) ->
    exists v, r' !! i = Some (Some v) /\ explained answers i v) as Hmine.
  { intros i ([[j id] fqns] & -> & Hit)%list_elem_of_fmap. simpl.
    destruct (group_item_origin _ _ _ _ Hgs Hit) as (p & Hp & Hi & Ha).
    apply list_elem_of_lookup in Hit as [n Hn]. eexists. split; [apply (Hset _ _ Hn)|].
    by eapply by_decision. }
  constructor; [by rewrite Hl'| |].
  - intros i v Hv. destruct (decide (i ∈ indices (g_items g))) as [Hi|Hi].
    + destruct (Hmine i Hi) as (w & Hw & ?). by rewrite Hw in Hv; simplify_eq.
    + apply He. by rewrite <- Hkeep.
  - intros i Hv. destruct (decide (i ∈ indices (g_items g))) as [Hi|Hi].
    + destruct (Hmine i Hi) as (w & Hw & ?). by rewrite Hw in Hv.
    + rewrite Hkeep in Hv by done. apply Hr in Hv as (g' & parsed' & Hin & Hi').
      exists g', parsed'. split; [|done]. apply elem_of_cons in Hin as [[= -> ->]|?]; done.
Qed.

Lemma apply_groups_answered answers rest r :
  answers.*1 = groups_of ps -> rest ⊆ answers -> filling answers rest r ->
  exists r', apply_groups semantic rid r rest = Done r' /\ answered_all answers r'.
Proof.
  intros Hans. revert r. induction rest as [|[g parsed] rest IH]; intros r Hsub Hr; simpl.
  { exists r. split; [done|]. by apply filling_done. }
  destruct (apply_decisions_filling answers g parsed rest r) as (r' & -> & Hr'); [done|set_solver|done|].
  simpl. destruct (bool_decide (semantic = "deny_on_first_deny")) eqn:Hd; simpl.
  - reflect_bools. destruct (group_has r' (g_items g) false).
    + eexists. split; [done|]. rewrite <- Hd. eapply fill_answered; [done|]. intros i.
      apply by_first. auto.
    + rewrite bool_decide_false by (by rewrite Hd). apply IH; [set_solver|done].
  - destruct (bool_decide (semantic = "permit_on_first_permit")) eqn:Hp; simpl;
      [|apply IH; [set_solver|done]].
    reflect_bools. destruct (group_has r' (g_items g) true).
    + eexists. split; [done|]. rewrite <- Hp. eapply fill_answered; [done|]. intros i.
      apply by_first. auto.
    + apply IH; [set_solver|done].
Qed.

Lemma unwrap_filled answers r msg :
  answered_all answers r ->
  exists vs, unwrap_all (fill_remaining_deny r rid msg) = Done vs /\ length vs = length ps /\
    forall i v, vs !! i = Some v -> explained answers i v.
Proof.
  intros [Hl Hr].
  assert (exists vs, r = Some <$> vs) as [vs ->].
  { clear -Hl Hr. revert Hr. rewrite <- Hl. intros Hr.
    assert (Forall is_Some r) as Hs.
    { apply Forall_lookup. intros i o Ho. destruct (Hr i) as (v & Hv & _); [by eapply lookup_lt_Some|].
      rewrite Ho in Hv. by injection Hv as ->. }
    clear Hr Hl. induction Hs as [|o r [v ->] Hs IH]; [by exists []|].
    destruct IH as [vs ->]. by exists (v :: vs). }
  rewrite length_fmap in Hl. exists vs. split; [|split; [done|]].
  - assert (fill_remaining_deny (Some <$> vs) rid msg = Some <$> vs) as ->.
    { unfold fill_remaining_deny. rewrite imap_fmap. rewrite <- imap_const. by apply imap_ext. }
    clear. induction vs as [|v vs IH]; [done|]. rewrite fmap_cons. cbn [unwrap_all]. by rewrite IH.
  - intros i v Hv. destruct (Hr i) as (w & Hw & He).
    + rewrite <- Hl. by eapply lookup_lt_Some.
    + rewrite list_lookup_fmap, Hv in Hw. by injection Hw as <-.
Qed.
End Batch.
