(* ===== verification/AuthzenFacadeProps.v ===== *)
(** * Theorems about the AuthZEN endpoints

    What a response of the facade guarantees, for any number of requests served at once: the
    enforcement point was authenticated by a key the issuer served recently, and a permit is
    the upstream decision for just that evaluation. *)
From S2P Require Import Prelude RustStr Json Services AuthzenSubject AuthzenTranslate.
From S2P Require Import AuthzenVerify AuthzenKeys AuthzenFacade AuthzenVerifyProps.
From S2P Require Import AuthzenKeysProps AuthzenBatchProps.
From stdpp Require Import list.

#[local] Open Scope string_scope.
#[local] Open Scope nat_scope.
#[local] Open Scope list_scope.
#[local] Open Scope rust_scope.

Section FacadeProps.
Context {cwt : CwtCrates} {crates : FacadeCrates}.
Context (st : FacadeState) (url : string).
Context (st_url : cose_keys_url (key_cache st) = Some url) (st_age : (0 < max_age (key_cache st))%Z).

(** ** Authentication *)

(** The claims are those of the service account [client], for the deployment's audience. *)
Definition service_account (claims : DecodedClaims) (client : string) : Prop :=
  sub claims = "client:" +:+ client /\ client <> "" /\
  (exists roles, arkavo_roles claims = Some roles /\ "service-account" ∈ roles) /\
  aud_contains (aud claims) client = true /\
  (forall want, facade_expected_aud st = Some want -> aud_contains (aud claims) want = true).

(** The deployment admits the client. *)
Definition allowlisted (client : string) : Prop :=
  forall allow, pep_client_ids st = Some allow -> client ∈ allow.

Definition service_client (claims : DecodedClaims) : Prop :=
  exists client, service_account claims client /\ allowlisted client.

Lemma pep_claims_cases claims :
  match pep_claims_ok st claims with
  | Ok _ => service_client claims
  | Err Unauthorized => forall client, ~ service_account claims client
  | Err Forbidden => exists client, service_account claims client /\ ~ allowlisted client
  | Err KeySetUnavailable => False
  end.
Proof.
  unfold pep_claims_ok, non_empty, is_empty.
  destruct (RustStr.strip_prefix "client:" (sub claims)) as [c|] eqn:Hs; cbn [mbind option_bind].
  2: { intros client (Hc & _). apply strip_prefix_Some in Hc. congruence. }
  assert (forall client, service_account claims client -> client = c) as Hc.
  { intros client (E & _). apply strip_prefix_Some in E. congruence. }
  apply strip_prefix_Some in Hs. case_bool_decide as Hne; cbn [ok_or rbind].
  { intros client H. destruct (Hc _ H). by destruct H as (_ & ? & _). }
  destruct (match arkavo_roles claims with Some r => existsb _ r | None => false end) eqn:Hr; cbn [negb].
  2: { intros client (_ & _ & (roles & E & Hin) & _). rewrite E in Hr.
       assert (existsb (fun x => bool_decide (x = "service-account")) roles = true); [|congruence].
       apply existsb_exists. exists "service-account". split; [by apply list_elem_of_In|done]. }
  destruct (aud_contains (aud claims) c) eqn:Ha; cbn [negb].
  2: { intros client H. rewrite (Hc _ H) in H. destruct H as (_ & _ & _ & ? & _). congruence. }
  destruct (match facade_expected_aud st with
            | Some want => aud_contains (aud claims) want | None => true end) eqn:Hw; cbn [negb].
  2: { intros client (_ & _ & _ & _ & H). destruct (facade_expected_aud st) as [want|]; [|done].
       rewrite (H want) in Hw; done. }
  assert (service_account claims c) as Hacc.
  { split_and!; try done.
    - destruct (arkavo_roles claims) as [roles|]; [|done]. exists roles. split; [done|].
      apply existsb_exists in Hr as (x & Hx & ->%bool_decide_eq_true). by apply list_elem_of_In.
    - intros want E. by rewrite E in Hw. }
  destruct (pep_client_ids st) as [allow|] eqn:Hp; [case_bool_decide as Hin|].
  - exists c. split; [done|]. intros allow' E. rewrite Hp in E. by injection E as <-.
  - exists c. split; [done|]. intros H. by apply Hin, H.
  - exists c. split; [done|]. intros allow' E. congruence.
Qed.

Definition pep_opts (kid : bytes) (t : Z) : VerifyOpts :=
  {| expected_iss := Some (issuer st); expected_aud := None; expected_kid := Some kid; now := t |}.

(** The wall clock was read as [t], not before the instant [t0]. *)
Definition read_time (t0 t : Z) (s : KeyState) : Prop :=
  exists τ, (τ, answered UtcNow t) ∈ history s /\ (t0 <= τ)%Z.

(** The enforcement point behind a request that began at instant [t0]: its token is signed by
    a key that the key service served, in a set younger than [max_age] at [t0], and was
    admissible at a time read from the clock since. *)
Definition authenticated (headers : HeaderMap) (t0 : Z) (claims : DecodedClaims)
    (token : string) (s : KeyState) : Prop :=
  bearer_token headers = Some token /\ service_client claims /\
  exists msg key payload ts ks t,
    message_of token msg /\ signed_by key msg /\ sign1_payload msg = Some payload /\
    parse_claims payload = Ok claims /\
    (ts, ks) ∈ stored s /\ from_url url s ks /\ ks !! protected_key_id msg = Some key /\
    (t0 - ts < max_age (key_cache st))%Z /\ read_time t0 t s /\
    admissible (pep_opts (protected_key_id msg) t) claims.

(** The reasons why an enforcement point is turned away, with the status and the message. *)
Inductive refused (headers : HeaderMap) (t0 : Z) (s : KeyState) : Z -> string -> Prop :=
| no_token :
    bearer_token headers = None -> refused headers t0 s 401 "invalid pep credential"
| bad_token token e :
    bearer_token headers = Some token -> header_kid token = Err e ->
    refused headers t0 s 401 "invalid pep credential"
| unknown_key token kid :
    bearer_token headers = Some token -> header_kid token = Ok kid ->
    recent_unknown (key_cache st) t0 kid s -> refused headers t0 s 401 "invalid pep credential"
| no_key_set token kid :
    bearer_token headers = Some token -> header_kid token = Ok kid ->
    key_set_failed url t0 s -> refused headers t0 s 500 "key set unavailable"
| not_verified token kid key t e :
    bearer_token headers = Some token -> header_kid token = Ok kid ->
    recent_key (key_cache st) t0 kid key s -> read_time t0 t s ->
    verify_header_token token key (pep_opts kid t) = Err e ->
    refused headers t0 s 401 "invalid pep credential"
| not_service token kid key t claims :
    bearer_token headers = Some token -> header_kid token = Ok kid ->
    recent_key (key_cache st) t0 kid key s -> read_time t0 t s ->
    verify_header_token token key (pep_opts kid t) = Ok claims ->
    (forall client, ~ service_account claims client) ->
    refused headers t0 s 401 "invalid pep credential"
| not_allowed token kid key t claims client :
    bearer_token headers = Some token -> header_kid token = Ok kid ->
    recent_key (key_cache st) t0 kid key s -> read_time t0 t s ->
    verify_header_token token key (pep_opts kid t) = Ok claims ->
    service_account claims client -> ~ allowlisted client ->
    refused headers t0 s 403 "pep client not allowlisted".

(** *** Later states and earlier beginnings *)

Lemma read_time_since t0 t1 t s s' :
  (t0 <= t1)%Z -> key_rely url s s' -> read_time t1 t s -> read_time t0 t s'.
Proof.
  intros Ht Hr (τ & Hin & H). exists τ. split; [by apply (rely_history _ _ _ Hr)|lia].
Qed.

Lemma recent_key_since t0 t1 kid key s s' :
  (t0 <= t1)%Z -> key_rely url s s' -> recent_key (key_cache st) t1 kid key s ->
  recent_key (key_cache st) t0 kid key s'.
Proof.
  intros Ht Hr (t & ks & Hin & Hk & H). exists t, ks. unfold recent in *.
  split_and!; [by apply (rely_stored _ _ _ Hr)|done|lia].
Qed.

Lemma authenticated_since headers t0 t1 claims token s s' :
  (t0 <= t1)%Z -> key_rely url s s' -> authenticated headers t1 claims token s ->
  authenticated headers t0 claims token s'.
Proof.
  intros Ht Hr (Hb & Hc & msg & key & payload & ts & ks & t & H1 & H2 & H3 & H4 & H5 & H6 & H7 & H8 & H9 & H10).
  split; [done|]. split; [done|]. exists msg, key, payload, ts, ks, t.
  split_and!; try done.
  - by apply (rely_stored _ _ _ Hr).
  - by eapply from_url_rely.
  - lia.
  - by eapply read_time_since.
Qed.

Lemma refused_since headers t0 t1 s s' z m :
  (t0 <= t1)%Z -> key_rely url s s' -> refused headers t1 s z m -> refused headers t0 s' z m.
Proof.
  intros Ht Hr H. destruct H.
  - by apply no_token.
  - by eapply bad_token.
  - eapply unknown_key; [done..|]. destruct H1 as (t & ks & Hin & Hk & H1). exists t, ks.
    unfold recent in *. split_and!; [by apply (rely_stored _ _ _ Hr)|done|lia].
  - eapply no_key_set; [done..|]. destruct H1 as (t & r & Hin & Hk & H1). exists t, r.
    split_and!; [by apply (rely_history _ _ _ Hr)|lia|done].
  - by eapply not_verified; eauto using recent_key_since, read_time_since.
  - by eapply not_service; eauto using recent_key_since, read_time_since.
  - by eapply not_allowed; eauto using recent_key_since, read_time_since.
Qed.

Lemma header_kid_message token kid msg :
  header_kid token = Ok kid -> message_of token msg -> protected_key_id msg = kid.
Proof.
  unfold header_kid. intros H (inner & Hb & Hm). rewrite Hb in H. cbn [ok_or rbind] in H.
  rewrite (proj2 (slice_strip_prefix_Some _ _ _) eq_refl) in H. cbn [ok_or rbind] in H.
  destruct (sign1_from_slice inner) as [s|]; [|done]. cbn [ok_or rbind] in H.
  case_bool_decide; [done|]. destruct Hm as [[= ->]|[? _]]; [|done]. by injection H.
Qed.

(** What the verification of a token with a recent key leads to. *)
Lemma verified_cases headers token kid key t0 t s :
  (SKEW_SECS <= t < 2 ^ 62)%Z -> keys_ok url s ->
  bearer_token headers = Some token -> header_kid token = Ok kid ->
  recent_key (key_cache st) t0 kid key s -> read_time t0 t s ->
  match (let? claims := map_err (fun _ => Unauthorized) (verify_header_token token key (pep_opts kid t)) in
         check pep_claims_ok st claims ;; Ok (claims, token)) with
  | Ok (claims, tok) => authenticated headers t0 claims tok s
  | Err e => exists z m, refused headers t0 s z m /\
      forall rid, pep_fail e rid = err_json z m rid
  end.
Proof.
  intros Ht Hok Hb Hkid Hkey Htime.
  destruct (verify_header_token token key (pep_opts kid t)) as [claims|e] eqn:Hv; cbn [map_err rbind].
  2: { exists 401%Z, "invalid pep credential". split; [by eapply not_verified|done]. }
  pose proof (pep_claims_cases claims) as Hc. destruct (pep_claims_ok st claims) as [u|[]]; cbn [rbind].
  - apply verify_header_token_accepted in Hv as (msg & payload & Hm & Hp & Hsig & Hpay & Hcl & Hadm & _);
      [|done].
    pose proof (header_kid_message _ _ _ Hkid Hm) as Hk. destruct Hkey as (ts & ks & Hin & Hks & Hage).
    split; [done|]. split; [done|]. exists msg, key, payload, ts, ks, t. rewrite Hk. split_and!; try done.
    by apply (stored_served _ _ Hok ts).
  - exists 401%Z, "invalid pep credential". split; [by eapply not_service|done].
  - destruct Hc as (client & ? & ?). exists 403%Z, "pep client not allowlisted".
    split; [by eapply not_allowed|done].
  - done.
Qed.

Lemma rg_authenticate headers s : keys_ok url s ->
  rg url (authenticate_pep st headers) s (fun r s' =>
    match r with
    | Ok (claims, token) => authenticated headers (clock s) claims token s'
    | Err e => exists z m, refused headers (clock s) s' z m /\ forall rid, pep_fail e rid = err_json z m rid
    end).
Proof.
  intros Hs. unfold authenticate_pep. destruct (bearer_token headers) as [token|] eqn:Hb.
  2: { apply rg_ret. intros. exists 401%Z, "invalid pep credential". split; [by apply no_token|done]. }
  destruct (header_kid token) as [kid|e] eqn:Hkid.
  2: { apply rg_ret. intros. exists 401%Z, "invalid pep credential". split; [by eapply bad_token|done]. }
  apply rg_bind; [|done]. eapply rg_mono; [|by apply (rg_resolve _ _ st_url st_age)].
  intros [key|e] s1 Hr1 Hok1 Hkey; cbn in Hkey.
  - apply rg_event; [done|]. intros s2 t s3 Hr2 Hok2 [Ht _] Hr3 Hok3 Hh. apply rg_ret.
    intros s4 Hr4 Hok4. assert (key_rely url s1 s4) as Hr by by repeat (etrans; [eassumption|]).
    apply (verified_cases headers token kid key (clock s) t s4); try done.
    + by eapply recent_key_since.
    + exists (clock s3). split; [by apply (rely_history _ _ _ Hr4)|].
      pose proof (rely_clock _ _ _ Hr1). pose proof (rely_clock _ _ _ Hr2).
      pose proof (rely_clock _ _ _ Hr3). lia.
  - assert (e = KeySet /\ key_set_failed url (clock s) s1 \/
      e = UnknownKid /\ recent_unknown (key_cache st) (clock s) kid s1) as [[-> H]|[-> H]].
    { destruct e; auto; by destruct Hkey. }
    + apply rg_ret. intros s2 Hr2 _. exists 500%Z, "key set unavailable". split; [|done].
      eapply refused_since; [done|done|]. by eapply no_key_set.
    + apply rg_ret. intros s2 Hr2 _. exists 401%Z, "invalid pep credential". split; [|done].
      eapply refused_since; [done|done|]. by eapply unknown_key.
Qed.

(** ** The decision point *)

Lemma rg_request_id headers s : rg url (request_id headers) s (fun _ _ => True).
Proof.
  unfold request_id. destruct (header headers "x-request-id"); [destruct (_ && _)|]; by simpl.
Qed.

(** A request posted upstream, not before [t0], that was not answered with a success. *)
Definition failed_post (t0 : Z) (req : PostRequest) (s : KeyState) : Prop :=
  exists τ r, (τ, answered (HttpPost req) r) ∈ history s /\ (t0 <= τ)%Z /\
    forall status v, r = Ok (status, Ok v) -> is_success status = false.

Lemma failed_post_rely t0 req s s' : key_rely url s s' -> failed_post t0 req s -> failed_post t0 req s'.
Proof.
  intros Hr (τ & r & Hin & H). exists τ, r. split; [|done]. by apply (rely_history _ _ _ Hr).
Qed.

Lemma rg_post_connect t0 method b bearer rid s :
  (t0 <= clock s)%Z ->
  rg url (post_connect st method b bearer rid) s (fun r s' =>
    match r with
    | Ok v => (connect_request st method b bearer rid, v) ∈ decided s'
    | Err z => z = 500%Z /\ failed_post t0 (connect_request st method b bearer rid) s'
    end).
Proof.
  intros Ht. unfold post_connect. apply rg_event; [done|].
  intros s1 r s2 Hr1 Hok1 He Hr2 Hok2 Hh.
  assert ((forall status v, r = Ok (status, Ok v) -> is_success status = false) ->
    forall s3, key_rely url s2 s3 -> 500%Z = 500%Z /\ failed_post t0 (connect_request st method b bearer rid) s3)
    as Hfail.
  { intros H s3 Hr3. split; [done|]. eapply failed_post_rely; [done|]. exists (clock s2), r.
    pose proof (rely_clock _ _ _ Hr1). pose proof (rely_clock _ _ _ Hr2). split_and!; [done|lia|done]. }
  destruct r as [[status [v|e]]|e].
  - destruct (is_success status) eqn:Hs; simpl; intros s3 Hr3 Hok3.
    + apply (rely_decided _ _ _ Hr3). destruct He as (_ & _ & _ & ->). simpl. rewrite Hs. left.
    + apply Hfail; [|done]. intros ?? [= <- _]. done.
  - destruct (is_success status); simpl; intros s3 Hr3 _; by apply Hfail.
  - simpl. intros s3 Hr3 _. by apply Hfail.
Qed.

(** The decisions for a group come from the upstream answer to the request for that group. *)
Definition consulted (bearer rid : string) (s : KeyState) (a : Group * list DecisionOut) : Prop :=
  (exists v, (connect_request st "GetDecisionMultiResource" (group_request a.1) bearer rid, v)
       ∈ decided s /\ a.2 = parse_resource_decisions v) \/
  (exists groups n v,
     (connect_request st "GetDecisionBulk" (bulk_request (group_request <$> groups)) bearer rid, v)
       ∈ decided s /\
     groups !! n = Some a.1 /\ parse_bulk_responses v !! n = Some a.2).

Lemma consulted_rely bearer rid s s' a :
  key_rely url s s' -> consulted bearer rid s a -> consulted bearer rid s' a.
Proof.
  intros Hr [(v & Hv & H)|(gs & n & v & Hv & H)]; [left|right].
  - exists v. split; [by apply (rely_decided _ _ _ Hr)|done].
  - exists gs, n, v. split; [by apply (rely_decided _ _ _ Hr)|done].
Qed.

(** The answers to a batch of prepared evaluations. *)
Definition batch_answered (ps : list Prepared) (semantic bearer rid : string) (s : KeyState)
    (evs : list Value) : Prop :=
  length evs = length ps /\
  exists answers, Forall (consulted bearer rid s) answers /\
    forall i v, evs !! i = Some v -> explained rid semantic ps answers i v.

(** The request for the decisions failed, or its answer was not one for each group. *)
Definition upstream_failed (ps : list Prepared) (t0 : Z) (bearer rid : string) (s : KeyState) : Prop :=
  let bulk := connect_request st "GetDecisionBulk" (bulk_request (group_request <$> groups_of ps)) bearer rid in
  (exists g, groups_of ps = [g] /\
     failed_post t0 (connect_request st "GetDecisionMultiResource" (group_request g) bearer rid) s) \/
  failed_post t0 bulk s \/
  (exists v, (bulk, v) ∈ decided s /\ length (parse_bulk_responses v) <> length (groups_of ps)).

Lemma upstream_failed_rely ps t0 bearer rid s s' :
  key_rely url s s' -> upstream_failed ps t0 bearer rid s -> upstream_failed ps t0 bearer rid s'.
Proof.
  intros Hr [(g & ? & H)|[H|(v & Hv & H)]].
  - left. exists g. split; [done|]. by eapply failed_post_rely.
  - right. left. by eapply failed_post_rely.
  - right. right. exists v. split; [|done]. by apply (rely_decided _ _ _ Hr).
Qed.

Section Batches.
Context (ps : list Prepared) (ps_index : forall i p, ps !! i = Some p -> p_index p = i).

Lemma rg_run_groups t0 bearer rid semantic results s :
  keys_ok url s -> (t0 <= clock s)%Z -> prefill rid ps (replicate (length ps) None) = Done results ->
  rg url (run_groups st bearer rid semantic (groups_of ps) results) s (fun r s' =>
    match r with
    | Err z => z = 500%Z /\ upstream_failed ps t0 bearer rid s'
    | Ok o => exists answers r', o = Done r' /\ Forall (consulted bearer rid s') answers /\
        answered_all rid semantic ps answers r'
    end).
Proof.
  intros Hs Ht Hpre.
  assert (forall answers : list (Group * list DecisionOut), answers.*1 = groups_of ps ->
    filling rid semantic ps answers answers results) as Hfill.
  { intros answers Ha. destruct (prefill_filling rid semantic ps ps_index answers Ha) as (r & Hr & ?).
    rewrite Hpre in Hr. by injection Hr as <-. }
  unfold run_groups. destruct (groups_of ps) as [|g [|g' gs]] eqn:Hg.
  - apply rg_ret. intros s' _ _. exists [], results. split_and!; [done|done|].
    by apply filling_done, (Hfill []).
  - apply rg_bind; [|done]. eapply rg_mono; [|by apply rg_post_connect].
    intros [v|z] s1 Hr1 Hok1 Hv.
    2: { apply rg_ret. intros s2 Hr2 _. destruct Hv as [-> Hv]. split; [done|]. left. exists g.
         split; [done|]. by eapply failed_post_rely. }
    apply rg_ret. intros s2 Hr2 _.
    set (answers := [(g, parse_resource_decisions v)]).
    destruct (apply_decisions_filling rid semantic ps ps_index answers g (parse_resource_decisions v)
      [] results) as (r & Hr & Hf); [by rewrite Hg|by left|by apply Hfill|].
    exists answers, r. split_and!; [done| |by apply filling_done].
    apply Forall_singleton. left. exists v. split; [|done]. by apply (rely_decided _ _ _ Hr2).
  - rewrite <- Hg in Hfill |- *. clear g g' gs Hg. apply rg_bind; [|done]. eapply rg_mono; [|by apply rg_post_connect].
    intros [v|z] s1 Hr1 Hok1 Hv.
    2: { apply rg_ret. intros s2 Hr2 _. destruct Hv as [-> Hv]. split; [done|]. right. left.
         by eapply failed_post_rely. }
    destruct (Nat.eqb_spec (length (parse_bulk_responses v)) (length (groups_of ps))) as [Hl|Hl]; simpl negb.
    2: { apply rg_ret. intros s2 Hr2 _. split; [done|]. right. right. exists v. split; [|done].
         by apply (rely_decided _ _ _ Hr2). }
    apply rg_ret. intros s2 Hr2 _. set (answers := zip (groups_of ps) (parse_bulk_responses v)).
    assert (answers.*1 = groups_of ps) as Ha by (apply fst_zip; lia).
    destruct (apply_groups_answered rid semantic ps ps_index answers answers results)
      as (r & Hr & Hall); [done|done|by apply Hfill|].
    exists answers, r. split_and!; [done| |done]. apply Forall_lookup. intros n [g parsed] Hn.
    apply lookup_zip_Some in Hn as [Hg Hp]. right. exists (groups_of ps), n, v.
    split_and!; [|done|done]. by apply (rely_decided _ _ _ Hr2).
Qed.

(** A response to a batch: the answers, or that upstream failed. *)
Definition batch_response (semantic bearer rid : string) (t0 : Z) (s : KeyState) (o : outcome Response) :
    Prop :=
  (o = Done (err_json 500 "upstream" rid) /\ upstream_failed ps t0 bearer rid s) \/
  exists evs, o = Done (with_rid 200 (VObject [("evaluations", VArray evs)]) rid) /\
    batch_answered ps semantic bearer rid s evs.

Lemma rg_evaluate_batch t0 rid token req s :
  keys_ok url s -> (t0 <= clock s)%Z ->
  rg url (evaluate_batch st rid token req ps) s (fun o s' =>
    batch_response (semantic_of req) (bearer_of st token) rid t0 s' o).
Proof.
  intros Hs Ht. unfold evaluate_batch.
  destruct (prefill_filling rid "" ps ps_index ((fun g => (g, [])) <$> groups_of ps))
    as (results & Hpre & _).
  { by rewrite <- list_fmap_compose, list_fmap_id. }
  rewrite Hpre. apply rg_bind; [|done]. eapply rg_mono; [|by apply (rg_run_groups t0)].
  intros [o|z] s1 Hr1 Hok1 Ho; apply rg_ret; intros s2 Hr2 _.
  - destruct Ho as (answers & r & -> & Hc & Hall). right.
    destruct (unwrap_filled _ _ _ _ _ "unspecified" Hall) as (evs & He & Hl & Hex).
    exists evs. cbn [obind]. rewrite He. split; [done|]. split; [done|]. exists answers.
    split; [|done]. eapply Forall_impl; [done|]. intros a. by apply consulted_rely.
  - left. destruct Ho as [-> Ho]. split; [done|]. by eapply upstream_failed_rely.
Qed.
End Batches.

Lemma prepare_batch_index req j entries ps :
  prepare_batch req j entries = Ok ps ->
  length ps = length entries /\
  forall i p, ps !! i = Some p -> p_index p = j + i.
Proof.
  revert j ps. induction entries as [|e entries IH]; intros j ps; simpl; [by intros [= <-]|].
  intros H. apply rbind_Ok in H as (p & Hp & H). apply rbind_Ok in H as (ps' & Hps & [= <-]).
  destruct (IH _ _ Hps) as [Hl Hi]. split; [simpl; by rewrite Hl|]. intros [|i] q Hq.
  - injection Hq as <-. unfold prepare_entry in Hp.
    do 3 (apply rbind_Ok in Hp as (? & _ & Hp)). unfold prepare_one in Hp.
    do 5 (apply rbind_Ok in Hp as (? & _ & Hp)). case_match. injection Hp as <-. simpl. lia.
  - apply Hi in Hq. lia.
Qed.

(** ** Responses *)

(** The answer to one evaluation. *)
Definition single_answered (p : Prepared) (bearer rid : string) (s : KeyState) (v : Value) : Prop :=
  match p_chain_deny p, p_resource p with
  | Some msg, _ | None, DenyClosed _ msg => v = deny_closed rid None msg
  | None, Fqns id fqns =>
    exists ans,
      (connect_request st "GetDecision" (get_decision_request (p_chain p) (p_action p) id fqns
         (p_fulfillable p)) bearer rid, ans) ∈ decided s /\
      let out := parse_get_decision_response ans in
      v = authzen_decision (permit out) rid None (required_obligations out) None
  end.

Definition error_response (resp : Response) (z : Z) (m : string) : Prop :=
  status resp = z /\ body resp = VObject [("error", VString m)].

(** The bearer of requests upstream: the configured one, or else the enforcement point's. *)
Definition decision_bearer (token : string) : string :=
  match upstream_bearer st with Some b => b | None => token end.

(** The response to one evaluation for an authenticated enforcement point. *)
Definition evaluation_response (req : Value) (token rid : string) (t0 : Z) (s : KeyState)
    (resp : Response) : Prop :=
  match prepare_request req with
  | Err e => error_response resp 400 (translate_message e)
  | Ok p =>
    (status resp = 200%Z /\ single_answered p (decision_bearer token) rid s (body resp)) \/
    (error_response resp 500 "upstream" /\ exists id fqns,
       p_chain_deny p = None /\ p_resource p = Fqns id fqns /\
       failed_post t0 (connect_request st "GetDecision" (get_decision_request (p_chain p) (p_action p) id
         fqns (p_fulfillable p)) (decision_bearer token) rid) s)
  end.

(** The response to a batch. *)
Definition evaluations_response (req : Value) (token rid : string) (t0 : Z) (s : KeyState)
    (resp : Response) : Prop :=
  match batch_entries req with
  | Err m => error_response resp 400 m
  | Ok entries =>
    match prepare_batch req 0 entries with
    | Err e => error_response resp 400 (translate_message e)
    | Ok ps =>
      (status resp = 200%Z /\ exists evs, body resp = VObject [("evaluations", VArray evs)] /\
         batch_answered ps (semantic_of req) (decision_bearer token) rid s evs) \/
      (error_response resp 500 "upstream" /\ upstream_failed ps t0 (decision_bearer token) rid s)
    end
  end.

(** What a response to a request that began at [t0] means. *)
Definition response_ok (r : Endpoint * HeaderMap * option Value) (t0 : Z) (s : KeyState)
    (resp : Response) : Prop :=
  match r with
  | (WellKnown, headers, _) =>
    status resp = 200%Z /\ body resp = discovery_document (public_base st headers)
  | (_, _, None) => error_response resp 400 "malformed json"
  | (e, headers, Some req) =>
    (exists z m, refused headers t0 s z m /\ error_response resp z m) \/
    (exists claims token rid, authenticated headers t0 claims token s /\
       match e with
       | Evaluation => evaluation_response req token rid t0 s resp
       | _ => evaluations_response req token rid t0 s resp
       end)
  end.

Definition served_ok (r : Endpoint * HeaderMap * option Value) (t0 : Z) (o : outcome Response)
    (s : KeyState) : Prop :=
  exists resp, o = Done resp /\ response_ok r t0 s resp.

Lemma rg_evaluation headers b s :
  keys_ok url s -> rg url (evaluation st headers b) s (served_ok (Evaluation, headers, b) (clock s)).
Proof.
  intros Hs. unfold evaluation. apply rg_bind; [|done].
  eapply rg_mono; [|apply rg_request_id]. intros rid s1 Hr1 Hok1 _.
  pose proof (rely_clock _ _ _ Hr1) as Ht1.
  destruct b as [req|]; [|apply rg_ret; intros; by eexists]. apply rg_bind; [|done].
  eapply rg_mono; [|by apply rg_authenticate]. intros [[claims token]|e] s2 Hr2 Hok2 Ha; cbn beta iota in Ha.
  2: { destruct Ha as (z & m & Hrf & Hm). apply rg_ret. intros s3 Hr3 _. eexists. split; [done|]. left.
       exists z, m. rewrite Hm. split; [by eapply refused_since|done]. }
  assert (forall s' resp, key_rely url s2 s' -> evaluation_response req token rid (clock s) s' resp ->
    served_ok (Evaluation, headers, Some req) (clock s) (Done resp) s') as Hdone.
  { intros s' resp Hr H. exists resp. split; [done|]. right. exists claims, token, rid.
    split; [by eapply authenticated_since|done]. }
  unfold evaluation_response, single_answered in Hdone.
  destruct (prepare_request req) as [p|e]; [|by apply rg_ret; intros s' Hr _; apply Hdone].
  destruct (p_chain_deny p) as [msg|].
  { apply rg_ret. intros s' Hr _. apply Hdone; [done|]. by left. }
  destruct (p_resource p) as [id fqns|id msg];
    [|by apply rg_ret; intros s' Hr _; apply Hdone; [|left]].
  apply rg_bind; [|done]. pose proof (rely_clock _ _ _ Hr2).
  eapply rg_mono; [|apply (rg_post_connect (clock s)); lia].
  intros [v|z] s3 Hr3 Hok3 Hv; apply rg_ret; intros s4 Hr4 _; (apply Hdone; [by trans s3|]).
  - left. split; [done|]. exists v. split; [|done]. by apply (rely_decided _ _ _ Hr4).
  - destruct Hv as [-> Hv]. right. split; [done|]. exists id, fqns. split_and!; [done..|].
    by eapply failed_post_rely.
Qed.

Lemma rg_evaluations headers b s :
  keys_ok url s ->
  rg url (evaluations st headers b) s (served_ok (Evaluations, headers, b) (clock s)).
Proof.
  intros Hs. unfold evaluations. apply rg_bind; [|done].
  eapply rg_mono; [|apply rg_request_id]. intros rid s1 Hr1 Hok1 _.
  pose proof (rely_clock _ _ _ Hr1) as Ht1.
  destruct b as [req|]; [|apply rg_ret; intros; by eexists]. apply rg_bind; [|done].
  eapply rg_mono; [|by apply rg_authenticate]. intros [[claims token]|e] s2 Hr2 Hok2 Ha; cbn beta iota in Ha.
  2: { destruct Ha as (z & m & Hrf & Hm). apply rg_ret. intros s3 Hr3 _. eexists. split; [done|]. left.
       exists z, m. rewrite Hm. split; [by eapply refused_since|done]. }
  assert (forall s' resp, key_rely url s2 s' -> evaluations_response req token rid (clock s) s' resp ->
    served_ok (Evaluations, headers, Some req) (clock s) (Done resp) s') as Hdone.
  { intros s' resp Hr H. exists resp. split; [done|]. right. exists claims, token, rid.
    split; [by eapply authenticated_since|done]. }
  unfold evaluations_response in Hdone. pose proof (rely_clock _ _ _ Hr2).
  destruct (batch_entries req) as [entries|e]; [|by apply rg_ret; intros s' Hr _; apply Hdone].
  destruct (prepare_batch req 0 entries) as [ps|e] eqn:Hps; [|by apply rg_ret; intros s' Hr _; apply Hdone].
  destruct (prepare_batch_index _ _ _ _ Hps) as [Hl Hi].
  eapply rg_mono; [|apply (rg_evaluate_batch ps Hi (clock s)); [done|lia]].
  intros o s3 Hr3 Hok3 [[-> Hf]|(evs & -> & Hevs)]; (apply Hdone; [done|]).
  - right. done.
  - left. split; [done|]. by exists evs.
Qed.

Lemma rg_serve r s : keys_ok url s -> rg url (serve st r) s (served_ok r (clock s)).
Proof.
  intros Hs. destruct r as [[[] headers] b]; simpl.
  - by apply rg_evaluation.
  - by apply rg_evaluations.
  - intros s' _ _. by eexists.
Qed.

(** ** Any number of requests *)

(** The state of a server that has just started. *)
Definition fresh_state (t : Z) : KeyState :=
  {| clock := t; cache := empty_keys; served := []; stored := []; decided := [];
     history := [] |}.

Lemma fresh_state_ok t : keys_ok url (fresh_state t).
Proof. constructor; [done|]. by intros ?? ?%not_elem_of_nil. Qed.

(** A request at position [i] that has not begun at [s1] and has ended at [s2]. *)
Lemma serve_pool t requests s1 ps1 s2 ps2 i r o :
  key_steps (fresh_state t, serve st <$> requests) (s1, ps1) -> ps1 !! i = Some (serve st r) ->
  key_steps (s1, ps1) (s2, ps2) -> ps2 !! i = Some (Ret o) -> served_ok r (clock s1) o s2.
Proof.
  intros H1 Hi H2 Ho.
  destruct (rg_steps url (fun _ _ _ => True) _ _ _ _ H1 (fresh_state_ok t)) as [Hok1 Hps1].
  { intros j p Hj. rewrite list_lookup_fmap in Hj. apply fmap_Some in Hj as (q & _ & ->).
    eapply rg_mono; [|apply rg_serve, fresh_state_ok]. done. }
  destruct (rg_steps url (fun j o s => i = j -> served_ok r (clock s1) o s) _ _ _ _ H2 Hok1)
    as [Hok2 Hps2].
  { intros j p Hj. destruct (decide (i = j)) as [<-|Hne].
    - rewrite Hi in Hj. injection Hj as <-. eapply rg_mono; [|by apply rg_serve]. auto.
    - eapply rg_mono; [|by eapply Hps1]. done. }
  by apply (Hps2 _ _ Ho s2).
Qed.

(** C12: whatever requests the facade serves at once and however they interleave, a handler
    never panics, and every response to a request that began at [clock s1] has its reason.
    Without a JSON body it is a 400.  An enforcement point is turned away for one of the
    reasons of [refused]: no token, a token whose key the key service did not serve or that
    did not verify at the time of day, claims that are not of an admitted service client, or a
    key set that could not be fetched.  Otherwise its token was signed by a key that the key
    service served in a set less than [max_age] old when the request began, and was admissible
    at a time that was read from the clock since then; then the response is a 400 for a
    request that does not translate, a 500 if the request upstream failed, or a 200 with an
    answer to every evaluation, each with its reason: the chain or the resource was refused,
    the upstream answer to the request for the group of this evaluation (or the lack of one),
    or the short-circuit that the request asked for. *)
Theorem facade_responses t requests s1 ps1 s2 ps2 i r o :
  key_steps (fresh_state t, serve st <$> requests) (s1, ps1) -> ps1 !! i = Some (serve st r) ->
  key_steps (s1, ps1) (s2, ps2) -> ps2 !! i = Some (Ret o) -> served_ok r (clock s1) o s2.
Proof. apply serve_pool. Qed.

(** A permit among explained answers. *)
Lemma explained_permit rid semantic ps answers i v :
  explained rid semantic ps answers i v -> decision_of v = Some true ->
  exists p id fqns g parsed d, ps !! i = Some p /\ item_of p = Some (i, id, fqns) /\ agrees p g /\
    (g, parsed) ∈ answers /\ (i, id, fqns) ∈ g_items g /\
    d ∈ parsed /\ out_ephemeral_id d = id /\ permit d = true.
Proof.
  intros H Hv. destruct H as [p msg|p id msg|p id fqns g parsed n Hp Hi Ha Hg Hn|]; try done.
  destruct (decision_for parsed (g_items g) n id) as [d|] eqn:Hd; [|done].
  injection Hv as Hperm. apply list_elem_of_lookup_2, list_elem_of_filter in Hd as [Hid Hd].
  exists p, id, fqns, g, parsed, d. split_and!; try done. by eapply list_elem_of_lookup_2.
Qed.

Lemma refused_status headers t0 s z m : refused headers t0 s z m -> z <> 200%Z.
Proof. by intros []. Qed.

(** A success of the two endpoints. *)
Lemma evaluation_success headers req t0 s resp :
  response_ok (Evaluation, headers, Some req) t0 s resp -> status resp = 200%Z ->
  exists claims token rid p, authenticated headers t0 claims token s /\ prepare_request req = Ok p /\
    single_answered p (decision_bearer token) rid s (body resp).
Proof.
  intros [(z & m & Hr%refused_status & Hz & _)|(claims & token & rid & Ha & H)] Hst; [congruence|].
  unfold evaluation_response in H. destruct (prepare_request req) as [p|e]; [|destruct H; congruence].
  destruct H as [[_ H]|[[H _] _]]; [|congruence]. by exists claims, token, rid, p.
Qed.

Lemma evaluations_success headers req t0 s resp :
  response_ok (Evaluations, headers, Some req) t0 s resp -> status resp = 200%Z ->
  exists claims token rid entries ps evs, authenticated headers t0 claims token s /\
    batch_entries req = Ok entries /\ prepare_batch req 0 entries = Ok ps /\
    body resp = VObject [("evaluations", VArray evs)] /\
    batch_answered ps (semantic_of req) (decision_bearer token) rid s evs.
Proof.
  intros [(z & m & Hr%refused_status & Hz & _)|(claims & token & rid & Ha & H)] Hst; [congruence|].
  unfold evaluations_response in H. destruct (batch_entries req) as [entries|e]; [|destruct H; congruence].
  destruct (prepare_batch req 0 entries) as [ps|e] eqn:Hps; [|destruct H; congruence].
  destruct H as [(_ & evs & Hb & H)|[[H _] _]]; [|congruence].
  by exists claims, token, rid, entries, ps, evs.
Qed.

(** The permit of evaluation [n] of a batch. *)
Definition batch_permit (headers : HeaderMap) (req : Value) (t0 : Z) (n : nat) (s : KeyState) : Prop :=
  exists claims token rid entries ps p id fqns g parsed d,
    authenticated headers t0 claims token s /\
    batch_entries req = Ok entries /\ prepare_batch req 0 entries = Ok ps /\
    ps !! n = Some p /\ p_chain_deny p = None /\ p_resource p = Fqns id fqns /\
    agrees p g /\ (n, id, fqns) ∈ g_items g /\
    consulted (decision_bearer token) rid s (g, parsed) /\
    d ∈ parsed /\ out_ephemeral_id d = id /\ permit d = true.

(** The permit of a single evaluation. *)
Definition single_permit (headers : HeaderMap) (req : Value) (t0 : Z) (s : KeyState) : Prop :=
  exists claims token rid p id fqns ans,
    authenticated headers t0 claims token s /\ prepare_request req = Ok p /\
    p_chain_deny p = None /\ p_resource p = Fqns id fqns /\
    (connect_request st "GetDecision" (get_decision_request (p_chain p) (p_action p) id fqns
       (p_fulfillable p)) (decision_bearer token) rid, ans) ∈ decided s /\
    permit (parse_get_decision_response ans) = true.

(** C13: a permit comes from upstream, at both endpoints.  If a single evaluation is permitted,
    the request for just its entity chain, action, resource and attribute values was posted
    and answered with a permit.  If evaluation [n] of a batch is permitted, it was accepted
    with attribute values [fqns] for its resource [id], and a request for a group with its
    action, its obligations and an equal entity chain, naming this resource with these values,
    was posted and answered with a permit for [id].  In both cases the enforcement point was
    authenticated, and the request upstream carried the configured bearer if there is one, and
    else the enforcement point's token. *)
Theorem permits_come_from_upstream t requests s1 ps1 s2 ps2 i e headers req resp :
  key_steps (fresh_state t, serve st <$> requests) (s1, ps1) ->
  ps1 !! i = Some (serve st (e, headers, Some req)) ->
  key_steps (s1, ps1) (s2, ps2) -> ps2 !! i = Some (Ret (Done resp)) -> status resp = 200%Z ->
  (e = Evaluation -> decision_of (body resp) = Some true -> single_permit headers req (clock s1) s2) /\
  (forall evs n v, e = Evaluations -> body resp = VObject [("evaluations", VArray evs)] ->
     evs !! n = Some v -> decision_of v = Some true -> batch_permit headers req (clock s1) n s2).
Proof.
  intros H1 Hi H2 Ho Hst.
  destruct (serve_pool _ _ _ _ _ _ _ _ _ H1 Hi H2 Ho) as (resp' & [= <-] & Hresp). split.
  - intros -> Hv. apply evaluation_success in Hresp as (claims & token & rid & p & Ha & Hp & Hs); [|done].
    unfold single_answered in Hs. destruct (p_chain_deny p) eqn:Hd; [by rewrite Hs in Hv|].
    destruct (p_resource p) as [id fqns|id msg] eqn:Hr; [|by rewrite Hs in Hv].
    destruct Hs as (ans & Hin & Hb). rewrite Hb in Hv. injection Hv as Hperm.
    by exists claims, token, rid, p, id, fqns, ans.
  - intros evs n v -> Hb Hn Hv.
    apply evaluations_success in Hresp
      as (claims & token & rid & entries & ps & evs' & Ha & He & Hps & Hb' & Hl & answers & Hc & Hx); [|done].
    rewrite Hb in Hb'. injection Hb' as <-.
    destruct (explained_permit _ _ _ _ _ _ (Hx _ _ Hn) Hv)
      as (p & id & fqns & g & parsed & d & Hp & Hit & Hag & Hin & Hgi & Hd & Hid & Hperm).
    exists claims, token, rid, entries, ps, p, id, fqns, g, parsed, d.
    assert (p_chain_deny p = None /\ p_resource p = Fqns id fqns) as [? ?].
    { unfold item_of in Hit. destruct (p_chain_deny p), (p_resource p); naive_solver. }
    rewrite Forall_forall in Hc. split_and!; try done. by apply Hc.
Qed.

(** ** Tagged messages *)

(** An enforcement point whose token wraps a tagged COSE_Sign1 is never authenticated:
    [parse_sign1] accepts that form, but the key id is read before by [header_kid], which
    accepts only the bare one, so the request ends as unauthorized without an event. *)
Theorem tagged_message_unauthorized headers token inner :
  bearer_token headers = Some token -> b64url_decode (trim token) = Some (CWT_TAG_PREFIX ++ inner) ->
  sign1_from_slice inner = None -> authenticate_pep st headers = Ret (Err Unauthorized).
Proof.
  intros Hb Hd Hs. unfold authenticate_pep, header_kid. rewrite Hb, Hd. cbn [ok_or rbind].
  rewrite (proj2 (slice_strip_prefix_Some _ _ _) eq_refl). cbn [ok_or rbind]. by rewrite Hs.
Qed.
End FacadeProps.
