(* ===== verification/AuthzenSample.v ===== *)
(** * The AuthZEN facade on concrete inputs

    Small instances of the crates and of a server, and the theorems on AuthZEN applied to
    them: one enforcement point, one key set and one batch, run event by event. *)
From S2P Require Import Prelude RustStr Json Services AuthzenSubject AuthzenTranslate.
From S2P Require Import AuthzenVerify AuthzenKeys AuthzenFacade AuthzenSubjectProps.
From S2P Require Import AuthzenVerifyProps AuthzenKeysProps AuthzenBatchProps AuthzenFacadeProps.
From stdpp Require Import list.

#[local] Open Scope string_scope.
#[local] Open Scope nat_scope.
#[local] Open Scope list_scope.
#[local] Open Scope rust_scope.

(** ** The crates *)

(** The claims of a message that starts with the byte: [H] has a not-before date of 2^63. *)
Definition sample_entries (b : bytes) : list (CborValue * CborValue) :=
  [(CInteger 1, CText "https://id"); (CInteger 2, CText "client:edge"); (CInteger 3, CText "edge");
   (CInteger 4, CInteger 2000); (CInteger 6, CInteger 900); (CInteger 7, CBytes [x01]);
   (CText "arkavo_roles", CArray [CText "service-account"])] ++
  (if bool_decide (b !! 0 = Some "H"%byte) then [(CInteger 5, CInteger (2 ^ 63))] else []).

Definition sample_key : CoseKey :=
  {| kty := EC2; key_id := [x6b];
     params := [(LabelInt (-1), CInteger 1); (LabelInt (-2), CBytes (replicate 32 x01));
                (LabelInt (-3), CBytes (replicate 32 x02))] |}.

(** Text is its own base64; a message is its payload, tagged if it starts with [G]. *)
#[export] Instance sample_cwt : CwtCrates := {|
  b64url_encode := of_bytes;
  b64url_decode s := Some (as_bytes s);
  cbor_from_reader b :=
    if bool_decide (b = ["K"%byte]) then Ok (CArray [CNull]) else Ok (CMap (sample_entries b));
  CoseSign1 := bytes;
  CriticalLabel := unit;
  sign1_from_slice b := if bool_decide (b !! 0 = Some "G"%byte) then None else Some b;
  sign1_from_tagged_slice b := Some b;
  protected_alg _ := Some ES256;
  protected_crit _ := [];
  protected_key_id _ := [x6b];
  sign1_payload b := Some b;
  sign1_signature _ := [];
  tbs_data b _ := b;
  cose_key_from_cbor _ := Ok sample_key;
  VerifyingKey := unit;
  P256Signature := unit;
  signature_from_slice _ := Some tt;
  p256_verify _ _ _ := true;
  verifying_key_from_sec1 _ := Ok tt;
|}.

#[export] Instance sample_facade_crates : FacadeCrates := {|
  url_scheme _ := Ok "http";
  client_build := Ok tt;
  header_to_str b := Some (of_bytes b);
  header_value_ok _ := true;
|}.

(** ** A server and a request *)

Definition sample_facade : FacadeState :=
  {| platform_url := "http://pdp"; issuer := "https://id"; pep_client_ids := None;
     public_url := None; key_cache := new_cache "http://keys"; upstream_bearer := None;
     facade_expected_aud := None |}.

Definition sample_token (c : byte) : string := of_bytes (CWT_TAG_PREFIX ++ [c]).

Definition sample_headers (c : byte) : HeaderMap := fun name =>
  if bool_decide (name = "authorization") then Some (as_bytes ("Bearer " +:+ sample_token c))
  else if bool_decide (name = "x-request-id") then Some (as_bytes "r1") else None.

Definition sample_subject : Value :=
  VObject [("id", VString "arkavo:ann");
           ("properties", VObject [("iss", VString "https://id");
              ("arkavo_patreon", VObject [("role", VString "creator");
                 ("campaign_id", VString "c7"); ("access_token", VString "secret")])])].

Definition sample_tool (id : string) : Value :=
  VObject [("type", VString "tool"); ("id", VString id)].

(** Two tools, the same action. *)
Definition sample_batch : Value :=
  VObject [("subject", sample_subject); ("action", VObject [("name", VString "tools/call")]);
           ("evaluations", VArray [VObject [("resource", sample_tool "Device.Tap")];
                                   VObject [("resource", sample_tool "Shell")]])].

Definition sample_request : Endpoint * HeaderMap * option Value :=
  (Evaluations, sample_headers "B", Some sample_batch).

(** The decision point permits the first of them. *)
Definition sample_decisions : Value :=
  VObject [("resourceDecisions",
    VArray [VObject [("ephemeralResourceId", VString "Device.Tap");
                     ("decision", VString "DECISION_PERMIT")]])].

(** ** A run *)

Definition sample_effect {X} (e : authzen_event X) (s : KeyState) : X * KeyState :=
  match e with
  | UtcNow => (1000%Z, s)
  | InstantNow => (clock s, s)
  | NewUuid => ("uuid", s)
  | ReadKeys => (cache s, s)
  | StoreKeys ks =>
    (tt, {| clock := clock s; cache := {| keys := ks; last_fetch := Some (clock s) |};
            served := served s; stored := (clock s, ks) :: stored s; decided := decided s;
            history := history s |})
  | FetchLock => (tt, s)
  | FetchUnlock => (tt, s)
  | HttpGet url =>
    (Ok (200%Z, Ok ["K"%byte]),
     {| clock := clock s; cache := cache s; served := (url, ["K"%byte]) :: served s;
        stored := stored s; decided := decided s; history := history s |})
  | HttpPost req =>
    (Ok (200%Z, Ok sample_decisions),
     {| clock := clock s; cache := cache s; served := served s; stored := stored s;
        decided := (req, sample_decisions) :: decided s; history := history s |})
  end.

(** The effect, and the event in the history. *)
Definition sample_answer {X} (e : authzen_event X) (s : KeyState) : X * KeyState :=
  let '(x, s') := sample_effect e s in
  (x, {| clock := clock s'; cache := cache s'; served := served s'; stored := stored s';
         decided := decided s'; history := (clock s', answered e x) :: history s |}).

Lemma sample_answer_step {X} (e : authzen_event X) s :
  key_step e s (sample_answer e s).1 (sample_answer e s).2.
Proof. split; [|split]; destruct e; simpl; try done; unfold SKEW_SECS; lia. Qed.

Fixpoint play {A} (m : aio A) (s : KeyState) : A * KeyState :=
  match m with
  | Ret a => (a, s)
  | Vis e k => play (k (sample_answer e s).1) (sample_answer e s).2
  end.

Lemma play_steps {A} (m : aio A) s :
  key_steps (s, [m]) ((play m s).2, [Ret (play m s).1]).
Proof.
  revert s. induction m as [a|X e k IH]; intros s; simpl; [constructor|].
  eapply (key_steps_step _ _ 0); [done|apply sample_answer_step|]. simpl. apply IH.
Qed.

Definition sample_end : outcome Response * KeyState := play (serve sample_facade sample_request) (fresh_state 5).

(** ** The theorems on it *)

Lemma facade_responses_witness :
  served_ok sample_facade "http://keys" sample_request 5 sample_end.1 sample_end.2 /\
  is_Some (match sample_end.1 with
           | Done resp => if (status resp =? 200)%Z then Some resp else None
           | Panic => None
           end).
Proof.
  split; [|by vm_compute; eexists].
  apply (facade_responses sample_facade "http://keys" eq_refl eq_refl 5 [sample_request]
    (fresh_state 5) [serve sample_facade sample_request] sample_end.2 [Ret sample_end.1] 0).
  - apply key_steps_refl.
  - reflexivity.
  - apply play_steps.
  - reflexivity.
Defined.

Definition sample_evaluations : list Value :=
  [authzen_decision true "r1" (Some 0) [] None;
   deny_closed "r1" (Some 1) "no upstream decision for resource"].

Definition sample_response : Response :=
  with_rid 200 (VObject [("evaluations", VArray sample_evaluations)]) "r1".

Lemma sample_end_response : sample_end.1 = Done sample_response.
Proof. vm_compute. reflexivity. Qed.

Lemma permits_come_from_upstream_witness :
  batch_permit sample_facade "http://keys" (sample_headers "B") sample_batch 5 0 sample_end.2.
Proof.
  apply (permits_come_from_upstream sample_facade "http://keys" eq_refl eq_refl 5 [sample_request]
    (fresh_state 5) [serve sample_facade sample_request] sample_end.2 [Ret sample_end.1] 0
    Evaluations (sample_headers "B") sample_batch sample_response) with
    (evs := sample_evaluations) (v := authzen_decision true "r1" (Some 0) [] None).
  - apply key_steps_refl.
  - reflexivity.
  - apply play_steps.
  - rewrite sample_end_response. reflexivity.
  - reflexivity.
  - reflexivity.
  - reflexivity.
  - reflexivity.
  - reflexivity.
Defined.

(** The first tool's value is an alias of its slug. *)
Lemma resource_values_origin_witness :
  exists rtype, get "type" (sample_tool "Device.Tap") = Some (VString rtype) /\
    get "id" (sample_tool "Device.Tap") = Some (VString "Device.Tap") /\ "Device.Tap" <> "" /\
    resource_values rtype (sample_tool "Device.Tap") "Device.Tap"
      ["https://arkavo.net/attr/mcp-tool/value/device_management_tap"].
Proof. apply resource_values_origin. vm_compute. reflexivity. Defined.

(** The access token of the subject is dropped, the campaign of a creator is kept. *)
Definition sample_pe : Value :=
  VObject [("sub", VString "arkavo:ann"); ("iss", VString "https://id");
           ("arkavo_patreon", VObject [("role", VString "creator"); ("campaign_id", VString "c7")])].

Lemma forwarded_claims_witness :
  exists pe v, pe_claims sample_subject = Ok pe /\ get "arkavo_patreon" pe = Some v /\
  ("arkavo_patreon" = "sub" /\ get "id" sample_subject = Some v \/
  exists props, get "properties" sample_subject = Some (VObject props) /\
    (("arkavo_patreon" = "iss" \/ "arkavo_patreon" = "email") /\
       map_get "arkavo_patreon" props = Some v \/
     exists patreon, map_get "arkavo_patreon" props = Some patreon /\
       ("arkavo_patreon" = "patreon_user_id" /\ get "arkavo_patreon" patreon = Some v \/
        "arkavo_patreon" = "arkavo_patreon" /\ forall f,
          get f v = if decide (f ∈ PATREON_ALLOWED \/
            f = "campaign_id" /\ get "role" patreon ≫= as_str = Some "creator")
          then get f patreon else None))).
Proof.
  eexists sample_pe, _. split; [vm_compute; reflexivity|]. split; [vm_compute; reflexivity|].
  apply (forwarded_claims sample_subject sample_pe); vm_compute; reflexivity.
Defined.

(** Two evaluations of one resource id and two decisions for it. *)
Lemma decisions_by_occurrence_witness :
  let items := [(1, "a", []); (0, "a", [])] : list item in
  let parsed := [{| out_ephemeral_id := "a"; permit := true; required_obligations := [] |};
                 {| out_ephemeral_id := "a"; permit := false; required_obligations := [] |}] in
  exists r, apply_decisions [None; None] items parsed "r1" = Done r /\ length r = 2 /\
    (forall i, i ∉ indices items -> r !! i = [None; None] !! i) /\
    forall n it, items !! n = Some it ->
      r !! it.1.1 = Some (Some (answer "r1" it.1.1 (decision_for parsed items n it.1.2))).
Proof.
  intros items parsed. apply (decisions_by_occurrence [None; None] items parsed "r1").
  - repeat constructor.
  - repeat (constructor; [set_solver|]). constructor.
Defined.

Definition sample_vk : VerifyingKey := tt.

(** A token that is accepted, issued for the sample issuer. *)
Definition sample_opts : VerifyOpts :=
  {| expected_iss := Some "https://id"; expected_aud := Some "edge"; expected_kid := Some [x6b];
     now := 1000 |}.

Definition sample_claims : DecodedClaims :=
  {| iss := "https://id"; sub := "client:edge"; aud := One "edge"; exp := 2000; iat := 900;
     nbf := None; cti := [x01]; email := None; email_verified := None; idp := None;
     arkavo_account_id := None; arkavo_roles := Some ["service-account"];
     arkavo_entitlements := None; client_id := None; arkavo_patreon := None |}.

Lemma accepted_token_witness :
  exists s payload, message_of (sample_token "B") s /\ protected_ok sample_opts s /\
    signed_by sample_vk s /\ sign1_payload s = Some payload /\ parse_claims payload = Ok sample_claims /\
    admissible sample_opts sample_claims /\
    exists es, cbor_from_reader payload = Ok (CMap es) /\ claims_of es sample_claims.
Proof.
  apply (accepted_token (sample_token "B") sample_vk sample_opts sample_claims).
  - unfold SKEW_SECS. simpl. lia.
  - vm_compute. reflexivity.
Defined.

(** Claims that are not valid before the year 292277026596 are accepted now. *)
Definition late_claims : DecodedClaims :=
  {| iss := "https://id"; sub := "client:edge"; aud := One "edge"; exp := 2000; iat := 900;
     nbf := Some (2 ^ 63)%Z; cti := [x01]; email := None; email_verified := None; idp := None;
     arkavo_account_id := None; arkavo_roles := Some ["service-account"];
     arkavo_entitlements := None; client_id := None; arkavo_patreon := None |}.

Lemma huge_nbf_ignored_witness :
  verify_header_token (sample_token "H") sample_vk sample_opts = Ok late_claims /\
  check_claims late_claims sample_opts = check_claims sample_claims sample_opts.
Proof.
  split; [vm_compute; reflexivity|].
  apply (huge_nbf_ignored late_claims sample_opts (2 ^ 63)); [reflexivity|lia|simpl; lia].
Defined.

(** The verifier accepts a tagged message, the facade does not. *)
Lemma tagged_message_unauthorized_witness :
  verify_header_token (sample_token "G") sample_vk sample_opts = Ok sample_claims /\
  authenticate_pep sample_facade (sample_headers "G") = Ret (Err Unauthorized).
Proof.
  split; [vm_compute; reflexivity|].
  apply (tagged_message_unauthorized sample_facade (sample_headers "G") (sample_token "G") ["G"%byte]);
    vm_compute; reflexivity.
Defined.
