(* ===== verification/Routing.v ===== *)
(** * Routing (main of src/src/bin/main.rs)

    The routers that [main] builds from the configuration and merges, as lists of method,
    path pattern and handler.  A pattern is the text given to [Router::route]; [matches] is
    its documented meaning: [:name] stands for one segment, [*name] for the rest. *)
From S2P Require Import Prelude RustStr HttpRewrap PlatformProxy AuthzenFacade.
From stdpp Require Import list.

#[local] Open Scope string_scope.
#[local] Open Scope nat_scope.
#[local] Open Scope list_scope.
#[local] Open Scope rust_scope.

(** The handlers. *)
Inductive Target : Set :=
| WsHandler
| AppleSiteAssociation
| Proxied
| RewrapLocal
| KasPublicKeyLocal
| MediaKeyRequest
| FairplayCertificate
| SessionStart
| SessionHeartbeat
| SessionTerminate
| C2paSign
| C2paValidate
| Authzen (e : Endpoint).

Definition Route : Set := string * string * Target.

Definition opentdf_router (mode : ProxyMode) (st : option PlatformProxyState) : outcome (list Route) :=
  if forwards_rest mode then
    match st with
    | None => Panic
    | Some _ => Done [("POST", "/kas/v2/rewrap", Proxied); ("GET", "/kas/v2/kas_public_key", Proxied)]
    end
  else Done [("POST", "/kas/v2/rewrap", RewrapLocal);
             ("GET", "/kas/v2/kas_public_key", KasPublicKeyLocal)].

Definition wellknown_router (mode : ProxyMode) (st : option PlatformProxyState) : outcome (list Route) :=
  if forwards_discovery mode then
    match st with
    | None => Panic
    | Some _ => Done [("GET", "/.well-known/opentdf-configuration", Proxied);
                      ("GET", "/attributes", Proxied); ("GET", "/attr/*rest", Proxied)]
    end
  else Done [].

Definition connect_router (mode : ProxyMode) (st : option PlatformProxyState) : outcome (list Route) :=
  if forwards_connect mode then
    match st with
    | None => Panic
    | Some _ => Done [("POST", "/kas.AccessService/Rewrap", Proxied);
                      ("POST", "/kas.AccessService/PublicKey", Proxied);
                      ("GET", "/kas.AccessService/PublicKey", Proxied);
                      ("GET", "/kas.AccessService/LegacyPublicKey", Proxied)]
    end
  else Done [].

Definition authz_router (authz_proxy : bool) (st : option PlatformProxyState) : outcome (list Route) :=
  if authz_proxy then
    match st with
    | None => Panic
    | Some _ => Done [("POST", "/authorization.v2.AuthorizationService/*method", Proxied)]
    end
  else Done [].

Definition authzen_router (facade : bool) : list Route :=
  if facade then (fun r => (r.1.1, r.1.2, Authzen r.2)) <$> router else [].

Definition media_router : list Route :=
  [("POST", "/media/v1/key-request", MediaKeyRequest);
   ("GET", "/media/v1/certificate", FairplayCertificate);
   ("POST", "/media/v1/session/start", SessionStart);
   ("POST", "/media/v1/session/:session_id/heartbeat", SessionHeartbeat);
   ("DELETE", "/media/v1/session/:session_id", SessionTerminate)].

Definition c2pa_router (c2pa : bool) : list Route :=
  if c2pa then [("POST", "/c2pa/v1/sign", C2paSign); ("POST", "/c2pa/v1/validate", C2paValidate)]
  else [].

Definition ws_router : list Route :=
  [("GET", "/ws", WsHandler); ("GET", "/.well-known/apple-app-site-association", AppleSiteAssociation)].

(** What decides the routes; [facade] and [c2pa] say that those parts are configured. *)
Record RouteConfig := {
  mode : ProxyMode;
  authz_proxy : bool;
  proxy_state : option PlatformProxyState;
  facade : bool;
  c2pa : bool;
}.

(** The routers that forward, built first. *)
Definition forwarding_routers (m : ProxyMode) (authz : bool) (st : option PlatformProxyState) :
    outcome (list Route) :=
  let! opentdf := opentdf_router m st in
  let! wellknown := wellknown_router m st in
  let! connect := connect_router m st in
  let! authz := authz_router authz st in
  Done (opentdf ++ wellknown ++ connect ++ authz).

(** All routers, merged. *)
Definition merged_routes (forwarding : list Route) (facade c2pa : bool) : list Route :=
  ws_router ++ forwarding ++ authzen_router facade ++ media_router ++ c2pa_router c2pa.

Definition app_routes (c : RouteConfig) : outcome (list Route) :=
  let! forwarding := forwarding_routers (mode c) (authz_proxy c) (proxy_state c) in
  Done (merged_routes forwarding (facade c) (c2pa c)).

(** The upstream state, which [main] builds if something needs it; [None] is the refusal to
    start without a URL. *)
Definition needs_upstream (m : ProxyMode) (authz : bool) : bool :=
  negb (bool_decide (m = Off)) || authz.

(** ** Patterns *)

Inductive Segment : Set := Static (s : string) | Param | CatchAll.

Definition segment (s : string) : Segment :=
  match s with
  | String ":" _ => Param
  | String "*" _ => CatchAll
  | _ => Static s
  end.

Definition pattern (p : string) : list Segment := segment <$> str_split "/" p.

(** A path of segments; a parameter is not empty, and nor is the rest. *)
Fixpoint matches (p : list Segment) (x : list string) : bool :=
  match p, x with
  | [], [] => true
  | [CatchAll], s :: r => negb (is_empty s) || negb (bool_decide (r = []))
  | Static s :: p, t :: x => bool_decide (s = t) && matches p x
  | Param :: p, t :: x => negb (is_empty t) && matches p x
  | _, _ => false
  end.

Definition matched (r : Route) (method path : string) : bool :=
  bool_decide (r.1.1 = method) && matches (pattern r.1.2) (str_split "/" path).

(** Two patterns that no path matches both. *)
Fixpoint disjoint_patterns (p q : list Segment) : bool :=
  match p, q with
  | [], [] => false
  | [CatchAll], _ :: _ | _ :: _, [CatchAll] => false
  | Static s :: p, Static t :: q => negb (bool_decide (s = t)) || disjoint_patterns p q
  | CatchAll :: _, _ | _, CatchAll :: _ => true
  | _ :: p, _ :: q => disjoint_patterns p q
  | [], _ :: _ | _ :: _, [] => true
  end.

Definition disjoint_routes (r s : Route) : bool :=
  negb (bool_decide (r.1.1 = s.1.1)) || disjoint_patterns (pattern r.1.2) (pattern s.1.2).

Fixpoint unambiguous (l : list Route) : bool :=
  match l with
  | [] => true
  | r :: l => forallb (disjoint_routes r) l && unambiguous l
  end.

(** ** Theorems *)

Lemma disjoint_patterns_sound p q x :
  disjoint_patterns p q = true -> matches p x = true -> matches q x = true -> False.
Proof.
  revert q x. induction p as [|a p IH]; intros q x Hd Hp Hq.
  - destruct x; [|done]. destruct q as [|[] []]; done.
  - destruct x as [|t x]; [by destruct a, p|].
    destruct q as [|b q]; [done|].
    destruct a as [s| |]; destruct b as [s'| |]; cbn in Hd, Hp, Hq;
      repeat match goal with
      | H : (_ && _)%bool = true |- _ => apply andb_true_iff in H as [? ?]
      end;
      try (by eapply IH); try (by destruct p, q).
    apply orb_true_iff in Hd as [Hd|Hd]; [|by eapply IH].
    apply negb_true_iff, bool_decide_eq_false in Hd. apply Hd.
    apply bool_decide_eq_true in H, H1. congruence.
Qed.

Lemma unambiguous_sound l r s method path :
  unambiguous l = true -> r ∈ l -> s ∈ l ->
  matched r method path = true -> matched s method path = true -> r = s.
Proof.
  assert (forall a b, disjoint_routes a b = true -> matched a method path = true ->
    matched b method path = true -> False) as Hd.
  { unfold disjoint_routes, matched. intros a b H [Ha Ha']%andb_true_iff [Hb Hb']%andb_true_iff.
    apply bool_decide_eq_true in Ha, Hb. apply orb_true_iff in H as [H|H].
    - apply negb_true_iff, bool_decide_eq_false in H. congruence.
    - by eapply disjoint_patterns_sound. }
  induction l as [|a l IH]; cbn [unambiguous]; [by intros _ ?%not_elem_of_nil|].
  intros [Ha Hl]%andb_true_iff Hr Hs Mr Ms.
  assert (forall b, b ∈ l -> disjoint_routes a b = true) as Hab.
  { intros b Hb%list_elem_of_In. by apply (proj1 (forallb_forall _ _) Ha). }
  apply elem_of_cons in Hr as [->|Hr], Hs as [->|Hs]; [done| | |by apply IH].
  - destruct (Hd a s); auto.
  - destruct (Hd a r); auto.
Qed.

(** Where an upstream is needed there is one. *)
Definition well_configured (c : RouteConfig) : Prop :=
  needs_upstream (mode c) (authz_proxy c) = true -> is_Some (proxy_state c).

(** The table that a configuration is meant to give: every route that exists, with the
    condition under which it is served. *)
Definition route_table (c : RouteConfig) : list (bool * Route) :=
  let rest := bool_decide (mode c = Rest \/ mode c = Both) in
  let connect := bool_decide (mode c = Connect \/ mode c = Both) in
  let discovery := bool_decide (mode c = Rest \/ mode c = Connect \/ mode c = Both) in
  [(true, ("GET", "/ws", WsHandler));
   (true, ("GET", "/.well-known/apple-app-site-association", AppleSiteAssociation));
   (rest, ("POST", "/kas/v2/rewrap", Proxied));
   (rest, ("GET", "/kas/v2/kas_public_key", Proxied));
   (negb rest, ("POST", "/kas/v2/rewrap", RewrapLocal));
   (negb rest, ("GET", "/kas/v2/kas_public_key", KasPublicKeyLocal));
   (discovery, ("GET", "/.well-known/opentdf-configuration", Proxied));
   (discovery, ("GET", "/attributes", Proxied));
   (discovery, ("GET", "/attr/*rest", Proxied));
   (connect, ("POST", "/kas.AccessService/Rewrap", Proxied));
   (connect, ("POST", "/kas.AccessService/PublicKey", Proxied));
   (connect, ("GET", "/kas.AccessService/PublicKey", Proxied));
   (connect, ("GET", "/kas.AccessService/LegacyPublicKey", Proxied));
   (authz_proxy c, ("POST", "/authorization.v2.AuthorizationService/*method", Proxied));
   (facade c, ("POST", "/access/v1/evaluation", Authzen Evaluation));
   (facade c, ("POST", "/access/v1/evaluations", Authzen Evaluations));
   (facade c, ("GET", "/.well-known/authzen-configuration", Authzen WellKnown));
   (true, ("POST", "/media/v1/key-request", MediaKeyRequest));
   (true, ("GET", "/media/v1/certificate", FairplayCertificate));
   (true, ("POST", "/media/v1/session/start", SessionStart));
   (true, ("POST", "/media/v1/session/:session_id/heartbeat", SessionHeartbeat));
   (true, ("DELETE", "/media/v1/session/:session_id", SessionTerminate));
   (c2pa c, ("POST", "/c2pa/v1/sign", C2paSign));
   (c2pa c, ("POST", "/c2pa/v1/validate", C2paValidate))].

(** The routes are those of the table, and no request matches two of them. *)
Definition right_table (c : RouteConfig) (l : list Route) : Prop :=
  (forall r, r ∈ l <-> (true, r) ∈ route_table c) /\
  (forall r s method path, r ∈ l -> s ∈ l ->
    matched r method path = true -> matched s method path = true -> r = s).

(** The routes of all configurations, with an upstream state [st] where one is needed. *)
Lemma app_routes_table (m : ProxyMode) (authz facade c2pa : bool) (st : PlatformProxyState) o :
  o = Some st \/ needs_upstream m authz = false ->
  let c := {| mode := m; authz_proxy := authz; proxy_state := o; facade := facade;
              c2pa := c2pa |} in
  exists l, app_routes c = Done l /\ unambiguous l = true /\
    l = snd <$> filter (fun r => r.1 = true) (route_table c).
Proof.
  intros Ho c. subst c.
  destruct m, authz, facade, c2pa; (destruct Ho as [->|Ho]; [|try done]);
    (eexists; split; [reflexivity|]; split; reflexivity).
Qed.

Lemma app_routes_right c : well_configured c -> exists l, app_routes c = Done l /\ right_table c l.
Proof.
  destruct c as [m authz o f cp]. unfold well_configured. cbn [mode authz_proxy proxy_state]. intros Hw.
  destruct (app_routes_table m authz f cp (default {| upstream_base := "" |} o) o)
    as (l & Hl & Hu & Ht).
  { destruct (needs_upstream m authz); [left|by right]. by destruct (Hw eq_refl) as [st ->]. }
  exists l. split; [done|]. split; [|intros r s method path; by apply unambiguous_sound].
  intros r. rewrite Ht, list_elem_of_fmap. split.
  - by intros ([b r'] & -> & [[= ->] Hin]%list_elem_of_filter).
  - intros Hin. exists (true, r). split; [done|]. by apply list_elem_of_filter.
Qed.
