(* ===== verification/Startup.v ===== *)
(** * Start-up (main of src/src/bin/main.rs)

    [main_setup] is [main] up to the accept loops: the settings and their validation, the
    keys, TLS, the optional parts and the routes, in the order of the code.  [main_event]
    joins the events of the parts with reading a file and binding the QUIC socket; the
    crates that only [main] calls are the class [MainCrates].  The tasks it spawns (the NATS
    connection, the RTMP server, the listeners) are not started here. *)
From S2P Require NtdfToken.
From S2P Require Import Prelude RustStr Json Services Chain MediaMetrics SessionManager MediaApi.
From S2P Require Import HttpRewrap WebSocket ServerConfig SecureKeys.
From S2P Require RtmpMedia RtmpSession.
From S2P Require Import HttpHeaders FairPlay H3 C2paSigning PlatformProxy AuthzenFacade Routing.
From stdpp Require Import list.

#[local] Open Scope string_scope.
#[local] Open Scope nat_scope.
#[local] Open Scope list_scope.
#[local] Open Scope rust_scope.

Inductive main_event : Type -> Type :=
| Io {X} (e : event CachedEntry X) : main_event X
| Fps {X} (e : FpsEvent X) : main_event X
| Tls {X} (e : TlsEvent X) : main_event X
| ReadFileBytes (path : string) : main_event (result bytes string)
| BindUdp (host : string) (port : Z) : main_event (result unit string).

(** A program on the events of a part. *)
Fixpoint lift {E F A} (f : forall X, E X -> F X) (m : prog E A) : prog F A :=
  match m with
  | Ret a => Ret a
  | Vis e k => Vis (f _ e) (fun x => lift f (k x))
  end.

Abbreviation start A := (prog main_event (outcome (result A string))).

Definition sbind {A B} (m : start A) (k : A -> start B) : start B :=
  bind m (fun o => match o with
                   | Done (Ok a) => k a
                   | Done (Err e) => Ret (Done (Err e))
                   | Panic => Ret Panic
                   end).

Notation "'let&' x := m 'in' k" := (sbind m (fun x => k))
  (at level 10, x pattern, m at level 100, k at level 200) : rust_scope.

Definition of_handler {A} (m : handler A string) : start A := lift (@Io) m.
Definition of_prog {E A} (f : forall X, E X -> main_event X) (m : prog E A) : start A :=
  bind (lift f m) (fun a => Ret (Done (Ok a))).
Definition of_result {E A} (f : forall X, E X -> main_event X) (m : prog E (result A string)) :
    start A :=
  bind (lift f m) (fun r => Ret (Done r)).
Definition returns {A} (r : outcome (result A string)) : start A := Ret r.

Class MainCrates := {
  redis_open : string -> result unit string;
  proxy_client_build : result unit string;
  certificates_from_str : string -> option Value;
}.

Section Main.
Context {media : MediaCrates} {token : NtdfToken.TokenCrypto} {ws : WsCrates} {keys : KeyCrates}
  {secure : SecureKeyCrates} {fps : FpsCrates} {tls : TlsCrates} {headers : Headers}
  {facades : FacadeCrates} {crates : MainCrates}.

Definition io_env (name : string) : start (option string) := of_prog (@Io) (env_var name).
Definition io_env_or (name fallback : string) : start string := of_prog (@Io) (env_or name fallback).

(** The chain client's URL and the secret of the session cache. *)
Definition init_chain (s : ServerSettings) : start (option (string * bytes)) :=
  match chain_rpc_url s with
  | Some url => let& server_secret := of_prog (@Io) (trigger Random) in
                returns (Done (Ok (Some (url, server_secret))))
  | None => returns (Done (Ok None))
  end.

Definition load_apple_app_site_association : start string :=
  let& content := of_prog (@Io) (trigger (Os (ReadToString "apple-app-site-association.json"))) in
  returns match content with Ok s => Done (Ok s) | Err _ => Panic end.

(** The EC key of the rewrap endpoint and its PEM, from the static keys. *)
Definition rewrap_key (k : KasKeys) : outcome (MediaApi.SecretKey * string) :=
  if negb (length (kas_private_key k) =? 32) then Panic else
  match secret_key_from_bytes (kas_private_key k) with
  | Err _ => Panic
  | Ok kas_private_key =>
    match public_key_to_pem (secret_public_key kas_private_key) with
    | Err _ => Panic
    | Ok pem => Done (kas_private_key, pem)
    end
  end.

(** [load_tls_config], if TLS is enabled. *)
Definition tls_setup (s : ServerSettings) : start (option TlsConfig) :=
  if tls_enabled s then
    let& config := of_result (@Tls) (load_rustls_config (tls_cert_path s) (tls_key_path s)) in
    returns (Done (Ok (Some config)))
  else returns (Done (Ok None)).

(** The optional RSA key: a failure disables it. *)
Definition rsa_setup : start (option (RsaPrivateKey * string)) :=
  let& path := io_env "KAS_RSA_KEY_PATH" in
  match path with
  | Some path => let& r := of_prog (@Io) (load_rsa_key path) in returns (Done (Ok (ok r)))
  | None => returns (Done (Ok None))
  end.

(** [Debug] of a mode. *)
Definition mode_debug (m : ProxyMode) : string :=
  match m with Off => "Off" | PlatformProxy.Connect => "Connect" | Rest => "Rest" | Both => "Both" end.
Definition bool_display (b : bool) : string := if b then "true" else "false".

Definition proxy_setup : start (ProxyMode * bool * option PlatformProxyState) :=
  let& mode_text := io_env "KAS_PROXY_MODE" in
  let& mode := returns (Done (proxy_mode_from_str (default "off" mode_text))) in
  let& authz_text := io_env "AUTHZ_PROXY" in
  let authz_proxy := bool_decide (authz_text ∈ [Some "on"; Some "true"; Some "1"]) in
  let& url := io_env "OPENTDF_PLATFORM_URL" in
  match url, needs_upstream mode authz_proxy with
  | Some url, true =>
    let& st := returns (Done (proxy_state_new url_scheme proxy_client_build url)) in
    returns (Done (Ok (mode, authz_proxy, Some st)))
  | None, true =>
    returns (Done (Err ("KAS_PROXY_MODE=" +:+ mode_debug mode +:+ " / AUTHZ_PROXY=" +:+
      bool_display authz_proxy +:+ " requires OPENTDF_PLATFORM_URL to be set")))
  | _, false => returns (Done (Ok (mode, authz_proxy, None)))
  end.

(** The FairPlay handler of a build with the feature: a failure is tried once more in the
    working directory and then unwrapped. *)
Definition fairplay_setup (fairplay : bool) : start (option FairPlayHandler) :=
  if negb fairplay then returns (Done (Ok None)) else
  let& path := io_env_or "FAIRPLAY_CREDENTIALS_PATH"
    "./vendor/FairPlay_Streaming_Server_SDK_26/Development/Key_Server_Module/credentials" in
  let& r := of_prog (@Fps) (fairplay_new true path) in
  match r with
  | Ok handler => returns (Done (Ok (Some handler)))
  | Err _ =>
    let& r := of_prog (@Fps) (fairplay_new true ".") in
    returns match r with Ok handler => Done (Ok (Some handler)) | Err _ => Panic end
  end.

(** [Path::join] *)
Definition path_join (dir file : string) : string :=
  if starts_with "/" file then file
  else if is_empty dir || bool_decide (last (as_bytes dir) = Some x2f) then dir +:+ file
  else dir +:+ "/" +:+ file.

(** The file name in [certificates.json]. *)
Definition certificate_name (parsed : Value) : option string :=
  certs ← as_array (at_key "certificates" parsed);
  cert ← head certs;
  as_str (at_key "certificate" cert).

Definition fairplay_certificate_data : start (option bytes) :=
  let& dir := io_env "FAIRPLAY_CREDENTIALS_PATH" in
  match dir with
  | None => returns (Done (Ok None))
  | Some dir =>
    let& contents := of_prog (@Io) (trigger (Os (ReadToString (path_join dir "certificates.json")))) in
    match text ← ok contents; parsed ← certificates_from_str text; certificate_name parsed with
    | None => returns (Done (Ok None))
    | Some filename =>
      let path := path_join dir filename in
      let& found := of_prog (@Io) (trigger (Os (PathExists path))) in
      if found then
        let& b := bind (trigger (ReadFileBytes path)) (fun b => Ret (Done (Ok b))) in
        returns (Done (Ok (ok b)))
      else returns (Done (Ok None))
    end
  end.

(** The signing configuration: a failure disables signing. *)
Definition c2pa_setup (c2pa_signing : bool) : start (option C2paConfig) :=
  if c2pa_signing then
    let& r := of_prog (@Io) c2pa_from_env in returns (Done (Ok (ok r)))
  else returns (Done (Ok None)).

Definition authzen_setup : start (option FacadeState) :=
  let& on := of_result (@Io) enabled_from_env in
  if on then
    let& url := io_env "OPENTDF_PLATFORM_URL" in
    match url with
    | None => returns (Done (Err "AUTHZEN_FACADE=on requires OPENTDF_PLATFORM_URL to be set"))
    | Some url =>
      let& st := of_result (@Io) (facade_from_env url) in returns (Done (Ok (Some st)))
    end
  else returns (Done (Ok None)).

(** The QUIC socket of a build with the feature, bound only with TLS, and the header that
    the responses over TCP then carry. *)
Definition h3_setup (http3 : bool) (s : ServerSettings) : start (option bytes) :=
  if http3 && tls_enabled s then
    let& h3_host := io_env_or "H3_BIND_HOST" "0.0.0.0" in
    let& bound := bind (trigger (BindUdp h3_host (port s))) (fun b => Ret (Done (Ok b))) in
    match bound with
    | Ok _ =>
      let& alt_svc := returns (match alt_svc_header_value (port s) with
                               | Done v => Done (Ok v) | Panic => Panic end) in
      returns (Done (Ok (Some alt_svc)))
    | Err _ => returns (Done (Ok None))
    end
  else returns (Done (Ok None)).

(** The RTMP server, if [RTMP_PORT] is set. *)
Definition rtmp_setup (s : ServerSettings) (kas_key : bytes) : start (option RtmpSession.RtmpServer) :=
  let& port_text := io_env "RTMP_PORT" in
  match port_text with
  | None => returns (Done (Ok None))
  | Some text =>
    let rtmp_port := default 1935%Z (parse_u16 text) in
    let& client := of_prog (@Io) (trigger NatsClient) in
    let& base_url := io_env_or "RTMP_BASE_URL" ("rtmp://localhost:" +:+ display_Z rtmp_port) in
    returns (Done (Ok (Some (RtmpSession.with_broadcaster rtmp_port kas_key
      {| RtmpMedia.nats_client := client; RtmpMedia.subject := nats_subject s;
         RtmpMedia.rtmp_base_url := base_url |}))))
  end.
(** What the server runs with. *)
Record Setup := {
  settings : ServerSettings;
  chain : option (string * bytes);
  apple_site : string;
  kas_keys : KasKeys;
  kas_ec_key : MediaApi.SecretKey * string;
  tls_config : option TlsConfig;
  oauth_pem : option string;
  rsa_key : option (RsaPrivateKey * string);
  route_config : RouteConfig;
  media_parts : SessionManager * MediaMetrics;
  fairplay : option FairPlayHandler;
  fairplay_certificate : option bytes;
  c2pa_config : option C2paConfig;
  facade_state : option FacadeState;
  routes : list Route;
  alt_svc : option bytes;
  rtmp : option RtmpSession.RtmpServer;
}.

(** The features of the build. *)
Record Features := { f_fairplay : bool; f_c2pa_signing : bool; f_http3 : bool }.

Definition is_some {A} (o : option A) : bool := match o with Some _ => true | None => false end.

Definition main_setup (f : Features) : start Setup :=
  let& settings := of_handler load_config in
  let& _ := of_result (@Io) (validate_config settings) in
  let& _ := returns (Done (redis_open (redis_url settings))) in
  let& chain := init_chain settings in
  let& apple := load_apple_app_site_association in
  let& kas := of_handler (init_kas_keys None (kas_key_path settings)) in
  let& ec := returns (match rewrap_key kas with Done k => Done (Ok k) | Panic => Panic end) in
  let& tls := tls_setup settings in
  let& oauth := of_prog (@Io) oauth_public_key in
  let& rsa := rsa_setup in
  let& (mode, authz, proxy) := proxy_setup in
  let& media := of_result (@Io) media_components in
  let& fairplay := fairplay_setup (f_fairplay f) in
  let& certificate := fairplay_certificate_data in
  let& c2pa := c2pa_setup (f_c2pa_signing f) in
  let& forwarding := returns (match forwarding_routers mode authz proxy with
                              | Done l => Done (Ok l) | Panic => Panic end) in
  let& facade := authzen_setup in
  let& alt_svc := h3_setup (f_http3 f) settings in
  let& rtmp := rtmp_setup settings (kas_private_key kas) in
  returns (Done (Ok {|
    settings := settings; chain := chain; apple_site := apple; kas_keys := kas; kas_ec_key := ec;
    tls_config := tls; oauth_pem := oauth; rsa_key := rsa;
    route_config := {| mode := mode; authz_proxy := authz; proxy_state := proxy;
                       Routing.facade := is_some facade; c2pa := is_some c2pa |};
    media_parts := media; fairplay := fairplay; fairplay_certificate := certificate;
    c2pa_config := c2pa; facade_state := facade;
    routes := merged_routes forwarding (is_some facade) (is_some c2pa); alt_svc := alt_svc;
    rtmp := rtmp |})).
End Main.
