(* ===== verification/StartupProps.v ===== *)
(** * Correctness of start-up

    What a server that started runs with, and the only ways in which starting panics. *)
From S2P Require NtdfToken.
From S2P Require Import Prelude RustStr Json Services Chain MediaMetrics SessionManager MediaApi.
From S2P Require Import HttpRewrap WebSocket ServerConfig SecureKeys.
From S2P Require RtmpMedia RtmpSession.
From S2P Require Import HttpHeaders FairPlay H3 H3Props C2paSigning PlatformProxy AuthzenFacade Routing.
From S2P Require Import MediaApiProps Startup.
From stdpp Require Import list.

#[local] Open Scope string_scope.
#[local] Open Scope nat_scope.
#[local] Open Scope list_scope.
#[local] Open Scope rust_scope.

(** ** Runs of composed programs *)

Definition lift_answer {E F : Type -> Type} (f : forall X, E X -> F X) (a : answer E) : answer F :=
  match a with existT X (e, x) => existT X (f X e, x) end.

Lemma path_lift {E F A} (f : forall X, E X -> F X) (m : prog E A) tr a :
  path (lift f m) tr a <-> exists tr', tr = lift_answer f <$> tr' /\ path m tr' a.
Proof.
  revert tr. induction m as [b|X e k IH]; intros tr; cbn [lift].
  - split.
    + intros [-> <-]%path_ret. by exists [].
    + intros (tr' & -> & H). by apply path_ret in H as [-> <-].
  - split.
    + destruct tr as [|ev tr]; [done|]. intros (x & -> & (tr' & -> & H)%IH).
      exists (answered e x :: tr'). split; [done|]. by exists x.
    + intros ([|ev tr'] & -> & H); [done|]. destruct H as (x & -> & H).
      exists x. split; [done|]. apply IH. by exists tr'.
Qed.

Lemma path_sbind {A B} (m : start A) (k : A -> start B) tr b :
  path (sbind m k) tr (Done (Ok b)) <->
  exists a tr1 tr2, tr = tr1 ++ tr2 /\ path m tr1 (Done (Ok a)) /\ path (k a) tr2 (Done (Ok b)).
Proof.
  unfold sbind. rewrite path_bind. split.
  - intros ([[a|e]|] & t1 & t2 & -> & H1 & H2); [by exists a, t1, t2|by apply path_ret in H2 as [_ ?]..].
  - intros (a & t1 & t2 & -> & H1 & H2). by exists (Done (Ok a)), t1, t2.
Qed.

Lemma path_sbind_panic {A B} (m : start A) (k : A -> start B) tr :
  path (sbind m k) tr Panic <->
  path m tr Panic \/
  exists a tr1 tr2, tr = tr1 ++ tr2 /\ path m tr1 (Done (Ok a)) /\ path (k a) tr2 Panic.
Proof.
  unfold sbind. rewrite path_bind. split.
  - intros ([[a|e]|] & t1 & t2 & -> & H1 & H2); [|by apply path_ret in H2 as [_ ?]|].
    + right. by exists a, t1, t2.
    + left. apply path_ret in H2 as [-> _]. by rewrite app_nil_r.
  - intros [H|(a & t1 & t2 & -> & H1 & H2)].
    + exists Panic, tr, []. rewrite app_nil_r. split_and!; [done..|]. by apply path_ret.
    + by exists (Done (Ok a)), t1, t2.
Qed.

(** A part that cannot panic. *)
Definition total {A} (m : start A) : Prop := forall tr, ~ path m tr Panic.

Lemma total_of_prog {E A} f (m : prog E A) : total (of_prog f m).
Proof. intros tr (a & t1 & t2 & -> & _ & [_ ?]%path_ret)%path_bind. done. Qed.
Lemma total_of_result {E A} f (m : prog E (result A string)) : total (of_result f m).
Proof. intros tr (a & t1 & t2 & -> & _ & [_ ?]%path_ret)%path_bind. done. Qed.
Lemma total_returns {A} (r : result A string) : total (returns (Done r)).
Proof. by intros tr [_ ?]%path_ret. Qed.
Lemma total_sbind {A B} (m : start A) (k : A -> start B) :
  total m -> (forall a, total (k a)) -> total (sbind m k).
Proof. intros Hm Hk tr [?|(a & t1 & t2 & -> & _ & ?)]%path_sbind_panic; [by eapply Hm|by eapply Hk]. Qed.

Lemma total_io_env name : total (io_env name).
Proof. apply total_of_prog. Qed.
Lemma total_io_env_or name fallback : total (io_env_or name fallback).
Proof. apply total_of_prog. Qed.

Create HintDb start.
#[export] Hint Resolve total_io_env total_io_env_or : start.
#[export] Hint Resolve total_of_prog total_of_result total_returns total_sbind : start.

(** Past a part that cannot panic, or one that may. *)
Lemma panic_past {A B} (m : start A) (k : A -> start B) tr :
  total m -> path (sbind m k) tr Panic ->
  exists a tr1 tr2, tr = tr1 ++ tr2 /\ path m tr1 (Done (Ok a)) /\ path (k a) tr2 Panic.
Proof. intros Hm [?|H]%path_sbind_panic; [by destruct (Hm tr)|done]. Qed.

Lemma path_of_prog {E A} f (m : prog E A) tr a :
  path (of_prog f m) tr (Done (Ok a)) <-> exists tr', tr = lift_answer f <$> tr' /\ path m tr' a.
Proof.
  unfold of_prog. rewrite path_bind. split.
  - intros (b & t1 & t2 & -> & (tr' & -> & H)%path_lift & [-> [= <-]]%path_ret).
    exists tr'. by rewrite app_nil_r.
  - intros (tr' & -> & H). exists a, (lift_answer f <$> tr'), []. rewrite app_nil_r.
    split_and!; [done|by apply path_lift; exists tr'|by apply path_ret].
Qed.

Lemma path_of_result {E A} f (m : prog E (result A string)) tr a :
  path (of_result f m) tr (Done (Ok a)) <-> exists tr', tr = lift_answer f <$> tr' /\ path m tr' (Ok a).
Proof.
  unfold of_result. rewrite path_bind. split.
  - intros (b & t1 & t2 & -> & (tr' & -> & H)%path_lift & [-> [= ->]]%path_ret).
    exists tr'. by rewrite app_nil_r.
  - intros (tr' & -> & H). exists (Ok a), (lift_answer f <$> tr'), []. rewrite app_nil_r.
    split_and!; [done|by apply path_lift; exists tr'|by apply path_ret].
Qed.

Lemma path_returns {A} (r : outcome (result A string)) tr a :
  path (returns r) tr (Done (Ok a)) <-> tr = [] /\ r = Done (Ok a).
Proof. apply path_ret. Qed.

Section Start.
Context {media : MediaCrates} {token : NtdfToken.TokenCrypto} {ws : WsCrates} {keys : KeyCrates}
  {secure : SecureKeyCrates} {fps : FpsCrates} {tls : TlsCrates} {headers : Headers}
  {facades : FacadeCrates} {crates : MainCrates}.

(** ** The optional parts *)

Lemma proxy_setup_runs tr m a st :
  path proxy_setup tr (Done (Ok (m, a, st))) -> (needs_upstream m a = true <-> is_Some st).
Proof.
  unfold proxy_setup. intros (mt & t1 & t2 & -> & _ & H)%path_sbind.
  apply path_sbind in H as (m' & t3 & t4 & -> & _ & H).
  apply path_sbind in H as (at' & t5 & t6 & -> & _ & H). cbv zeta in H.
  apply path_sbind in H as (url & t7 & t8 & -> & _ & H).
  destruct url as [url|], (needs_upstream m' _) eqn:Hn.
  - apply path_sbind in H as (st' & t9 & t10 & -> & _ & H).
    apply path_returns in H as [_ [= <- <- <-]]. rewrite Hn. split; [by eexists|done].
  - apply path_returns in H as [_ [= <- <- <-]]. rewrite Hn. split; [done|by intros [? ?]].
  - by apply path_returns in H as [_ ?].
  - apply path_returns in H as [_ [= <- <- <-]]. rewrite Hn. split; [done|by intros [? ?]].
Qed.

Lemma tls_setup_runs s tr o :
  path (tls_setup s) tr (Done (Ok o)) -> (is_Some o <-> tls_enabled s = true).
Proof.
  unfold tls_setup. destruct (tls_enabled s).
  - intros (c & t1 & t2 & -> & _ & [_ [= <-]]%path_returns)%path_sbind. split; [done|by eexists].
  - intros [_ [= <-]]%path_returns. split; [by intros [? ?]|done].
Qed.

Lemma h3_setup_runs http3 s tr o :
  path (h3_setup http3 s) tr (Done (Ok o)) ->
  (is_Some o <-> http3 = true /\ tls_enabled s = true /\
    exists host, answered (BindUdp host (port s)) (Ok tt) ∈ tr).
Proof.
  unfold h3_setup. destruct http3; cbn [andb].
  2: { intros [-> [= <-]]%path_returns. split; [by intros [? ?]|by intros [? _]]. }
  destruct (tls_enabled s); cbn [andb].
  2: { intros [-> [= <-]]%path_returns. split; [by intros [? ?]|by intros (_ & ? & _)]. }
  intros (host & t1 & t2 & -> & (t & -> & Ht)%path_of_prog & H)%path_sbind.
  apply path_sbind in H as (b & t3 & t4 & -> & H3 & H).
  apply path_bind in H3 as (b' & t5 & t6 & -> & H5 & H6). apply path_trigger in H5 as ->.
  apply path_ret in H6 as [-> [= ->]].
  destruct b as [[]|e].
  - apply path_sbind in H as (v & t7 & t8 & -> & _ & H). apply path_returns in H as [_ [= <-]].
    split; [|by eexists]. intros _. split; [done|]. split; [done|]. exists host. set_solver.
  - apply path_returns in H as [-> [= <-]]. split; [by intros [? ?]|].
    intros (_ & _ & host' & Hin). exfalso. rewrite !app_nil_r in Hin.
    apply elem_of_app in Hin as [Hin|Hin].
    + apply list_elem_of_fmap in Hin as ([X [e' x]] & Ha & _).
      apply (f_equal (fun a => match a with existT _ (e, _) =>
        match e with BindUdp _ _ => true | _ => false end end)) in Ha. discriminate Ha.
    + apply list_elem_of_In in Hin. destruct Hin as [Ha|[]].
      apply (f_equal (fun a => match a with existT _ (e, x) =>
        match e in main_event X return X -> bool with
        | BindUdp _ _ => fun r => match r with Ok _ => true | Err _ => false end
        | _ => fun _ => false end x end)) in Ha. discriminate Ha.
Qed.

(** ** A server that started *)

Lemma is_some_true {A} (o : option A) : is_some o = true <-> is_Some o.
Proof. destruct o; [split; [by eexists|done]|split; [done|by intros [? ?]]]. Qed.

(** C27: What a server runs with.  If start-up succeeds, the settings are valid, the routes are
    exactly those of the table [route_table] of the configuration, the KAS endpoints local or
    forwarded as the mode says, the discovery, Connect, authorization, AuthZEN and C2PA routes
    where they are configured, and no request matches two of them; there is an upstream exactly
    if a mode or the authorization proxy needs one; TLS is on exactly if enabled, and HTTP/3 is
    advertised only if the build has it, TLS is on and its socket was bound. *)
Theorem server_started f tr s :
  path (main_setup f) tr (Done (Ok s)) ->
  config_ok (settings s) /\ right_table (route_config s) (routes s) /\
  (is_Some (proxy_state (route_config s)) <->
    needs_upstream (mode (route_config s)) (authz_proxy (route_config s)) = true) /\
  (Routing.facade (route_config s) = true <-> is_Some (facade_state s)) /\
  (c2pa (route_config s) = true <-> is_Some (c2pa_config s)) /\
  (is_Some (tls_config s) <-> tls_enabled (settings s) = true) /\
  (is_Some (alt_svc s) -> f_http3 f = true /\ tls_enabled (settings s) = true /\
    exists host, answered (BindUdp host (port (settings s))) (Ok tt) ∈ tr).
Proof.
  unfold main_setup. intros (sett & t1 & t2 & -> & Hl & H)%path_sbind.
  apply path_sbind in H as ([] & t3 & t4 & -> & Hv & H).
  apply path_of_result in Hv as (tv & -> & [Hc _]%validate_config_exact).
  do 5 (apply path_sbind in H as (? & ? & ? & -> & _ & H)).
  apply path_sbind in H as (tl & ttl & ? & -> & Htls%tls_setup_runs & H).
  do 2 (apply path_sbind in H as (? & ? & ? & -> & _ & H)).
  apply path_sbind in H as ([[m a] st] & tp & ? & -> & Hp%proxy_setup_runs & H).
  do 4 (apply path_sbind in H as (? & ? & ? & -> & _ & H)).
  apply path_sbind in H as (fw & tf & ? & -> & Hf & H). apply path_returns in Hf as [_ Hf].
  apply path_sbind in H as (facade & ? & ? & -> & _ & H).
  apply path_sbind in H as (alt & ta & tb & -> & Ha & H).
  apply path_sbind in H as (rt & tr' & tz & -> & _ & H). apply path_returns in H as [-> [= <-]].
  cbn [settings route_config routes proxy_state mode authz_proxy Routing.facade c2pa facade_state
       c2pa_config tls_config alt_svc].
  split; [done|]. split; [|split; [done|]].
  { match goal with |- right_table ?c ?l => destruct (app_routes_right c) as (l' & Hl' & Ht) end.
    { intros Hn. by apply Hp. }
    unfold app_routes in Hl'. cbn in Hl'. destruct (forwarding_routers m a st) as [fw'|]; [|done].
    injection Hf as ->. injection Hl' as <-. done. }
  split; [apply is_some_true|]. split; [apply is_some_true|]. split; [done|].
  intros (? & ? & host & Hin)%(h3_setup_runs _ _ _ _ Ha). split; [done|]. split; [done|].
  exists host. rewrite !elem_of_app. tauto.
Qed.

(** ** Panics *)

(** A compressed point has 33 bytes, and a public key an encoding. *)
Class PointLaws := {
  point_length : forall k : MediaApi.SecretKey, length (to_encoded_point (secret_public_key k)) = 33;
  point_der : forall k : MediaApi.SecretKey, exists der, to_public_key_der (secret_public_key k) = Ok der;
}.

Context {hlaws : HeadersLaws} {klaws : SecureKeyLaws} {plaws : PointLaws}.

Lemma join_utf8 dir file :
  utf8_valid (as_bytes file) = true -> from_utf8 (ServerConfig.join dir file) = None -> from_utf8 dir = None.
Proof.
  intros Hf. unfold from_utf8. destruct (utf8_valid dir) eqn:Hd; [|done].
  unfold ServerConfig.join. destruct (List.last dir x2f); rewrite (utf8_valid_app _ _ Hd);
    cbn [utf8_valid]; by rewrite Hf.
Qed.

Lemma env_or_file_panics name dir file tr :
  path (env_or_file name dir file) tr Panic ->
  answered (Os (EnvVar name)) None ∈ tr /\ from_utf8 (ServerConfig.join dir file) = None.
Proof.
  unfold env_or_file. intros [H|(v & t1 & t2 & -> & H1 & H)]%path_hbind_panic; [no_panic H|].
  destruct v; [no_panic H|]. destruct (from_utf8 _); [no_panic H|].
  apply path_perform in H1. destruct H1 as (v & [= <-] & ->%path_trigger). split; [by left|done].
Qed.

(** The paths that default to a file of the working directory. *)
Definition PATH_VARIABLES : list string := ["TLS_CERT_PATH"; "TLS_KEY_PATH"; "KAS_KEY_PATH"].

Lemma load_config_panics tr :
  path load_config tr Panic ->
  exists dir name, answered (Os CurrentDir) (Ok dir) ∈ tr /\ from_utf8 dir = None /\
    name ∈ PATH_VARIABLES /\ answered (Os (EnvVar name)) None ∈ tr.
Proof.
  unfold load_config. intros [H|(dir & t1 & t2 & -> & H1 & H)]%path_hbind_panic; [no_panic H|].
  apply path_call in H1 as (? & [= <-] & ->%path_trigger). exists dir.
  cut (exists name, from_utf8 dir = None /\ name ∈ PATH_VARIABLES /\ answered (Os (EnvVar name)) None ∈ t2).
  { intros (name & ? & ? & ?). exists name. split; [by left|]. split; [done|]. split; [done|]. by right. }
  do 3 (apply path_hbind_panic in H as [H|(? & ? & ? & -> & _ & H)]; [no_panic H|]).
  do 3 (apply path_hbind_panic in H as [H|(? & ? & ? & -> & _ & H)];
    [apply env_or_file_panics in H as [Hv Hd]; eexists; split;
       [by eapply join_utf8, Hd|split; [|rewrite ?elem_of_app; eauto 10]]; unfold PATH_VARIABLES; set_solver|]).
  do 9 (apply path_hbind_panic in H as [H|(? & ? & ? & -> & _ & H)]; [no_panic H|]).
  no_panic H.
Qed.

Lemma init_kas_keys_runs K key_path tr :
  (path (init_kas_keys K key_path) tr Panic -> False) /\
  forall kas, path (init_kas_keys K key_path) tr (Done (Ok kas)) ->
    exists k, kas_private_key kas = secret_to_bytes k.
Proof.
  unfold init_kas_keys. split.
  - intros [H|(pem_text & t1 & t2 & -> & _ & H)]%path_hbind_panic; [no_panic H|].
    apply path_hbind_panic in H as [H|(pem & t3 & t4 & -> & _ & H)]; [no_panic H|].
    destruct (negb _); [no_panic H|].
    apply path_hbind_panic in H as [H|(k & t5 & t6 & -> & _ & H)]; [no_panic H|].
    cbv zeta in H. rewrite point_length in H. cbn [negb Nat.eqb] in H. destruct K; no_panic H.
  - intros kas (pem_text & t1 & t2 & -> & _ & H)%path_hbind.
    apply path_hbind in H as (pem & t3 & t4 & -> & _ & H).
    destruct (negb _); [by apply path_pure in H as [_ ?]|].
    apply path_hbind in H as (k & t5 & t6 & -> & _ & H).
    cbv zeta in H. rewrite point_length in H. cbn [negb Nat.eqb] in H.
    destruct K; apply path_pure in H as [_ [= ->]]. by exists k.
Qed.

Lemma rewrap_key_total kas k :
  kas_private_key kas = secret_to_bytes k -> exists pem, rewrap_key kas = Done (k, pem).
Proof.
  intros Hk. unfold rewrap_key, public_key_to_pem. rewrite Hk, secret_length, secret_read_back. cbn.
  destruct (point_der k) as [der ->]. by eexists.
Qed.

(** A call of the SDK that failed. *)
Definition version_failed (path : string) (tr : list (answer main_event)) : Prop :=
  exists status text, status <> 0%Z /\
    tr = [answered (Fps (SetCredentials path)) tt; answered (Fps FpsGetVersion) (status, text)].

Lemma fairplay_new_fails path tr e :
  Services.path (of_prog (@Fps) (fairplay_new true path)) tr (Done (Ok (Err e))) -> version_failed path tr.
Proof.
  intros (t & -> & H)%path_of_prog. unfold fairplay_new, key_server_new, get_sdk_version in H. cbn in H.
  destruct t as [|a t]; [done|]. destruct H as ([] & -> & H).
  destruct t as [|a t]; [done|]. destruct H as ([status text] & -> & H). cbn in H.
  destruct (Z.eqb_spec status 0) as [->|Hs]; cbn in H.
  - destruct t as [|a t]; [done|]. destruct H as ([] & -> & H). by destruct t.
  - destruct t; [|done]. by exists status, text.
Qed.

Lemma fairplay_setup_panics fp tr :
  path (fairplay_setup fp) tr Panic ->
  fp = true /\ exists p tr0 t1 t2, tr = tr0 ++ t1 ++ t2 /\ version_failed p t1 /\ version_failed "." t2.
Proof.
  unfold fairplay_setup. destruct fp; cbn [negb]; [|by intros [_ ?]%path_ret].
  intros (p & t0 & t & -> & _ & H)%panic_past; [|auto with start].
  apply panic_past in H as (r & t1 & t2 & -> & H1 & H); [|auto with start].
  destruct r as [h|e]; [by apply path_ret in H as [_ ?]|].
  apply panic_past in H as (r & t3 & t4 & -> & H3 & H); [|auto with start].
  destruct r as [h|e']; [by apply path_ret in H as [_ ?]|].
  apply path_ret in H as [-> _]. split; [done|]. exists p, t0, t1, t3. rewrite app_nil_r.
  split; [done|]. split; by eapply fairplay_new_fails.
Qed.

Lemma rsa_setup_total : total rsa_setup.
Proof. apply total_sbind; [auto with start|]. intros []; auto with start. Qed.

Lemma proxy_setup_total : total proxy_setup.
Proof.
  repeat (apply total_sbind; [auto with start|intros ?]).
  destruct a2, (needs_upstream _ _); auto with start.
Qed.

Lemma fairplay_certificate_total : total fairplay_certificate_data.
Proof.
  apply total_sbind; [auto with start|]. intros [dir|]; [|auto with start].
  apply total_sbind; [auto with start|]. intros contents.
  destruct (text ← ok contents; _) as [filename|]; [|auto with start]. cbv zeta.
  apply total_sbind; [auto with start|]. intros []; [|auto with start].
  apply total_sbind; [|auto with start]. by intros tr (b & t1 & t2 & -> & _ & [_ ?]%path_ret)%path_bind.
Qed.

Lemma authzen_setup_total : total authzen_setup.
Proof.
  apply total_sbind; [auto with start|]. intros []; [|auto with start].
  apply total_sbind; [auto with start|]. intros []; auto with start.
Qed.

Lemma h3_setup_total http3 s : total (h3_setup http3 s).
Proof.
  unfold h3_setup. destruct (http3 && _); [|auto with start].
  apply total_sbind; [auto with start|]. intros host.
  apply total_sbind; [by intros tr (b & t1 & t2 & -> & _ & [_ ?]%path_ret)%path_bind|].
  intros []; [|auto with start]. destruct (alt_svc_total (port s)) as [v ->]. auto with start.
Qed.

Lemma rtmp_setup_total s key : total (rtmp_setup s key).
Proof. apply total_sbind; [auto with start|]. intros []; auto 6 with start. Qed.

Lemma forwarding_routers_total m a st :
  (needs_upstream m a = true -> is_Some st) -> exists l, forwarding_routers m a st = Done l.
Proof.
  intros H. destruct (app_routes_right {| mode := m; authz_proxy := a; proxy_state := st;
    Routing.facade := false; c2pa := false |}) as (l & Hl & _); [done|].
  unfold app_routes in Hl. cbn in Hl. destruct (forwarding_routers m a st); [by eexists|done].
Qed.

(** The ways in which starting panics. *)
Definition start_panics (f : Features) (tr : list (answer main_event)) : Prop :=
  (exists dir name, answered (Io (Os CurrentDir)) (Ok dir) ∈ tr /\ from_utf8 dir = None /\
     name ∈ PATH_VARIABLES /\ answered (Io (Os (EnvVar name))) None ∈ tr) \/
  (exists e, answered (Io (Os (ReadToString "apple-app-site-association.json"))) (Err e) ∈ tr) \/
  (f_fairplay f = true /\ exists p tr0 t1 t2,
     tr = tr0 ++ t1 ++ t2 /\ version_failed p t1 /\ version_failed "." t2).

End Start.
