(* ===== verification/StartupSample.v ===== *)
(** * A concrete start

    Stand-ins for the crates with a single key, an environment, and the run of [main_setup]
    in it. *)
From S2P Require Import NtdfToken.
From S2P Require Import Prelude RustStr Json Services SimWorld Crypto Chain CryptoSample MediaMetrics.
From S2P Require Import SessionManager MediaApi HttpRewrap WebSocket ServerConfig SecureKeys.
From S2P Require Import HttpHeaders FairPlay H3 C2paSigning PlatformProxy AuthzenFacade AuthzenSample.
From S2P Require Import Routing Startup StartupProps.
From stdpp Require Import list.

#[local] Open Scope string_scope.
#[local] Open Scope nat_scope.
#[local] Open Scope list_scope.
#[local] Open Scope rust_scope.

(** ** The run of a program whose answers are given *)

Fixpoint collect {E A} (h : forall X, E X -> X) (m : prog E A) : list (answer E) * A :=
  match m with
  | Ret a => ([], a)
  | Vis e k => let '(tr, a) := collect h (k (h _ e)) in (answered e (h _ e) :: tr, a)
  end.

Lemma collect_path {E A} (h : forall X, E X -> X) (m : prog E A) :
  path m (collect h m).1 (collect h m).2.
Proof.
  induction m as [a|X e k IH]; [done|]. cbn. specialize (IH (h X e)).
  destruct (collect h (k (h X e))) as [tr a]. by exists (h X e).
Qed.

(** ** Crates *)

#[local] Instance one_key_media : MediaCrates := {|
  base64_decode s := Ok (as_bytes s); base64_encode := of_bytes; utf8_error _ := "";
  pem_parse s := Ok (as_bytes s); pem_encode tag b := tag +:+ of_bytes b;
  MediaApi.PublicKey := unit; from_sec1_bytes _ := Ok tt; from_public_key_der _ := Ok tt;
  to_public_key_der _ := Ok [x05];
  EphemeralSecret := unit; ephemeral_random _ := tt; ephemeral_public _ := tt;
  diffie_hellman _ _ := []; MediaApi.SecretKey := unit; MediaApi.custom_ecdh _ _ := Ok [];
  NanoTdfVersion := unit; V12 := tt; detect_nanotdf_version _ := Some tt;
  compute_nanotdf_salt _ := []; rewrap_dek _ _ _ _ _ _ := Err "";
  RsaPrivateKey := unit; rsa_oaep_sha1_decrypt _ _ := Err "";
  JsonValue := unit; json_from_str _ := Ok tt; json_get _ _ := None; json_index _ _ := None;
  json_as_str _ := None; uuid_v4 := of_bytes |}.

#[local] Instance one_key_ws : WsCrates := {|
  secret_key_from_bytes _ := Ok tt : result MediaApi.SecretKey string;
  token_key_from_bytes _ := Ok tt : result NtdfToken.SecretKey string;
  to_encoded_point _ := replicate 33 x02; hkdf_sha256 _ _ _ := None;
  error_to_vec _ := Err ""; json_error _ _ := ""; root_event _ := Err "";
  root_as_metadata _ := Err ""; bs58_encode := of_bytes;
  JwtKey := unit; jwt_from_rsa_pem _ := Ok tt; jwt_from_ec_pem _ := Ok tt;
  jwt_decode_claims _ _ _ _ := Err ""; jwt_insecure_claims _ := Err "" |}.

#[local] Instance one_key : KeyCrates := {|
  pem_parse_tagged s := Ok ("EC PRIVATE KEY", as_bytes s);
  secret_from_sec1_der _ := Ok tt : result MediaApi.SecretKey string;
  secret_public_key _ := tt : MediaApi.PublicKey; secret_to_bytes _ := replicate 32 x01 |}.

#[local] Instance one_key_secure : SecureKeyCrates := {|
  shared_x _ _ := replicate 32 x00; rsa_from_pkcs8_pem _ := Ok tt : result RsaPrivateKey string;
  rsa_to_public_key_pem _ := Ok "" |}.

#[local] Instance one_key_laws : SecureKeyLaws.
Proof. split; [by intros []|done..]. Qed.

#[local] Instance one_key_points : PointLaws.
Proof. split; [done|]. intros k. by exists [x05]. Qed.

#[local] Instance sample_fps : FpsCrates := {|
  fps_to_string _ := Ok ""; fps_from_str _ := Err ""; fps_b64_encode := of_bytes;
  fps_b64_decode s := Ok (as_bytes s) |}.

#[local] Instance sample_tls : TlsCrates := {|
  Cert := bytes; Key := bytes; certs b := Ok [b]; pkcs8_private_keys b := Ok [b];
  H3.ServerConfig := unit; with_single_cert _ _ := Ok tt |}.

#[local] Instance sample_main : MainCrates := {|
  redis_open _ := Ok tt; proxy_client_build := Ok tt; certificates_from_str _ := None |}.

(** ** The environment *)

Definition sample_env : list (string * string) :=
  [("TLS_CERT_PATH", "/cert"); ("TLS_KEY_PATH", "/key"); ("KAS_KEY_PATH", "/kas");
   ("KAS_PROXY_MODE", "Connect"); ("OPENTDF_PLATFORM_URL", "http://up"); ("AUTHZEN_FACADE", "on")].

Definition sample_outside (files : list (string * string)) : sim CachedEntry :=
  set_outside (sample_node [] 10 20 0) (Outside files sample_env (Ok (as_bytes "/srv")) [] true).

Definition sample_answers (files : list (string * string)) (X : Type) (e : main_event X) : X :=
  match e in main_event X return X with
  | Io e => (sim_handle e (sample_outside files)).1
  | Fps e => match e in FpsEvent X return X with
             | SetCredentials _ | FpsDisposeVersion | FpsDisposeResponse => tt
             | FpsGetVersion | FpsProcess _ => (0%Z, "26")
             end
  | Tls e => match e in TlsEvent X return X with OpenFile _ => Ok [x01] end
  | ReadFileBytes _ => Ok []
  | BindUdp _ _ => Ok tt
  end.

Definition sample_files : list (string * string) :=
  [("/cert", ""); ("/key", ""); ("/kas", "key"); ("apple-app-site-association.json", "{}")].

Definition all_features : Features :=
  {| f_fairplay := true; f_c2pa_signing := true; f_http3 := true |}.

Definition sample_start (files : list (string * string)) :=
  collect (sample_answers files) (main_setup all_features).

Lemma server_started_witness :
  exists s, (sample_start sample_files).2 = Done (Ok s) /\ is_Some (alt_svc s) /\
    right_table (route_config s) (routes s).
Proof.
  pose proof (collect_path (sample_answers sample_files) (main_setup all_features)) as H.
  fold (sample_start sample_files) in H.
  destruct (sample_start sample_files).2 as [[s|e]|] eqn:E; [|vm_compute in E; discriminate..].
  exists s. split; [reflexivity|].
  destruct (server_started all_features (sample_start sample_files).1 s H) as (_ & Ht & _).
  split; [|exact Ht]. vm_compute in E. injection E as <-. eexists. reflexivity.
Defined.

